(* ===== verification/_CoqProject ===== *)
-Q . S2P
Prelude.v
Timestamp.v
Types.v
Net.v
Stats.v
Records.v
ProviderCache.v
Membership.v
Discovery.v
Content.v
MissingBlocks.v
Service.v
Resolution.v
Gossiping.v
Recovery.v
Outcome.v
Json.v
JsonText.v
Toml.v
Stream.v
Lotus.v
Wrappers.v
LotusApi.v
RpcClient.v
Checkpointing.v
Posts.v
BottomUp.v
TopDown.v
Submissions.v
Subsystem.v
SubnetManager.v
Config.v
Server.v
Handlers.v
Requests.v
Cli.v
Agent.v
Wire.v
Daemon.v
E2e.v
Arb.v
CacheTests.v
