(* ===== verification/Prelude.v ===== *)
(** * A verification library for the IPC agent and its IPLD resolver

    The repository holds two Rust programs.  The _resolver_
    ([ipld/resolver/src]) is a peer-to-peer service: agents gossip which subnets
    they provide data for, and resolve CIDs of a subnet from its providers.  The
    _agent_ ([src]) manages subnets on Lotus nodes: it executes the user's
    operations on subnets, and submits the checkpoints between a child subnet
    and its parent.  This library models both as executable functions, step by
    step as the sources are written, and proves what makes them correct.

    ** Conventions

    A [&mut self] method is a function on the component's record; a fallible one
    runs in the state-error monad [stM] (resolver) or [act] (agent).  Errors are
    values ([result], [outcome]); a panic of the agent is the outcome [Panic],
    different from an error.  Integers are [Z] with the overflow behaviour of
    their width written out ([saturating_add_u64], [wrapping_add_i64], range
    checks of the decoders).  A [HashMap] or [HashSet] is a [gmap] or [gset];
    where its iteration order matters the order is an interface ([HashIter]), so
    the theorems hold for every order.  Third-party code (libp2p, tokio, Lotus
    nodes, codecs) is a class whose methods are arguments of the model and whose
    documented behaviour is a separate class of laws; concrete instances
    ([demo_types], [Demo], [DemoNode] and others) show that the laws can hold
    and let runs be evaluated.

    ** Files of the resolver

    - [Prelude]: errors as values, the monad [stM] with its invariant rules,
      machine integers, iteration orders, sorting, strings, the tactics.
    - [Timestamp] ([timestamp.rs]), [Types] (types of other crates), [Net]
      (clocks, addresses and connection events), [Stats] ([stats.rs]).
    - [Records] ([signed_record.rs], [provider_record.rs], [vote_record.rs]):
      signing and checking the gossiped records, and their serialisation: the data
      model of serde, the derived codecs of the record types over it and the
      hand-written one of the validator key; CBOR is an interface.  Records
      survive the wire, and records signed by somebody else are refused.
    - [ProviderCache] ([provider_cache.rs]): who provides what.  For any
      sequence of its calls with room for the subnets the cache refines a
      specification that looks at one peer at a time; invariants, bounds, exact
      deltas and exact pruning.
    - [Membership] ([behaviour/membership.rs], [hash.rs]): publishing and learning
      memberships, votes and pre-emptive data over Gossipsub.  Subscriptions
      always follow the pinned subnets; deltas reported are exact; publishing to
      new joiners is rate-limited and batched; [poll] terminates.
    - [Discovery] ([behaviour/discovery.rs]): Kademlia lookups with back-off,
      static peers, the bootstrap buffer.
    - [Content] ([limiter.rs], [behaviour/content.rs]): Bitswap resolution and
      rate limiting per remote address.
    - [MissingBlocks] ([missing_blocks.rs]): the search for absent blocks is
      exact and terminates on acyclic references.
    - [Service] ([service.rs], [client.rs], [behaviour/mod.rs]): the event loop.
      Every request is answered exactly once or still pending, under any
      interleaving; failed attempts fall back to all remaining providers, unless
      the service is configured to ask 0 peers per query, when they are retried
      for ever.
    - [Resolution]: two services.  A subnet that one starts to provide can be
      resolved by every other that discovers it and receives its message, if it
      asks at least one peer per query, knows no record as late and has room for
      the subnet.
    - [Gossiping]: votes and pre-emptive data from the client of one service to
      the clients of another: votes are delivered exactly where the receiver is
      subscribed to the subnet's votes, data exactly where it has pinned the
      subnet.
    - [Recovery]: a provider that is heard of before it can be reached.  Its
      record is skipped, the service looks the peer up (but for a false positive of
      its Bloom filter), and after discovery reports it the record is taken.
    - [Arb] ([arb.rs] and the [Arbitrary] instances of the record modules): the
      test generators as panicking state transformers.  Whatever they draw,
      the round-trip properties of the records hold.  [CacheTests]: the property
      tests of [provider_cache.rs], proved for every input that the generators
      can produce.

    ** Files of the agent

    - [Outcome]: errors and panics, the monad [act], recorded runs, and the
      weakest precondition [wps] with which the managers are verified: every
      call a run makes is allowed by a guard on the calls made before it,
      whatever the nodes answer.
    - [Json], [Stream] ([jsonrpc/mod.rs]): JSON values, decoders as serde derives
      them, JSON-RPC requests and responses; the websocket subscription forwards
      a prefix of the messages and always closes its channel.  [JsonText]: JSON
      as text, values up to the order of fields, and decoders that respect this.
      [Toml]: a reader for the part of TOML that the configuration template is
      written in, with which the [toml] crate is assumed to agree.
    - [Lotus] ([lotus/message], [lotus/json.rs]): the data exchanged with a Lotus
      node and its decoders; [Wrappers] ([lotus/message/ipc.rs]): the JSON of a
      checkpoint is read as this checkpoint.
    - [LotusApi] ([lotus/mod.rs], [config/subnet.rs]): the trait [LotusClient] as
      a class over an abstract world, and the events recorded in traces.
      [RpcClient] ([lotus/client.rs]): its implementation over JSON-RPC; a pushed
      message arrives at the node as it was given.  [Posts]: the bodies that a
      client posts, related to the recorded calls.
    - [Checkpointing], [BottomUp] ([manager/bottomup.rs]), [TopDown]
      ([manager/topdown.rs]): the two checkpoint managers.  Every push is
      justified by what was read before, and a manager returns exactly when it is
      told to stop.  Every iteration, however it ends, is described completely:
      what it read, what is due by that, and for each configured validator the due
      checkpoint pushed and committed, or a failure and a wait.  Nothing is
      assumed of the configuration; an account that it names twice is handled
      twice ([BottomUpDemo.repeated_account_submits_again]).  [Submissions]: the
      same over the JSON-RPC client, for the bodies that the nodes receive.
    - [Subsystem] ([manager/checkpoint.rs]): the pairs that are managed, and the
      life cycle of the manager tasks under every interleaving: one generation
      at a time, and when a stop notification is lost.
    - [SubnetManager] ([manager/lotus.rs], [manager/subnet.rs]): the operations
      on subnets.  Nothing is pushed on the wrong network, what is pushed is
      what the operation asks for, and every operation but the creation of a
      subnet succeeds once its message is on the chain, whatever its exit code.
    - [Config] ([config]): reading the configuration, and the shared object that
      reloads it and notifies the subscribers: for any sequence of its calls and
      any changes of the files, each reload does all or nothing.
    - [Server] ([server], [serialization]): decoding, routing, every handler and
      the replies; a request pushes only what it asks for.  [Handlers]
      ([server/handlers/mod.rs]): the handlers as boxed objects that share one
      subnet manager pool refine the direct dispatch.  [Requests]: the JSON
      of every request; an accepted request has the integers of its types, and
      the JSON of a request is read back as the request.
    - [Cli] ([cli], [main.rs]): the commands, up to the parsed arguments; the file
      written by [config init] is a configuration that the daemon can use.
    - [Agent]: commands against the server.  A command refines the handler of its
      request: HTTP, JSON, routing and the reply change nothing.  [Wire]: what
      the nodes receive while a command is executed.
    - [Daemon] ([cli/commands/daemon.rs]): the configuration, the requests to the
      server and the checkpointing subsystem as one transition system.  The
      managed subnets follow the configuration.
    - [E2e] ([testing/e2e]): the client of the end-to-end tests, and the life cycle
      of a subnet that they run.  The test through command line, HTTP, server and
      handlers refines the same test on the operations of the subnet manager.

    The interfaces between the parts are classes: the managers are verified
    against [LotusClient], whose instance [LotusJsonRPCClient] is verified in
    [RpcClient]; the commands against [Http], whose instance in [Agent] is the
    server.

    ** Fuel

    Loops over a finite structure are structural.  The [poll] functions of the
    resolver take fuel, and their theorems state that more fuel than there are
    waiting events always gives a result, the same for any such fuel.  [MissingBlocks.search] takes
    fuel and its theorem gives a bound under which it returns.  The loops of the
    checkpoint managers are endless in the sources; their fuel bounds the number
    of iterations looked at, and the theorems hold for every fuel.  [Toml.read_items]
    takes the length of the line as fuel, of which every element uses a character.

    ** Not modelled

    Building the libp2p transport (calls of libp2p only); what prometheus does
    with a registered metric; the parsing of argument strings (derived by clap);
    binding sockets, stopping the server and catching signals ([JsonRPCServer::run]
    composes warp, tokio and tokio-graceful-shutdown); the receivers of the event
    channel of the resolver ([Service::subscribe]); the
    wording of log messages below the info level.  Of the test code, the
    generators, the property tests of the records and of the cache and the
    end-to-end test are modelled; [prop_tamper_proof] is not (it is the
    unforgeability of the signature scheme), nor the test of the limiter, which
    is one of the [gcra] crate, nor the unit tests on literal JSON and TOML
    documents ([tests.rs]), nor the smoke tests of [ipld/resolver/tests], which
    run several services over real sockets: their scenarios are the theorems of
    [Resolution], [Gossiping] and [Recovery]. *)
From stdpp Require Export base tactics list gmap fin_maps fin_sets strings sorting.
From Stdlib Require Export ZArith Lia Ascii.

Declare Scope ipc_scope.
Delimit Scope ipc_scope with ipc.
Global Open Scope ipc_scope.
#[global] Set Default Goal Selector "!".

(** ** Errors as values

    [result E A] is Rust's [Result<A, E>]. *)

Inductive result (E A : Type) : Type :=
  | Ok (a : A)
  | Err (e : E).
Arguments Ok {E A} a.
Arguments Err {E A} e.

#[export] Instance result_ret {E} : MRet (result E) := λ A, Ok.
#[export] Instance result_bind {E} : MBind (result E) := λ A B f m,
  match m with
  | Ok a => f a
  | Err e => Err e
  end.
#[export] Instance result_fmap {E} : FMap (result E) := λ A B f m,
  match m with
  | Ok a => Ok (f a)
  | Err e => Err e
  end.
#[export] Instance result_eq_dec {E A} `{EqDecision E, EqDecision A} :
  EqDecision (result E A).
Proof. solve_decision. Defined.

Definition is_ok {E A} (r : result E A) : bool :=
  match r with Ok _ => true | Err _ => false end.

Definition is_err {E A} (r : result E A) : bool := negb (is_ok r).

(** [Result::map_err]. *)
Definition map_err {E F A} (f : E → F) (r : result E A) : result F A :=
  match r with Ok a => Ok a | Err e => Err (f e) end.

(** [Option::ok_or_else]. *)
Definition ok_or {E A} (e : E) (o : option A) : result E A :=
  match o with Some a => Ok a | None => Err e end.

(** [iter().map(f).collect::<Result<Vec<_>, _>>()]: the first error wins. *)
Fixpoint collect {E A B} (f : A → result E B) (l : list A) : result E (list B) :=
  match l with
  | [] => Ok []
  | x :: l => y ← f x; ys ← collect f l; Ok (y :: ys)
  end.

(** ** State and errors

    A method that takes [&mut self] and returns a [Result] is a state
    transformer that keeps the state it has reached when it returns an error:
    the mutations made before the [?] that fails are not rolled back. *)

Definition stM (S E A : Type) : Type := S → result E A * S.

#[export] Instance stM_ret {S E} : MRet (stM S E) := λ A a s, (Ok a, s).
#[export] Instance stM_bind {S E} : MBind (stM S E) := λ A B f m s,
  match m s with
  | (Ok a, s') => f a s'
  | (Err e, s') => (Err e, s')
  end.

Definition get {S E} : stM S E S := λ s, (Ok s, s).
Definition gets {S E A} (f : S → A) : stM S E A := λ s, (Ok (f s), s).
Definition modify {S E} (f : S → S) : stM S E () := λ s, (Ok (), f s).
Definition throw {S E A} (e : E) : stM S E A := λ s, (Err e, s).
Definition lift_result {S E A} (r : result E A) : stM S E A := λ s, (r, s).

(** [for x in l { f(x)?; }] *)
Fixpoint for_each {S E A} (f : A → stM S E ()) (l : list A) : stM S E () :=
  match l with
  | [] => mret ()
  | x :: l => f x ;; for_each f l
  end.

(** [if c { m }] *)
Definition when {S E} (c : bool) (m : stM S E ()) : stM S E () :=
  if c then m else mret ().

(** The final state and the value of a run, under names that read well. *)
Notation "'state_of' m" := (snd m) (at level 10, only parsing) : ipc_scope.
Notation "'value_of' m" := (fst m) (at level 10, only parsing) : ipc_scope.

(** ** Machine integers

    A [w]-bit unsigned integer is a [Z] in range. *)

Definition u32_max : Z := 2 ^ 32 - 1.
Definition u64_max : Z := 2 ^ 64 - 1.
Definition i64_max : Z := 2 ^ 63 - 1.
Definition i64_min : Z := - 2 ^ 63.

Definition in_u64 (z : Z) : Prop := (0 ≤ z ≤ u64_max)%Z.
Definition in_i64 (z : Z) : Prop := (i64_min ≤ z ≤ i64_max)%Z.

(** [u64::saturating_add] and [u64::saturating_sub]. *)
Definition saturating_add_u64 (a b : Z) : Z := Z.min u64_max (a + b).
Definition saturating_sub_u64 (a b : Z) : Z := Z.max 0 (a - b).

(** [usize.try_into().unwrap_or(u32::MAX)]. *)
Definition to_u32_or_max (n : Z) : Z := if (n <=? u32_max)%Z then n else u32_max.

(** [i64] addition of a release build: two's complement wrap-around. *)
Definition wrapping_add_i64 (a b : Z) : Z :=
  ((a + b - i64_min) mod 2 ^ 64 + i64_min)%Z.

Lemma wrapping_add_i64_exact a b :
  in_i64 (a + b) → wrapping_add_i64 a b = (a + b)%Z.
Proof.
  unfold in_i64, wrapping_add_i64, i64_min, i64_max. intros ?.
  rewrite Z.mod_small; lia.
Qed.

(** ** Iteration over hash containers

    [HashMap] and [HashSet] iterate in an order that depends on the hasher's
    seed and on the history of the container.  The model keeps maps as [gmap]
    and takes the order as an interface: any list of the entries, each once. *)

Class HashIter (K : Type) `{Countable K} := {
  map_iter : ∀ {V : Type}, gmap K V → list (K * V);
  map_iter_perm : ∀ (V : Type) (m : gmap K V), map_iter m ≡ₚ map_to_list m;
  set_iter : gset K → list K;
  set_iter_perm : ∀ s : gset K, set_iter s ≡ₚ elements s;
}.

(** The order of the finite-map library is one such order. *)
Definition canonical_iter (K : Type) `{Countable K} : HashIter K := {|
  map_iter := λ V m, map_to_list m;
  map_iter_perm := λ V m, Permutation_refl _;
  set_iter := λ s, elements s;
  set_iter_perm := λ s, Permutation_refl _;
|}.

(** Another one, the reverse order: the interface does not fix the order. *)
Definition reversed_iter (K : Type) `{Countable K} : HashIter K := {|
  map_iter := λ V m, reverse (map_to_list m);
  map_iter_perm := λ V m, reverse_Permutation _;
  set_iter := λ s, reverse (elements s);
  set_iter_perm := λ s, reverse_Permutation _;
|}.

Section hash_iter.
Context `{Countable K} `{!HashIter K}.

Lemma elem_of_map_iter {V} (m : gmap K V) k v :
  (k, v) ∈ map_iter m ↔ m !! k = Some v.
Proof. by rewrite map_iter_perm, elem_of_map_to_list. Qed.

Lemma NoDup_map_iter_fst {V} (m : gmap K V) : NoDup (map_iter m).*1.
Proof. rewrite map_iter_perm. apply NoDup_fst_map_to_list. Qed.

Lemma length_map_iter {V} (m : gmap K V) : length (map_iter m) = size m.
Proof. by rewrite map_iter_perm, length_map_to_list. Qed.

Lemma elem_of_set_iter (s : gset K) k : k ∈ set_iter s ↔ k ∈ s.
Proof. by rewrite set_iter_perm, elem_of_elements. Qed.

Lemma NoDup_set_iter (s : gset K) : NoDup (set_iter s).
Proof. rewrite set_iter_perm. apply NoDup_elements. Qed.
End hash_iter.

(** ** [Vec::sort_by_key], a stable sort *)

Section sort_by_key.
Context {A : Type} (key : A → nat).

Fixpoint insert_by_key (x : A) (l : list A) : list A :=
  match l with
  | [] => [x]
  | y :: l' => if (key x <=? key y)%nat then x :: y :: l' else y :: insert_by_key x l'
  end.

Fixpoint sort_by_key (l : list A) : list A :=
  match l with
  | [] => []
  | x :: l => insert_by_key x (sort_by_key l)
  end.

Definition key_le : relation A := λ x y, (key x ≤ key y)%nat.

Lemma insert_by_key_perm x l : insert_by_key x l ≡ₚ x :: l.
Proof.
  induction l as [|y l IH]; simpl; [done|].
  destruct (_ <=? _)%nat; [done|]. rewrite IH. constructor.
Qed.

Lemma sort_by_key_perm l : sort_by_key l ≡ₚ l.
Proof.
  induction l as [|x l IH]; simpl; [done|]. by rewrite insert_by_key_perm, IH.
Qed.

Lemma insert_by_key_sorted x l :
  StronglySorted key_le l → StronglySorted key_le (insert_by_key x l).
Proof.
  induction 1 as [|y l Hl IH Hy]; simpl; [by repeat constructor|].
  destruct (Nat.leb_spec (key x) (key y)).
  - repeat constructor; auto. eapply Forall_impl; [done|].
    unfold key_le. intros z ?. lia.
  - constructor; [done|]. rewrite insert_by_key_perm.
    constructor; [unfold key_le; lia|done].
Qed.

Lemma sort_by_key_sorted l : StronglySorted key_le (sort_by_key l).
Proof. induction l; simpl; [constructor|by apply insert_by_key_sorted]. Qed.
End sort_by_key.

(** ** Invariants of state transformers *)

Definition preserves {S E A} (I : S → Prop) (m : stM S E A) : Prop :=
  ∀ s, I s → I (state_of (m s)).

Create HintDb ipc.

Section preserves.
Context {S E : Type} (I : S → Prop).

Lemma preserves_ret {A} (a : A) : preserves (E:=E) I (mret a).
Proof. by intros s Hs. Qed.

Lemma preserves_throw {A} (e : E) : preserves (A:=A) I (throw e).
Proof. by intros s Hs. Qed.

Lemma preserves_gets {A} (f : S → A) : preserves (E:=E) I (gets f).
Proof. by intros s Hs. Qed.

Lemma preserves_lift {A} (r : result E A) : preserves I (lift_result r).
Proof. by intros s Hs. Qed.

Lemma preserves_modify (f : S → S) :
  (∀ s, I s → I (f s)) → preserves (E:=E) I (modify f).
Proof. intros Hf s Hs. by apply Hf. Qed.

Lemma preserves_bind {A B} (m : stM S E A) (f : A → stM S E B) :
  preserves I m → (∀ a, preserves I (f a)) → preserves I (m ≫= f).
Proof.
  intros Hm Hf s Hs. unfold mbind, stM_bind.
  specialize (Hm s Hs). destruct (m s) as [[a|e] s'] eqn:?; simpl in *; [|done].
  by apply Hf.
Qed.

Lemma preserves_for_each {A} (f : A → stM S E ()) l :
  (∀ x, x ∈ l → preserves I (f x)) → preserves I (for_each f l).
Proof.
  induction l as [|x l IH]; intros Hf; simpl; [apply preserves_ret|].
  apply preserves_bind; [apply Hf; set_solver|].
  intros _. apply IH. intros y ?. apply Hf. set_solver.
Qed.

Lemma preserves_when c (m : stM S E ()) : preserves I m → preserves I (when c m).
Proof. destruct c; [done|intros _; apply preserves_ret]. Qed.
End preserves.
#[export] Hint Resolve preserves_ret preserves_throw preserves_gets preserves_lift
  preserves_bind preserves_for_each preserves_when : ipc.

(** ** Tactics *)

(** Case analysis on the conditionals and pairs of the code, with its
    decidable tests turned into propositions. *)
Ltac ipc_cases :=
  repeat match goal with
  | |- context [decide ?P] => destruct (decide P)
  | H : context [decide ?P] |- _ => destruct (decide P)
  | |- context [bool_decide ?P] => destruct (bool_decide_reflect P)
  | H : context [bool_decide ?P] |- _ => destruct (bool_decide_reflect P)
  | |- context [(?a <? ?b)%Z] => destruct (Z.ltb_spec a b)
  | H : context [(?a <? ?b)%Z] |- _ => destruct (Z.ltb_spec a b)
  | |- context [(?a <=? ?b)%Z] => destruct (Z.leb_spec a b)
  | H : context [(?a <=? ?b)%Z] |- _ => destruct (Z.leb_spec a b)
  end.

Ltac ipc_simp := repeat (progress (simplify_eq/=; try done)).

(** ** Lists *)

Lemma elem_of_snoc {A} (x y : A) l : x ∈ l ++ [y] ↔ x ∈ l ∨ x = y.
Proof. rewrite elem_of_app, list_elem_of_singleton. done. Qed.

Lemma NoDup_snoc {A} (x : A) l : x ∉ l → NoDup l → NoDup (l ++ [x]).
Proof.
  intros ??. apply NoDup_app. split_and!; [done| |apply NoDup_singleton].
  intros y ??%list_elem_of_singleton. by subst.
Qed.

Lemma NoDup_fst_filter {A B} (P : A * B → Prop) `{∀ x, Decision (P x)} (l : list (A * B)) :
  NoDup l.*1 → NoDup (filter P l).*1.
Proof.
  induction l as [|e l IH]; [done|]. rewrite filter_cons, fmap_cons.
  intros [Ha Hl]%NoDup_cons. destruct (decide _); [|by apply IH].
  rewrite fmap_cons. apply NoDup_cons. split; [|by apply IH].
  intros [e' [Heq [_ He]%list_elem_of_filter]]%list_elem_of_fmap.
  apply Ha. rewrite Heq. by apply list_elem_of_fmap_2.
Qed.

Lemma run_ok {S E} (p : result E () * S) : is_ok p.1 = true → p = (Ok (), p.2).
Proof. by destruct p as [[[]|] s]. Qed.

(** ** Strings *)

Fixpoint has_char (c : ascii) (s : string) : bool :=
  match s with
  | EmptyString => false
  | String d s => bool_decide (d = c) || has_char c s
  end.

Lemma app_slash_inj a a' s s' :
  has_char "/" a = false → has_char "/" a' = false →
  a +:+ String "/" s = a' +:+ String "/" s' → a = a' ∧ s = s'.
Proof.
  revert a'. induction a as [|c a IH]; intros [|d a']; simpl.
  - by intros _ _ [= ->].
  - rewrite orb_false_iff, bool_decide_eq_false. intros _ [Hd _] [= <- _]. done.
  - rewrite orb_false_iff, bool_decide_eq_false. intros [Hc _] _ [= -> _]. done.
  - rewrite !orb_false_iff. intros [_ Ha] [_ Ha'] [= -> Heq].
    destruct (IH a') as [-> ->]; done.
Qed.

Lemma has_char_app c a b : has_char c (a +:+ b) = has_char c a || has_char c b.
Proof. induction a as [|d a IH]; simpl; [done|]. by rewrite IH, orb_assoc. Qed.
