(* ===== verification/Timestamp.v ===== *)
(** * Timestamps and durations

    [ipld/resolver/src/timestamp.rs]: a Unix timestamp in whole seconds held in
    a [u64], with saturating addition and subtraction of a
    [std::time::Duration].  A duration is kept as its total number of
    nanoseconds; [as_secs] truncates it to whole seconds as the library does. *)
From S2P Require Import Prelude.

Definition nanos_per_sec : Z := 1000000000.

(** [std::time::Duration]. *)
Record Duration := mkDuration { as_nanos : Z }.

Definition duration_from_secs (s : Z) : Duration := mkDuration (s * nanos_per_sec).
Definition as_secs (d : Duration) : Z := (as_nanos d / nanos_per_sec)%Z.
Definition duration_is_zero (d : Duration) : bool := (as_nanos d =? 0)%Z.
Definition duration_max : Z := (u64_max * nanos_per_sec + (nanos_per_sec - 1))%Z.

Definition wf_duration (d : Duration) : Prop := (0 ≤ as_nanos d ≤ duration_max)%Z.

(** [Ord for Duration], used by [cmp::min]. *)
Definition duration_min (a b : Duration) : Duration :=
  if (as_nanos a <=? as_nanos b)%Z then a else b.

(** [Duration * u32]; the library panics on overflow, which is [None]. *)
Definition duration_mul (d : Duration) (n : Z) : option Duration :=
  let r := (as_nanos d * n)%Z in
  if (r <=? duration_max)%Z then Some (mkDuration r) else None.

(** [Timestamp(u64)] with its derived order; [Default] is [0]. *)
Definition Timestamp : Type := Z.
Definition timestamp_default : Timestamp := 0%Z.

Definition timestamp_sub (t : Timestamp) (d : Duration) : Timestamp :=
  saturating_sub_u64 t (as_secs d).

Definition timestamp_add (t : Timestamp) (d : Duration) : Timestamp :=
  saturating_add_u64 t (as_secs d).

Notation "t '-ₜ' d" := (timestamp_sub t d) (at level 50, left associativity) : ipc_scope.
Notation "t '+ₜ' d" := (timestamp_add t d) (at level 50, left associativity) : ipc_scope.

Lemma as_secs_nonneg d : wf_duration d → (0 ≤ as_secs d)%Z.
Proof. intros [? _]. apply Z.div_pos; [done|]. unfold nanos_per_sec. lia. Qed.

Lemma as_secs_in_u64 d : wf_duration d → in_u64 (as_secs d).
Proof.
  intros Hd. split; [by apply as_secs_nonneg|].
  destruct Hd as [_ Hle]. unfold as_secs, duration_max, nanos_per_sec in *.
  apply Z.lt_succ_r, Z.div_lt_upper_bound; lia.
Qed.

Lemma as_secs_from_secs s : as_secs (duration_from_secs s) = s.
Proof. unfold as_secs, duration_from_secs; simpl. apply Z.div_mul. done. Qed.

Lemma timestamp_sub_in_u64 t d :
  in_u64 t → wf_duration d → in_u64 (t -ₜ d) ∧ (t -ₜ d ≤ t)%Z.
Proof.
  intros Ht Hd%as_secs_nonneg. unfold timestamp_sub, saturating_sub_u64, in_u64 in *. lia.
Qed.

Lemma timestamp_add_in_u64 t d :
  in_u64 t → wf_duration d → in_u64 (t +ₜ d) ∧ (t ≤ t +ₜ d)%Z.
Proof.
  intros Ht Hd%as_secs_nonneg. unfold timestamp_add, saturating_add_u64, in_u64 in *. lia.
Qed.

(** [Sub] and [Add] form a Galois connection below the saturation point: a
    record is older than the cutoff [now - age] exactly when adding the age to
    its own timestamp still stays behind [now]. *)
Lemma timestamp_cutoff t now d :
  in_u64 t → in_u64 now → wf_duration d → (t + as_secs d ≤ u64_max)%Z →
  (t < now -ₜ d ↔ t +ₜ d < now)%Z.
Proof.
  intros Ht Hn Hd%as_secs_nonneg.
  unfold timestamp_add, timestamp_sub, saturating_add_u64, saturating_sub_u64, in_u64 in *.
  lia.
Qed.
