(* ===== verification/Types.v ===== *)
(** * Types the resolver takes from its dependencies

    [SubnetID] ([ipc-sdk]), [PeerId] ([libp2p]) and [Cid] ([libipld]) are
    third-party types.  The sources compare them, use them as hash keys, print
    a [SubnetID] and measure the byte form of a [Cid]; nothing else is assumed
    about them.  [demo_types] is the instance on which concrete runs are
    evaluated. *)
From S2P Require Import Prelude.

Class ResolverTypes := {
  SubnetID : Type;
  SubnetID_eq_dec :: EqDecision SubnetID;
  SubnetID_countable :: Countable SubnetID;
  (** [Display for SubnetID]. *)
  subnet_to_string : SubnetID → string;

  PeerId : Type;
  PeerId_eq_dec :: EqDecision PeerId;
  PeerId_countable :: Countable PeerId;

  Cid : Type;
  Cid_eq_dec :: EqDecision Cid;
  Cid_countable :: Countable Cid;
  (** [Cid::to_bytes().len()]. *)
  cid_bytes_len : Cid → Z;
}.

(** The display form of a [SubnetID] identifies it and, being made of actor
    addresses, has no underscore. *)
Class SubnetNames `{ResolverTypes} := {
  subnet_to_string_inj :: Inj (=) (=) subnet_to_string;
  subnet_to_string_plain : ∀ id, has_char "_" (subnet_to_string id) = false;
}.

(** A subnet is the path of actor ids below the root, printed in binary; a peer
    and a CID are numbers. *)
Fixpoint demo_digits (p : positive) : string :=
  match p with
  | xH => "1"
  | xO p => String "0" (demo_digits p)
  | xI p => String "1" (demo_digits p)
  end.

Definition demo_actor (n : N) : string :=
  match n with N0 => "" | Npos p => demo_digits p end.

Fixpoint demo_path (s : list N) : string :=
  match s with
  | [] => ""
  | a :: s => "/t0" +:+ demo_actor a +:+ demo_path s
  end.

Definition demo_subnet_to_string (s : list N) : string := "/root" +:+ demo_path s.

Definition demo_types : ResolverTypes := {|
  SubnetID := list N;
  subnet_to_string := demo_subnet_to_string;
  PeerId := N;
  Cid := N;
  cid_bytes_len := λ _, 36%Z;
|}.

Example demo_subnet_name :
  demo_subnet_to_string [1; 6]%N = "/root/t01/t0011".
Proof. reflexivity. Qed.

Lemma demo_actor_plain c n :
  c ≠ "0"%char → c ≠ "1"%char → has_char c (demo_actor n) = false.
Proof.
  intros H0 H1. destruct n as [|p]; [done|]. simpl.
  induction p as [p IH|p IH|]; simpl; rewrite ?IH, ?orb_false_r;
    apply bool_decide_eq_false_2; congruence.
Qed.

(** What follows an actor is empty or starts with a slash. *)
Lemma demo_path_head s : demo_path s = "" ∨ ∃ r, demo_path s = String "/" r.
Proof. destruct s; simpl; eauto. Qed.

Lemma demo_digits_split p q r r' :
  (r = "" ∨ ∃ s, r = String "/" s) → (r' = "" ∨ ∃ s, r' = String "/" s) →
  demo_digits p +:+ r = demo_digits q +:+ r' → p = q ∧ r = r'.
Proof.
  intros Hr Hr'. revert q. induction p as [p IH|p IH|]; intros [q|q|]; simpl; intros [= Heq];
    first [apply IH in Heq as [-> ->]; done | idtac].
  - exfalso. destruct Hr' as [->|[s ->]]; by destruct p.
  - exfalso. destruct Hr as [->|[s ->]]; by destruct q.
  - by subst.
Qed.

Lemma demo_actor_split n m r r' :
  (r = "" ∨ ∃ s, r = String "/" s) → (r' = "" ∨ ∃ s, r' = String "/" s) →
  demo_actor n +:+ r = demo_actor m +:+ r' → n = m ∧ r = r'.
Proof.
  intros Hr Hr'. destruct n as [|p], m as [|q]; simpl; intros Heq.
  - by subst.
  - exfalso. destruct Hr as [->|[s ->]]; by destruct q.
  - exfalso. destruct Hr' as [->|[s ->]]; by destruct p.
  - by apply demo_digits_split in Heq as [-> ->].
Qed.

Lemma demo_path_inj s s' : demo_path s = demo_path s' → s = s'.
Proof.
  revert s'. induction s as [|a s IH]; intros [|a' s']; simpl; try done.
  intros [= Heq]. apply demo_actor_split in Heq as [-> ?]; [|apply demo_path_head..].
  f_equal. by apply IH.
Qed.

#[export] Instance demo_subnet_names : @SubnetNames demo_types.
Proof.
  split.
  - intros s s'. cbn. intros [= ?]. by apply demo_path_inj.
  - intros s. change (has_char "_" (demo_path s) = false).
    induction s as [|a s IH]; [done|].
    change (has_char "_" (demo_actor a +:+ demo_path s) = false).
    rewrite has_char_app, demo_actor_plain by done. exact IH.
Qed.

Definition demo_peer (n : N) : @PeerId demo_types := n.
Definition demo_subnet (s : list N) : @SubnetID demo_types := s.
Definition demo_cid (n : N) : @Cid demo_types := n.
