(* ===== verification/Net.v ===== *)
(** * Clocks, addresses and the swarm

    The parts of [tokio] and [libp2p] that several behaviours of the resolver
    use: intervals, multiaddresses, and the connection events that the swarm
    hands to every behaviour.  They are third-party code, so each is an
    interface with the laws its documentation gives; [conn_step] states which
    sequences of connection events a swarm can produce. *)
From S2P Require Import Prelude Timestamp Types.

(** ** Time *)

(** [tokio::time::Instant], in nanoseconds. *)
Definition Instant : Type := Z.
Definition instant_add (i : Instant) (d : Duration) : Instant := (i + as_nanos d)%Z.

(** The readings of the wall clock and of the monotonic clock. *)
Record Now := mkNow { wall : Timestamp; mono : Instant }.

Class Timer := {
  Interval : Type;
  (** [interval_at start period], [interval period], [period], [reset],
      [poll_tick]: whether a tick is due, and the interval afterwards. *)
  interval_at : Instant → Duration → Interval;
  interval : Instant → Duration → Interval;
  period : Interval → Duration;
  interval_reset : Instant → Interval → Interval;
  poll_tick : Instant → Interval → bool * Interval;
  (** When the next tick is due. *)
  next_tick : Interval → Instant;
}.

Class TimerLaws `{Timer} := {
  period_interval_at : ∀ s p, period (interval_at s p) = p;
  period_interval : ∀ s p, period (interval s p) = p;
  period_reset : ∀ now i, period (interval_reset now i) = period i;
  period_poll : ∀ now i, period (poll_tick now i).2 = period i;
  next_tick_at : ∀ s p, next_tick (interval_at s p) = s;
  next_tick_reset : ∀ now i, next_tick (interval_reset now i) = instant_add now (period i);
  poll_tick_ready : ∀ now i, (poll_tick now i).1 = true ↔ (next_tick i ≤ now)%Z;
}.

(** An interval that is its period and its next tick. *)
Definition demo_timer : Timer :=
  @Build_Timer (Duration * Instant)
  (λ s p, (p, s)) (λ now p, (p, now)) fst
  (λ now i, (i.1, instant_add now i.1))
  (λ now i, if (i.2 <=? now)%Z then (true, (i.1, instant_add i.2 i.1)) else (false, i))
  snd.

#[export] Instance demo_timer_laws : @TimerLaws demo_timer.
Proof.
  split; simpl; try done.
  - intros now i. by destruct (_ <=? _)%Z.
  - intros now i. destruct (Z.leb_spec i.2 now); simpl; split; try done; lia.
Qed.

Definition demo_now (s : Z) : Now := mkNow s (s * nanos_per_sec)%Z.

(** ** Addresses *)

(** The components of a [Multiaddr] that the sources tell apart. *)
Inductive Protocol (Multihash Other : Type) :=
  | Ip4 (a : Z)
  | Ip6 (a : Z)
  | Tcp (port : Z)
  | Udp (port : Z)
  | P2p (mh : Multihash)
  | OtherProtocol (o : Other).
Arguments Ip4 {_ _} a.
Arguments Ip6 {_ _} a.
Arguments Tcp {_ _} port.
Arguments Udp {_ _} port.
Arguments P2p {_ _} mh.
Arguments OtherProtocol {_ _} o.

Class Multiaddrs `{ResolverTypes} := {
  Multihash : Type;
  OtherProto : Type;
  Multiaddr : Type;
  Multiaddr_eq_dec :: EqDecision Multiaddr;
  Multiaddr_countable :: Countable Multiaddr;
  (** [Multiaddr::pop] removes the last component, [from_iter] builds an
      address from its components. *)
  multiaddr_pop : Multiaddr → option (Protocol Multihash OtherProto * Multiaddr);
  multiaddr_from_iter : list (Protocol Multihash OtherProto) → Multiaddr;
  (** [PeerId::from_multihash]. *)
  peer_id_from_multihash : Multihash → option PeerId;
  (** The components, first one first. *)
  components : Multiaddr → list (Protocol Multihash OtherProto);
}.
Notation Proto := (Protocol Multihash OtherProto).

Class MultiaddrLaws `{Multiaddrs} := {
  components_inj :: Inj (=) (=) components;
  components_from_iter : ∀ l, components (multiaddr_from_iter l) = l;
  pop_none : ∀ a, multiaddr_pop a = None → components a = [];
  pop_some : ∀ a p a', multiaddr_pop a = Some (p, a') → components a = components a' ++ [p];
}.

(** Addresses as the lists of their components; a multihash is a peer id when
    it is not zero. *)
#[export] Instance Protocol_eq_dec {M O} `{EqDecision M, EqDecision O} :
  EqDecision (Protocol M O).
Proof. solve_decision. Defined.

#[export] Instance Protocol_countable {M O} `{Countable M, Countable O} :
  Countable (Protocol M O).
Proof.
  refine (inj_countable'
    (λ p, match p with
          | Ip4 a => inl (0%N, a) | Ip6 a => inl (1%N, a)
          | Tcp a => inl (2%N, a) | Udp a => inl (3%N, a)
          | P2p m => inr (inl m) | OtherProtocol o => inr (inr o) end)
    (λ x, match x with
          | inl (0%N, a) => Ip4 a | inl (1%N, a) => Ip6 a
          | inl (2%N, a) => Tcp a | inl (_, a) => Udp a
          | inr (inl m) => P2p m | inr (inr o) => OtherProtocol o end) _).
  by intros [].
Defined.

Definition list_pop {A} (l : list A) : option (A * list A) :=
  match reverse l with
  | [] => None
  | x :: r => Some (x, reverse r)
  end.

Lemma list_pop_none {A} (l : list A) : list_pop l = None → l = [].
Proof.
  unfold list_pop. destruct (reverse l) eqn:Hr; [|done]. intros _.
  by rewrite <-(reverse_involutive l), Hr.
Qed.
Lemma list_pop_some {A} (l : list A) x l' : list_pop l = Some (x, l') → l = l' ++ [x].
Proof.
  unfold list_pop. destruct (reverse l) as [|y r] eqn:Hr; [done|]. intros [= <- <-].
  by rewrite <-(reverse_involutive l), Hr, reverse_cons.
Qed.
Lemma list_pop_snoc {A} (l : list A) x : list_pop (l ++ [x]) = Some (x, l).
Proof. unfold list_pop. by rewrite reverse_snoc, reverse_involutive. Qed.

Definition demo_addrs : @Multiaddrs demo_types :=
  @Build_Multiaddrs demo_types N N (list (Protocol N N)) _ _
  list_pop (λ l, l) (λ mh, if decide (mh = 0%N) then None else Some mh) (λ a, a).

#[export] Instance demo_addrs_laws : @MultiaddrLaws demo_types demo_addrs.
Proof.
  split.
  - by intros ???.
  - done.
  - apply list_pop_none.
  - apply list_pop_some.
Qed.

(** ** The swarm *)

(** [ConnectedPoint]: who opened the connection, with the remote address. *)
Inductive ConnectedPoint `{Multiaddrs} :=
  | Dialer (address : Multiaddr)
  | Listener (send_back_addr : Multiaddr).

(** [FromSwarm]: the events of the swarm the behaviours react to. *)
Inductive FromSwarm `{Multiaddrs} :=
  | ConnectionEstablished (peer_id : PeerId) (endpoint : ConnectedPoint) (other_established : nat)
  | ConnectionClosed (peer_id : PeerId) (remaining_established : nat)
  | OtherSwarmEvent (code : Z).

(** The open connections of each peer.  The swarm reports, with a connection
    that it has opened, how many others to the same peer there are, and with
    one that it has closed how many remain. *)
Definition Connections `{ResolverTypes} : Type := PeerId → nat.

Definition set_connections `{ResolverTypes} (p : PeerId) (n : nat) (c : Connections) : Connections :=
  λ q, if decide (q = p) then n else c q.

Inductive conn_step `{Multiaddrs} : Connections → FromSwarm → Connections → Prop :=
  | conn_established c p ep :
      conn_step c (ConnectionEstablished p ep (c p)) (set_connections p (S (c p)) c)
  | conn_closed c p n :
      c p = S n → conn_step c (ConnectionClosed p n) (set_connections p n c)
  | conn_other c code : conn_step c (OtherSwarmEvent code) c.

Inductive conn_steps `{Multiaddrs} : Connections → list FromSwarm → Connections → Prop :=
  | conn_nil c : conn_steps c [] c
  | conn_snoc c evs c' ev c'' :
      conn_steps c evs c' → conn_step c' ev c'' → conn_steps c (evs ++ [ev]) c''.

Definition no_connections `{ResolverTypes} : Connections := λ _, 0%nat.

(** The set of connected peers, for a finite number of connections. *)
Definition is_connected_set `{ResolverTypes} (s : gset PeerId) (c : Connections) : Prop :=
  ∀ p, p ∈ s ↔ (0 < c p)%nat.

Lemma is_connected_established `{ResolverTypes} s c p :
  is_connected_set s c → is_connected_set ({[p]} ∪ s) (set_connections p (S (c p)) c).
Proof.
  intros Hs q. unfold set_connections. rewrite elem_of_union, elem_of_singleton, (Hs q).
  destruct (decide (q = p)) as [->|]; split; [lia|by left|intros [?|?]; done|by right].
Qed.

Lemma is_connected_closed `{ResolverTypes} s c p n :
  is_connected_set s c → c p = S n →
  is_connected_set (if decide (n = 0%nat) then s ∖ {[p]} else s) (set_connections p n c).
Proof.
  intros Hs Hn q. unfold set_connections. specialize (Hs q).
  destruct (decide (n = 0%nat)) as [->|], (decide (q = p)) as [->|];
    rewrite ?elem_of_difference, ?elem_of_singleton, Hs; split; try tauto; lia.
Qed.
