(* ===== verification/Stats.v ===== *)
(** * Metrics

    [ipld/resolver/src/stats.rs]: the metrics of the resolver, declared by the
    macro [metrics!] together with [register_metrics].  The counters and gauges
    are global; a component that changes them carries a [Stats] in its state.
    [prometheus::Registry] is third-party: an interface whose documented law is
    that a second collector under a registered name is refused. *)
From S2P Require Import Prelude.

Inductive Metric :=
  | PING_RTT | PING_TIMEOUT | PING_FAILURE | PING_SUCCESS
  | IDENTIFY_FAILURE | IDENTIFY_RECEIVED
  | DISCOVERY_BACKGROUND_LOOKUP | DISCOVERY_CONNECTED_PEERS
  | MEMBERSHIP_SKIPPED_PEERS | MEMBERSHIP_ROUTABLE_PEERS | MEMBERSHIP_PROVIDER_PEERS
  | MEMBERSHIP_UNKNOWN_TOPIC | MEMBERSHIP_INVALID_MESSAGE
  | MEMBERSHIP_PUBLISH_SUCCESS | MEMBERSHIP_PUBLISH_FAILURE
  | CONTENT_RESOLVE_RUNNING | CONTENT_RESOLVE_NO_PEERS
  | CONTENT_RESOLVE_SUCCESS | CONTENT_RESOLVE_FAILURE | CONTENT_RESOLVE_FALLBACK
  | CONTENT_RESOLVE_PEERS | CONTENT_CONNECTED_PEERS | CONTENT_RATE_LIMITED.

#[export] Instance Metric_eq_dec : EqDecision Metric.
Proof. solve_decision. Defined.

(** The name given to the collector of each metric. *)
Definition metric_name (m : Metric) : string :=
  match m with
  | PING_RTT => "ping_rtt"
  | PING_TIMEOUT => "ping_timeouts"
  | PING_FAILURE => "ping_failure"
  | PING_SUCCESS => "ping_success"
  | IDENTIFY_FAILURE => "identify_failure"
  | IDENTIFY_RECEIVED => "identify_received"
  | DISCOVERY_BACKGROUND_LOOKUP => "discovery_background_lookup"
  | DISCOVERY_CONNECTED_PEERS => "discovery_connected_peers"
  | MEMBERSHIP_SKIPPED_PEERS => "membership_skipped_peers"
  | MEMBERSHIP_ROUTABLE_PEERS => "membership_routable_peers"
  | MEMBERSHIP_PROVIDER_PEERS => "membership_provider_peers"
  | MEMBERSHIP_UNKNOWN_TOPIC => "membership_unknown_topic"
  | MEMBERSHIP_INVALID_MESSAGE => "membership_invalid_message"
  | MEMBERSHIP_PUBLISH_SUCCESS => "membership_publish_total"
  | MEMBERSHIP_PUBLISH_FAILURE => "membership_publish_failure"
  | CONTENT_RESOLVE_RUNNING => "content_resolve_running"
  | CONTENT_RESOLVE_NO_PEERS => "content_resolve_no_peers"
  | CONTENT_RESOLVE_SUCCESS => "content_resolve_success"
  | CONTENT_RESOLVE_FAILURE => "content_resolve_success"
  | CONTENT_RESOLVE_FALLBACK => "content_resolve_fallback"
  | CONTENT_RESOLVE_PEERS => "content_resolve_peers"
  | CONTENT_CONNECTED_PEERS => "content_connected_peers"
  | CONTENT_RATE_LIMITED => "content_rate_limited"
  end.

(** The order in which the macro registers them. *)
Definition metrics : list Metric :=
  [PING_RTT; PING_TIMEOUT; PING_FAILURE; PING_SUCCESS; IDENTIFY_FAILURE; IDENTIFY_RECEIVED;
   DISCOVERY_BACKGROUND_LOOKUP; DISCOVERY_CONNECTED_PEERS; MEMBERSHIP_SKIPPED_PEERS;
   MEMBERSHIP_ROUTABLE_PEERS; MEMBERSHIP_PROVIDER_PEERS; MEMBERSHIP_UNKNOWN_TOPIC;
   MEMBERSHIP_INVALID_MESSAGE; MEMBERSHIP_PUBLISH_SUCCESS; MEMBERSHIP_PUBLISH_FAILURE;
   CONTENT_RESOLVE_RUNNING; CONTENT_RESOLVE_NO_PEERS; CONTENT_RESOLVE_SUCCESS;
   CONTENT_RESOLVE_FAILURE; CONTENT_RESOLVE_FALLBACK; CONTENT_RESOLVE_PEERS;
   CONTENT_CONNECTED_PEERS; CONTENT_RATE_LIMITED].

(** ** The values of the counters and gauges *)

Definition Stats : Type := Metric → Z.

Definition stats_set (m : Metric) (v : Z) (s : Stats) : Stats :=
  λ m', if decide (m = m') then v else s m'.
Definition stats_inc (m : Metric) (s : Stats) : Stats := stats_set m (s m + 1)%Z s.
Definition stats_dec (m : Metric) (s : Stats) : Stats := stats_set m (s m - 1)%Z s.

Lemma stats_inc_eq m s : stats_inc m s m = (s m + 1)%Z.
Proof. unfold stats_inc, stats_set. by rewrite decide_True. Qed.
Lemma stats_dec_eq m s : stats_dec m s m = (s m - 1)%Z.
Proof. unfold stats_dec, stats_set. by rewrite decide_True. Qed.
Lemma stats_set_ne m m' v s : m ≠ m' → stats_set m v s m' = s m'.
Proof. intros. unfold stats_set. by rewrite decide_False. Qed.

(** ** Registration *)

Class Registry := {
  registry : Type;
  registry_error : Type;
  registered : registry → gset string;
  (** [Registry::register] of a collector with the given name. *)
  register : string → registry → result registry_error () * registry;
}.

Class RegistryLaws `{Registry} := {
  register_ok : ∀ n r r', register n r = (Ok (), r') → registered r' = {[n]} ∪ registered r;
  register_dup : ∀ n r, n ∈ registered r → is_err (register n r).1 = true;
}.

Section register.
Context `{Registry} `{!RegistryLaws}.

(** [register_metrics], for any list of declared names. *)
Definition register_all (names : list string) : stM registry registry_error () :=
  for_each register names.

Definition register_metrics : stM registry registry_error () :=
  register_all (metric_name <$> metrics).

Lemma register_all_ok names r r' :
  register_all names r = (Ok (), r') →
  NoDup names ∧ (∀ n, n ∈ names → n ∉ registered r) ∧
  registered r' = list_to_set names ∪ registered r.
Proof.
  unfold register_all. revert r. induction names as [|n names IH]; intros r; simpl.
  { intros [= <-]. split_and!; [constructor|set_solver|set_solver]. }
  unfold mbind, stM_bind. destruct (register n r) as [[[]|] r1] eqn:Hn; [|done].
  intros (Hnd & Hnew & Hr)%IH. pose proof (register_ok _ _ _ Hn) as H1.
  assert (n ∉ registered r).
  { intros Hin%register_dup. rewrite Hn in Hin. done. }
  split_and!.
  - apply NoDup_cons. split; [|done]. intros Hin%Hnew. set_solver.
  - intros m [->|Hm]%elem_of_cons; [done|]. specialize (Hnew _ Hm). set_solver.
  - rewrite Hr, H1. set_solver.
Qed.

(** On every registry [register_metrics] returns an
    error, because [CONTENT_RESOLVE_FAILURE] is declared under the name of
    [CONTENT_RESOLVE_SUCCESS]. *)
Lemma register_metrics_fails r : is_err (register_metrics r).1 = true.
Proof.
  destruct (register_metrics r) as [[[]|] r'] eqn:Hr; [|done].
  apply register_all_ok in Hr as [Hnd _]. exfalso.
  apply (bool_decide_pack _) in Hnd. by vm_compute in Hnd.
Qed.
End register.

(** A registry that is the set of its names. *)
Definition demo_registry : Registry := {|
  registry := gset string;
  registry_error := string;
  registered r := r;
  register n r :=
    if decide (n ∈ r) then (Err n, r) else (Ok (), {[n]} ∪ r);
|}.

#[export] Instance demo_registry_laws : @RegistryLaws demo_registry.
Proof.
  split; simpl.
  - intros n r r'. case_decide; [done|]. by intros [= <-].
  - intros n r ?. by rewrite decide_True.
Qed.

Lemma register_metrics_fails_witness :
  is_err (@register_metrics demo_registry ∅).1 = true ∧
  (@register_metrics demo_registry ∅).1 = Err "content_resolve_success".
Proof.
  split; [apply (@register_metrics_fails demo_registry _)|by vm_compute].
Defined.
