(* ===== verification/Records.v ===== *)
(** * Signed records

    [ipld/resolver/src/signed_record.rs], [provider_record.rs] and
    [vote_record.rs]: the two kinds of record the agents gossip and the
    envelope that proves who published them.

    The signed envelope and the keys are [libp2p]'s, the CBOR codec is
    [fvm_ipld_encoding]'s; both are interfaces here, with the laws they are
    documented to obey.  What the resolver does between the two is written out:
    the derived serialisation of the records into the data model of [serde] and
    the hand-written one of [ValidatorKey].  The other files use a record's codec
    through [Serde] and [SerdeLaws], which [serde_of_fields] and its laws
    discharge.  [demo_envelope] and [demo_cbor] are instances on which concrete
    records are signed, sent and checked. *)
From S2P Require Import Prelude Timestamp Types.
From Stdlib Require Import Strings.Byte.

Definition bytes : Type := list Byte.byte.

#[export] Instance byte_eq_dec : EqDecision Byte.byte := Byte.byte_eq_dec.
#[export] Program Instance byte_countable : Countable Byte.byte :=
  inj_countable Byte.to_N Byte.of_N _.
Next Obligation. apply Byte.of_to_N. Qed.

(** ** Keys and envelopes *)

(** [signed_envelope::ReadPayloadError]. *)
Inductive ReadPayloadError :=
  | InvalidSignature
  | UnexpectedPayloadType (expected got : string).

#[export] Instance ReadPayloadError_eq_dec : EqDecision ReadPayloadError.
Proof. solve_decision. Defined.

Class Envelope `{ResolverTypes} := {
  Keypair : Type;
  PublicKey : Type;
  PublicKey_eq_dec :: EqDecision PublicKey;
  public : Keypair → PublicKey;
  to_peer_id : PublicKey → PeerId;
  (** [PublicKey::to_protobuf_encoding], [PublicKey::from_protobuf_encoding]. *)
  key_to_protobuf : PublicKey → bytes;
  key_from_protobuf : bytes → option PublicKey;

  SignedEnvelope : Type;
  SignedEnvelope_eq_dec :: EqDecision SignedEnvelope;
  (** [SignedEnvelope::new key domain payload_type payload]; signing can fail. *)
  envelope_new : Keypair → string → string → bytes → option SignedEnvelope;
  (** [payload_and_signing_key domain payload_type]. *)
  payload_and_signing_key :
    SignedEnvelope → string → string → result ReadPayloadError (bytes * PublicKey);
  into_protobuf_encoding : SignedEnvelope → bytes;
  from_protobuf_encoding : bytes → option SignedEnvelope;
}.

Class EnvelopeLaws `{Envelope} := {
  key_protobuf_roundtrip : ∀ k, key_from_protobuf (key_to_protobuf k) = Some k;
  envelope_protobuf_roundtrip : ∀ e,
    from_protobuf_encoding (into_protobuf_encoding e) = Some e;
  (** A fresh envelope gives back its payload and the signer's key to a reader
      who asks for the same domain and payload type, and refuses a reader who
      expects another payload type. *)
  envelope_open : ∀ key dom ty p e,
    envelope_new key dom ty p = Some e →
    payload_and_signing_key e dom ty = Ok (p, public key);
  envelope_other_type : ∀ key dom ty ty' p e,
    envelope_new key dom ty p = Some e → ty ≠ ty' →
    payload_and_signing_key e dom ty' = Err (UnexpectedPayloadType ty' ty);
}.

(** [fvm_ipld_encoding::to_vec] and [from_slice] for a record type. *)
Class Serde (R : Type) := {
  to_vec : R → option bytes;
  from_slice : bytes → option R;
}.

Class SerdeLaws (R : Type) `{Serde R} := {
  serde_roundtrip : ∀ r b, to_vec r = Some b → from_slice b = Some r;
}.

(** ** The data model of [serde]

    The values that the records serialise to.  CBOR has one kind of unsigned
    integer and puts the fields of a map into an order of its own. *)
Inductive sval :=
  | SUInt (n : Z)
  | SStr (s : string)
  | SSeq (l : list sval)
  | SMap (fields : list (string * sval)).

(** A value with its fields put into a given order. *)
Fixpoint canonical_by (order : list (string * sval) → list (string * sval)) (v : sval) : sval :=
  match v with
  | SUInt n => SUInt n
  | SStr s => SStr s
  | SSeq l => SSeq (map (canonical_by order) l)
  | SMap fs => SMap (order (map (λ e, (e.1, canonical_by order e.2)) fs))
  end.

Class Cbor := {
  (** The order in which the codec writes the fields of a map. *)
  field_order : list (string * sval) → list (string * sval);
  cbor_encode : sval → option bytes;
  cbor_decode : bytes → option sval;
}.

(** A value as it comes back from the wire. *)
Notation canonical := (canonical_by field_order).

Class CborLaws `{Cbor} := {
  field_order_perm : ∀ fs, field_order fs ≡ₚ fs;
  cbor_roundtrip : ∀ v b, cbor_encode v = Some b → cbor_decode b = Some (canonical v);
}.

(** [Serialize] and [Deserialize]. *)
Class SerdeVal (A : Type) := {
  serialize : A → option sval;
  deserialize : sval → option A;
}.

Class SerdeValLaws (A : Type) `{SerdeVal A} `{Cbor} := {
  serde_val_roundtrip : ∀ a v, serialize a = Some v → deserialize (canonical v) = Some a;
}.

(** The codec applied to a type of the data model. *)
#[export] Instance serde_of_fields `{Cbor} `{SerdeVal R} : Serde R | 10 := {|
  to_vec r := serialize r ≫= cbor_encode;
  from_slice b := cbor_decode b ≫= deserialize;
|}.

#[export] Instance serde_of_fields_laws `{Cbor, !CborLaws} `{SerdeVal R, !SerdeValLaws R} : SerdeLaws R.
Proof.
  split. cbn. intros r b. destruct (serialize r) as [v|] eqn:Hv; cbn; [|done].
  intros ->%cbor_roundtrip. cbn. by apply serde_val_roundtrip.
Qed.

(** Integers of the given range, strings and vectors. *)
Definition serialize_uint (max n : Z) : option sval :=
  if decide (0 ≤ n ≤ max)%Z then Some (SUInt n) else None.
Definition deserialize_uint (max : Z) (v : sval) : option Z :=
  match v with
  | SUInt n => if decide (0 ≤ n ≤ max)%Z then Some n else None
  | _ => None
  end.

#[export] Instance Timestamp_serde : SerdeVal Timestamp := {|
  serialize := serialize_uint u64_max;
  deserialize := deserialize_uint u64_max;
|}.

#[export] Instance string_serde : SerdeVal string := {|
  serialize s := Some (SStr s);
  deserialize v := match v with SStr s => Some s | _ => None end;
|}.

#[export] Instance vec_serde `{SerdeVal A} : SerdeVal (list A) := {|
  serialize l := SSeq <$> mapM serialize l;
  deserialize v := match v with SSeq l => mapM deserialize l | _ => None end;
|}.

#[export] Instance byte_serde : SerdeVal Byte.byte := {|
  serialize c := Some (SUInt (Z.of_N (Byte.to_N c)));
  deserialize v := n ← deserialize_uint 255 v; Byte.of_N (Z.to_N n);
|}.

(** Derived structs: the fields are found by name, each must occur exactly once
    and unknown ones are ignored. *)
Definition struct_field (name : string) (fs : list (string * sval)) : option sval :=
  match filter (λ e, e.1 = name) fs with [(_, v)] => Some v | _ => None end.

Definition de_field `{SerdeVal A} (name : string) (v : sval) : option A :=
  match v with SMap fs => struct_field name fs ≫= deserialize | _ => None end.

Section serde_laws.
Context `{Cbor, !CborLaws}.

#[export] Instance Timestamp_serde_laws : SerdeValLaws Timestamp.
Proof.
  split. intros a v. cbn. unfold serialize_uint, deserialize_uint. case_decide; [|done].
  intros [= <-]. cbn. by rewrite decide_True.
Qed.

#[export] Instance string_serde_laws : SerdeValLaws string.
Proof. split. by intros a v [= <-]. Qed.

#[export] Instance byte_serde_laws : SerdeValLaws Byte.byte.
Proof.
  split. intros c v [= <-]. cbn. assert (0 ≤ Z.of_N (Byte.to_N c) ≤ 255)%Z.
  { pose proof (Byte.to_N_bounded c). lia. }
  rewrite decide_True by done. cbn. by rewrite N2Z.id, Byte.of_to_N.
Qed.

#[export] Instance vec_serde_laws `{SerdeVal A, !SerdeValLaws A} : SerdeValLaws (list A).
Proof.
  split. intros l v. cbn. destruct (mapM serialize l) as [vs|] eqn:Hvs; cbn; [|done].
  intros [= <-]. cbn. apply mapM_Some in Hvs. apply mapM_Some.
  induction Hvs; cbn; constructor; [by apply serde_val_roundtrip|done].
Qed.

(** Fields survive the order that the codec gives them. *)
Lemma struct_field_canonical name fs v :
  struct_field name fs = Some v →
  struct_field name (field_order (map (λ e, (e.1, canonical e.2)) fs)) = Some (canonical v).
Proof.
  unfold struct_field. intros Hf.
  destruct (filter _ fs) as [|[k w] [|]] eqn:Hfilter; [done| |done]. simplify_eq.
  assert (filter (λ e, e.1 = name) (map (λ e, (e.1, canonical e.2)) fs) = [(k, canonical v)]) as Hmap.
  { change [(k, canonical v)] with (map (λ e, (e.1, canonical e.2)) [(k, v)]). rewrite <-Hfilter. clear.
    induction fs as [|[k v] fs IH]; [done|]. cbn [map fst snd]. rewrite !filter_cons. cbn [fst].
    case_decide; cbn [map fst snd]; by rewrite IH. }
  assert (filter (λ e, e.1 = name) (field_order (map (λ e, (e.1, canonical e.2)) fs)) = [(k, canonical v)]) as ->;
    [|done].
  apply Permutation_singleton_r. rewrite <-Hmap. apply filter_Permutation, field_order_perm.
Qed.

Lemma de_field_canonical `{SerdeVal A, !SerdeValLaws A} name fs v (a : A) :
  struct_field name fs = Some v → serialize a = Some v → de_field name (canonical (SMap fs)) = Some a.
Proof.
  intros Hf Ha. cbn. rewrite (struct_field_canonical _ _ _ Hf). cbn. by apply serde_val_roundtrip.
Qed.
End serde_laws.

(** ** [trait Record] *)

Class Record_ `{Envelope} (R : Type) := {
  payload_type : string;
  check_signing_key : R → PublicKey → bool;
}.
Arguments payload_type {_ _} R {_}.

Definition DOMAIN_SEP : string := "/ipc/ipld/resolver".

(** [SignedRecord<R>]. *)
Record SignedRecord `{Envelope} {R : Type} := mkSignedRecord {
  record : R;
  envelope : SignedEnvelope;
}.
Arguments SignedRecord {_ _} R.
Arguments mkSignedRecord {_ _ _} _ _.

Inductive FromEnvelopeError :=
  | BadPayload (e : ReadPayloadError)
  | InvalidRecord
  | MismatchedSignature.

#[export] Instance FromEnvelopeError_eq_dec : EqDecision FromEnvelopeError.
Proof. solve_decision. Defined.

(** The [anyhow::Error]s of the module. *)
Inductive RecordError :=
  | EncodingFailed
  | SigningFailed
  | EnvelopeDecodingFailed
  | FromEnvelope (e : FromEnvelopeError).

#[export] Instance RecordError_eq_dec : EqDecision RecordError.
Proof. solve_decision. Defined.

Section signed_record.
Context `{Envelope} {R : Type} `{!Serde R, !Record_ R}.

(** [SignedRecord::new]. *)
Definition signed_record_new (key : Keypair) (r : R) : result RecordError (SignedRecord R) :=
  payload ← ok_or EncodingFailed (to_vec r);
  envelope ← ok_or SigningFailed (envelope_new key DOMAIN_SEP (payload_type R) payload);
  Ok (mkSignedRecord r envelope).

Definition from_signed_envelope (e : SignedEnvelope) : result FromEnvelopeError (SignedRecord R) :=
  '(payload, signing_key) ←
    map_err BadPayload (payload_and_signing_key e DOMAIN_SEP (payload_type R));
  r ← ok_or InvalidRecord (from_slice payload);
  if negb (check_signing_key r signing_key) then Err MismatchedSignature
  else Ok (mkSignedRecord r e).

Definition from_bytes (b : bytes) : result RecordError (SignedRecord R) :=
  e ← ok_or EnvelopeDecodingFailed (from_protobuf_encoding b);
  map_err FromEnvelope (from_signed_envelope e).

Definition into_record (sr : SignedRecord R) : R := record sr.
Definition into_envelope (sr : SignedRecord R) : SignedEnvelope := envelope sr.

(** What travels on the wire. *)
Definition wire (sr : SignedRecord R) : bytes := into_protobuf_encoding (into_envelope sr).

(** Whoever signs, the receiver gets the record back when the key is the
    record's own, and the signature mismatch otherwise. *)
Lemma from_bytes_new `{!EnvelopeLaws, !SerdeLaws R} key r sr :
  signed_record_new key r = Ok sr →
  from_bytes (wire sr) =
    if check_signing_key r (public key) then Ok sr
    else Err (FromEnvelope MismatchedSignature).
Proof.
  unfold signed_record_new, from_bytes, from_signed_envelope, wire, into_envelope.
  unfold mbind, result_bind.
  destruct (to_vec r) as [p|] eqn:Hp; simpl; [|done].
  destruct (envelope_new _ _ _ _) as [e|] eqn:He; simpl; [|done].
  intros [= <-]; simpl. rewrite envelope_protobuf_roundtrip; simpl.
  rewrite (envelope_open _ _ _ _ _ He); simpl.
  rewrite (serde_roundtrip _ _ Hp); simpl.
  by destruct (check_signing_key _ _).
Qed.

(** What a successful [from_bytes] has checked. *)
Lemma from_bytes_checked b sr :
  from_bytes b = Ok sr →
  ∃ payload key,
    from_protobuf_encoding b = Some (envelope sr) ∧
    payload_and_signing_key (envelope sr) DOMAIN_SEP (payload_type R) = Ok (payload, key) ∧
    from_slice payload = Some (record sr) ∧
    check_signing_key (record sr) key = true.
Proof.
  unfold from_bytes, from_signed_envelope, mbind, result_bind.
  destruct (from_protobuf_encoding b) as [e|] eqn:He; simpl; [|done].
  destruct (payload_and_signing_key e _ _) as [[payload key]|] eqn:Hp; simpl; [|done].
  destruct (from_slice payload) as [r|] eqn:Hr; simpl; [|done].
  destruct (check_signing_key r key) eqn:Hc; simpl; [|done].
  intros [= <-]; simpl. by exists payload, key.
Qed.
End signed_record.

(** An envelope made for another record type is refused before its payload is
    looked at. *)
Lemma from_bytes_other_type `{Envelope, !EnvelopeLaws} {R R' : Type}
    `{!Serde R, !Record_ R, !Serde R', !Record_ R'} key (r : R) sr :
  signed_record_new key r = Ok sr → payload_type R ≠ payload_type R' →
  from_bytes (R:=R') (wire sr) =
    Err (FromEnvelope (BadPayload
      (UnexpectedPayloadType (payload_type R') (payload_type R)))).
Proof.
  unfold signed_record_new, from_bytes, from_signed_envelope, wire, into_envelope.
  unfold mbind, result_bind.
  destruct (to_vec r) as [p|] eqn:Hp; simpl; [|done].
  destruct (envelope_new _ _ _ _) as [e|] eqn:He; simpl; [|done].
  intros [= <-] Hne; simpl. rewrite envelope_protobuf_roundtrip; simpl.
  by rewrite (envelope_other_type _ _ _ _ _ _ He Hne).
Qed.

(** ** Provider records *)

(** [provider_record.rs]: the snapshot of the subnets a peer provides. *)
Record ProviderRecord `{ResolverTypes} := mkProviderRecord {
  pr_peer_id : PeerId;
  pr_subnet_ids : list SubnetID;
  pr_timestamp : Timestamp;
}.

Arguments mkProviderRecord {_} _ _ _.

#[export] Instance ProviderRecord_eq_dec `{ResolverTypes} : EqDecision ProviderRecord.
Proof. solve_decision. Defined.

#[export] Instance ProviderRecord_record `{Envelope} : Record_ ProviderRecord := {|
  payload_type := "/ipc/provider-record";
  check_signing_key r key := bool_decide (pr_peer_id r = to_peer_id key);
|}.

Notation SignedProviderRecord := (SignedRecord ProviderRecord).

(** The derived [Serialize] and [Deserialize]. *)
#[export] Instance ProviderRecord_serde `{ResolverTypes} `{!SerdeVal PeerId, !SerdeVal SubnetID} :
    SerdeVal ProviderRecord := {|
  serialize r :=
    p ← serialize (pr_peer_id r); ids ← serialize (pr_subnet_ids r); t ← serialize (pr_timestamp r);
    Some (SMap [("peer_id", p); ("subnet_ids", ids); ("timestamp", t)]);
  deserialize v :=
    p ← de_field "peer_id" v; ids ← de_field "subnet_ids" v; t ← de_field "timestamp" v;
    Some (mkProviderRecord p ids t);
|}.

#[export] Instance ProviderRecord_serde_laws `{ResolverTypes} `{Cbor, !CborLaws}
    `{!SerdeVal PeerId, !SerdeValLaws PeerId, !SerdeVal SubnetID, !SerdeValLaws SubnetID} :
  SerdeValLaws ProviderRecord.
Proof.
  split. intros [p ids t] v. unfold serialize, deserialize, ProviderRecord_serde.
  cbn [pr_peer_id pr_subnet_ids pr_timestamp].
  destruct (serialize p) eqn:Hp; cbn [mbind option_bind]; [|done].
  destruct (serialize ids) eqn:Hids; cbn [mbind option_bind]; [|done].
  destruct (serialize t) eqn:Ht; cbn [mbind option_bind]; [|done]. intros [= <-].
  erewrite (de_field_canonical "peer_id"), (de_field_canonical "subnet_ids"),
    (de_field_canonical "timestamp") by done. done.
Qed.

(** [ProviderRecord::signed], with the clock's reading. *)
Definition provider_record_signed `{Envelope} `{!Serde ProviderRecord}
    (now : Timestamp) (key : Keypair) (subnet_ids : list SubnetID) :
    result RecordError SignedProviderRecord :=
  let peer_id := to_peer_id (public key) in
  signed_record_new key (mkProviderRecord peer_id subnet_ids now).

(** ** Vote records *)

(** [ValidatorKey(PublicKey)] and its hand-written serialisation, to and from
    the byte vector that the codec carries. *)
Record ValidatorKey `{Envelope} := mkValidatorKey { validator_public_key : PublicKey }.
Arguments mkValidatorKey {_ _} _.

Definition validator_key_serialize `{Envelope} (k : ValidatorKey) : bytes :=
  key_to_protobuf (validator_public_key k).

Definition validator_key_deserialize `{Envelope} (bz : bytes) : result string ValidatorKey :=
  match key_from_protobuf bz with
  | Some pk => Ok (mkValidatorKey pk)
  | None => Err "error decoding PublicKey"
  end.

#[export] Instance ValidatorKey_serde `{Envelope} : SerdeVal ValidatorKey := {|
  serialize k := serialize (validator_key_serialize k);
  deserialize v :=
    bz ← deserialize v;
    match validator_key_deserialize bz with Ok k => Some k | Err _ => None end;
|}.

Record VoteRecord `{Envelope} := mkVoteRecord {
  vr_public_key : ValidatorKey;
  vr_subnet_id : SubnetID;
  vr_cid : Cid;
  vr_claim : string;
  vr_timestamp : Timestamp;
}.
Arguments mkVoteRecord {_ _} _ _ _ _ _.

#[export] Instance ValidatorKey_eq_dec `{Envelope} : EqDecision ValidatorKey.
Proof. solve_decision. Defined.
#[export] Instance VoteRecord_eq_dec `{Envelope} : EqDecision VoteRecord.
Proof. solve_decision. Defined.

#[export] Instance VoteRecord_record `{Envelope} : Record_ VoteRecord := {|
  payload_type := "/ipc/vote-record";
  check_signing_key r key := bool_decide (validator_public_key (vr_public_key r) = key);
|}.

Notation SignedVoteRecord := (SignedRecord VoteRecord).

(** The derived [Serialize] and [Deserialize]. *)
#[export] Instance VoteRecord_serde `{Envelope} `{!SerdeVal SubnetID, !SerdeVal Cid} : SerdeVal VoteRecord := {|
  serialize r :=
    k ← serialize (vr_public_key r); id ← serialize (vr_subnet_id r); c ← serialize (vr_cid r);
    cl ← serialize (vr_claim r); t ← serialize (vr_timestamp r);
    Some (SMap [("public_key", k); ("subnet_id", id); ("cid", c); ("claim", cl); ("timestamp", t)]);
  deserialize v :=
    k ← de_field "public_key" v; id ← de_field "subnet_id" v; c ← de_field "cid" v;
    cl ← de_field "claim" v; t ← de_field "timestamp" v;
    Some (mkVoteRecord k id c cl t);
|}.

(** [VoteRecord::signed]. *)
Definition vote_record_signed `{Envelope} `{!Serde VoteRecord}
    (now : Timestamp) (key : Keypair) (subnet_id : SubnetID) (cid : Cid) (claim : string) :
    result RecordError SignedVoteRecord :=
  signed_record_new key (mkVoteRecord (mkValidatorKey (public key)) subnet_id cid claim now).

Lemma validator_key_roundtrip `{Envelope} `{!EnvelopeLaws} k :
  validator_key_deserialize (validator_key_serialize k) = Ok k.
Proof.
  unfold validator_key_deserialize, validator_key_serialize.
  rewrite key_protobuf_roundtrip. by destruct k.
Qed.

#[export] Instance ValidatorKey_serde_laws `{Envelope} `{!EnvelopeLaws} `{Cbor, !CborLaws} :
  SerdeValLaws ValidatorKey.
Proof.
  split. intros k v Hv. unfold deserialize, ValidatorKey_serde.
  rewrite (serde_val_roundtrip (validator_key_serialize k) v Hv). cbn [mbind option_bind].
  by rewrite validator_key_roundtrip.
Qed.

#[export] Instance VoteRecord_serde_laws `{Envelope} `{!EnvelopeLaws} `{Cbor, !CborLaws}
    `{!SerdeVal SubnetID, !SerdeValLaws SubnetID, !SerdeVal Cid, !SerdeValLaws Cid} :
  SerdeValLaws VoteRecord.
Proof.
  split. intros [k id c cl t] v. unfold serialize at 1, deserialize, VoteRecord_serde.
  cbn [vr_public_key vr_subnet_id vr_cid vr_claim vr_timestamp].
  destruct (serialize k) eqn:Hk; cbn [mbind option_bind]; [|done].
  destruct (serialize id) eqn:Hid; cbn [mbind option_bind]; [|done].
  destruct (serialize c) eqn:Hc; cbn [mbind option_bind]; [|done].
  destruct (serialize cl) eqn:Hcl; cbn [mbind option_bind]; [|done].
  destruct (serialize t) eqn:Ht; cbn [mbind option_bind]; [|done]. intros [= <-].
  erewrite (de_field_canonical "public_key"), (de_field_canonical "subnet_id"), (de_field_canonical "cid"),
    (de_field_canonical "claim"), (de_field_canonical "timestamp") by done. done.
Qed.

Section records.
Context `{Envelope} `{!EnvelopeLaws} `{!Serde ProviderRecord, !SerdeLaws ProviderRecord}
  `{!Serde VoteRecord, !SerdeLaws VoteRecord}.

Lemma provider_record_roundtrip now key subnet_ids sr :
  provider_record_signed now key subnet_ids = Ok sr → from_bytes (wire sr) = Ok sr.
Proof.
  intros Hs. rewrite (from_bytes_new _ _ _ Hs); simpl.
  by rewrite bool_decide_eq_true_2.
Qed.

Lemma vote_record_roundtrip now key subnet_id cid claim sr :
  vote_record_signed now key subnet_id cid claim = Ok sr → from_bytes (wire sr) = Ok sr.
Proof.
  intros Hs. rewrite (from_bytes_new _ _ _ Hs); simpl.
  by rewrite bool_decide_eq_true_2.
Qed.

(** C33 (no impersonation, no type confusion): a provider record naming a peer id
    that is not the signing key's, and a vote naming another validator's key,
    are refused with a signature mismatch; a genuine vote is never accepted as a
    provider record nor a provider record as a vote. *)
Theorem foreign_records_refused key (r : ProviderRecord) (v : VoteRecord) sr sv :
  signed_record_new key r = Ok sr →
  signed_record_new key v = Ok sv →
  (pr_peer_id r ≠ to_peer_id (public key) →
    from_bytes (R:=ProviderRecord) (wire sr) = Err (FromEnvelope MismatchedSignature)) ∧
  (validator_public_key (vr_public_key v) ≠ public key →
    from_bytes (R:=VoteRecord) (wire sv) = Err (FromEnvelope MismatchedSignature)) ∧
  is_err (from_bytes (R:=VoteRecord) (wire sr)) = true ∧
  is_err (from_bytes (R:=ProviderRecord) (wire sv)) = true.
Proof.
  intros Hr Hv. split_and!.
  - intros ?. rewrite (from_bytes_new _ _ _ Hr); simpl. by rewrite bool_decide_eq_false_2.
  - intros ?. rewrite (from_bytes_new _ _ _ Hv); simpl. by rewrite bool_decide_eq_false_2.
  - by rewrite (from_bytes_other_type (R':=VoteRecord) _ _ _ Hr).
  - by rewrite (from_bytes_other_type (R':=ProviderRecord) _ _ _ Hv).
Qed.
End records.

(** ** Records on the wire *)
Section wire.
Context `{Envelope} `{!EnvelopeLaws} `{Cbor, !CborLaws}.
Context `{!SerdeVal PeerId, !SerdeValLaws PeerId} `{!SerdeVal SubnetID, !SerdeValLaws SubnetID}.
Context `{!SerdeVal Cid, !SerdeValLaws Cid}.

(** C23 (signed records round trip): the bytes of a provider or vote record that
    a key has signed, serialised field by field (the validator key through its own
    protobuf form) and encoded, are parsed back to the same signed record, and the record
    inside carries the peer id of the signing key (or the key itself), the
    given contents and the timestamp of the clock. *)
Theorem signed_records_roundtrip now key subnet_ids subnet_id cid claim pr vr :
  provider_record_signed now key subnet_ids = Ok pr →
  vote_record_signed now key subnet_id cid claim = Ok vr →
  from_bytes (wire pr) = Ok pr ∧
  into_record pr = mkProviderRecord (to_peer_id (public key)) subnet_ids now ∧
  from_bytes (wire vr) = Ok vr ∧
  into_record vr = mkVoteRecord (mkValidatorKey (public key)) subnet_id cid claim now.
Proof.
  intros Hp Hv. split; [by eapply provider_record_roundtrip|].
  split; [|split; [by eapply vote_record_roundtrip|]].
  - revert Hp. unfold provider_record_signed, signed_record_new, mbind, result_bind.
    destruct (to_vec _); simpl; [|done]. destruct (envelope_new _ _ _ _); simpl; [|done].
    by intros [= <-].
  - revert Hv. unfold vote_record_signed, signed_record_new, mbind, result_bind.
    destruct (to_vec _); simpl; [|done]. destruct (envelope_new _ _ _ _); simpl; [|done].
    by intros [= <-].
Qed.

End wire.

(** ** A concrete envelope

    A key pair is a number and its public key the same number; the "signature"
    of an envelope is the signer's number and the domain it was made for. *)

Fixpoint bits_of_pos (p : positive) : bytes :=
  match p with
  | xH => []
  | xO p => x00 :: bits_of_pos p
  | xI p => x01 :: bits_of_pos p
  end.

Fixpoint pos_of_bits (b : bytes) : option positive :=
  match b with
  | [] => Some xH
  | c :: b =>
      p ← pos_of_bits b;
      if decide (c = x00) then Some (xO p)
      else if decide (c = x01) then Some (xI p) else None
  end.

Lemma pos_of_bits_of_pos p : pos_of_bits (bits_of_pos p) = Some p.
Proof. induction p as [p IH|p IH|]; simpl; try rewrite IH; done. Qed.

Definition to_bits `{Countable A} (a : A) : bytes := bits_of_pos (encode a).
Definition from_bits `{Countable A} (b : bytes) : option A := pos_of_bits b ≫= decode.

Lemma from_to_bits `{Countable A} (a : A) : from_bits (to_bits a) = Some a.
Proof. unfold from_bits, to_bits. rewrite pos_of_bits_of_pos. apply decode_encode. Qed.

Definition demo_envelope : @Envelope demo_types := {|
  Keypair := N;
  PublicKey := N;
  public k := k;
  to_peer_id k := (k : @PeerId demo_types);
  key_to_protobuf := to_bits;
  key_from_protobuf := from_bits;
  SignedEnvelope := N * string * string * bytes;
  envelope_new key dom ty p := Some (key, dom, ty, p);
  payload_and_signing_key e dom ty :=
    let '(key, dom', ty', p) := e in
    if decide (ty' = ty) then
      if decide (dom' = dom) then Ok (p, key) else Err InvalidSignature
    else Err (UnexpectedPayloadType ty ty');
  into_protobuf_encoding := to_bits;
  from_protobuf_encoding := from_bits;
|}.

#[export] Instance demo_envelope_laws : @EnvelopeLaws demo_types demo_envelope.
Proof.
  split; simpl.
  - intros k. apply from_to_bits.
  - intros e. apply from_to_bits.
  - intros key dom ty p e [= <-]. by rewrite !decide_True.
  - intros key dom ty ty' p e [= <-] ?. by rewrite decide_False.
Qed.

Definition demo_provider_serde : Serde (@ProviderRecord demo_types) := {|
  to_vec r := Some (to_bits (A := N * list (list N) * Z)
    (@pr_peer_id demo_types r, @pr_subnet_ids demo_types r, @pr_timestamp demo_types r));
  from_slice b :=
    '(p, s, t) ← from_bits (A := N * list (list N) * Z) b;
    Some (mkProviderRecord (p : @PeerId demo_types) (s : list (@SubnetID demo_types)) t);
|}.

Definition demo_vote_serde : Serde (@VoteRecord demo_types demo_envelope) := {|
  to_vec v := Some (to_bits (A := N * list N * N * string * Z)
    (@validator_public_key demo_types demo_envelope (@vr_public_key demo_types demo_envelope v),
     @vr_subnet_id demo_types demo_envelope v, @vr_cid demo_types demo_envelope v,
     @vr_claim demo_types demo_envelope v, @vr_timestamp demo_types demo_envelope v));
  from_slice b :=
    '(k, s, c, cl, t) ← from_bits (A := N * list N * N * string * Z) b;
    Some (mkVoteRecord (mkValidatorKey (k : @PublicKey demo_types demo_envelope))
      (s : @SubnetID demo_types) (c : @Cid demo_types) cl t);
|}.

#[export] Instance demo_provider_serde_laws : @SerdeLaws _ demo_provider_serde.
Proof.
  split; simpl. intros [p s t] b [= <-]. by rewrite from_to_bits.
Qed.

#[export] Instance demo_vote_serde_laws : @SerdeLaws _ demo_vote_serde.
Proof.
  split; simpl. intros [[k] s c cl t] b [= <-]. by rewrite from_to_bits.
Qed.

(** A codec that writes the fields of a map in the opposite order. *)
Fixpoint sval_to_tree (v : sval) : gen_tree (Z + string) :=
  match v with
  | SUInt n => GenLeaf (inl n)
  | SStr s => GenLeaf (inr s)
  | SSeq l => GenNode 0 (map sval_to_tree l)
  | SMap fs => GenNode 1 (map (λ e, GenNode 2 [GenLeaf (inr e.1); sval_to_tree e.2]) fs)
  end.

Fixpoint tree_to_sval (t : gen_tree (Z + string)) : option sval :=
  match t with
  | GenLeaf (inl n) => Some (SUInt n)
  | GenLeaf (inr s) => Some (SStr s)
  | GenNode 0 l => SSeq <$> mapM tree_to_sval l
  | GenNode 1 l =>
      SMap <$> mapM (λ t, match t with
                          | GenNode 2 [GenLeaf (inr k); w] => pair k <$> tree_to_sval w
                          | _ => None
                          end) l
  | _ => None
  end.

Fixpoint tree_to_of_sval (v : sval) : tree_to_sval (sval_to_tree v) = Some v.
Proof.
  destruct v as [n|s|l|fs]; [done|done| |]; cbn.
  - assert (mapM tree_to_sval (map sval_to_tree l) = Some l) as ->; [|done].
    induction l as [|v l IH]; [done|]. cbn. rewrite tree_to_of_sval. cbn. by rewrite IH.
  - set (de := λ t, _). assert (mapM de (map (λ e, GenNode 2 [GenLeaf (inr e.1); sval_to_tree e.2]) fs) = Some fs) as ->;
      [|done]. induction fs as [|[k v] fs IH]; [done|]. cbn. rewrite tree_to_of_sval. cbn. by rewrite IH.
Qed.

Definition demo_cbor : Cbor := {|
  field_order := @reverse _;
  cbor_encode v := Some (to_bits (sval_to_tree (canonical_by (@reverse _) v)));
  cbor_decode b := from_bits b ≫= tree_to_sval;
|}.

#[export] Instance demo_cbor_laws : @CborLaws demo_cbor.
Proof.
  split; cbn.
  - intros fs. apply reverse_Permutation.
  - intros v b [= <-]. rewrite from_to_bits. cbn. by rewrite tree_to_of_sval.
Qed.

(** A subnet is the list of its actors, a peer and a CID a number. *)
Definition demo_n_serde : SerdeVal N := {|
  serialize n := Some (SUInt (Z.of_N n));
  deserialize v := match v with SUInt n => Some (Z.to_N n) | _ => None end;
|}.

#[export] Instance demo_n_serde_laws `{Cbor} : @SerdeValLaws N demo_n_serde _.
Proof. split. intros n v [= <-]. cbn. by rewrite N2Z.id. Qed.

Section demo.
#[local] Existing Instances demo_types demo_envelope demo_provider_serde demo_vote_serde.

Definition demo_key (n : N) : @Keypair demo_types demo_envelope := n.

Definition demo_signed_provider : SignedRecord (@ProviderRecord demo_types) :=
  mkSignedRecord (mkProviderRecord (demo_peer 7) [demo_subnet [1%N]] 100%Z)
    (7%N, DOMAIN_SEP, "/ipc/provider-record", to_bits (7%N, [[1%N]], 100%Z)).

Definition demo_signed_vote : SignedRecord (@VoteRecord demo_types demo_envelope) :=
  mkSignedRecord
    (mkVoteRecord (mkValidatorKey (demo_key 7)) (demo_subnet [1%N]) (demo_cid 5) "valid" 100%Z)
    (7%N, DOMAIN_SEP, "/ipc/vote-record", to_bits (7%N, [1%N], 5%N, "valid", 100%Z)).

Lemma foreign_records_refused_witness :
  is_err (from_bytes (R:=VoteRecord) (wire demo_signed_provider)) = true ∧
  is_err (from_bytes (R:=ProviderRecord) (wire demo_signed_vote)) = true.
Proof.
  pose proof (foreign_records_refused (demo_key 7) (record demo_signed_provider)
    (record demo_signed_vote) demo_signed_provider demo_signed_vote
    eq_refl eq_refl) as (_ & _ & H1 & H2).
  by split.
Defined.
End demo.

(** Records that are serialised field by field. *)
Section wire_demo.
#[local] Existing Instances demo_types demo_envelope demo_cbor.
#[local] Instance demo_peer_serde : SerdeVal PeerId := demo_n_serde.
#[local] Instance demo_cid_serde : SerdeVal Cid := demo_n_serde.
#[local] Instance demo_subnet_serde : SerdeVal SubnetID := @vec_serde N demo_n_serde.
#[local] Instance demo_subnet_serde_laws : SerdeValLaws SubnetID := vec_serde_laws (A := N).
#[local] Instance demo_peer_serde_laws : SerdeValLaws PeerId := demo_n_serde_laws.
#[local] Instance demo_cid_serde_laws : SerdeValLaws Cid := demo_n_serde_laws.

Lemma signed_records_roundtrip_witness :
  match provider_record_signed 100%Z (demo_key 7) [demo_subnet [1%N]],
    vote_record_signed 100%Z (demo_key 7) (demo_subnet [1%N]) (demo_cid 5) "valid" with
  | Ok pr, Ok vr => from_bytes (wire pr) = Ok pr ∧ from_bytes (wire vr) = Ok vr
  | _, _ => False
  end.
Proof.
  destruct (provider_record_signed _ _ _) as [pr|e] eqn:Hp; [|discriminate Hp].
  destruct (vote_record_signed _ _ _ _ _) as [vr|e] eqn:Hv; [|discriminate Hv].
  pose proof (signed_records_roundtrip 100%Z (demo_key 7) [demo_subnet [1%N]]
    (demo_subnet [1%N]) (demo_cid 5) "valid" pr vr Hp Hv) as (H1 & _ & H2 & _).
  by split.
Defined.
End wire_demo.
