(* ===== verification/ProviderCache.v ===== *)
(** * The cache of subnet providers

    [ipld/resolver/src/provider_cache.rs]: which peers provide data for which
    subnet, the peers with a known address, and the timestamp of the last
    record of each peer.  The operations are those of [SubnetProviderCache];
    the two loops that walk a [HashMap] take its iteration order from
    [HashIter]. *)
From S2P Require Import Prelude Timestamp Types Records.

Module Cache.
Section cache.
Context `{ResolverTypes} `{!HashIter SubnetID} `{!HashIter PeerId}.

(** ** Data *)

Record ProviderDelta := mkDelta {
  delta_is_new : bool;
  delta_added : list SubnetID;
  delta_removed : list SubnetID;
}.

Definition delta_is_empty (d : ProviderDelta) : bool :=
  bool_decide (delta_added d = []) && bool_decide (delta_removed d = []).

Record SubnetProviderCache := mkCache {
  max_subnets : nat;
  pinned_subnets : gset SubnetID;
  routable_peers : gset PeerId;
  subnet_providers : gmap SubnetID (gset PeerId);
  peer_timestamps : gmap PeerId Timestamp;
}.

Definition set_pinned (f : gset SubnetID → gset SubnetID) (c : SubnetProviderCache) :=
  mkCache (max_subnets c) (f (pinned_subnets c)) (routable_peers c)
    (subnet_providers c) (peer_timestamps c).
Definition set_routable_peers (f : gset PeerId → gset PeerId) (c : SubnetProviderCache) :=
  mkCache (max_subnets c) (pinned_subnets c) (f (routable_peers c))
    (subnet_providers c) (peer_timestamps c).
Definition set_providers (m : gmap SubnetID (gset PeerId)) (c : SubnetProviderCache) :=
  mkCache (max_subnets c) (pinned_subnets c) (routable_peers c) m (peer_timestamps c).
Definition set_timestamps (f : gmap PeerId Timestamp → gmap PeerId Timestamp)
    (c : SubnetProviderCache) :=
  mkCache (max_subnets c) (pinned_subnets c) (routable_peers c)
    (subnet_providers c) (f (peer_timestamps c)).

(** ** Operations *)

Definition new (max : nat) (static_subnets : list SubnetID) : SubnetProviderCache :=
  mkCache max (list_to_set static_subnets) ∅ ∅ ∅.

Definition pin_subnet (id : SubnetID) : SubnetProviderCache → SubnetProviderCache :=
  set_pinned (λ s, {[id]} ∪ s).

Definition unpin_subnet (id : SubnetID) : SubnetProviderCache → SubnetProviderCache :=
  set_pinned (λ s, s ∖ {[id]}).

Definition set_routable (p : PeerId) : SubnetProviderCache → SubnetProviderCache :=
  set_routable_peers (λ s, {[p]} ∪ s).

(** [for providers in values_mut() { providers.remove(&peer_id); }] *)
Definition remove_from_all (p : PeerId) (m : gmap SubnetID (gset PeerId)) :
    gmap SubnetID (gset PeerId) :=
  (λ ps, ps ∖ {[p]}) <$> m.

Definition set_unroutable (p : PeerId) (c : SubnetProviderCache) : SubnetProviderCache :=
  let c := set_routable_peers (λ s, s ∖ {[p]}) c in
  let c := set_timestamps (delete p) c in
  set_providers (remove_from_all p (subnet_providers c)) c.

Definition num_routable (c : SubnetProviderCache) : nat := size (routable_peers c).

Definition is_routable (c : SubnetProviderCache) (p : PeerId) : bool :=
  bool_decide (p ∈ routable_peers c).

Definition has_timestamp (c : SubnetProviderCache) (p : PeerId) : bool :=
  bool_decide (is_Some (peer_timestamps c !! p)).

(** The walk over [subnet_providers.iter_mut()] that drops the peer from the
    subnets missing from its record; returns the map and [delta.removed]. *)
Definition remove_step (p : PeerId) (ids : gset SubnetID)
    (acc : gmap SubnetID (gset PeerId) * list SubnetID)
    (e : SubnetID * gset PeerId) : gmap SubnetID (gset PeerId) * list SubnetID :=
  let '(m, removed) := acc in
  let '(id, ps) := e in
  if bool_decide (id ∉ ids) && bool_decide (p ∈ ps)
  then (<[id := ps ∖ {[p]}]> m, removed ++ [id])
  else acc.

Definition remove_unsupported (p : PeerId) (ids : gset SubnetID)
    (m : gmap SubnetID (gset PeerId)) : gmap SubnetID (gset PeerId) * list SubnetID :=
  foldl (remove_step p ids) (m, []) (map_iter m).

(** The walk over the record's subnets that adds the peer; returns the map and
    [delta.added]. *)
Definition add_step (p : PeerId)
    (acc : gmap SubnetID (gset PeerId) * list SubnetID) (id : SubnetID) :
    gmap SubnetID (gset PeerId) * list SubnetID :=
  let '(m, added) := acc in
  let ps := default ∅ (m !! id) in
  (<[id := {[p]} ∪ ps]> m, if bool_decide (p ∈ ps) then added else added ++ [id]).

Definition add_supported (p : PeerId) (ids : list SubnetID)
    (m : gmap SubnetID (gset PeerId)) : gmap SubnetID (gset PeerId) * list SubnetID :=
  foldl (add_step p) (m, []) ids.

(** The body of [for (subnet_id, _) in counts], with its [continue] and
    [break]. *)
Fixpoint prune_loop (pinned : gset SubnetID) (to_prune : nat)
    (counts : list (SubnetID * nat))
    (m : gmap SubnetID (gset PeerId)) (removed : gset SubnetID) :
    gmap SubnetID (gset PeerId) * gset SubnetID :=
  match counts with
  | [] => (m, removed)
  | (id, _) :: counts =>
      if bool_decide (id ∈ pinned) then prune_loop pinned to_prune counts m removed
      else
        let m := delete id m in
        let removed := {[id]} ∪ removed in
        if (size removed =? to_prune)%nat then (m, removed)
        else prune_loop pinned to_prune counts m removed
  end.

Definition provider_counts (m : gmap SubnetID (gset PeerId)) : list (SubnetID * nat) :=
  (λ e : SubnetID * gset PeerId, (e.1, size e.2)) <$> map_iter m.

Definition prune_subnets (c : SubnetProviderCache) : gset SubnetID * SubnetProviderCache :=
  let to_prune := (size (subnet_providers c) - max_subnets c)%nat in
  if (0 <? to_prune)%nat then
    let counts := sort_by_key snd (provider_counts (subnet_providers c)) in
    let '(m, removed) :=
      prune_loop (pinned_subnets c) to_prune counts (subnet_providers c) ∅ in
    (removed, set_providers m c)
  else (∅, c).

Definition add_provider (r : ProviderRecord) (c : SubnetProviderCache) :
    option ProviderDelta * SubnetProviderCache :=
  let p := pr_peer_id r in
  if negb (is_routable c p) then (None, c) else
  let is_new := negb (has_timestamp c p) in
  let timestamp := default timestamp_default (peer_timestamps c !! p) in
  let c := set_timestamps (<[p := timestamp]>) c in
  if (timestamp <? pr_timestamp r)%Z then
    let c := set_timestamps (<[p := pr_timestamp r]>) c in
    let '(m, removed) :=
      remove_unsupported p (list_to_set (pr_subnet_ids r)) (subnet_providers c) in
    let '(m, added) := add_supported p (pr_subnet_ids r) m in
    let '(removed_subnet_ids, c) := prune_subnets (set_providers m c) in
    (Some (mkDelta is_new (filter (λ id, id ∉ removed_subnet_ids) added) removed), c)
  else (Some (mkDelta is_new [] []), c).

Definition prune_providers (cutoff : Timestamp) (c : SubnetProviderCache) :
    list PeerId * SubnetProviderCache :=
  let to_prune :=
    (filter (λ e : PeerId * Timestamp, (e.2 < cutoff)%Z) (map_iter (peer_timestamps c))).*1 in
  (to_prune, foldl (λ c p, set_unroutable p c) c to_prune).

Definition providers_of_subnet (c : SubnetProviderCache) (id : SubnetID) : list PeerId :=
  default [] (set_iter <$> (subnet_providers c !! id)).

(** The calls that change the cache. *)
Inductive cache_op :=
  | OpPin (id : SubnetID)
  | OpUnpin (id : SubnetID)
  | OpSetRoutable (p : PeerId)
  | OpSetUnroutable (p : PeerId)
  | OpAddProvider (r : ProviderRecord)
  | OpPruneProviders (cutoff : Timestamp).

Definition run_cache_op (c : SubnetProviderCache) (op : cache_op) : SubnetProviderCache :=
  match op with
  | OpPin id => pin_subnet id c
  | OpUnpin id => unpin_subnet id c
  | OpSetRoutable p => set_routable p c
  | OpSetUnroutable p => set_unroutable p c
  | OpAddProvider r => (add_provider r c).2
  | OpPruneProviders cutoff => (prune_providers cutoff c).2
  end.

(** ** What a peer is known to provide *)

Definition providers (m : gmap SubnetID (gset PeerId)) (id : SubnetID) : gset PeerId :=
  default ∅ (m !! id).

Lemma elem_of_providers_of_subnet c id p :
  p ∈ providers_of_subnet c id ↔ p ∈ providers (subnet_providers c) id.
Proof.
  unfold providers_of_subnet, providers. destruct (_ !! id); simpl; [|set_solver].
  apply elem_of_set_iter.
Qed.

Lemma providers_remove_from_all p m id :
  providers (remove_from_all p m) id = providers m id ∖ {[p]}.
Proof.
  unfold providers, remove_from_all. rewrite lookup_fmap.
  destruct (m !! id); simpl; [done|set_solver].
Qed.

(** *** The two walks of [add_provider] *)

Lemma remove_step_fold p ids l m removed :
  NoDup l.*1 → (∀ k ps, (k, ps) ∈ l → m !! k = Some ps) →
  let acc := foldl (remove_step p ids) (m, removed) l in
  (∀ id, acc.1 !! id =
     if decide (id ∈ l.*1 ∧ id ∉ ids) then (.∖ {[p]}) <$> (m !! id) else m !! id) ∧
  acc.2 = removed ++ (filter (λ e, e.1 ∉ ids ∧ p ∈ e.2) l).*1.
Proof.
  revert m removed. induction l as [|[k ps] l IH]; intros m removed Hnd Hl;
    cbn [foldl fst snd].
  { split; [intros id; by rewrite decide_False by set_solver|by rewrite app_nil_r]. }
  apply NoDup_cons in Hnd as [Hk Hnd].
  assert (Hmk : m !! k = Some ps) by (apply Hl; set_solver).
  rewrite filter_cons. unfold remove_step at 2 4.
  destruct (bool_decide_reflect (k ∉ ids)) as [Hkids|Hkids]; simpl;
    [destruct (bool_decide_reflect (p ∈ ps)) as [Hp|Hp]; simpl|].
  - rewrite (decide_True (P := k ∉ ids ∧ p ∈ ps)) by done.
    destruct (IH (<[k := ps ∖ {[p]}]> m) (removed ++ [k])) as [IH1 IH2]; [done| |].
    { intros k' ps' Hin. rewrite lookup_insert_ne; [apply Hl; set_solver|].
      intros <-. apply Hk, list_elem_of_fmap. by exists (k, ps'). }
    split; [|by rewrite IH2, fmap_cons, <-(assoc_L (++))].
    intros id. rewrite IH1. destruct (decide (id = k)) as [->|Hne].
    + rewrite decide_False by tauto. rewrite decide_True by set_solver.
      by rewrite lookup_insert_eq, Hmk.
    + rewrite lookup_insert_ne by done. apply decide_ext. set_solver.
  - rewrite (decide_False (P := k ∉ ids ∧ p ∈ ps)) by tauto.
    destruct (IH m removed) as [IH1 IH2]; [done|intros; apply Hl; set_solver|].
    split; [|done]. intros id. rewrite IH1. destruct (decide (id = k)) as [->|Hne].
    + rewrite decide_False by tauto. rewrite decide_True by set_solver.
      rewrite Hmk; simpl. f_equal. set_solver.
    + apply decide_ext. set_solver.
  - rewrite (decide_False (P := k ∉ ids ∧ p ∈ ps)) by tauto.
    destruct (IH m removed) as [IH1 IH2]; [done|intros; apply Hl; set_solver|].
    split; [|done]. intros id. rewrite IH1. apply decide_ext.
    split; [set_solver|]. intros [Hin ?]. split; [|done].
    apply elem_of_cons in Hin as [->|]; [done|done].
Qed.

Lemma remove_unsupported_lookup p ids m id :
  (remove_unsupported p ids m).1 !! id =
    (λ ps, if decide (id ∈ ids) then ps else ps ∖ {[p]}) <$> (m !! id).
Proof.
  unfold remove_unsupported.
  destruct (remove_step_fold p ids (map_iter m) m []) as [-> _].
  { apply NoDup_map_iter_fst. }
  { intros k ps. apply elem_of_map_iter. }
  destruct (m !! id) as [ps|] eqn:Hid; simpl; [|by destruct (decide _)].
  assert (id ∈ (map_iter m).*1).
  { apply list_elem_of_fmap. exists (id, ps). split; [done|]. by apply elem_of_map_iter. }
  repeat destruct (decide _); try done; tauto.
Qed.

Lemma remove_unsupported_providers p ids m id :
  providers (remove_unsupported p ids m).1 id =
    if decide (id ∈ ids) then providers m id else providers m id ∖ {[p]}.
Proof.
  unfold providers. rewrite remove_unsupported_lookup.
  destruct (m !! id); simpl; destruct (decide _); set_solver.
Qed.

Lemma remove_unsupported_dom p ids m :
  dom (remove_unsupported p ids m).1 = dom m.
Proof.
  apply set_eq. intros id. rewrite !elem_of_dom, remove_unsupported_lookup.
  by rewrite fmap_is_Some.
Qed.

Lemma remove_unsupported_removed p ids m :
  NoDup (remove_unsupported p ids m).2 ∧
  ∀ id, id ∈ (remove_unsupported p ids m).2 ↔ id ∉ ids ∧ p ∈ providers m id.
Proof.
  unfold remove_unsupported.
  destruct (remove_step_fold p ids (map_iter m) m []) as [_ ->].
  { apply NoDup_map_iter_fst. }
  { intros k ps. apply elem_of_map_iter. }
  simpl. split.
  - apply NoDup_fst_filter, NoDup_map_iter_fst.
  - intros id. rewrite list_elem_of_fmap. split.
    + intros [[k ps] [-> [[??] ?%elem_of_map_iter]%list_elem_of_filter]]; simpl in *.
      unfold providers. by simplify_option_eq.
    + unfold providers. intros [? Hp]. destruct (m !! id) as [ps|] eqn:Hid; [|set_solver].
      exists (id, ps). split; [done|]. apply list_elem_of_filter.
      split; [done|by apply elem_of_map_iter].
Qed.

Lemma add_step_fold p ids m added :
  NoDup added → (∀ id, id ∈ added → p ∈ providers m id) →
  let acc := foldl (add_step p) (m, added) ids in
  (∀ id, acc.1 !! id =
     if decide (id ∈ ids) then Some ({[p]} ∪ providers m id) else m !! id) ∧
  NoDup acc.2 ∧
  (∀ id, id ∈ acc.2 ↔ id ∈ added ∨ (id ∈ ids ∧ p ∉ providers m id)).
Proof.
  revert m added. induction ids as [|k ids IH]; intros m added Hnd Hadd;
    cbn [foldl fst snd].
  { split_and!; [intros id; by rewrite decide_False by set_solver|done|set_solver]. }
  unfold add_step at 2 4 6.
  set (m' := <[k := {[p]} ∪ default ∅ (m !! k)]> m).
  set (added' := if bool_decide (p ∈ default ∅ (m !! k)) then added else added ++ [k]).
  assert (Hm' : ∀ id, providers m' id =
    if decide (id = k) then {[p]} ∪ providers m id else providers m id).
  { intros id. unfold providers, m'. rewrite lookup_insert.
    repeat destruct (decide _); by subst. }
  assert (Hadd' : ∀ id, id ∈ added' ↔ id ∈ added ∨ (id = k ∧ p ∉ providers m id)).
  { intros id. unfold added'. fold (providers m k). ipc_cases.
    - split; [by left|]. intros [?|Hk]; [done|naive_solver].
    - rewrite elem_of_snoc. split; [|naive_solver]. intros [? | ->]; auto. }
  destruct (IH m' added') as (IH1 & IH2 & IH3).
  - unfold added'. ipc_cases; [done|]. apply NoDup_snoc; [|done].
    intros ?%Hadd. done.
  - intros id. rewrite Hadd', Hm'. destruct (decide _); set_solver.
  - split_and!; [|done|].
    + intros id. rewrite IH1, Hm'. subst m'. rewrite lookup_insert.
      destruct (decide (id = k)) as [->|Hne].
      * rewrite (decide_True (P := k ∈ k :: ids)) by set_solver.
        rewrite (decide_True (P := k = k)) by done. unfold providers.
        destruct (decide _); [f_equal; set_solver|done].
      * rewrite (decide_False (P := k = id)) by done. apply decide_ext. set_solver.
    + intros id. rewrite IH3, Hadd', Hm'. destruct (decide (id = k)) as [->|]; set_solver.
Qed.

Lemma add_supported_lookup p ids m id :
  (add_supported p ids m).1 !! id =
    if decide (id ∈ ids) then Some ({[p]} ∪ providers m id) else m !! id.
Proof. apply add_step_fold; [constructor|set_solver]. Qed.

Lemma add_supported_providers p ids m id :
  providers (add_supported p ids m).1 id =
    if decide (id ∈ ids) then {[p]} ∪ providers m id else providers m id.
Proof. unfold providers at 1. rewrite add_supported_lookup. by destruct (decide _). Qed.

Lemma add_supported_dom p ids m :
  dom (add_supported p ids m).1 = dom m ∪ list_to_set ids.
Proof.
  apply set_eq. intros id. rewrite elem_of_dom, add_supported_lookup.
  rewrite elem_of_union, elem_of_dom, elem_of_list_to_set.
  destruct (decide _); naive_solver.
Qed.

Lemma add_supported_added p ids m :
  NoDup (add_supported p ids m).2 ∧
  ∀ id, id ∈ (add_supported p ids m).2 ↔ id ∈ ids ∧ p ∉ providers m id.
Proof.
  destruct (add_step_fold p ids m []) as (_ & Hnd & Hin); [constructor|set_solver|].
  split; [done|]. intros id. unfold add_supported. rewrite Hin. set_solver.
Qed.

(** *** Pruning *)

(** The subnets the pruning loop takes: the first unpinned ones of the sorted
    list, as many as are still missing. *)
Lemma prune_loop_spec pinned n counts m removed :
  NoDup counts.*1 → (∀ id, id ∈ counts.*1 → id ∉ removed) → (size removed < n)%nat →
  let victims := take (n - size removed) (filter (λ id, id ∉ pinned) counts.*1) in
  let res := prune_loop pinned n counts m removed in
  (∀ id, res.1 !! id = if decide (id ∈ victims) then None else m !! id) ∧
  res.2 = list_to_set victims ∪ removed.
Proof.
  revert m removed. induction counts as [|[k ct] counts IH]; intros m removed Hnd Hfresh Hlt;
    cbn [prune_loop].
  { change (filter (λ id, id ∉ pinned) ([] : list (SubnetID * nat)).*1) with (@nil SubnetID).
    rewrite take_nil. split; [intros id; by rewrite decide_False by set_solver|set_solver]. }
  rewrite fmap_cons in *. cbn [fst] in *. apply NoDup_cons in Hnd as [Hk Hnd].
  rewrite filter_cons. destruct (bool_decide_reflect (k ∈ pinned)) as [Hp|Hp].
  { rewrite decide_False by tauto. apply IH; [done|set_solver|done]. }
  rewrite decide_True by done.
  assert (Hsz : size ({[k]} ∪ removed) = S (size removed)).
  { rewrite size_union by set_solver. by rewrite size_singleton. }
  rewrite Hsz. replace (n - size removed)%nat with (S (n - S (size removed))) by lia.
  cbn [take]. destruct (Nat.eqb_spec (S (size removed)) n) as [Heq|Hne].
  { replace (n - S (size removed))%nat with 0%nat by lia. rewrite take_0.
    cbn [fst snd]. split; [|set_solver]. intros id. rewrite lookup_delete.
    destruct (decide (k = id)) as [->|]; [by rewrite decide_True by set_solver|].
    by rewrite decide_False by set_solver. }
  destruct (IH (delete k m) ({[k]} ∪ removed)) as [IH1 IH2];
    [done|set_solver|lia|]. rewrite Hsz in IH1, IH2. split; [|rewrite IH2; set_solver].
  intros id. rewrite IH1, lookup_delete. destruct (decide (k = id)) as [->|Hne'].
  - rewrite (decide_True (P := id ∈ id :: _)) by set_solver. by destruct (decide _).
  - apply decide_ext. set_solver.
Qed.

(** The loop of [prune_subnets] as a list of victims. *)
Definition prune_victims (c : SubnetProviderCache) : list SubnetID :=
  take (size (subnet_providers c) - max_subnets c)
    (filter (λ id, id ∉ pinned_subnets c)
       (sort_by_key snd (provider_counts (subnet_providers c))).*1).

Lemma provider_counts_fst m : (provider_counts m).*1 = (map_iter m).*1.
Proof. unfold provider_counts. rewrite <-list_fmap_compose. by apply list_fmap_ext. Qed.

Lemma sorted_counts_perm m :
  (sort_by_key snd (provider_counts m)).*1 ≡ₚ (map_iter m).*1.
Proof. by rewrite sort_by_key_perm, provider_counts_fst. Qed.

Lemma NoDup_sorted_counts m : NoDup (sort_by_key snd (provider_counts m)).*1.
Proof. rewrite sorted_counts_perm. apply NoDup_map_iter_fst. Qed.

Lemma elem_of_sorted_counts m id :
  id ∈ (sort_by_key snd (provider_counts m)).*1 ↔ id ∈ dom m.
Proof.
  rewrite sorted_counts_perm, list_elem_of_fmap, elem_of_dom. split.
  - intros [[k ps] [-> ?%elem_of_map_iter]]. eauto.
  - intros [ps ?]. exists (id, ps). split; [done|by apply elem_of_map_iter].
Qed.

Lemma prune_subnets_spec c :
  let c' := (prune_subnets c).2 in
  (prune_subnets c).1 = list_to_set (prune_victims c) ∧
  (∀ id, subnet_providers c' !! id =
     if decide (id ∈ prune_victims c) then None else subnet_providers c !! id) ∧
  max_subnets c' = max_subnets c ∧ pinned_subnets c' = pinned_subnets c ∧
  routable_peers c' = routable_peers c ∧ peer_timestamps c' = peer_timestamps c.
Proof.
  unfold prune_subnets, prune_victims. cbv zeta.
  destruct (Nat.ltb_spec 0 (size (subnet_providers c) - max_subnets c)) as [Hlt|Hge].
  - destruct (prune_loop_spec (pinned_subnets c)
      (size (subnet_providers c) - max_subnets c)
      (sort_by_key snd (provider_counts (subnet_providers c))) (subnet_providers c) ∅)
      as [H1 H2]; [apply NoDup_sorted_counts|set_solver|by rewrite size_empty|].
    rewrite size_empty, Nat.sub_0_r in H1, H2. cbv zeta in H1, H2.
    destruct (prune_loop _ _ _ _ _) as [m' removed]; cbn [fst snd] in *.
    split_and!; try done. by rewrite H2, (right_id_L ∅ (∪)).
  - replace (size (subnet_providers c) - max_subnets c)%nat with 0%nat by lia.
    rewrite take_0. by split_and!.
Qed.

Lemma elem_of_prune_victims c id :
  id ∈ prune_victims c → id ∈ dom (subnet_providers c) ∧ id ∉ pinned_subnets c.
Proof.
  intros [? Hin]%subseteq_take%list_elem_of_filter. by rewrite elem_of_sorted_counts in Hin.
Qed.

Lemma NoDup_prune_victims c : NoDup (prune_victims c).
Proof.
  eapply sublist_NoDup; [|apply sublist_take].
  apply NoDup_filter, NoDup_sorted_counts.
Qed.

Definition fewer_providers (m : gmap SubnetID (gset PeerId)) : relation SubnetID :=
  λ a b, (size (providers m a) ≤ size (providers m b))%nat.

Lemma sorted_counts_fewer m :
  StronglySorted (fewer_providers m) (sort_by_key snd (provider_counts m)).*1.
Proof.
  assert (Hcount : ∀ e, e ∈ sort_by_key snd (provider_counts m) →
    e.2 = size (providers m e.1)).
  { intros e. rewrite sort_by_key_perm. unfold provider_counts.
    intros [[id ps] [-> Hin%elem_of_map_iter]]%list_elem_of_fmap; cbn [fst snd].
    unfold providers. by rewrite Hin. }
  pose proof (sort_by_key_sorted snd (provider_counts m)) as Hs. revert Hcount Hs.
  generalize (sort_by_key snd (provider_counts m)). clear.
  induction l as [|e l IH]; intros Hcount Hs; [constructor|].
  apply StronglySorted_cons in Hs as [He Hs]. rewrite fmap_cons.
  apply StronglySorted_cons. split; [|apply IH; [intros; apply Hcount; set_solver|done]].
  apply Forall_forall. intros id [e' [-> Hin]]%list_elem_of_fmap.
  rewrite Forall_forall in He. specialize (He _ Hin). unfold key_le in He.
  unfold fewer_providers. rewrite <-!Hcount by set_solver. done.
Qed.

Lemma StronglySorted_filter {A} (R : relation A) (P : A → Prop) `{∀ x, Decision (P x)} l :
  StronglySorted R l → StronglySorted R (filter P l).
Proof.
  induction 1 as [|x l Hl IH Hx]; [constructor|]. rewrite filter_cons.
  destruct (decide _); [|done]. apply StronglySorted_cons. split; [|done].
  rewrite Forall_forall in *. intros y [_ Hy]%list_elem_of_filter. by apply Hx.
Qed.

(** A subnet that survives although it is not pinned has at least as many
    providers as any subnet that was removed. *)
Lemma prune_victims_smallest c r k :
  r ∈ prune_victims c → k ∈ dom (subnet_providers c) → k ∉ pinned_subnets c →
  k ∉ prune_victims c → fewer_providers (subnet_providers c) r k.
Proof.
  unfold prune_victims. intros Hr Hk Hpin Hnot.
  set (l := filter _ _) in *. set (n := (_ - _)%nat) in *.
  apply (StronglySorted_app_1_elem_of _ (take n l) (drop n l)); [|done|].
  - rewrite take_drop. apply StronglySorted_filter, sorted_counts_fewer.
  - assert (Hin : k ∈ take n l ++ drop n l).
    { rewrite take_drop. apply list_elem_of_filter.
      split; [done|by apply elem_of_sorted_counts]. }
    by apply elem_of_app in Hin as [?|?].
Qed.

Lemma prune_subnets_dom c :
  dom (subnet_providers (prune_subnets c).2) =
    dom (subnet_providers c) ∖ list_to_set (prune_victims c).
Proof.
  destruct (prune_subnets_spec c) as (_ & Hlk & _). apply set_eq. intros id.
  rewrite elem_of_difference, !elem_of_dom, Hlk, elem_of_list_to_set.
  destruct (decide _); [|naive_solver]. split; [by intros [? ?]|naive_solver].
Qed.

Lemma prune_subnets_size c :
  size (subnet_providers (prune_subnets c).2) =
    (size (subnet_providers c) - length (prune_victims c))%nat.
Proof.
  rewrite <-!size_dom, prune_subnets_dom, size_difference.
  - by rewrite size_list_to_set by apply NoDup_prune_victims.
  - intros id Hid%elem_of_list_to_set. by apply elem_of_prune_victims.
Qed.

(** Either the bound is met, or only pinned subnets are left. *)
Lemma prune_subnets_bound c :
  (size (subnet_providers (prune_subnets c).2) ≤ max_subnets c)%nat ∨
  dom (subnet_providers (prune_subnets c).2) ⊆ pinned_subnets c.
Proof.
  rewrite prune_subnets_size. unfold prune_victims at 1. rewrite length_take.
  set (l := filter _ _). set (n := (size (subnet_providers c) - max_subnets c)%nat).
  destruct (decide (n ≤ length l)%nat) as [Hle|Hgt]; [left; lia|right].
  rewrite prune_subnets_dom. intros id [Hid Hv]%elem_of_difference.
  apply dec_stable. intros Hpin. apply Hv, elem_of_list_to_set. unfold prune_victims.
  fold l n. rewrite take_ge by lia. apply list_elem_of_filter.
  split; [done|by apply elem_of_sorted_counts].
Qed.

(** *** [add_provider], case by case *)

Definition known_timestamp (c : SubnetProviderCache) (p : PeerId) : Timestamp :=
  default timestamp_default (peer_timestamps c !! p).

(** The cache between the two walks and the pruning. *)
Definition recorded (r : ProviderRecord) (c : SubnetProviderCache) : SubnetProviderCache :=
  set_providers
    (add_supported (pr_peer_id r) (pr_subnet_ids r)
       (remove_unsupported (pr_peer_id r) (list_to_set (pr_subnet_ids r))
          (subnet_providers c)).1).1
    (set_timestamps (<[pr_peer_id r := pr_timestamp r]>) c).

Lemma add_provider_unroutable r c :
  pr_peer_id r ∉ routable_peers c → add_provider r c = (None, c).
Proof. intros Hr. unfold add_provider, is_routable. by rewrite bool_decide_false. Qed.

Lemma add_provider_stale r c :
  pr_peer_id r ∈ routable_peers c →
  (pr_timestamp r ≤ known_timestamp c (pr_peer_id r))%Z →
  add_provider r c =
    (Some (mkDelta (negb (has_timestamp c (pr_peer_id r))) [] []),
     set_timestamps (<[pr_peer_id r := known_timestamp c (pr_peer_id r)]>) c).
Proof.
  unfold add_provider, is_routable, known_timestamp. intros Hr Hts.
  rewrite bool_decide_true by done. cbn [negb].
  rewrite (proj2 (Z.ltb_ge _ _)) by done. done.
Qed.

Lemma add_provider_fresh r c :
  pr_peer_id r ∈ routable_peers c →
  (known_timestamp c (pr_peer_id r) < pr_timestamp r)%Z →
  let c1 := recorded r c in
  let m := (remove_unsupported (pr_peer_id r) (list_to_set (pr_subnet_ids r))
              (subnet_providers c)) in
  add_provider r c =
    (Some (mkDelta (negb (has_timestamp c (pr_peer_id r)))
       (filter (λ id, id ∉ (prune_subnets c1).1)
          (add_supported (pr_peer_id r) (pr_subnet_ids r) m.1).2) m.2),
     (prune_subnets c1).2).
Proof.
  unfold add_provider, is_routable, known_timestamp, recorded. intros Hr Hts. cbv zeta.
  rewrite bool_decide_true by done. cbn [negb].
  rewrite (proj2 (Z.ltb_lt _ _)) by done.
  unfold set_timestamps. cbn [subnet_providers peer_timestamps routable_peers
    pinned_subnets max_subnets]. rewrite insert_insert_eq.
  destruct (remove_unsupported _ _ _) as [m removed]. cbn [fst snd].
  destruct (add_supported _ _ _) as [m' added]. cbn [fst snd].
  by destruct (prune_subnets _) as [rm c'].
Qed.

Lemma recorded_providers r c id q :
  q ∈ providers (subnet_providers (recorded r c)) id ↔
    if decide (q = pr_peer_id r) then id ∈ pr_subnet_ids r
    else q ∈ providers (subnet_providers c) id.
Proof.
  unfold recorded. cbn [subnet_providers set_providers].
  rewrite add_supported_providers, remove_unsupported_providers.
  repeat case_decide; set_solver.
Qed.

Lemma recorded_dom r c :
  dom (subnet_providers (recorded r c)) =
    dom (subnet_providers c) ∪ list_to_set (pr_subnet_ids r).
Proof.
  unfold recorded. cbn [subnet_providers set_providers].
  by rewrite add_supported_dom, remove_unsupported_dom.
Qed.

Lemma pruned_providers c id q :
  q ∈ providers (subnet_providers (prune_subnets c).2) id ↔
    id ∉ (prune_subnets c).1 ∧ q ∈ providers (subnet_providers c) id.
Proof.
  destruct (prune_subnets_spec c) as (-> & Hlk & _).
  rewrite elem_of_list_to_set. unfold providers at 1. rewrite Hlk.
  destruct (decide _); cbn [default]; [set_solver|]. unfold providers. naive_solver.
Qed.

(** ** The invariant

    Only routable peers have timestamps, and only peers with a timestamp are
    listed as providers. *)
Definition cache_inv (c : SubnetProviderCache) : Prop :=
  dom (peer_timestamps c) ⊆ routable_peers c ∧
  ∀ id, providers (subnet_providers c) id ⊆ dom (peer_timestamps c).

Lemma cache_inv_new max static : cache_inv (new max static).
Proof.
  split; cbn [peer_timestamps routable_peers subnet_providers new]; [set_solver|].
  intros id. unfold providers. rewrite lookup_empty. set_solver.
Qed.

Lemma cache_inv_pin id c : cache_inv c → cache_inv (pin_subnet id c).
Proof. done. Qed.

Lemma cache_inv_unpin id c : cache_inv c → cache_inv (unpin_subnet id c).
Proof. done. Qed.

Lemma cache_inv_set_routable p c : cache_inv c → cache_inv (set_routable p c).
Proof. intros [Ht Hp]. split; [|done]. cbn. set_solver. Qed.

Lemma cache_inv_set_unroutable p c : cache_inv c → cache_inv (set_unroutable p c).
Proof.
  intros [Ht Hp]. split; [cbn; rewrite dom_delete_L; set_solver|]. intros id.
  change (providers (remove_from_all p (subnet_providers c)) id
            ⊆ dom (delete p (peer_timestamps c))).
  rewrite providers_remove_from_all, dom_delete_L. specialize (Hp id). set_solver.
Qed.

Lemma cache_inv_prune c : cache_inv c → cache_inv (prune_subnets c).2.
Proof.
  intros [Ht Hp]. destruct (prune_subnets_spec c) as (_ & _ & _ & _ & Hr & Hts).
  split; [by rewrite Hr, Hts|]. rewrite Hts.
  intros id q [_ Hq]%pruned_providers. by apply (Hp id).
Qed.

Lemma cache_inv_recorded r c :
  pr_peer_id r ∈ routable_peers c → cache_inv c → cache_inv (recorded r c).
Proof.
  intros Hr [Ht Hp]. split.
  - cbn. rewrite dom_insert_L. set_solver.
  - intros id q Hq%recorded_providers. cbn. rewrite dom_insert_L.
    destruct (decide _); [set_solver|]. specialize (Hp id). set_solver.
Qed.

Lemma cache_inv_add_provider r c : cache_inv c → cache_inv (add_provider r c).2.
Proof.
  intros Hc. destruct (decide (pr_peer_id r ∈ routable_peers c)) as [Hr|Hr];
    [|by rewrite add_provider_unroutable].
  destruct (Z.lt_ge_cases (known_timestamp c (pr_peer_id r)) (pr_timestamp r)).
  - rewrite add_provider_fresh by done. by apply cache_inv_prune, cache_inv_recorded.
  - rewrite add_provider_stale by done. destruct Hc as [Ht Hp]. cbn.
    split; cbn; rewrite dom_insert_L; [set_solver|].
    intros id. specialize (Hp id). set_solver.
Qed.

Lemma cache_inv_unroutable_all ps c :
  cache_inv c → cache_inv (foldl (λ c p, set_unroutable p c) c ps).
Proof.
  revert c. induction ps as [|p ps IH]; intros c Hc; [done|].
  by apply IH, cache_inv_set_unroutable.
Qed.

Lemma cache_inv_prune_providers cutoff c :
  cache_inv c → cache_inv (prune_providers cutoff c).2.
Proof. apply cache_inv_unroutable_all. Qed.

(** ** Replaying a history of records

    The tests drive the cache by marking the publisher of every record routable
    and adding the record; [replay] is that loop. *)
Definition replay (c : SubnetProviderCache) (rs : list ProviderRecord) : SubnetProviderCache :=
  foldl (λ c r, (add_provider r (set_routable (pr_peer_id r) c)).2) c rs.

(** What counts for a peer in such a history: the first of its records with the
    greatest timestamp, if this is not zero. *)
Definition latest_step (p : PeerId) (o : option ProviderRecord) (r : ProviderRecord) :
    option ProviderRecord :=
  if decide (pr_peer_id r = p ∧
             (from_option pr_timestamp timestamp_default o < pr_timestamp r)%Z)
  then Some r else o.

Definition latest (p : PeerId) (rs : list ProviderRecord) : option ProviderRecord :=
  foldl (latest_step p) None rs.

Lemma latest_snoc p rs r : latest p (rs ++ [r]) = latest_step p (latest p rs) r.
Proof. unfold latest. by rewrite foldl_app. Qed.

(** All the subnets that the records mention. *)
Definition mentioned (rs : list ProviderRecord) : gset SubnetID :=
  ⋃ ((λ r, list_to_set (pr_subnet_ids r)) <$> rs).

Lemma mentioned_snoc rs r :
  mentioned (rs ++ [r]) = mentioned rs ∪ list_to_set (pr_subnet_ids r).
Proof. unfold mentioned. rewrite fmap_app, union_list_app_L. cbn. set_solver. Qed.

Lemma latest_peer p rs r : latest p rs = Some r → pr_peer_id r = p.
Proof.
  induction rs as [|r' rs IH] using rev_ind; [done|]. rewrite latest_snoc.
  unfold latest_step. destruct (decide _); naive_solver.
Qed.

Lemma latest_nonneg p rs :
  (0 ≤ from_option pr_timestamp timestamp_default (latest p rs))%Z.
Proof.
  induction rs as [|r rs IH] using rev_ind; [done|]. rewrite latest_snoc.
  unfold latest_step. destruct (decide _); cbn; lia.
Qed.

Lemma latest_pos p rs r : latest p rs = Some r → (0 < pr_timestamp r)%Z.
Proof.
  induction rs as [|r' rs IH] using rev_ind; [done|]. rewrite latest_snoc.
  pose proof (latest_nonneg p rs). unfold latest_step.
  destruct (decide _) as [[_ ?]|]; [intros [= <-]; lia|done].
Qed.

(** What the cache holds after a replay with room for every subnet. *)
Definition agrees (rs : list ProviderRecord) (c : SubnetProviderCache) : Prop :=
  (∀ p, known_timestamp c p = from_option pr_timestamp timestamp_default (latest p rs)) ∧
  (∀ p id, p ∈ providers (subnet_providers c) id ↔
     id ∈ from_option pr_subnet_ids [] (latest p rs)) ∧
  dom (subnet_providers c) ⊆ mentioned rs.

Lemma prune_subnets_small c :
  (size (subnet_providers c) ≤ max_subnets c)%nat → prune_subnets c = (∅, c).
Proof.
  intros Hle. unfold prune_subnets.
  replace (size (subnet_providers c) - max_subnets c)%nat with 0%nat by lia. done.
Qed.

Lemma known_timestamp_insert c p q t :
  known_timestamp (set_timestamps (<[p := t]>) c) q =
    if decide (p = q) then t else known_timestamp c q.
Proof.
  unfold known_timestamp. cbn. rewrite lookup_insert. by destruct (decide _).
Qed.

Lemma known_timestamp_recorded r c q :
  known_timestamp (recorded r c) q =
    if decide (pr_peer_id r = q) then pr_timestamp r else known_timestamp c q.
Proof. exact (known_timestamp_insert c (pr_peer_id r) q (pr_timestamp r)). Qed.

Lemma agrees_step rs r c :
  (size (mentioned (rs ++ [r])) ≤ max_subnets c)%nat → agrees rs c →
  agrees (rs ++ [r]) (add_provider r (set_routable (pr_peer_id r) c)).2.
Proof.
  intros Hmax (Hts & Hprov & Hdom). set (c0 := set_routable (pr_peer_id r) c).
  assert (Hr : pr_peer_id r ∈ routable_peers c0) by (cbn; set_solver).
  assert (Hk : ∀ p, known_timestamp c0 p = known_timestamp c p) by done.
  unfold agrees. rewrite mentioned_snoc in *. setoid_rewrite latest_snoc.
  unfold latest_step.
  destruct (Z.lt_ge_cases (known_timestamp c (pr_peer_id r)) (pr_timestamp r)) as [Hlt|Hge].
  - rewrite add_provider_fresh by done. cbn [snd].
    rewrite prune_subnets_small; cbn [snd].
    2:{ rewrite <-size_dom, recorded_dom. cbn [subnet_providers set_routable].
        etrans; [|exact Hmax]. apply subseteq_size. cbn. set_solver. }
    split_and!.
    + intros p. rewrite known_timestamp_recorded.
      destruct (decide (pr_peer_id r = p)) as [<-|Hne].
      * by rewrite decide_True by (by rewrite <-Hts).
      * rewrite decide_False by tauto. by rewrite Hk, Hts.
    + intros p id. rewrite recorded_providers. destruct (decide (p = pr_peer_id r)) as [->|Hne].
      * by rewrite decide_True by (by rewrite <-Hts).
      * rewrite decide_False by naive_solver. apply Hprov.
    + rewrite recorded_dom. cbn. set_solver.
  - rewrite add_provider_stale by done. cbn [snd]. split_and!.
    + intros p. rewrite known_timestamp_insert. rewrite (decide_False (P := _ ∧ _)).
      * destruct (decide _) as [<-|]; by rewrite Hk, Hts.
      * intros [<- Hc]. rewrite <-Hts in Hc. lia.
    + intros p id. rewrite decide_False; [apply Hprov|].
      intros [<- Hc]. rewrite <-Hts in Hc. lia.
    + cbn. set_solver.
Qed.

Lemma max_subnets_add_provider r c : max_subnets (add_provider r c).2 = max_subnets c.
Proof.
  destruct (decide (pr_peer_id r ∈ routable_peers c));
    [|by rewrite add_provider_unroutable].
  destruct (Z.lt_ge_cases (known_timestamp c (pr_peer_id r)) (pr_timestamp r)).
  - rewrite add_provider_fresh by done. cbn [snd].
    by destruct (prune_subnets_spec (recorded r c)) as (_ & _ & -> & _).
  - by rewrite add_provider_stale.
Qed.

Lemma max_subnets_replay c rs : max_subnets (replay c rs) = max_subnets c.
Proof.
  unfold replay. induction rs as [|r rs IH] using rev_ind; [done|].
  rewrite foldl_app. cbn [foldl]. by rewrite max_subnets_add_provider.
Qed.

Lemma replay_agrees max static rs :
  (size (mentioned rs) ≤ max)%nat → agrees rs (replay (new max static) rs).
Proof.
  induction rs as [|r rs IH] using rev_ind; intros Hsz.
  { split_and!; [done| |set_solver]. intros p id. unfold providers. cbn.
    rewrite lookup_empty. cbn. set_solver. }
  unfold replay. rewrite foldl_app. cbn [foldl]. fold (replay (new max static) rs).
  apply agrees_step; [by rewrite max_subnets_replay|]. apply IH.
  etrans; [|exact Hsz]. apply subseteq_size. rewrite mentioned_snoc. set_solver.
Qed.

(** *** Pruning old providers *)

Lemma unroutable_all_lookup ps c :
  let c' := foldl (λ c p, set_unroutable p c) c ps in
  (∀ q, peer_timestamps c' !! q = if decide (q ∈ ps) then None else peer_timestamps c !! q) ∧
  (∀ id, providers (subnet_providers c') id =
     providers (subnet_providers c) id ∖ list_to_set ps) ∧
  routable_peers c' = routable_peers c ∖ list_to_set ps ∧
  dom (subnet_providers c') = dom (subnet_providers c).
Proof.
  revert c. induction ps as [|p ps IH]; intros c; cbn [foldl].
  { split_and!; [intros q; by rewrite decide_False by set_solver|set_solver..]. }
  destruct (IH (set_unroutable p c)) as (IH1 & IH2 & IH3 & IH4).
  split_and!.
  - intros q. rewrite IH1. cbn [peer_timestamps set_unroutable set_providers].
    unfold set_unroutable. cbn. rewrite lookup_delete.
    destruct (decide (p = q)) as [->|].
    + rewrite (decide_True (P := q ∈ q :: ps)) by set_solver. by destruct (decide _).
    + apply decide_ext. set_solver.
  - intros id. rewrite IH2.
    change (subnet_providers (set_unroutable p c))
      with (remove_from_all p (subnet_providers c)).
    rewrite providers_remove_from_all. set_solver.
  - rewrite IH3. cbn. set_solver.
  - rewrite IH4. unfold set_unroutable, remove_from_all. cbn. apply dom_fmap_L.
Qed.

Lemma elem_of_pruned_peers cutoff c p :
  p ∈ (prune_providers cutoff c).1 ↔
    ∃ t, peer_timestamps c !! p = Some t ∧ (t < cutoff)%Z.
Proof.
  unfold prune_providers. cbn [fst]. rewrite list_elem_of_fmap. split.
  - intros [[q t] [-> [? ?%elem_of_map_iter]%list_elem_of_filter]]. eauto.
  - intros (t & Ht & Hlt). exists (p, t). split; [done|]. apply list_elem_of_filter.
    split; [done|by apply elem_of_map_iter].
Qed.

(** Dropping the records older than the cutoff from the history. *)
Definition since (cutoff : Timestamp) (rs : list ProviderRecord) : list ProviderRecord :=
  filter (λ r, (cutoff ≤ pr_timestamp r)%Z) rs.

Lemma latest_since cutoff p rs :
  latest p (since cutoff rs) =
    match latest p rs with
    | Some r => if decide (cutoff ≤ pr_timestamp r)%Z then Some r else None
    | None => None
    end.
Proof.
  unfold since. induction rs as [|r rs IH] using rev_ind; [done|].
  rewrite filter_app, filter_cons, filter_nil, latest_snoc.
  pose proof (latest_nonneg p rs) as H0.
  destruct (decide (cutoff ≤ pr_timestamp r)%Z) as [Hge|Hlt];
    [rewrite latest_snoc|rewrite app_nil_r]; rewrite IH; unfold latest_step;
    destruct (latest p rs) as [r0|]; cbn in *; repeat destruct (decide _); cbn in *;
    try done; unfold timestamp_default in *; naive_solver lia.
Qed.

Lemma mentioned_since cutoff rs : mentioned (since cutoff rs) ⊆ mentioned rs.
Proof.
  unfold since. induction rs as [|r rs IH] using rev_ind; [done|].
  rewrite filter_app, filter_cons, filter_nil, mentioned_snoc.
  destruct (decide _); [rewrite mentioned_snoc|rewrite app_nil_r]; set_solver.
Qed.

(** *** The bound on the number of subnets *)

Lemma pinned_add_provider r c : pinned_subnets (add_provider r c).2 = pinned_subnets c.
Proof.
  destruct (decide (pr_peer_id r ∈ routable_peers c));
    [|by rewrite add_provider_unroutable].
  destruct (Z.lt_ge_cases (known_timestamp c (pr_peer_id r)) (pr_timestamp r)).
  - rewrite add_provider_fresh by done. cbn [snd].
    by destruct (prune_subnets_spec (recorded r c)) as (_ & _ & _ & -> & _).
  - by rewrite add_provider_stale.
Qed.

Definition bounded (c : SubnetProviderCache) : Prop :=
  (size (subnet_providers c) ≤ max_subnets c)%nat ∨
  dom (subnet_providers c) ⊆ pinned_subnets c.

Lemma bounded_add_provider r c : bounded c → bounded (add_provider r c).2.
Proof.
  intros Hb. destruct (decide (pr_peer_id r ∈ routable_peers c)) as [Hr|Hr];
    [|by rewrite add_provider_unroutable].
  unfold bounded. rewrite pinned_add_provider, max_subnets_add_provider.
  destruct (Z.lt_ge_cases (known_timestamp c (pr_peer_id r)) (pr_timestamp r)).
  - rewrite add_provider_fresh by done. cbn [snd].
    exact (prune_subnets_bound (recorded r c)).
  - by rewrite add_provider_stale.
Qed.

Lemma pinned_replay c rs : pinned_subnets (replay c rs) = pinned_subnets c.
Proof.
  unfold replay. induction rs as [|r rs IH] using rev_ind; [done|].
  rewrite foldl_app. cbn [foldl]. by rewrite pinned_add_provider.
Qed.

Lemma bounded_replay c rs : bounded c → bounded (replay c rs).
Proof.
  revert c. induction rs as [|r rs IH]; intros c Hc; [done|].
  apply IH, bounded_add_provider, Hc.
Qed.

(** ** Theorems *)

(** Whatever records arrive, in
    whatever order the hash map is walked, the number of tracked subnets stays
    within [max_subnets], except for subnets the user pinned. *)
Theorem replay_bounded max static rs :
  (size (subnet_providers (replay (new max static) rs)) ≤
     Nat.max max (size (list_to_set static : gset SubnetID)))%nat.
Proof.
  destruct (bounded_replay (new max static) rs) as [Hb|Hb].
  - left. unfold new. cbn [subnet_providers]. rewrite map_size_empty. lia.
  - rewrite max_subnets_replay in Hb. cbn in Hb. lia.
  - rewrite pinned_replay in Hb. cbn in Hb. apply subseteq_size in Hb.
    rewrite size_dom in Hb. lia.
Qed.

(** C32 (what pruning removes): a pinned subnet keeps all its providers; every
    removed subnet was tracked and is gone; a subnet that survives without
    being pinned has at least as many providers as each removed one; and no
    more subnets go than the excess over the limit. *)
Theorem prune_subnets_correct c :
  let removed := (prune_subnets c).1 in
  let c' := (prune_subnets c).2 in
  (∀ id, id ∈ pinned_subnets c → subnet_providers c' !! id = subnet_providers c !! id) ∧
  (∀ id, id ∈ removed → id ∈ dom (subnet_providers c) ∧ id ∉ dom (subnet_providers c')) ∧
  (∀ id, id ∉ removed → subnet_providers c' !! id = subnet_providers c !! id) ∧
  (∀ r k, r ∈ removed → k ∈ dom (subnet_providers c') → k ∉ pinned_subnets c →
     (size (providers (subnet_providers c) r) ≤ size (providers (subnet_providers c) k))%nat) ∧
  (size removed ≤ size (subnet_providers c) - max_subnets c)%nat.
Proof.
  cbv zeta. rewrite prune_subnets_dom.
  destruct (prune_subnets_spec c) as (-> & Hlk & _). setoid_rewrite Hlk.
  setoid_rewrite elem_of_list_to_set. split_and!.
  - intros id Hid. rewrite decide_False; [done|]. by intros [_ ?]%elem_of_prune_victims.
  - intros id Hid. split; [by apply elem_of_prune_victims|]. set_solver.
  - intros id Hid. by rewrite decide_False.
  - intros r k Hr [Hk Hnk]%elem_of_difference Hpin.
    apply prune_victims_smallest; [done..|]. by rewrite elem_of_list_to_set in Hnk.
  - rewrite size_list_to_set by apply NoDup_prune_victims.
    unfold prune_victims. rewrite length_take. lia.
Qed.

(** When a routable peer publishes a
    record newer than its last one, the peer provides exactly the subnets of
    the record, every other peer's associations are as before, the record's
    timestamp is remembered, and only unpinned subnets are pruned. *)
Lemma add_provider_snapshot r c :
  pr_peer_id r ∈ routable_peers c →
  (known_timestamp c (pr_peer_id r) < pr_timestamp r)%Z →
  let c' := (add_provider r c).2 in
  ∃ pruned : gset SubnetID,
    (∀ id q, q ∈ providers_of_subnet c' id ↔
       id ∉ pruned ∧
       if decide (q = pr_peer_id r) then id ∈ pr_subnet_ids r
       else q ∈ providers_of_subnet c id) ∧
    (∀ id, id ∈ pruned → id ∉ pinned_subnets c) ∧
    (∀ q, known_timestamp c' q =
       if decide (pr_peer_id r = q) then pr_timestamp r else known_timestamp c q) ∧
    routable_peers c' = routable_peers c ∧ pinned_subnets c' = pinned_subnets c.
Proof.
  intros Hr Hts. cbv zeta. rewrite add_provider_fresh by done. cbn [snd].
  exists (prune_subnets (recorded r c)).1.
  destruct (prune_subnets_spec (recorded r c)) as (Hrm & _ & _ & Hpin & Hrt & Hpt).
  split_and!; [| | |done|done].
  - intros id q. rewrite elem_of_providers_of_subnet, pruned_providers, recorded_providers.
    by destruct (decide _); rewrite ?elem_of_providers_of_subnet.
  - intros id. rewrite Hrm. intros Hid%elem_of_list_to_set.
    by apply elem_of_prune_victims in Hid as [_ ?].
  - intros q. rewrite <-known_timestamp_recorded. unfold known_timestamp. by rewrite Hpt.
Qed.

(** C38 (reported changes of providers): the delta of a record is exact.  The reported additions are, without repetition,
    the associations of the peer that are new, the reported removals are the
    ones its newer record gave up, and [is_new] tells whether the peer had a
    timestamp. *)
Theorem add_provider_delta r c d :
  (add_provider r c).1 = Some d →
  let c' := (add_provider r c).2 in
  let p := pr_peer_id r in
  NoDup (delta_added d) ∧ NoDup (delta_removed d) ∧
  (∀ id, id ∈ delta_added d ↔
     p ∉ providers_of_subnet c id ∧ p ∈ providers_of_subnet c' id) ∧
  (∀ id, id ∈ delta_removed d ↔
     p ∈ providers_of_subnet c id ∧ id ∉ pr_subnet_ids r ∧
     (known_timestamp c p < pr_timestamp r)%Z) ∧
  (delta_is_new d = true ↔ peer_timestamps c !! p = None).
Proof.
  intros Hd. cbv zeta.
  destruct (decide (pr_peer_id r ∈ routable_peers c)) as [Hr|Hr];
    [|by rewrite add_provider_unroutable in Hd].
  assert (Hnew : negb (has_timestamp c (pr_peer_id r)) = true ↔
    peer_timestamps c !! pr_peer_id r = None).
  { unfold has_timestamp. rewrite negb_true_iff, bool_decide_eq_false.
    symmetry. apply eq_None_not_Some. }
  setoid_rewrite elem_of_providers_of_subnet.
  destruct (Z.lt_ge_cases (known_timestamp c (pr_peer_id r)) (pr_timestamp r)) as [Hlt|Hge].
  - rewrite add_provider_fresh in * by done. cbn [fst snd] in *. simplify_eq.
    cbn [delta_added delta_removed delta_is_new].
    set (m := remove_unsupported _ _ _) in *.
    destruct (add_supported_added (pr_peer_id r) (pr_subnet_ids r) m.1) as [Hnd Hin].
    destruct (remove_unsupported_removed (pr_peer_id r) (list_to_set (pr_subnet_ids r))
      (subnet_providers c)) as [Hnd' Hin'].
    split_and!; [by apply NoDup_filter|done| |set_solver|done].
    intros id. rewrite list_elem_of_filter, Hin, pruned_providers, recorded_providers.
    rewrite decide_True by done. unfold m. rewrite remove_unsupported_providers.
    destruct (decide _); set_solver.
  - rewrite add_provider_stale in * by done. cbn [fst snd] in *. simplify_eq.
    cbn [delta_added delta_removed delta_is_new subnet_providers set_timestamps].
    split_and!; [constructor|constructor|set_solver| |done].
    intros id. split; [set_solver|]. intros (_ & _ & ?). lia.
Qed.

(** A record of a peer without a known
    address is refused and the cache is untouched; a record that is not newer
    than the last one yields an empty delta and leaves every association in
    place. *)
Lemma add_provider_ignored r c :
  (pr_peer_id r ∉ routable_peers c → add_provider r c = (None, c)) ∧
  (pr_peer_id r ∈ routable_peers c →
   (pr_timestamp r ≤ known_timestamp c (pr_peer_id r))%Z →
   ∃ d, (add_provider r c).1 = Some d ∧ delta_is_empty d = true ∧
     subnet_providers (add_provider r c).2 = subnet_providers c ∧
     (∀ q, known_timestamp (add_provider r c).2 q = known_timestamp c q)).
Proof.
  split; [apply add_provider_unroutable|]. intros Hr Hts.
  rewrite add_provider_stale by done. eexists. split_and!; [done..|].
  intros q. cbn [snd]. rewrite known_timestamp_insert. by destruct (decide _) as [->|].
Qed.

(** ** Histories of calls

    The specification of the cache looks at one peer at a time: a peer is
    unroutable, routable but not heard of, or heard of with the timestamp and the
    subnets that count.  A peer that is heard of for the first time is compared
    with timestamp 0, the default of [Timestamp]: a first record with this
    timestamp makes the peer known, but its subnets do not count. *)
Inductive peer_view :=
  | Unroutable
  | Silent
  | Heard (t : Timestamp) (ids : list SubnetID).

Definition hear (r : ProviderRecord) (t : Timestamp) (ids : list SubnetID) : peer_view :=
  if decide (t < pr_timestamp r)%Z then Heard (pr_timestamp r) (pr_subnet_ids r) else Heard t ids.

Definition view_step (p : PeerId) (v : peer_view) (op : cache_op) : peer_view :=
  match op, v with
  | OpSetRoutable q, Unroutable => if decide (q = p) then Silent else v
  | OpSetUnroutable q, _ => if decide (q = p) then Unroutable else v
  | OpAddProvider r, Silent => if decide (pr_peer_id r = p) then hear r timestamp_default [] else v
  | OpAddProvider r, Heard t ids => if decide (pr_peer_id r = p) then hear r t ids else v
  | OpPruneProviders cutoff, Heard t _ => if decide (t < cutoff)%Z then Unroutable else v
  | _, _ => v
  end.

Definition view (p : PeerId) (ops : list cache_op) : peer_view := foldl (view_step p) Unroutable ops.

Definition view_timestamp (v : peer_view) : Timestamp :=
  match v with Heard t _ => t | _ => timestamp_default end.

Definition op_subnets (op : cache_op) : gset SubnetID :=
  match op with OpAddProvider r => list_to_set (pr_subnet_ids r) | _ => ∅ end.

(** The cache shows a peer as the specification says. *)
Definition shows (c : SubnetProviderCache) (p : PeerId) (v : peer_view) : Prop :=
  match v with
  | Unroutable =>
      p ∉ routable_peers c ∧ peer_timestamps c !! p = None ∧ ∀ id, p ∉ providers (subnet_providers c) id
  | Silent =>
      p ∈ routable_peers c ∧ peer_timestamps c !! p = None ∧ ∀ id, p ∉ providers (subnet_providers c) id
  | Heard t ids =>
      p ∈ routable_peers c ∧ peer_timestamps c !! p = Some t ∧
      ∀ id, p ∈ providers (subnet_providers c) id ↔ id ∈ ids
  end.

Lemma shows_known_timestamp c p v : shows c p v → known_timestamp c p = view_timestamp v.
Proof. unfold known_timestamp. destruct v as [| |t ids]; intros (_ & -> & _); done. Qed.

(** What is shown of a peer depends on its own entries only. *)
Lemma shows_same c c' p v :
  (p ∈ routable_peers c' ↔ p ∈ routable_peers c) → peer_timestamps c' !! p = peer_timestamps c !! p →
  (∀ id, p ∈ providers (subnet_providers c') id ↔ p ∈ providers (subnet_providers c) id) →
  shows c p v → shows c' p v.
Proof.
  intros Hr Ht Hp. destruct v; cbn; rewrite Hr, Ht; intros (? & ? & Hids);
    (split_and!; [done|done|]); intros id; rewrite Hp; apply Hids.
Qed.

Lemma shows_unroutable_all ps c p v :
  shows c p v →
  shows (foldl (λ c p, set_unroutable p c) c ps) p (if decide (p ∈ ps) then Unroutable else v).
Proof.
  intros Hv. destruct (unroutable_all_lookup ps c) as (Ht & Hp & Hr & _).
  destruct (decide (p ∈ ps)) as [Hin|Hin].
  - cbn. rewrite Ht, decide_True by done. rewrite Hr. setoid_rewrite Hp. set_solver.
  - apply (shows_same c); [..|exact Hv].
    + rewrite Hr. set_solver.
    + by rewrite Ht, decide_False.
    + intros id. rewrite Hp. set_solver.
Qed.

Lemma shows_prune_providers cutoff c p v :
  shows c p v → shows (prune_providers cutoff c).2 p (view_step p v (OpPruneProviders cutoff)).
Proof.
  intros Hv. pose proof (elem_of_pruned_peers cutoff c p) as Hin.
  pose proof (shows_unroutable_all (prune_providers cutoff c).1 c p v Hv) as Hs.
  change (foldl _ c _) with (prune_providers cutoff c).2 in Hs.
  assert (view_step p v (OpPruneProviders cutoff) =
    if decide (p ∈ (prune_providers cutoff c).1) then Unroutable else v) as ->; [|done].
  destruct v as [| |t ids]; [by destruct (decide _)| |];
    destruct Hv as (_ & Ht & _); cbn [view_step].
  - rewrite decide_False; [done|]. intros (t & Ht' & _)%Hin. by pose proof (eq_trans (eq_sym Ht) Ht').
  - apply decide_ext. rewrite Hin. split; [by exists t|]. intros (t' & Ht' & ?). by pose proof (eq_trans (eq_sym Ht) Ht') as [= ->].
Qed.

(** Adding a record while there is room. *)
Lemma shows_add_provider r c p v :
  (size (dom (subnet_providers c) ∪ list_to_set (pr_subnet_ids r)) ≤ max_subnets c)%nat →
  shows c p v → shows (add_provider r c).2 p (view_step p v (OpAddProvider r)).
Proof.
  intros Hroom Hv. destruct (decide (pr_peer_id r ∈ routable_peers c)) as [Hr|Hr].
  2:{ rewrite add_provider_unroutable by done. cbn [snd].
      destruct v; cbn in *; try done; (rewrite decide_False; [done|naive_solver]). }
  assert (pr_peer_id r = p → v ≠ Unroutable) as Hne by (intros <- ->; by destruct Hv as [? _]).
  destruct (Z.lt_ge_cases (known_timestamp c (pr_peer_id r)) (pr_timestamp r)) as [Hlt|Hge].
  - rewrite add_provider_fresh by done. cbn [snd]. rewrite prune_subnets_small.
    2:{ by rewrite <-size_dom, recorded_dom. }
    cbn [snd]. destruct (decide (pr_peer_id r = p)) as [<-|Hp].
    + rewrite (shows_known_timestamp _ _ _ Hv) in Hlt.
      assert (view_step (pr_peer_id r) v (OpAddProvider r) = Heard (pr_timestamp r) (pr_subnet_ids r)) as ->.
      { unfold view_step, hear. destruct v; [naive_solver|..]; cbn in Hlt; by rewrite !decide_True. }
      cbn [shows]. split_and!; [done|apply lookup_insert_eq|]. intros id.
      by rewrite recorded_providers, decide_True.
    + assert (view_step p v (OpAddProvider r) = v) as ->.
      { destruct v; cbn; by rewrite ?decide_False. }
      apply (shows_same c); [done|exact (lookup_insert_ne _ _ _ _ Hp)| |exact Hv].
      intros id. by rewrite recorded_providers, decide_False.
  - rewrite add_provider_stale by done. cbn [snd]. destruct (decide (pr_peer_id r = p)) as [<-|Hp].
    + pose proof (shows_known_timestamp _ _ _ Hv) as Hk. rewrite Hk in *.
      destruct v as [| |t ids]; [naive_solver|..]; cbn in *; rewrite decide_True by done; unfold hear;
        rewrite decide_False by lia; cbn; rewrite lookup_insert_eq; destruct Hv as (_ & _ & Hids);
        split_and!; try done. intros id. specialize (Hids id). set_solver.
    + assert (view_step p v (OpAddProvider r) = v) as ->.
      { destruct v; cbn; by rewrite ?decide_False. }
      apply (shows_same c); [done|exact (lookup_insert_ne _ _ _ _ Hp)|done|exact Hv].
Qed.

Lemma shows_step op c p v :
  (size (dom (subnet_providers c) ∪ op_subnets op) ≤ max_subnets c)%nat →
  shows c p v → shows (run_cache_op c op) p (view_step p v op).
Proof.
  intros Hroom Hv. destruct op as [id|id|q|q|r|cutoff]; cbn [run_cache_op].
  - by destruct v.
  - by destruct v.
  - destruct (decide (q = p)) as [->|Hq].
    + destruct v; cbn in *; rewrite ?decide_True by done; set_solver.
    + assert (view_step p v (OpSetRoutable q) = v) as ->.
      { destruct v; cbn; by rewrite ?decide_False. }
      apply (shows_same c); [|done|done|exact Hv]. cbn. set_solver.
  - pose proof (shows_unroutable_all [q] c p v Hv) as Hs. cbn [foldl] in Hs.
    assert (view_step p v (OpSetUnroutable q) = if decide (p ∈ [q]) then Unroutable else v) as ->; [|done].
    destruct v; cbn; apply decide_ext; set_solver.
  - by apply shows_add_provider.
  - by apply shows_prune_providers.
Qed.

Lemma dom_run_cache_op c op :
  dom (subnet_providers (run_cache_op c op)) ⊆ dom (subnet_providers c) ∪ op_subnets op ∧
  max_subnets (run_cache_op c op) = max_subnets c.
Proof.
  destruct op as [id|id|q|q|r|cutoff]; cbn [run_cache_op op_subnets].
  - split; [cbn; set_solver|done].
  - split; [cbn; set_solver|done].
  - split; [cbn; set_solver|done].
  - split; [|done]. destruct (unroutable_all_lookup [q] c) as (_ & _ & _ & Hd). cbn [foldl] in Hd.
    rewrite Hd. set_solver.
  - split; [|apply max_subnets_add_provider].
    destruct (decide (pr_peer_id r ∈ routable_peers c)); [|rewrite add_provider_unroutable by done; set_solver].
    destruct (Z.lt_ge_cases (known_timestamp c (pr_peer_id r)) (pr_timestamp r)).
    + rewrite add_provider_fresh by done. cbn [snd]. rewrite prune_subnets_dom, recorded_dom. set_solver.
    + rewrite add_provider_stale by done. set_solver.
  - unfold prune_providers. cbn [snd]. generalize ((filter (λ e : PeerId * Timestamp, (e.2 < cutoff)%Z)
      (map_iter (peer_timestamps c))).*1). intros ps.
    destruct (unroutable_all_lookup ps c) as (_ & _ & _ & ->). split; [set_solver|].
    revert c. induction ps as [|q ps IH]; intros c; [done|]. cbn [foldl]. by rewrite IH.
Qed.

Lemma run_cache_shows ops c :
  (size (dom (subnet_providers c) ∪ ⋃ (op_subnets <$> ops)) ≤ max_subnets c)%nat →
  ∀ p v, shows c p v → shows (foldl run_cache_op c ops) p (foldl (view_step p) v ops).
Proof.
  revert c. induction ops as [|op ops IH]; intros c Hroom p v Hv; [done|]. cbn [foldl].
  destruct (dom_run_cache_op c op) as [Hdom Hmax]. rewrite fmap_cons in Hroom. cbn [union_list foldr] in Hroom.
  apply IH.
  - rewrite Hmax. etrans; [|exact Hroom]. apply subseteq_size. unfold union_list. set_solver.
  - apply shows_step; [|done]. etrans; [|exact Hroom]. apply subseteq_size. set_solver.
Qed.

(** Calls after which a record of [r]'s peer still counts: the peer is neither made
    unroutable nor pruned, and sends nothing later. *)
Definition keeps (r : ProviderRecord) (op : cache_op) : Prop :=
  match op with
  | OpSetUnroutable q => q ≠ pr_peer_id r
  | OpAddProvider r' => pr_peer_id r' = pr_peer_id r → (pr_timestamp r' ≤ pr_timestamp r)%Z
  | OpPruneProviders cutoff => (cutoff ≤ pr_timestamp r)%Z
  | _ => True
  end.

Lemma view_keeps r post :
  Forall (keeps r) post →
  foldl (view_step (pr_peer_id r)) (Heard (pr_timestamp r) (pr_subnet_ids r)) post =
    Heard (pr_timestamp r) (pr_subnet_ids r).
Proof.
  induction 1 as [|op post Hop _ IH]; [done|]. cbn [foldl]. etrans; [|exact IH]. f_equal.
  destruct op; cbn in *; try done.
  - by rewrite decide_False.
  - destruct (decide _) as [He|]; [|done]. unfold hear. rewrite decide_False; [done|]. specialize (Hop He). lia.
  - by rewrite decide_False by lia.
Qed.

(** C1 (the cache implements its specification): after any sequence of calls of
    the cache, with room for all the subnets that the records mention, every peer
    is shown as the specification says: whether it is routable, its timestamp, and
    the subnets it is listed for.  In particular, a record that its peer sends
    while routable, later than anything that counts for the peer (and than
    timestamp 0), decides for which subnets the peer is listed until the peer is
    made unroutable, pruned or sends a later one. *)
Theorem cache_refines max static ops :
  (size (⋃ (op_subnets <$> ops)) ≤ max)%nat →
  let c := foldl run_cache_op (new max static) ops in
  (∀ p, match view p ops with
        | Unroutable => p ∉ routable_peers c ∧ peer_timestamps c !! p = None ∧
                        ∀ id, p ∉ providers_of_subnet c id
        | Silent => p ∈ routable_peers c ∧ peer_timestamps c !! p = None ∧
                    ∀ id, p ∉ providers_of_subnet c id
        | Heard t ids => p ∈ routable_peers c ∧ peer_timestamps c !! p = Some t ∧
                         ∀ id, p ∈ providers_of_subnet c id ↔ id ∈ ids
        end) ∧
  (∀ pre r post, ops = pre ++ OpAddProvider r :: post →
     view (pr_peer_id r) pre ≠ Unroutable →
     (view_timestamp (view (pr_peer_id r) pre) < pr_timestamp r)%Z → Forall (keeps r) post →
     ∀ id, pr_peer_id r ∈ providers_of_subnet c id ↔ id ∈ pr_subnet_ids r).
Proof.
  intros Hsz c.
  assert (∀ p, shows c p (view p ops)) as Hshows.
  { intros p. apply run_cache_shows; cbn.
    - rewrite dom_empty_L, (left_id_L ∅ (∪)). done.
    - split_and!; [set_solver|apply lookup_empty|]. intros id. unfold providers. rewrite lookup_empty. set_solver. }
  split.
  { intros p. specialize (Hshows p). destruct (view p ops); setoid_rewrite elem_of_providers_of_subnet;
      exact Hshows. }
  setoid_rewrite elem_of_providers_of_subnet. intros pre r post -> Hne Hlt Hkeep.
  specialize (Hshows (pr_peer_id r)). unfold view in Hshows. rewrite foldl_app in Hshows.
  fold (view (pr_peer_id r) pre) in Hshows. cbn [foldl] in Hshows.
  assert (view_step (pr_peer_id r) (view (pr_peer_id r) pre) (OpAddProvider r) =
    Heard (pr_timestamp r) (pr_subnet_ids r)) as Hv.
  { unfold view_step, hear. destruct (view _ pre); [done|..]; cbn in Hlt; by rewrite !decide_True. }
  rewrite Hv, view_keeps in Hshows by done. apply Hshows.
Qed.

(** Pruning old peers, in terms of the specification. *)
Lemma replay_prune_latest max static rs cutoff p id :
  (size (mentioned rs) ≤ max)%nat →
  p ∈ providers (subnet_providers (prune_providers cutoff (replay (new max static) rs)).2) id ↔
  id ∈ from_option pr_subnet_ids [] (latest p (since cutoff rs)).
Proof.
  intros Hsz. set (c := replay (new max static) rs).
  destruct (replay_agrees max static rs Hsz) as (Hts & Hprov & _). fold c in Hts, Hprov.
  rewrite latest_since.
  destruct (unroutable_all_lookup (prune_providers cutoff c).1 c) as (_ & Hu & _).
  change (foldl _ c _) with (prune_providers cutoff c).2 in Hu. rewrite Hu.
  rewrite elem_of_difference, elem_of_list_to_set, elem_of_pruned_peers, Hprov.
  specialize (Hts p). unfold known_timestamp in Hts.
  destruct (latest p rs) as [r|] eqn:Hl; cbn in *; [|set_solver].
  apply latest_pos in Hl.
  destruct (peer_timestamps c !! p) as [t|]; cbn in Hts;
    [subst t|unfold timestamp_default in Hts; lia].
  destruct (decide _); cbn; [naive_solver lia|].
  split; [|set_solver]. intros [_ Hn]. exfalso. apply Hn. eexists. split; [done|lia].
Qed.

(** Pruning old peers equals forgetting old records: removing the peers
    whose last record is older than the cutoff leaves the associations
    that a cache fed only with the records since the cutoff would hold. *)
Theorem replay_prune_providers max static rs cutoff p id :
  (size (mentioned rs) ≤ max)%nat →
  p ∈ providers_of_subnet (prune_providers cutoff (replay (new max static) rs)).2 id ↔
  p ∈ providers_of_subnet (replay (new max static) (since cutoff rs)) id.
Proof.
  intros Hsz. rewrite !elem_of_providers_of_subnet, replay_prune_latest by done.
  destruct (replay_agrees max static (since cutoff rs)) as (_ & -> & _); [|done].
  etrans; [|exact Hsz]. apply subseteq_size, mentioned_since.
Qed.

(** Exactly the peers with a timestamp before the
    cutoff are returned; they stop being routable and stop being providers;
    nobody else is affected. *)
Lemma prune_providers_exact cutoff c :
  let pruned := (prune_providers cutoff c).1 in
  let c' := (prune_providers cutoff c).2 in
  NoDup pruned ∧
  (∀ p, p ∈ pruned ↔ ∃ t, peer_timestamps c !! p = Some t ∧ (t < cutoff)%Z) ∧
  (∀ p, p ∈ pruned → p ∉ routable_peers c' ∧ peer_timestamps c' !! p = None ∧
     ∀ id, p ∉ providers_of_subnet c' id) ∧
  (∀ p, p ∉ pruned → (p ∈ routable_peers c' ↔ p ∈ routable_peers c) ∧
     peer_timestamps c' !! p = peer_timestamps c !! p ∧
     ∀ id, p ∈ providers_of_subnet c' id ↔ p ∈ providers_of_subnet c id).
Proof.
  cbv zeta. destruct (unroutable_all_lookup (prune_providers cutoff c).1 c)
    as (Hu1 & Hu2 & Hu3 & _).
  change (foldl _ c _) with (prune_providers cutoff c).2 in Hu1, Hu2, Hu3.
  setoid_rewrite elem_of_providers_of_subnet. setoid_rewrite Hu2. rewrite Hu3.
  setoid_rewrite elem_of_difference. setoid_rewrite elem_of_list_to_set. split_and!.
  - apply NoDup_fst_filter, NoDup_map_iter_fst.
  - apply elem_of_pruned_peers.
  - intros p Hp. rewrite Hu1, decide_True by done. naive_solver.
  - intros p Hp. rewrite Hu1, decide_False by done. naive_solver.
Qed.
End cache.

(** ** Every state the cache can reach

    The hash maps may be walked in a different order at every step. *)
Section reachable.
Context `{ResolverTypes}.

Inductive cache_step : SubnetProviderCache → SubnetProviderCache → Prop :=
  | step_pin c id : cache_step c (pin_subnet id c)
  | step_unpin c id : cache_step c (unpin_subnet id c)
  | step_set_routable c p : cache_step c (set_routable p c)
  | step_set_unroutable c p : cache_step c (set_unroutable p c)
  | step_add_provider (HI : HashIter SubnetID) c r : cache_step c (add_provider r c).2
  | step_prune_providers (HI : HashIter PeerId) c cutoff :
      cache_step c (prune_providers cutoff c).2.

(** In every state reachable from a new cache, only
    routable peers have timestamps and only peers with a timestamp are listed
    as providers of a subnet. *)
Theorem reachable_cache_inv max static c :
  rtc cache_step (new max static) c → cache_inv c.
Proof.
  assert (Hstep : ∀ a b, cache_step a b → cache_inv a → cache_inv b).
  { destruct 1; auto using cache_inv_pin, cache_inv_unpin, cache_inv_set_routable,
      cache_inv_set_unroutable, cache_inv_add_provider, cache_inv_prune_providers. }
  intros Hrtc. pose proof (cache_inv_new max static) as Hinit. revert Hinit.
  induction Hrtc; eauto.
Qed.
End reachable.

(** ** Concrete runs *)
Section demo.
#[local] Existing Instance demo_types.
#[local] Instance demo_subnet_iter : HashIter SubnetID := canonical_iter SubnetID.
#[local] Instance demo_peer_iter : HashIter PeerId := canonical_iter PeerId.

Definition demo_record (p : N) (ids : list (list N)) (t : Z) : ProviderRecord :=
  mkProviderRecord p ids t.

(** Peer 7 provides subnets 1 and 2 at time 5, and only subnet 2 at time 9. *)
Definition demo_history : list ProviderRecord :=
  [demo_record 7 [[1]; [2]] 5; demo_record 8 [[2]] 6; demo_record 7 [[2]] 9]%N.

Example demo_replay :
  let c := replay (new 3 []) demo_history in
  (providers_of_subnet c (demo_subnet [1]%N), size (providers (subnet_providers c) (demo_subnet [2]%N))) = ([], 2%nat).
Proof. vm_compute. reflexivity. Qed.

Lemma add_provider_snapshot_witness :
  let c := set_routable (demo_peer 7) (new 3 []) in
  let r := demo_record 7 [[1]; [2]]%N 5 in
  known_timestamp (add_provider r c).2 (demo_peer 7) = 5%Z.
Proof.
  cbv zeta.
  destruct (add_provider_snapshot (demo_record 7 [[1]; [2]]%N 5)
    (set_routable (demo_peer 7) (new 3 []))) as (pruned & _ & _ & Hts & _).
  - vm_compute. reflexivity.
  - vm_compute. reflexivity.
  - rewrite Hts. reflexivity.
Defined.

Lemma add_provider_delta_witness :
  let c := replay (new 3 []) (take 2 demo_history) in
  match (add_provider (demo_record 7 [[2]]%N 9) c).1 with
  | Some d => NoDup (delta_removed d) ∧ delta_removed d = [demo_subnet [1]%N]
  | None => False
  end.
Proof.
  cbv zeta. destruct (add_provider _ _).1 as [d|] eqn:Hd.
  - split; [|vm_compute in Hd; injection Hd as <-; reflexivity].
    exact (proj1 (proj2 (add_provider_delta (demo_record 7 [[2]]%N 9) _ d Hd))).
  - vm_compute in Hd. discriminate.
Defined.

(** A peer that is heard of, pruned, and heard of again. *)
Definition demo_ops : list cache_op :=
  [OpSetRoutable (demo_peer 7); OpAddProvider (demo_record 7 [[1]; [2]]%N 5); OpPin (demo_subnet [1]%N);
   OpPruneProviders 6%Z; OpAddProvider (demo_record 7 [[1]]%N 7); OpSetRoutable (demo_peer 7);
   OpAddProvider (demo_record 7 [[2]]%N 8); OpAddProvider (demo_record 7 [[1]]%N 8)].

Lemma cache_refines_witness :
  let c := foldl run_cache_op (new 3 []) demo_ops in
  peer_timestamps c !! demo_peer 7 = Some 8%Z ∧
  (∀ id, demo_peer 7 ∈ providers_of_subnet c id ↔ id ∈ [demo_subnet [2]%N]).
Proof.
  cbv zeta. destruct (cache_refines 3 [] demo_ops) as [Hv Hr]; [vm_compute; lia|]. split.
  - exact (proj1 (proj2 (Hv (demo_peer 7)))).
  - apply (Hr (take 6 demo_ops) (demo_record 7 [[2]]%N 8) (drop 7 demo_ops)); [reflexivity|vm_compute; discriminate|reflexivity|].
    repeat constructor. vm_compute. discriminate.
Defined.

Lemma replay_prune_providers_witness :
  demo_peer 8 ∈ providers_of_subnet
     (prune_providers 7%Z (replay (new 3 []) demo_history)).2 (demo_subnet [2]%N) ↔
  demo_peer 8 ∈ providers_of_subnet (replay (new 3 []) (since 7%Z demo_history)) (demo_subnet [2]%N).
Proof. apply replay_prune_providers. vm_compute. lia. Defined.

Lemma reachable_cache_inv_witness : cache_inv (set_unroutable (demo_peer 7) (set_routable (demo_peer 7) (new 3 []))).
Proof.
  apply (reachable_cache_inv 3 []). eapply rtc_l; [apply step_set_routable|].
  eapply rtc_l; [apply step_set_unroutable|]. apply rtc_refl.
Defined.
End demo.
End Cache.
