(* ===== verification/Membership.v ===== *)
(** * Subnet membership

    [ipld/resolver/src/behaviour/membership.rs]: the behaviour that publishes
    the subnets this agent provides, learns those of the other agents and
    receives votes and pre-emptively published data, all over Gossipsub.

    [Gossipsub] ([libp2p]) and [Interval] ([tokio]) are interfaces; the laws
    the behaviour relies on are [GossipLaws] and [TimerLaws] (in [Net.v]).  A method that
    takes [&mut self] is a function on the record [Behaviour], a fallible one
    runs in the state-error monad.  The clock is read once per call: [Now]
    holds its wall-clock and monotonic readings. *)
From S2P Require Import Prelude Timestamp Types Net Stats Records ProviderCache.


Module Membership.

(** ** Interfaces *)

Class Gossip `{Envelope} := {
  TopicHash : Type;
  TopicHash_eq_dec :: EqDecision TopicHash;
  TopicHash_countable :: Countable TopicHash;
  (** [IdentTopic::hash] and [Sha256Topic::hash] of a topic's name. *)
  ident_hash : string → TopicHash;
  sha256_hash : string → TopicHash;
  MessageId : Type;
  (** [blake2b_simd]: the digest with the given hash length. *)
  blake2b_digest : nat → bytes → bytes;
  message_id_from : bytes → MessageId;

  GossipsubConfig : Type;
  (** [GossipsubConfigBuilder::build] with a maximum transmit size and a
      message id function, which may panic ([None]). *)
  gossipsub_config_build : Z → (bytes → option MessageId) → result string GossipsubConfig;
  Gossipsub : Type;
  gossipsub_new : Keypair → GossipsubConfig → result string Gossipsub;
  (** [with_peer_score], given the topics with default score parameters. *)
  with_peer_score : list TopicHash → Gossipsub → result string () * Gossipsub;
  SubscriptionError : Type;
  PublishError : Type;
  gs_subscribe : TopicHash → Gossipsub → result SubscriptionError bool * Gossipsub;
  gs_unsubscribe : TopicHash → Gossipsub → result PublishError bool * Gossipsub;
  gs_publish : TopicHash → bytes → Gossipsub → result PublishError MessageId * Gossipsub;
}.

Record GossipsubMessage `{Gossip} := mkMessage {
  msg_source : option PeerId;
  msg_topic : TopicHash;
  msg_data : bytes;
}.
Arguments mkMessage {_ _ _} _ _ _.

Inductive GossipsubEvent `{Gossip} :=
  | GsMessage (m : GossipsubMessage)
  | GsSubscribed (peer_id : PeerId) (topic : TopicHash)
  | GsUnsubscribed (peer_id : PeerId) (topic : TopicHash)
  | GossipsubNotSupported (peer_id : PeerId).

(** The events and swarm actions [Gossipsub] produces when polled, and the two
    notifications the swarm hands to it. *)
Class GossipPoll `{Gossip} `{!Multiaddrs} := {
  (** Every [NetworkBehaviourAction] other than [GenerateEvent]. *)
  SwarmAction : Type;
  HandlerEvent : Type;
  gs_poll : Gossipsub → option (GossipsubEvent + SwarmAction) * Gossipsub;
  gs_on_swarm_event : FromSwarm → Gossipsub → Gossipsub;
  gs_on_connection_handler_event : PeerId → HandlerEvent → Gossipsub → Gossipsub;
  gs_addresses_of_peer : PeerId → Gossipsub → list Multiaddr;
}.

(** Observers of [Gossipsub]: the topics we are subscribed to, the messages we
    have published, and how many events are waiting to be polled. *)
Class GossipLaws `{GossipPoll} := {
  gs_topics : Gossipsub → gset TopicHash;
  gs_sent : Gossipsub → list (TopicHash * bytes);
  gs_waiting : Gossipsub → nat;

  gossipsub_new_topics : ∀ k c g, gossipsub_new k c = Ok g → gs_topics g = ∅;
  with_peer_score_topics : ∀ ts g, gs_topics (with_peer_score ts g).2 = gs_topics g;
  subscribe_ok : ∀ t g b g', gs_subscribe t g = (Ok b, g') → gs_topics g' = {[t]} ∪ gs_topics g;
  subscribe_err : ∀ t g e g', gs_subscribe t g = (Err e, g') → gs_topics g' = gs_topics g;
  unsubscribe_ok : ∀ t g b g', gs_unsubscribe t g = (Ok b, g') → gs_topics g' = gs_topics g ∖ {[t]};
  unsubscribe_err : ∀ t g e g', gs_unsubscribe t g = (Err e, g') → gs_topics g' = gs_topics g;
  publish_topics : ∀ t d g, gs_topics (gs_publish t d g).2 = gs_topics g;
  publish_ok : ∀ t d g i g', gs_publish t d g = (Ok i, g') → gs_sent g' = gs_sent g ++ [(t, d)];
  publish_err : ∀ t d g e g', gs_publish t d g = (Err e, g') → gs_sent g' = gs_sent g;
  poll_topics : ∀ g, gs_topics (gs_poll g).2 = gs_topics g;
  poll_waiting : ∀ g, is_Some (gs_poll g).1 → (gs_waiting (gs_poll g).2 < gs_waiting g)%nat;
  swarm_event_topics : ∀ e g, gs_topics (gs_on_swarm_event e g) = gs_topics g;
  handler_event_topics : ∀ p e g, gs_topics (gs_on_connection_handler_event p e g) = gs_topics g;
}.

Definition PUBSUB_MEMBERSHIP : string := "/ipc/membership".

(** The name of the membership topic, [format!("{}/{}", ..)]. *)
Definition membership_topic_name (network : string) : string :=
  PUBSUB_MEMBERSHIP +:+ "/" +:+ network.

(** SHA-256 has no collisions, and the [TopicHash] of the membership topic, an
    [IdentTopic], which is the name itself, is nobody's digest. *)
Class HashesDistinct `{Gossip} := {
  sha256_hash_inj :: Inj (=) (=) sha256_hash;
  membership_sha256_ne : ∀ network s, ident_hash (membership_topic_name network) ≠ sha256_hash s;
}.

(** A digest has the length that was asked for. *)
Class Blake2bLaws `{Gossip} := {
  blake2b_digest_length : ∀ n data, length (blake2b_digest n data) = n;
}.

(** ** Data *)

Section membership.
Context `{Gossip} `{!Multiaddrs} `{!GossipPoll} `{!Timer}.
Context `{!HashIter SubnetID} `{!HashIter PeerId}.
Context `{!Serde ProviderRecord} `{!Serde VoteRecord}.

Definition PUBSUB_VOTES : string := "/ipc/ipld/votes".
Definition PUBSUB_PREEMPTIVE : string := "/ipc/ipld/pre-emptive".

Inductive Event :=
  | Updated (p : PeerId) (d : Cache.ProviderDelta)
  | Removed (p : PeerId)
  | Skipped (p : PeerId)
  | ReceivedVote (v : VoteRecord)
  | ReceivedPreemptive (id : SubnetID) (data : bytes).

Record NetworkConfig := mkNetworkConfig {
  nc_local_key : Keypair;
  nc_network_name : string;
}.

Definition local_public_key (nc : NetworkConfig) : PublicKey := public (nc_local_key nc).
Definition local_peer_id (nc : NetworkConfig) : PeerId := to_peer_id (local_public_key nc).

Record Config := mkConfig {
  mc_static_subnets : list SubnetID;
  mc_max_subnets : nat;
  mc_publish_interval : Duration;
  mc_min_time_between_publish : Duration;
  mc_max_provider_age : Duration;
}.

Inductive ConfigError :=
  | InvalidNetwork (name : string)
  | InvalidGossipsubConfig (s : string)
  | Subscription (e : SubscriptionError).

(** The [anyhow::Error]s of the fallible methods. *)
Inductive MembershipError :=
  | ESubscription (e : SubscriptionError)
  | EPublish (e : PublishError)
  | ERecord (e : RecordError).

Record Behaviour := mkBehaviour {
  inner : Gossipsub;
  outbox : list Event;
  local_key : Keypair;
  network_name : string;
  membership_topic : string;
  subnet_ids : list SubnetID;
  voting_topics : gset TopicHash;
  preemptive_topics : gmap TopicHash SubnetID;
  provider_cache : Cache.SubnetProviderCache;
  publish_interval : Interval;
  min_time_between_publish : Duration;
  last_publish_timestamp : Timestamp;
  next_publish_timestamp : Timestamp;
  max_provider_age : Duration;
  stats : Stats;
}.

Definition set_inner (x : Gossipsub) (b : Behaviour) : Behaviour :=
  mkBehaviour x (outbox b) (local_key b) (network_name b) (membership_topic b) (subnet_ids b)
    (voting_topics b) (preemptive_topics b) (provider_cache b) (publish_interval b)
    (min_time_between_publish b) (last_publish_timestamp b) (next_publish_timestamp b)
    (max_provider_age b) (stats b).
Definition set_outbox (x : list Event) (b : Behaviour) : Behaviour :=
  mkBehaviour (inner b) x (local_key b) (network_name b) (membership_topic b) (subnet_ids b)
    (voting_topics b) (preemptive_topics b) (provider_cache b) (publish_interval b)
    (min_time_between_publish b) (last_publish_timestamp b) (next_publish_timestamp b)
    (max_provider_age b) (stats b).
Definition set_subnet_ids (x : list SubnetID) (b : Behaviour) : Behaviour :=
  mkBehaviour (inner b) (outbox b) (local_key b) (network_name b) (membership_topic b) x
    (voting_topics b) (preemptive_topics b) (provider_cache b) (publish_interval b)
    (min_time_between_publish b) (last_publish_timestamp b) (next_publish_timestamp b)
    (max_provider_age b) (stats b).
Definition set_voting_topics (x : gset TopicHash) (b : Behaviour) : Behaviour :=
  mkBehaviour (inner b) (outbox b) (local_key b) (network_name b) (membership_topic b)
    (subnet_ids b) x (preemptive_topics b) (provider_cache b) (publish_interval b)
    (min_time_between_publish b) (last_publish_timestamp b) (next_publish_timestamp b)
    (max_provider_age b) (stats b).
Definition set_preemptive_topics (x : gmap TopicHash SubnetID) (b : Behaviour) : Behaviour :=
  mkBehaviour (inner b) (outbox b) (local_key b) (network_name b) (membership_topic b)
    (subnet_ids b) (voting_topics b) x (provider_cache b) (publish_interval b)
    (min_time_between_publish b) (last_publish_timestamp b) (next_publish_timestamp b)
    (max_provider_age b) (stats b).
Definition set_provider_cache (x : Cache.SubnetProviderCache) (b : Behaviour) : Behaviour :=
  mkBehaviour (inner b) (outbox b) (local_key b) (network_name b) (membership_topic b)
    (subnet_ids b) (voting_topics b) (preemptive_topics b) x (publish_interval b)
    (min_time_between_publish b) (last_publish_timestamp b) (next_publish_timestamp b)
    (max_provider_age b) (stats b).
Definition set_publish_interval (x : Interval) (b : Behaviour) : Behaviour :=
  mkBehaviour (inner b) (outbox b) (local_key b) (network_name b) (membership_topic b)
    (subnet_ids b) (voting_topics b) (preemptive_topics b) (provider_cache b) x
    (min_time_between_publish b) (last_publish_timestamp b) (next_publish_timestamp b)
    (max_provider_age b) (stats b).
Definition set_last_publish_timestamp (x : Timestamp) (b : Behaviour) : Behaviour :=
  mkBehaviour (inner b) (outbox b) (local_key b) (network_name b) (membership_topic b)
    (subnet_ids b) (voting_topics b) (preemptive_topics b) (provider_cache b)
    (publish_interval b) (min_time_between_publish b) x (next_publish_timestamp b)
    (max_provider_age b) (stats b).
Definition set_next_publish_timestamp (x : Timestamp) (b : Behaviour) : Behaviour :=
  mkBehaviour (inner b) (outbox b) (local_key b) (network_name b) (membership_topic b)
    (subnet_ids b) (voting_topics b) (preemptive_topics b) (provider_cache b)
    (publish_interval b) (min_time_between_publish b) (last_publish_timestamp b) x
    (max_provider_age b) (stats b).
Definition set_stats (x : Stats) (b : Behaviour) : Behaviour :=
  mkBehaviour (inner b) (outbox b) (local_key b) (network_name b) (membership_topic b)
    (subnet_ids b) (voting_topics b) (preemptive_topics b) (provider_cache b)
    (publish_interval b) (min_time_between_publish b) (last_publish_timestamp b)
    (next_publish_timestamp b) (max_provider_age b) x.

(** The monad of the fallible methods, and the calls into [Gossipsub]. *)
Definition M (A : Type) : Type := stM Behaviour MembershipError A.

Definition subscribe (t : TopicHash) : M bool := λ b,
  let '(r, g) := gs_subscribe t (inner b) in (map_err ESubscription r, set_inner g b).
Definition unsubscribe (t : TopicHash) : M bool := λ b,
  let '(r, g) := gs_unsubscribe t (inner b) in (map_err EPublish r, set_inner g b).
Definition publish (t : TopicHash) (d : bytes) (b : Behaviour) :
    result PublishError MessageId * Behaviour :=
  let '(r, g) := gs_publish t d (inner b) in (r, set_inner g b).

Definition push_event (e : Event) (b : Behaviour) : Behaviour :=
  set_outbox (outbox b ++ [e]) b.
Definition inc (m : Metric) (b : Behaviour) : Behaviour := set_stats (stats_inc m (stats b)) b.
Definition dec (m : Metric) (b : Behaviour) : Behaviour := set_stats (stats_dec m (stats b)) b.

(** ** Topics *)

(** [str::replace('/', "_")]. *)
Fixpoint replace_slash (s : string) : string :=
  match s with
  | EmptyString => EmptyString
  | String c s => String (if decide (c = "/"%char) then "_"%char else c) (replace_slash s)
  end.

(** The names of the other topics, [format!("{}/{}/{}", ..)]. *)
Definition preemptive_topic_name (network : string) (id : SubnetID) : string :=
  PUBSUB_PREEMPTIVE +:+ "/" +:+ replace_slash network +:+ "/" +:+
    replace_slash (subnet_to_string id).
Definition voting_topic_name (network : string) (id : SubnetID) : string :=
  PUBSUB_VOTES +:+ "/" +:+ replace_slash network +:+ "/" +:+
    replace_slash (subnet_to_string id).

(** Their hashes, in a running behaviour. *)
Definition membership_hash (b : Behaviour) : TopicHash := ident_hash (membership_topic b).
Definition preemptive_topic (b : Behaviour) (id : SubnetID) : TopicHash :=
  sha256_hash (preemptive_topic_name (network_name b) id).
Definition voting_topic (b : Behaviour) (id : SubnetID) : TopicHash :=
  sha256_hash (voting_topic_name (network_name b) id).

Definition preemptive_subscribe (id : SubnetID) : M () :=
  topic ← gets (λ b, preemptive_topic b id);
  _ ← subscribe topic;
  modify (λ b, set_preemptive_topics (<[topic := id]> (preemptive_topics b)) b).

Definition preemptive_unsubscribe (id : SubnetID) : M () :=
  topic ← gets (λ b, preemptive_topic b id);
  _ ← unsubscribe topic;
  modify (λ b, set_preemptive_topics (delete topic (preemptive_topics b)) b).

Definition voting_subscribe (id : SubnetID) : M () :=
  topic ← gets (λ b, voting_topic b id);
  _ ← subscribe topic;
  modify (λ b, set_voting_topics ({[topic]} ∪ voting_topics b) b).

Definition voting_unsubscribe (id : SubnetID) : M () :=
  topic ← gets (λ b, voting_topic b id);
  _ ← unsubscribe topic;
  modify (λ b, set_voting_topics (voting_topics b ∖ {[topic]}) b).

(** ** Publishing *)

Definition publish_membership (now : Now) : M () := λ b,
  match provider_record_signed (wall now) (local_key b) (subnet_ids b) with
  | Err e => (Err (ERecord e), b)
  | Ok r =>
      let data := into_protobuf_encoding (into_envelope r) in
      match publish (membership_hash b) data b with
      | (Err e, b) => (Err (EPublish e), inc MEMBERSHIP_PUBLISH_FAILURE b)
      | (Ok _, b) =>
          let b := inc MEMBERSHIP_PUBLISH_SUCCESS b in
          let b := set_last_publish_timestamp (wall now) b in
          let b := set_next_publish_timestamp
                     (last_publish_timestamp b +ₜ period (publish_interval b)) b in
          (Ok (), set_publish_interval (interval_reset (mono now) (publish_interval b)) b)
      end
  end.

Definition publish_counted (t : TopicHash) (data : bytes) : M () := λ b,
  match publish t data b with
  | (Err e, b) => (Err (EPublish e), inc MEMBERSHIP_PUBLISH_FAILURE b)
  | (Ok _, b) => (Ok (), inc MEMBERSHIP_PUBLISH_SUCCESS b)
  end.

Definition publish_vote (vote : SignedVoteRecord) : M () :=
  topic ← gets (λ b, voting_topic b (vr_subnet_id (record vote)));
  publish_counted topic (into_protobuf_encoding (into_envelope vote)).

Definition publish_preemptive (id : SubnetID) (data : bytes) : M () :=
  topic ← gets (λ b, preemptive_topic b id);
  publish_counted topic data.

(** ** Subnets provided by this agent, and pinned subnets *)

Definition set_provided_subnets (now : Now) (ids : list SubnetID) : M () :=
  old ← gets subnet_ids;
  modify (set_subnet_ids []);;
  for_each (λ id, when (bool_decide (id ∉ ids)) (voting_unsubscribe id)) old;;
  for_each (λ id, when (bool_decide (id ∉ old)) (voting_subscribe id)) ids;;
  modify (set_subnet_ids ids);;
  publish_membership now.

Definition add_provided_subnet (now : Now) (id : SubnetID) : M () :=
  ids ← gets subnet_ids;
  if decide (id ∈ ids) then mret () else
  voting_subscribe id;;
  modify (λ b, set_subnet_ids (subnet_ids b ++ [id]) b);;
  publish_membership now.

Definition remove_provided_subnet (now : Now) (id : SubnetID) : M () :=
  ids ← gets subnet_ids;
  if decide (id ∉ ids) then mret () else
  voting_unsubscribe id;;
  modify (λ b, set_subnet_ids (filter (λ i, i ≠ id) (subnet_ids b)) b);;
  publish_membership now.

Definition pin_subnet (id : SubnetID) : M () :=
  preemptive_subscribe id;;
  modify (λ b, set_provider_cache (Cache.pin_subnet id (provider_cache b)) b).

Definition unpin_subnet (id : SubnetID) : M () :=
  preemptive_unsubscribe id;;
  modify (λ b, set_provider_cache (Cache.unpin_subnet id (provider_cache b)) b).

(** ** Peers *)

Definition publish_for_new_peer (now : Now) (_ : PeerId) (b : Behaviour) : Behaviour :=
  if decide (subnet_ids b = []) then b else
  if (wall now -ₜ min_time_between_publish b <? last_publish_timestamp b)%Z then b
  else if (next_publish_timestamp b <=? wall now +ₜ min_time_between_publish b)%Z then b
  else
    let delayed := instant_add (mono now) (min_time_between_publish b) in
    let b := set_next_publish_timestamp (wall now +ₜ min_time_between_publish b) b in
    set_publish_interval (interval_at delayed (period (publish_interval b))) b.

Definition set_routable (now : Now) (p : PeerId) (b : Behaviour) : Behaviour :=
  let b := set_provider_cache (Cache.set_routable p (provider_cache b)) b in
  let b := set_stats (stats_set MEMBERSHIP_ROUTABLE_PEERS
                        (Z.of_nat (Cache.num_routable (provider_cache b))) (stats b)) b in
  publish_for_new_peer now p b.

Definition set_unroutable (p : PeerId) (b : Behaviour) : Behaviour :=
  let b := set_provider_cache (Cache.set_unroutable p (provider_cache b)) b in
  push_event (Removed p) b.

Definition providers_of_subnet (b : Behaviour) (id : SubnetID) : list PeerId :=
  Cache.providers_of_subnet (provider_cache b) id.

(** ** Incoming messages *)

Definition handle_provider_record (now : Now) (r : ProviderRecord) (b : Behaviour) : Behaviour :=
  let '(delta, cache) := Cache.add_provider r (provider_cache b) in
  let b := set_provider_cache cache b in
  let '(event, do_publish, b) :=
    match delta with
    | None => (Some (Skipped (pr_peer_id r)), false, inc MEMBERSHIP_SKIPPED_PEERS b)
    | Some d =>
        if Cache.delta_is_empty d && negb (Cache.delta_is_new d) then (None, false, b)
        else (Some (Updated (pr_peer_id r) d), Cache.delta_is_new d, b)
    end in
  let b := match event with Some e => push_event e b | None => b end in
  if (do_publish : bool) then
    publish_for_new_peer now (pr_peer_id r) (inc MEMBERSHIP_PROVIDER_PEERS b)
  else b.

Definition handle_vote_record (v : VoteRecord) (b : Behaviour) : Behaviour :=
  push_event (ReceivedVote v) b.

Definition handle_preemptive_data (id : SubnetID) (data : bytes) (b : Behaviour) : Behaviour :=
  push_event (ReceivedPreemptive id data) b.

Definition handle_message (now : Now) (msg : GossipsubMessage) (b : Behaviour) : Behaviour :=
  if decide (msg_topic msg = membership_hash b) then
    match into_record <$> from_bytes (R:=ProviderRecord) (msg_data msg) with
    | Ok r => handle_provider_record now r b
    | Err _ => inc MEMBERSHIP_INVALID_MESSAGE b
    end
  else if decide (msg_topic msg ∈ voting_topics b) then
    match into_record <$> from_bytes (R:=VoteRecord) (msg_data msg) with
    | Ok v => handle_vote_record v b
    | Err _ => inc MEMBERSHIP_INVALID_MESSAGE b
    end
  else
    match preemptive_topics b !! msg_topic msg with
    | Some id => handle_preemptive_data id (msg_data msg) b
    | None => inc MEMBERSHIP_UNKNOWN_TOPIC b
    end.

Definition handle_subscriber (now : Now) (p : PeerId) (topic : TopicHash) (b : Behaviour) :
    Behaviour :=
  if decide (topic = membership_hash b) then publish_for_new_peer now p b else b.

Definition report_removed (pruned : list PeerId) (b : Behaviour) : Behaviour :=
  foldl (λ b p, push_event (Removed p) (dec MEMBERSHIP_PROVIDER_PEERS b)) b pruned.

Definition prune_membership (now : Now) (b : Behaviour) : Behaviour :=
  let cutoff := wall now -ₜ max_provider_age b in
  let '(pruned, cache) := Cache.prune_providers cutoff (provider_cache b) in
  report_removed pruned (set_provider_cache cache b).

(** ** Polling *)

(** [Poll<NetworkBehaviourAction<Event, _>>]; [OutOfFuel] is the model's. *)
Inductive PollResult :=
  | Ready (a : Event + SwarmAction)
  | Pending
  | OutOfFuel.

Definition is_pending (r : PollResult) : bool :=
  match r with Pending => true | Ready _ | OutOfFuel => false end.

Definition handle_gossip_event (now : Now) (ev : GossipsubEvent) (b : Behaviour) : Behaviour :=
  match ev with
  | GsSubscribed p t => handle_subscriber now p t b
  | GsUnsubscribed _ _ => b
  | GossipsubNotSupported _ => b
  | GsMessage m => handle_message now m b
  end.

(** The [while let] loop over the events of [Gossipsub]. *)
Fixpoint poll_gossip (fuel : nat) (now : Now) (b : Behaviour) : PollResult * Behaviour :=
  match fuel with
  | O => (OutOfFuel, b)
  | S fuel =>
      let '(ev, g) := gs_poll (inner b) in
      let b := set_inner g b in
      match ev with
      | None => (Pending, b)
      | Some (inr other) => (Ready (inr other), b)
      | Some (inl ev) => poll_gossip fuel now (handle_gossip_event now ev b)
      end
  end.

Definition publish_on_tick (now : Now) (b : Behaviour) : Behaviour :=
  let '(tick, i) := poll_tick (mono now) (publish_interval b) in
  let b := set_publish_interval i b in
  if tick then prune_membership now (snd (publish_membership now b)) else b.

Definition poll (fuel : nat) (now : Now) (b : Behaviour) : PollResult * Behaviour :=
  match outbox b with
  | ev :: evs => (Ready (inl ev), set_outbox evs b)
  | [] => poll_gossip fuel now (publish_on_tick now b)
  end.

(** The rest of [impl NetworkBehaviour]. *)
Definition on_swarm_event (e : FromSwarm) (b : Behaviour) : Behaviour :=
  set_inner (gs_on_swarm_event e (inner b)) b.
Definition on_connection_handler_event (p : PeerId) (e : HandlerEvent) (b : Behaviour) :
    Behaviour :=
  set_inner (gs_on_connection_handler_event p e (inner b)) b.
Definition addresses_of_peer (p : PeerId) (b : Behaviour) : list Multiaddr :=
  gs_addresses_of_peer p (inner b).

(** ** Construction *)

(** [scoring::build_peer_score_params]: the membership topic with default
    parameters. *)
Definition build_peer_score_params (topic : TopicHash) : list TopicHash := [topic].

(** [hash.rs]: [clone_from_slice] panics when the lengths differ. *)
Definition blake2b_256 (ingest : bytes) : option bytes :=
  let digest := blake2b_digest 32 ingest in
  if (length digest =? 32)%nat then Some digest else None.

(** The [message_id_fn] given to Gossipsub. *)
Definition message_id (data : bytes) : option MessageId := message_id_from <$> blake2b_256 data.

(** The id of a message of any length is made of 32 bytes, without a panic. *)
Lemma message_id_total `{!Blake2bLaws} data :
  ∃ digest, length digest = 32%nat ∧ message_id data = Some (message_id_from digest).
Proof.
  exists (blake2b_digest 32 data). rewrite blake2b_digest_length. split; [done|].
  unfold message_id, blake2b_256. by rewrite blake2b_digest_length.
Qed.

(** [pin_subnet] only fails with a [SubscriptionError]. *)
Definition pin_error (e : MembershipError) : ConfigError :=
  match e with
  | ESubscription e => Subscription e
  | EPublish _ | ERecord _ => InvalidGossipsubConfig ""
  end.

Definition empty_behaviour (now : Now) (g : Gossipsub) (nc : NetworkConfig) (mc : Config)
    (s : Stats) : Behaviour :=
  mkBehaviour g [] (nc_local_key nc) (nc_network_name nc)
    (membership_topic_name (nc_network_name nc)) [] ∅ ∅
    (Cache.new (mc_max_subnets mc) [])
    (interval_reset (mono now) (interval (mono now) (mc_publish_interval mc)))
    (mc_min_time_between_publish mc) timestamp_default
    (wall now +ₜ mc_publish_interval mc) (mc_max_provider_age mc) s.

Definition new (now : Now) (nc : NetworkConfig) (mc : Config) (s : Stats) :
    result ConfigError Behaviour :=
  if decide (nc_network_name nc = EmptyString) then Err (InvalidNetwork (nc_network_name nc)) else
  let topic := ident_hash (membership_topic_name (nc_network_name nc)) in
  config ← map_err InvalidGossipsubConfig
    (gossipsub_config_build (2 * 2 ^ 20) message_id);
  g ← map_err InvalidGossipsubConfig (gossipsub_new (nc_local_key nc) config);
  let '(scored, g) := with_peer_score (build_peer_score_params topic) g in
  _ ← map_err InvalidGossipsubConfig scored;
  let '(subscribed, g) := gs_subscribe topic g in
  _ ← map_err Subscription subscribed;
  match for_each pin_subnet (mc_static_subnets mc) (empty_behaviour now g nc mc s) with
  | (Ok _, b) => Ok b
  | (Err e, _) => Err (pin_error e)
  end.

(** ** Topic names *)

Lemma replace_slash_no_slash s : has_char "/" (replace_slash s) = false.
Proof.
  induction s as [|c s IH]; simpl; [done|]. rewrite IH, orb_false_r.
  case_decide; by apply bool_decide_eq_false_2.
Qed.

Lemma replace_slash_inj a b :
  has_char "_" a = false → has_char "_" b = false →
  replace_slash a = replace_slash b → a = b.
Proof.
  revert b. induction a as [|c a IH]; intros [|d b]; simpl; try done.
  rewrite !orb_false_iff, !bool_decide_eq_false. intros [Hc Ha] [Hd Hb] [= Hcd Hab].
  f_equal; [|by apply IH]. by repeat case_decide; subst.
Qed.

Lemma topic_suffix_inj `{!SubnetNames} n n' id id' :
  replace_slash n +:+ "/" +:+ replace_slash (subnet_to_string id) =
    replace_slash n' +:+ "/" +:+ replace_slash (subnet_to_string id') →
  replace_slash n = replace_slash n' ∧ id = id'.
Proof.
  intros [? Hs]%app_slash_inj; [|apply replace_slash_no_slash..].
  apply replace_slash_inj in Hs; [|apply subnet_to_string_plain..].
  by simplify_eq.
Qed.

Lemma voting_topic_name_inj `{!SubnetNames} n n' id id' :
  voting_topic_name n id = voting_topic_name n' id' →
  replace_slash n = replace_slash n' ∧ id = id'.
Proof. intros [= Heq]. by apply topic_suffix_inj. Qed.

Lemma preemptive_topic_name_inj `{!SubnetNames} n n' id id' :
  preemptive_topic_name n id = preemptive_topic_name n' id' →
  replace_slash n = replace_slash n' ∧ id = id'.
Proof. intros [= Heq]. by apply topic_suffix_inj. Qed.

Lemma voting_preemptive_ne n n' id id' :
  voting_topic_name n id ≠ preemptive_topic_name n' id'.
Proof. done. Qed.

(** The voting and pre-emptive topics of any two
    subnets on any two networks differ, and for networks without underscores
    in their names two voting topics, or two pre-emptive topics, are the same
    only for the same network and subnet. *)
Lemma topic_names_separate `{!SubnetNames} n n' id id' :
  has_char "_" n = false → has_char "_" n' = false →
  voting_topic_name n id ≠ preemptive_topic_name n' id' ∧
  (voting_topic_name n id = voting_topic_name n' id' ↔ n = n' ∧ id = id') ∧
  (preemptive_topic_name n id = preemptive_topic_name n' id' ↔ n = n' ∧ id = id').
Proof.
  intros Hn Hn'. split; [apply voting_preemptive_ne|]. split; split.
  - intros [Hs ->]%voting_topic_name_inj. split; [by apply replace_slash_inj|done].
  - by intros [-> ->].
  - intros [Hs ->]%preemptive_topic_name_inj. split; [by apply replace_slash_inj|done].
  - by intros [-> ->].
Qed.

(** ** What an operation leaves alone

    Most operations change neither the subscriptions nor the subnets we
    provide or have pinned. *)

Definition pinned (b : Behaviour) : gset SubnetID := Cache.pinned_subnets (provider_cache b).

Section laws.
Context `{!GossipLaws} `{!TimerLaws}.

Definition same_subs (b b' : Behaviour) : Prop :=
  gs_topics (inner b') = gs_topics (inner b) ∧
  network_name b' = network_name b ∧
  membership_topic b' = membership_topic b ∧
  subnet_ids b' = subnet_ids b ∧
  voting_topics b' = voting_topics b ∧
  preemptive_topics b' = preemptive_topics b ∧
  pinned b' = pinned b.

#[local] Instance same_subs_preorder : PreOrder same_subs.
Proof.
  split; [by intros b|]. intros b b' b'' (?&?&?&?&?&?&?) (?&?&?&?&?&?&?).
  unfold same_subs. split_and!; by etrans.
Qed.

Ltac frame := unfold same_subs, pinned; simpl; split_and!; try done.

Lemma same_subs_set_inner g b :
  gs_topics g = gs_topics (inner b) → same_subs b (set_inner g b).
Proof. intros. by frame. Qed.
Lemma same_subs_push_event e b : same_subs b (push_event e b).
Proof. by frame. Qed.
Lemma same_subs_inc m b : same_subs b (inc m b).
Proof. by frame. Qed.
Lemma same_subs_dec m b : same_subs b (dec m b).
Proof. by frame. Qed.

Lemma same_subs_publish t d b : same_subs b (publish t d b).2.
Proof.
  unfold publish. pose proof (publish_topics t d (inner b)) as Ht.
  destruct (gs_publish t d (inner b)) as [r g]; simpl in *. by apply same_subs_set_inner.
Qed.

Lemma same_subs_publish_membership now b : same_subs b (publish_membership now b).2.
Proof.
  unfold publish_membership. destruct (provider_record_signed _ _ _) as [r|]; [|done].
  pose proof (same_subs_publish (membership_hash b)
    (into_protobuf_encoding (into_envelope r)) b) as Hp.
  destruct (publish _ _ b) as [[?|?] b1]; simpl in *; (etrans; [exact Hp|]); by frame.
Qed.

Lemma same_subs_publish_counted t d b : same_subs b (publish_counted t d b).2.
Proof.
  unfold publish_counted. pose proof (same_subs_publish t d b) as Hp.
  destruct (publish _ _ b) as [[?|?] b1]; simpl in *; (etrans; [exact Hp|]); by frame.
Qed.

Lemma same_subs_publish_for_new_peer now p b : same_subs b (publish_for_new_peer now p b).
Proof. unfold publish_for_new_peer. repeat case_match; by frame. Qed.

Lemma same_subs_set_routable now p b : same_subs b (set_routable now p b).
Proof. unfold set_routable. etrans; [|apply same_subs_publish_for_new_peer]. by frame. Qed.

Lemma same_subs_set_unroutable p b : same_subs b (set_unroutable p b).
Proof. by frame. Qed.

Lemma same_subs_set_cache c b :
  Cache.pinned_subnets c = pinned b → same_subs b (set_provider_cache c b).
Proof. intros. by frame. Qed.

Lemma same_subs_handle_provider_record now r b : same_subs b (handle_provider_record now r b).
Proof.
  unfold handle_provider_record.
  pose proof (Cache.pinned_add_provider r (provider_cache b)) as Hp.
  destruct (Cache.add_provider r (provider_cache b)) as [delta c]; simpl in Hp.
  apply (same_subs_set_cache c b) in Hp. destruct delta as [d|]; [destruct (_ && _)|].
  - done.
  - etrans; [exact Hp|]. destruct (Cache.delta_is_new d); [|apply same_subs_push_event].
    etrans; [|apply same_subs_publish_for_new_peer]. by frame.
  - etrans; [exact Hp|]. etrans; [apply same_subs_inc|apply same_subs_push_event].
Qed.

Lemma same_subs_handle_message now m b : same_subs b (handle_message now m b).
Proof.
  unfold handle_message. repeat case_match;
    first [apply same_subs_handle_provider_record | apply same_subs_inc
          | apply same_subs_push_event].
Qed.

Lemma same_subs_handle_gossip_event now ev b : same_subs b (handle_gossip_event now ev b).
Proof.
  destruct ev; simpl; [apply same_subs_handle_message| |done|done].
  unfold handle_subscriber. case_decide; [apply same_subs_publish_for_new_peer|done].
Qed.

Lemma pinned_unroutable_all ps (c : Cache.SubnetProviderCache) :
  Cache.pinned_subnets (foldl (λ c p, Cache.set_unroutable p c) c ps) = Cache.pinned_subnets c.
Proof. revert c. induction ps as [|p ps IH]; intros c; simpl; [done|]. by rewrite IH. Qed.

Lemma same_subs_report_removed ps b : same_subs b (report_removed ps b).
Proof.
  revert b. induction ps as [|p ps IH]; intros b; simpl; [done|].
  etrans; [|apply IH]. by frame.
Qed.

Lemma same_subs_prune_membership now b : same_subs b (prune_membership now b).
Proof.
  etrans; [|apply same_subs_report_removed]. apply same_subs_set_cache, pinned_unroutable_all.
Qed.

Lemma same_subs_publish_on_tick now b : same_subs b (publish_on_tick now b).
Proof.
  unfold publish_on_tick. destruct (poll_tick _ _) as [[] i]; [|by frame].
  etrans; [|apply same_subs_prune_membership]. etrans; [|apply same_subs_publish_membership].
  by frame.
Qed.

Lemma same_subs_poll_gossip fuel now b : same_subs b (poll_gossip fuel now b).2.
Proof.
  revert b. induction fuel as [|fuel IH]; intros b; simpl; [done|].
  pose proof (poll_topics (inner b)) as Ht.
  destruct (gs_poll (inner b)) as [[[ev|other]|] g]; simpl in *;
    apply (same_subs_set_inner g b) in Ht; [|done|done].
  etrans; [exact Ht|]. etrans; [apply same_subs_handle_gossip_event|apply IH].
Qed.

Lemma same_subs_poll fuel now b : same_subs b (poll fuel now b).2.
Proof.
  unfold poll. destruct (outbox b); [|by frame].
  etrans; [apply same_subs_publish_on_tick|apply same_subs_poll_gossip].
Qed.

(** ** Subscriptions *)

(** Gossipsub is subscribed to exactly the topics on record; [K] are subnets
    whose votes we receive; the pinned subnets are those whose pre-emptive data
    we receive. *)
Record subs_inv (K : list SubnetID) (b : Behaviour) : Prop := mk_subs_inv {
  subs_membership : membership_topic b = membership_topic_name (network_name b);
  subs_topics : gs_topics (inner b) =
    {[membership_hash b]} ∪ voting_topics b ∪ dom (preemptive_topics b);
  subs_votes : ∀ id, id ∈ K → voting_topic b id ∈ voting_topics b;
  subs_votes_only : ∀ t, t ∈ voting_topics b → ∃ id, t = voting_topic b id;
  subs_preemptive : ∀ t id, preemptive_topics b !! t = Some id → t = preemptive_topic b id;
  subs_pinned : ∀ id, id ∈ pinned b ↔ preemptive_topics b !! preemptive_topic b id = Some id;
}.

Lemma subs_inv_frame K b b' : same_subs b b' → subs_inv K b → subs_inv K b'.
Proof.
  intros (Hg & Hn & Hm & _ & Hv & Hp & Hc) [].
  split; unfold membership_hash, voting_topic, preemptive_topic in *;
    rewrite ?Hg, ?Hn, ?Hm, ?Hv, ?Hp, ?Hc; done.
Qed.

Lemma subs_inv_weaken K K' b : K' ⊆ K → subs_inv K b → subs_inv K' b.
Proof. intros ? []. split; auto. Qed.

Context `{!HashesDistinct} `{!SubnetNames}.

Lemma membership_hash_ne K b s : subs_inv K b → membership_hash b ≠ sha256_hash s.
Proof. intros Hb. unfold membership_hash. rewrite (subs_membership _ _ Hb). apply membership_sha256_ne. Qed.

Lemma voting_topic_inj b id id' : voting_topic b id = voting_topic b id' → id = id'.
Proof. intros Heq%(inj sha256_hash). by apply voting_topic_name_inj in Heq as [_ ?]. Qed.

Lemma preemptive_topic_inj b id id' : preemptive_topic b id = preemptive_topic b id' → id = id'.
Proof. intros Heq%(inj sha256_hash). by apply preemptive_topic_name_inj in Heq as [_ ?]. Qed.

Lemma voting_topic_preemptive_ne b id id' : voting_topic b id ≠ preemptive_topic b id'.
Proof. intros Heq%(inj sha256_hash). by apply voting_preemptive_ne in Heq. Qed.

Lemma voting_not_preemptive K b id :
  subs_inv K b → voting_topic b id ∉ dom (preemptive_topics b).
Proof.
  intros Hb [id' Hid]%elem_of_dom. apply (subs_preemptive _ _ Hb) in Hid.
  by apply voting_topic_preemptive_ne in Hid.
Qed.

Lemma preemptive_not_voting K b id :
  subs_inv K b → preemptive_topic b id ∉ voting_topics b.
Proof.
  intros Hb [id' Hid]%(subs_votes_only _ _ Hb).
  symmetry in Hid. by apply voting_topic_preemptive_ne in Hid.
Qed.

Lemma voting_subscribe_inv K id b :
  subs_inv K b →
  match voting_subscribe id b with
  | (Ok _, b') => subs_inv (id :: K) b' ∧ subnet_ids b' = subnet_ids b
  | (Err _, b') => subs_inv K b' ∧ subnet_ids b' = subnet_ids b
  end.
Proof.
  intros Hb. unfold voting_subscribe, gets, modify, subscribe, mbind, stM_bind.
  destruct (gs_subscribe _ _) as [[?|?] g] eqn:Hs; simpl; (split; [|done]).
  - apply subscribe_ok in Hs. destruct Hb as [Hm Ht Hv Hvo Hp Hc].
    split; unfold membership_hash, voting_topic, preemptive_topic, pinned in *; simpl; try done.
    + rewrite Hs, Ht. set_solver.
    + intros i [->|?]%elem_of_cons; set_solver.
    + intros t [->%elem_of_singleton|?]%elem_of_union; eauto.
  - apply subscribe_err in Hs. eapply subs_inv_frame; [|exact Hb]. by apply same_subs_set_inner.
Qed.

Lemma voting_unsubscribe_inv K id b :
  subs_inv K b →
  match voting_unsubscribe id b with
  | (Ok _, b') => subs_inv (filter (λ i, i ≠ id) K) b' ∧ subnet_ids b' = subnet_ids b
  | (Err _, b') => subs_inv K b' ∧ subnet_ids b' = subnet_ids b
  end.
Proof.
  intros Hb. unfold voting_unsubscribe, gets, modify, unsubscribe, mbind, stM_bind.
  destruct (gs_unsubscribe _ _) as [[?|?] g] eqn:Hs; simpl; (split; [|done]).
  - apply unsubscribe_ok in Hs. pose proof (membership_hash_ne _ _ (voting_topic_name (network_name b) id) Hb) as Hmne.
    pose proof (voting_not_preemptive _ _ id Hb) as Hd.
    destruct Hb as [Hm Ht Hv Hvo Hp Hc].
    split; unfold membership_hash, preemptive_topic, pinned in *; simpl; try done.
    + rewrite Hs, Ht. unfold voting_topic in *. set_solver.
    + intros i [Hne Hi]%list_elem_of_filter. apply elem_of_difference.
      split; [by apply Hv|]. intros Heq%elem_of_singleton. apply Hne.
      by apply (voting_topic_inj b).
    + intros t [? _]%elem_of_difference. by apply Hvo.
  - apply unsubscribe_err in Hs. eapply subs_inv_frame; [|exact Hb]. by apply same_subs_set_inner.
Qed.

Lemma pin_subnet_inv K id b :
  subs_inv K b → subs_inv K (pin_subnet id b).2 ∧ subnet_ids (pin_subnet id b).2 = subnet_ids b.
Proof.
  intros Hb. unfold pin_subnet, preemptive_subscribe, gets, modify, subscribe, mbind, stM_bind.
  destruct (gs_subscribe _ _) as [[?|?] g] eqn:Hs; simpl; (split; [|done]).
  - apply subscribe_ok in Hs. destruct Hb as [Hm Ht Hv Hvo Hp Hc].
    split; unfold membership_hash, voting_topic, pinned in *; simpl; try done.
    + rewrite Hs, Ht, dom_insert_L. set_solver.
    + intros t i. change (preemptive_topic _ i) with (preemptive_topic b i).
      rewrite lookup_insert_Some. intros [[<- <-]|[_ ?]]; [done|by apply Hp].
    + intros i. change (preemptive_topic (set_provider_cache _ _) i) with (preemptive_topic b i).
      rewrite elem_of_union, elem_of_singleton, lookup_insert_Some, Hc. split.
      * intros [->|?]; [by left|]. destruct (decide (i = id)) as [->|]; [by left|].
        right. split; [|done]. intros ?%preemptive_topic_inj. done.
      * intros [[_ ->]|[_ ?]]; [by left|by right].
  - apply subscribe_err in Hs. eapply subs_inv_frame; [|exact Hb]. by apply same_subs_set_inner.
Qed.

Lemma unpin_subnet_inv K id b :
  subs_inv K b →
  subs_inv K (unpin_subnet id b).2 ∧ subnet_ids (unpin_subnet id b).2 = subnet_ids b.
Proof.
  intros Hb. unfold unpin_subnet, preemptive_unsubscribe, gets, modify, unsubscribe, mbind, stM_bind.
  destruct (gs_unsubscribe _ _) as [[?|?] g] eqn:Hs; simpl; (split; [|done]).
  - apply unsubscribe_ok in Hs. pose proof (membership_hash_ne _ _ (preemptive_topic_name (network_name b) id) Hb) as Hmne.
    pose proof (preemptive_not_voting _ _ id Hb) as Hd.
    destruct Hb as [Hm Ht Hv Hvo Hp Hc].
    split; unfold membership_hash, voting_topic, pinned in *; simpl; try done.
    + rewrite Hs, Ht, dom_delete_L. unfold preemptive_topic in *. set_solver.
    + intros t i. change (preemptive_topic _ i) with (preemptive_topic b i).
      rewrite lookup_delete_Some. intros [_ ?]. by apply Hp.
    + intros i. change (preemptive_topic (set_provider_cache _ _) i) with (preemptive_topic b i).
      rewrite elem_of_difference, elem_of_singleton, lookup_delete_Some, Hc.
      split; [intros [? Hne]|intros [Hne ?]]; split; try done; intros Heq; apply Hne.
      * symmetry. by apply (preemptive_topic_inj b).
      * by subst.
  - apply unsubscribe_err in Hs. eapply subs_inv_frame; [|exact Hb]. by apply same_subs_set_inner.
Qed.

(** The loops of [set_provided_subnets]. *)
Lemma unsubscribe_loop_inv K (ids old : list SubnetID) b :
  (∀ i, i ∈ K → i ∈ ids) → subs_inv K b →
  let r := for_each (λ id, when (bool_decide (id ∉ ids)) (voting_unsubscribe id)) old b in
  subs_inv K r.2 ∧ subnet_ids r.2 = subnet_ids b.
Proof.
  intros HK. revert b. induction old as [|id old IH]; intros b Hb; simpl; [done|].
  unfold mbind, stM_bind. case_bool_decide as Hid; simpl; [|by apply IH].
  pose proof (voting_unsubscribe_inv K id b Hb) as Hu.
  destruct (voting_unsubscribe id b) as [[?|?] b1]; simpl; [|done].
  destruct Hu as [Hu Hs]. rewrite <-Hs. apply IH.
  eapply subs_inv_weaken; [|exact Hu]. intros i Hi. apply list_elem_of_filter.
  split; [|done]. intros ->. by apply Hid, HK.
Qed.

Lemma subscribe_loop_inv K (old ids : list SubnetID) b :
  subs_inv K b →
  let r := for_each (λ id, when (bool_decide (id ∉ old)) (voting_subscribe id)) ids b in
  subs_inv K r.2 ∧ subnet_ids r.2 = subnet_ids b ∧
  (r.1 = Ok () → subs_inv (filter (λ i, i ∉ old) ids ++ K) r.2).
Proof.
  revert K b. induction ids as [|id ids IH]; intros K b Hb; simpl; [by split_and!|].
  unfold mbind, stM_bind. rewrite filter_cons. case_bool_decide as Hid; simpl.
  2: { rewrite (decide_False (P := id ∉ old)) by (intros Hni; by apply Hni). by apply IH. }
  rewrite (decide_True (P := id ∉ old)) by done.
  pose proof (voting_subscribe_inv K id b Hb) as Hu.
  destruct (voting_subscribe id b) as [[?|?] b1]; simpl; [|by destruct Hu].
  destruct Hu as [Hu Hs]. rewrite <-Hs. destruct (IH _ _ Hu) as (I1 & I2 & I3).
  split_and!; [eapply subs_inv_weaken; [|exact I1]; set_solver|done|].
  intros Hok. eapply subs_inv_weaken; [|exact (I3 Hok)]. set_solver.
Qed.

Definition subscribed (b : Behaviour) : Prop := subs_inv (subnet_ids b) b.

Lemma subscribed_frame b b' : same_subs b b' → subscribed b → subscribed b'.
Proof.
  intros Hs Hb. unfold subscribed. destruct (Hs) as (_&_&_&->&_).
  by eapply subs_inv_frame.
Qed.

Lemma subs_inv_set_subnet_ids K ids b : subs_inv K b → subs_inv K (set_subnet_ids ids b).
Proof. intros []. by split. Qed.

Lemma set_provided_subnets_subscribed now ids b :
  subscribed b → subscribed (set_provided_subnets now ids b).2.
Proof.
  intros Hb. unfold set_provided_subnets, gets, modify, mbind, stM_bind; simpl.
  set (old := subnet_ids b). set (b0 := set_subnet_ids [] b).
  assert (I0 : subs_inv (filter (λ i, i ∈ ids) old) b0).
  { apply subs_inv_set_subnet_ids. eapply subs_inv_weaken; [|exact Hb].
    intros i [_ ?]%list_elem_of_filter. done. }
  destruct (unsubscribe_loop_inv (filter (λ i, i ∈ ids) old) ids old b0 ltac:(by intros i [? _]%list_elem_of_filter) I0)
    as [I1 Hs1].
  destruct (for_each _ old b0) as [[?|?] b1]; simpl in *;
    [|unfold subscribed; rewrite Hs1; eapply subs_inv_weaken; [apply list_subseteq_nil|exact I1]].
  destruct (subscribe_loop_inv _ old ids b1 I1) as (I2 & Hs2 & I3).
  destruct (for_each _ ids b1) as [[[]|?] b2]; simpl in *;
    [|unfold subscribed; rewrite Hs2, Hs1; eapply subs_inv_weaken; [apply list_subseteq_nil|exact I2]].
  eapply subscribed_frame; [apply same_subs_publish_membership|].
  apply subs_inv_set_subnet_ids. eapply subs_inv_weaken; [|exact (I3 eq_refl)].
  intros i Hi. rewrite elem_of_app, !list_elem_of_filter. simpl in Hi.
  destruct (decide (i ∈ old)); [right|left]; done.
Qed.

Lemma add_provided_subnet_subscribed now id b :
  subscribed b → subscribed (add_provided_subnet now id b).2.
Proof.
  intros Hb. unfold add_provided_subnet, gets, modify, mbind, stM_bind; simpl.
  case_decide; [done|]. pose proof (voting_subscribe_inv _ id b Hb) as Hu.
  destruct (voting_subscribe id b) as [[?|?] b1]; simpl; destruct Hu as [Hu Hs];
    [|unfold subscribed; by rewrite Hs].
  eapply subscribed_frame; [apply same_subs_publish_membership|].
  apply subs_inv_set_subnet_ids. eapply subs_inv_weaken; [|exact Hu].
  simpl. rewrite Hs. set_solver.
Qed.

Lemma remove_provided_subnet_subscribed now id b :
  subscribed b → subscribed (remove_provided_subnet now id b).2.
Proof.
  intros Hb. unfold remove_provided_subnet, gets, modify, mbind, stM_bind; simpl.
  case_decide; [done|]. pose proof (voting_unsubscribe_inv _ id b Hb) as Hu.
  destruct (voting_unsubscribe id b) as [[?|?] b1]; simpl; destruct Hu as [Hu Hs];
    [|unfold subscribed; by rewrite Hs].
  eapply subscribed_frame; [apply same_subs_publish_membership|].
  apply subs_inv_set_subnet_ids. simpl. by rewrite Hs.
Qed.

(** *** Every operation and every delivery of an event *)

Inductive step : Behaviour → Behaviour → Prop :=
  | step_set_provided now ids b : step b (set_provided_subnets now ids b).2
  | step_add_provided now id b : step b (add_provided_subnet now id b).2
  | step_remove_provided now id b : step b (remove_provided_subnet now id b).2
  | step_pin id b : step b (pin_subnet id b).2
  | step_unpin id b : step b (unpin_subnet id b).2
  | step_publish_vote v b : step b (publish_vote v b).2
  | step_publish_preemptive id d b : step b (publish_preemptive id d b).2
  | step_set_routable now p b : step b (set_routable now p b)
  | step_set_unroutable p b : step b (set_unroutable p b)
  | step_on_swarm_event e b : step b (on_swarm_event e b)
  | step_on_handler_event p e b : step b (on_connection_handler_event p e b)
  | step_poll fuel now b : step b (poll fuel now b).2.

Lemma step_subscribed b b' : step b b' → subscribed b → subscribed b'.
Proof.
  destruct 1; intros Hb.
  - by apply set_provided_subnets_subscribed.
  - by apply add_provided_subnet_subscribed.
  - by apply remove_provided_subnet_subscribed.
  - unfold subscribed. destruct (pin_subnet_inv _ id b Hb) as [? ->]. done.
  - unfold subscribed. destruct (unpin_subnet_inv _ id b Hb) as [? ->]. done.
  - eapply subscribed_frame; [|done]. apply same_subs_publish_counted.
  - eapply subscribed_frame; [|done]. apply same_subs_publish_counted.
  - eapply subscribed_frame; [|done]. apply same_subs_set_routable.
  - eapply subscribed_frame; [|done]. apply same_subs_set_unroutable.
  - eapply subscribed_frame; [|done]. apply same_subs_set_inner, swarm_event_topics.
  - eapply subscribed_frame; [|done]. apply same_subs_set_inner, handler_event_topics.
  - eapply subscribed_frame; [|done]. apply same_subs_poll.
Qed.

Lemma pin_all_inv ids b :
  subscribed b → subscribed (for_each pin_subnet ids b).2.
Proof.
  apply (preserves_for_each (E:=MembershipError) subscribed).
  intros id _ b' Hb'. unfold subscribed. destruct (pin_subnet_inv _ id b' Hb') as [? ->]. done.
Qed.

Lemma new_subscribed now nc mc s b : new now nc mc s = Ok b → subscribed b.
Proof.
  unfold new, mbind, result_bind. case_decide; [done|].
  destruct (gossipsub_config_build _ _) as [config|]; simpl; [|done].
  destruct (gossipsub_new _ _) as [g|] eqn:Hg; simpl; [|done].
  apply gossipsub_new_topics in Hg.
  pose proof (with_peer_score_topics
    (build_peer_score_params (ident_hash (membership_topic_name (nc_network_name nc)))) g) as Hw.
  destruct (with_peer_score _ g) as [[?|] g1]; simpl in *; [|done].
  destruct (gs_subscribe _ g1) as [[?|] g2] eqn:Hs; simpl; [|done].
  apply subscribe_ok in Hs.
  pose proof (pin_all_inv (mc_static_subnets mc) (empty_behaviour now g2 nc mc s)) as Hp.
  destruct (for_each pin_subnet _ _) as [[?|] b']; [|done]. intros [= <-]. apply Hp.
  split; simpl; [done| |set_solver..].
  rewrite Hs, Hw, Hg. unfold membership_hash; simpl. rewrite dom_empty_L. set_solver.
Qed.

(** C17 (subscriptions): in every state reached from [new] by any sequence of
    calls and polls, failed ones included, Gossipsub is subscribed to exactly
    the membership topic, the recorded voting topics and the pre-emptive topics
    of the pinned subnets; every recorded voting topic is the one of a subnet, and
    those of the provided subnets are among them; and each recorded pre-emptive
    topic is attributed to the pinned subnet whose topic it is.  The hashes of
    topics are taken to be free of collisions ([HashesDistinct]). *)
Theorem reachable_subscribed now nc mc s b0 b :
  new now nc mc s = Ok b0 → rtc step b0 b →
  membership_hash b = ident_hash (membership_topic_name (network_name b)) ∧
  gs_topics (inner b) =
    {[membership_hash b]} ∪ voting_topics b ∪ set_map (preemptive_topic b) (pinned b) ∧
  (∀ id, id ∈ subnet_ids b → voting_topic b id ∈ voting_topics b) ∧
  (∀ t, t ∈ voting_topics b → ∃ id, t = voting_topic b id) ∧
  (∀ t id, preemptive_topics b !! t = Some id ↔ t = preemptive_topic b id ∧ id ∈ pinned b).
Proof.
  intros Hnew%new_subscribed Hsteps.
  assert (Hb : subscribed b).
  { induction Hsteps as [|b0 b1 b2 Hs _ IH]; [done|]. apply IH. by eapply step_subscribed. }
  destruct Hb as [Hm Ht Hv Hvo Hp Hc]. split_and!; [unfold membership_hash; by rewrite Hm| |done|done|].
  - rewrite Ht. f_equal. apply set_eq. intros t. rewrite elem_of_dom, elem_of_map. split.
    + intros [id Hid]. pose proof (Hp _ _ Hid) as ->. exists id. by rewrite Hc.
    + intros (id & -> & Hid%Hc). eauto.
  - intros t id. split; [|intros [-> ?]; by apply Hc].
    intros Hid. pose proof (Hp _ _ Hid) as ->. by rewrite Hc.
Qed.

(** ** Scheduling *)

(** The two tests of [publish_for_new_peer] when it does schedule. *)
Definition should_publish (now : Now) (b : Behaviour) : Prop :=
  subnet_ids b ≠ [] ∧
  (last_publish_timestamp b ≤ wall now -ₜ min_time_between_publish b)%Z ∧
  (wall now +ₜ min_time_between_publish b < next_publish_timestamp b)%Z.

Definition schedule_publish (now : Now) (b : Behaviour) : Behaviour :=
  set_publish_interval
    (interval_at (instant_add (mono now) (min_time_between_publish b)) (period (publish_interval b)))
    (set_next_publish_timestamp (wall now +ₜ min_time_between_publish b) b).

Lemma publish_for_new_peer_cases now p b :
  (should_publish now b ∧ publish_for_new_peer now p b = schedule_publish now b) ∨
  (¬ should_publish now b ∧ publish_for_new_peer now p b = b).
Proof.
  unfold should_publish, publish_for_new_peer, schedule_publish.
  case_decide; [right; split; [tauto|done]|].
  ipc_cases; [right; split; [lia|done]..|left]. split; [split_and!; [done|lia..]|done].
Qed.

(** Meeting a new peer never moves the
    next publication of our record to a later time; when it brings it forward,
    then to exactly [min_time_between_publish] from now, with the timer's next
    tick at that moment and its period unchanged; and no later joiner, however
    many there are, changes the schedule again. *)
Theorem publish_for_new_peer_schedule now p b (joiners : list (Now * PeerId)) :
  Forall (λ j, (wall now ≤ wall j.1)%Z) joiners →
  let b' := publish_for_new_peer now p b in
  (next_publish_timestamp b' ≤ next_publish_timestamp b)%Z ∧
  (b' = b ∨
     next_publish_timestamp b' = wall now +ₜ min_time_between_publish b ∧
     next_tick (publish_interval b') = instant_add (mono now) (min_time_between_publish b) ∧
     period (publish_interval b') = period (publish_interval b) ∧
     foldl (λ b j, publish_for_new_peer j.1 j.2 b) b' joiners = b').
Proof.
  intros Hj. simpl. destruct (publish_for_new_peer_cases now p b)
    as [[(Hne & Hl & Hn) ->]|[_ ->]]; [|by split; [lia|left]].
  split; [simpl; lia|right]. simpl.
  rewrite next_tick_at, period_interval_at. split_and!; [done..|].
  set (b' := schedule_publish now b).
  induction Hj as [|[now' p'] js Hle Hj IH]; [done|]. cbn [foldl fst snd].
  destruct (publish_for_new_peer_cases now' p' b') as [[(_ & _ & Hn') _]|[_ ->]]; [|done].
  exfalso. simpl in *.
  unfold timestamp_add, saturating_add_u64 in *. lia.
Qed.

(** ** Publishing *)

Lemma publish_membership_ok now b b' :
  publish_membership now b = (Ok (), b') →
  ∃ sr g i,
    provider_record_signed (wall now) (local_key b) (subnet_ids b) = Ok sr ∧
    gs_publish (membership_hash b) (wire sr) (inner b) = (Ok i, g) ∧
    inner b' = g ∧ last_publish_timestamp b' = wall now ∧
    next_publish_timestamp b' = wall now +ₜ period (publish_interval b) ∧
    publish_interval b' = interval_reset (mono now) (publish_interval b).
Proof.
  unfold publish_membership, publish.
  destruct (provider_record_signed _ _ _) as [sr|] eqn:Hs; [|done].
  destruct (gs_publish _ _ _) as [[i|] g] eqn:Hp; [|done].
  intros [= <-]. exists sr, g, i. by split_and!.
Qed.

Lemma handle_own_record now sr b :
  from_bytes (wire sr) = Ok sr →
  handle_message now (mkMessage None (membership_hash b) (wire sr)) b =
    handle_provider_record now (record sr) b.
Proof. intros Hw. unfold handle_message; simpl. rewrite decide_True by done. by rewrite Hw. Qed.

Lemma publish_for_new_peer_cache now p b :
  provider_cache (publish_for_new_peer now p b) = provider_cache b.
Proof. destruct (publish_for_new_peer_cases now p b) as [[_ ->]|[_ ->]]; done. Qed.

Lemma handle_provider_record_cache now r b :
  provider_cache (handle_provider_record now r b) =
    (Cache.add_provider r (provider_cache b)).2.
Proof.
  unfold handle_provider_record.
  destruct (Cache.add_provider r (provider_cache b)) as [[d|] c]; [|done].
  destruct (_ && _); [done|]. destruct (Cache.delta_is_new d); [|done].
  by rewrite publish_for_new_peer_cache.
Qed.

Lemma provider_record_signed_record now key ids sr :
  provider_record_signed now key ids = Ok sr →
  record sr = mkProviderRecord (to_peer_id (public key)) ids now.
Proof.
  unfold provider_record_signed, signed_record_new, mbind, result_bind.
  destruct (to_vec _); simpl; [|done]. destruct (envelope_new _ _ _ _); simpl; [|done].
  by intros [= <-].
Qed.

(** A signed record, received by an agent that can route to the signer. *)
Lemma signed_record_delivered `{!EnvelopeLaws} `{!SerdeLaws ProviderRecord} now key ids sr now' b id q :
  let p := to_peer_id (public key) in
  provider_record_signed now key ids = Ok sr →
  p ∈ Cache.routable_peers (provider_cache b) → (Cache.known_timestamp (provider_cache b) p < now)%Z →
  id ∈ pinned b ∨
  (size (dom (Cache.subnet_providers (provider_cache b)) ∪ list_to_set ids) ≤
     Cache.max_subnets (provider_cache b))%nat →
  q ∈ providers_of_subnet (handle_message now' (mkMessage None (membership_hash b) (wire sr)) b) id ↔
    if decide (q = p) then id ∈ ids else q ∈ providers_of_subnet b id.
Proof.
  intros p Hsr Hroute Hts Hroom.
  rewrite (handle_own_record now' sr b) by (by eapply provider_record_roundtrip).
  unfold providers_of_subnet. rewrite handle_provider_record_cache.
  rewrite (provider_record_signed_record _ _ _ _ Hsr). fold p.
  set (r := mkProviderRecord p ids now).
  rewrite (Cache.add_provider_fresh r) by done. cbn [snd].
  rewrite Cache.elem_of_providers_of_subnet, Cache.pruned_providers, Cache.recorded_providers.
  change (pr_peer_id r) with p. change (pr_subnet_ids r) with ids.
  enough (Hnp : id ∉ (Cache.prune_subnets (Cache.recorded r (provider_cache b))).1).
  { destruct (decide (q = p)); [tauto|]. rewrite Cache.elem_of_providers_of_subnet. tauto. }
  destruct Hroom as [Hpin|Hroom].
  - destruct (Cache.prune_subnets_spec (Cache.recorded r (provider_cache b))) as (-> & _).
    intros [_ Hn]%elem_of_list_to_set%Cache.elem_of_prune_victims. by apply Hn.
  - rewrite Cache.prune_subnets_small; [set_solver|].
    rewrite <-size_dom, Cache.recorded_dom. exact Hroom.
Qed.

(** Membership is delivered: a successful [publish_membership] puts one
    message on the membership topic and restarts the heartbeat.  When an agent
    on the same network that can route to the publisher receives this message,
    and has not seen a later record, then for every subnet that it has pinned
    (or that its cache has room for) it lists the publisher as a provider
    exactly when the publisher provides it; on the same subnets nothing changes
    for any other peer. *)
Theorem membership_delivered `{!EnvelopeLaws} `{!SerdeLaws ProviderRecord}
    now a a' :
  publish_membership now a = (Ok (), a') →
  let p := to_peer_id (public (local_key a)) in
  next_tick (publish_interval a') = instant_add (mono now) (period (publish_interval a)) ∧
  ∃ data,
    gs_sent (inner a') = gs_sent (inner a) ++ [(membership_hash a, data)] ∧
    ∀ now' b, membership_topic b = membership_topic a →
      p ∈ Cache.routable_peers (provider_cache b) →
      (Cache.known_timestamp (provider_cache b) p < wall now)%Z →
      let b' := handle_message now' (mkMessage None (membership_hash a) data) b in
      ∀ id q,
        id ∈ pinned b ∨
        (size (dom (Cache.subnet_providers (provider_cache b)) ∪ list_to_set (subnet_ids a)) ≤
           Cache.max_subnets (provider_cache b))%nat →
        q ∈ providers_of_subnet b' id ↔
          if decide (q = p) then id ∈ subnet_ids a else q ∈ providers_of_subnet b id.
Proof.
  intros (sr & g & i & Hsr & Hpub & Hin & _ & _ & Hiv)%publish_membership_ok p.
  split; [by rewrite Hiv, next_tick_reset|].
  exists (wire sr). split; [rewrite Hin; by eapply publish_ok|].
  intros now' b Htopic Hroute Hts b' id q Hroom. unfold b', membership_hash. rewrite <-Htopic.
  by eapply signed_record_delivered.
Qed.

(** ** Routing of messages *)

(** In a state that satisfies the
    subscription invariant, a vote signed by a validator and received on the
    topic of a subnet we provide is reported once, as it was signed; data
    received on the pre-emptive topic of a pinned subnet is reported with that
    subnet; bytes that do not parse are counted as invalid and a message on any
    other topic as unknown, and neither changes anything else. *)
Theorem handle_message_routing `{!EnvelopeLaws} `{!SerdeLaws VoteRecord} now b :
  subscribed b →
  (∀ id t key subnet cid claim sv, id ∈ subnet_ids b →
     vote_record_signed t key subnet cid claim = Ok sv →
     handle_message now (mkMessage None (voting_topic b id) (wire sv)) b =
       push_event (ReceivedVote (record sv)) b) ∧
  (∀ id data, id ∈ pinned b →
     handle_message now (mkMessage None (preemptive_topic b id) data) b =
       push_event (ReceivedPreemptive id data) b) ∧
  (∀ data, is_err (from_bytes (R:=ProviderRecord) data) = true →
     handle_message now (mkMessage None (membership_hash b) data) b =
       inc MEMBERSHIP_INVALID_MESSAGE b) ∧
  (∀ t data, t ∉ gs_topics (inner b) →
     handle_message now (mkMessage None t data) b = inc MEMBERSHIP_UNKNOWN_TOPIC b).
Proof.
  intros Hb. split_and!.
  - intros id t key subnet cid claim sv Hid Hsv. unfold handle_message; simpl.
    rewrite decide_False by (symmetry; by eapply membership_hash_ne).
    rewrite decide_True by by apply (subs_votes _ _ Hb).
    by rewrite (vote_record_roundtrip _ _ _ _ _ _ Hsv).
  - intros id data Hid. unfold handle_message; simpl.
    rewrite decide_False by (symmetry; by eapply membership_hash_ne).
    rewrite decide_False by by eapply preemptive_not_voting.
    apply (subs_pinned _ _ Hb) in Hid. by rewrite Hid.
  - intros data Hd. unfold handle_message; simpl. rewrite decide_True by done.
    by destruct (from_bytes data).
  - intros t data Ht. rewrite (subs_topics _ _ Hb) in Ht.
    unfold handle_message; simpl. rewrite !decide_False by set_solver.
    assert (preemptive_topics b !! t = None) as -> by (apply not_elem_of_dom; set_solver).
    done.
Qed.

(** ** Pruning *)

Lemma outbox_report_removed ps b :
  outbox (report_removed ps b) = outbox b ++ (Removed <$> ps) ∧
  provider_cache (report_removed ps b) = provider_cache b ∧
  stats (report_removed ps b) MEMBERSHIP_PROVIDER_PEERS =
    (stats b MEMBERSHIP_PROVIDER_PEERS - Z.of_nat (length ps))%Z.
Proof.
  revert b. induction ps as [|p ps IH]; intros b.
  { split_and!; [by rewrite app_nil_r|done|cbn; lia]. }
  unfold report_removed in *. cbn [foldl]. destruct (IH
    (push_event (Removed p) (dec MEMBERSHIP_PROVIDER_PEERS b))) as (-> & -> & ->).
  split_and!; [|done|].
  - cbn. by rewrite <-(assoc_L (++)).
  - cbn [stats push_event set_outbox dec set_stats length]. rewrite stats_dec_eq. lia.
Qed.

(** Silent peers are dropped: [prune_membership] drops exactly the peers
    whose last record is older than [max_provider_age]: it queues one [Removed]
    event for each, forgets their subnets and takes them off the provider
    gauge; a peer whose record is recent enough keeps all its subnets. *)
Theorem prune_membership_exact now b :
  let b' := prune_membership now b in
  in_u64 (wall now) → wf_duration (max_provider_age b) →
  (∀ p t, Cache.peer_timestamps (provider_cache b) !! p = Some t →
     in_u64 t ∧ (t + as_secs (max_provider_age b) ≤ u64_max)%Z) →
  ∃ pruned,
    NoDup pruned ∧
    (∀ p, p ∈ pruned ↔ ∃ t, Cache.peer_timestamps (provider_cache b) !! p = Some t ∧
       (t +ₜ max_provider_age b < wall now)%Z) ∧
    outbox b' = outbox b ++ (Removed <$> pruned) ∧
    stats b' MEMBERSHIP_PROVIDER_PEERS =
      (stats b MEMBERSHIP_PROVIDER_PEERS - Z.of_nat (length pruned))%Z ∧
    (∀ p id, p ∈ providers_of_subnet b' id ↔
       p ∉ pruned ∧ p ∈ providers_of_subnet b id).
Proof.
  intros b' Hnow Hage Hts.
  set (cutoff := wall now -ₜ max_provider_age b).
  set (pruned := (Cache.prune_providers cutoff (provider_cache b)).1).
  set (cache := (Cache.prune_providers cutoff (provider_cache b)).2).
  assert (Hb' : b' = report_removed pruned (set_provider_cache cache b)) by done.
  destruct (outbox_report_removed pruned (set_provider_cache cache b)) as (Ho & Hc & Hst).
  exists pruned. rewrite Hb'. split_and!.
  - apply NoDup_fst_filter, NoDup_map_iter_fst.
  - intros p. unfold pruned. rewrite Cache.elem_of_pruned_peers.
    split; intros (t & Ht & Hlt); exists t; (split; [done|]);
      destruct (Hts _ _ Ht); by apply timestamp_cutoff.
  - exact Ho.
  - exact Hst.
  - intros p id. unfold providers_of_subnet. rewrite Hc.
    rewrite !Cache.elem_of_providers_of_subnet. simpl.
    destruct (Cache.unroutable_all_lookup pruned (provider_cache b)) as (_ & Hp & _).
    change cache with (foldl (λ c p, Cache.set_unroutable p c) (provider_cache b) pruned).
    rewrite Hp, elem_of_difference, elem_of_list_to_set. tauto.
Qed.

(** ** Polling *)

Lemma publish_for_new_peer_inner now p b : inner (publish_for_new_peer now p b) = inner b.
Proof. destruct (publish_for_new_peer_cases now p b) as [[_ ->]|[_ ->]]; done. Qed.

Lemma handle_provider_record_inner now r b : inner (handle_provider_record now r b) = inner b.
Proof.
  unfold handle_provider_record.
  destruct (Cache.add_provider r (provider_cache b)) as [[d|] c]; [|done].
  destruct (_ && _); [done|]. destruct (Cache.delta_is_new d); [|done].
  by rewrite publish_for_new_peer_inner.
Qed.

Lemma handle_gossip_event_inner now ev b : inner (handle_gossip_event now ev b) = inner b.
Proof.
  destruct ev; simpl; [|unfold handle_subscriber; case_decide;
    [apply publish_for_new_peer_inner|done]|done|done].
  unfold handle_message. repeat case_match;
    first [apply handle_provider_record_inner | done].
Qed.

Lemma poll_gossip_fuel fuel now b :
  (gs_waiting (inner b) < fuel)%nat →
  (poll_gossip fuel now b).1 ≠ OutOfFuel ∧
  poll_gossip fuel now b = poll_gossip (S (gs_waiting (inner b))) now b.
Proof.
  remember (gs_waiting (inner b)) as n eqn:Hn.
  revert fuel b Hn. induction (lt_wf n) as [n _ IH]. intros fuel b -> Hf.
  destruct fuel as [|fuel]; [lia|]. cbn [poll_gossip].
  pose proof (poll_waiting (inner b)) as Hw.
  destruct (gs_poll (inner b)) as [[[ev|other]|] g]; [|done|done]. cbn [fst snd] in Hw.
  specialize (Hw (ex_intro _ _ eq_refl)).
  set (b1 := handle_gossip_event now ev (set_inner g b)).
  assert (Hi : gs_waiting (inner b1) = gs_waiting g).
  { unfold b1. by rewrite handle_gossip_event_inner. }
  destruct (IH (gs_waiting g) Hw fuel b1) as [Hne ->]; [done|lia|].
  destruct (IH (gs_waiting g) Hw (gs_waiting (inner b)) b1) as [_ ->]; [done|lia|].
  split; [|done]. intros Heq. apply Hne. rewrite <-Heq. f_equal.
  destruct (IH (gs_waiting g) Hw fuel b1) as [_ ->]; [done|lia|done].
Qed.

(** C34 (polling terminates and drains in order): [poll] returns, whatever is
    waiting in Gossipsub, with a result that does not depend on the fuel once
    there is enough; and while events are queued each poll returns the oldest
    one and does nothing else. *)
Theorem poll_terminates now b :
  (∃ n, ∀ fuel, (n < fuel)%nat →
     (poll fuel now b).1 ≠ OutOfFuel ∧ poll fuel now b = poll (S n) now b) ∧
  (∀ e es fuel, outbox b = e :: es → poll fuel now b = (Ready (inl e), set_outbox es b)).
Proof.
  split.
  - exists (gs_waiting (inner (publish_on_tick now b))). intros fuel Hf.
    unfold poll. destruct (outbox b); [|done]. by apply poll_gossip_fuel.
  - intros e es fuel Ho. unfold poll. by rewrite Ho.
Qed.

(** A subscription that fails while the provided subnets are being replaced
    leaves the agent without any: the old list was taken out and the new one is
    not yet in place. *)
Lemma set_provided_subnets_failure now ids b e b' :
  subscribed b → set_provided_subnets now ids b = (Err (ESubscription e), b') →
  subnet_ids b' = [].
Proof.
  intros Hb. unfold set_provided_subnets, gets, modify, mbind, stM_bind; simpl.
  set (old := subnet_ids b). set (b0 := set_subnet_ids [] b).
  assert (I0 : subs_inv [] b0).
  { apply subs_inv_set_subnet_ids. eapply subs_inv_weaken; [apply list_subseteq_nil|exact Hb]. }
  destruct (unsubscribe_loop_inv [] ids old b0 ltac:(set_solver) I0) as [I1 Hs1].
  destruct (for_each _ old b0) as [[?|?] b1]; simpl in *; [|by intros [= -> <-]].
  destruct (subscribe_loop_inv _ old ids b1 I1) as (_ & Hs2 & _).
  destruct (for_each _ ids b1) as [[[]|?] b2]; simpl in *;
    [|intros [= -> <-]; by rewrite Hs2].
  unfold publish_membership. destruct (provider_record_signed _ _ _); [|done].
  by destruct (publish _ _ _) as [[?|?] ?].
Qed.

End laws.
End membership.

(** ** A concrete network *)

(** A Gossipsub that keeps its topics (at most [dg_limit] of them), its outgoing
    messages and the incoming ones that wait to be polled. *)
Record DemoGossip := mkDemoGossip {
  dg_limit : nat;
  dg_topics : gset (bool * string);
  dg_sent : list ((bool * string) * bytes);
  dg_queue : list ((bool * string) * bytes);
}.

Definition demo_gossip : @Gossip demo_types demo_envelope :=
  @Build_Gossip demo_types demo_envelope
  (bool * string) _ _ (λ s, (false, s)) (λ s, (true, s)) bytes (λ n b, take n (b ++ replicate n Byte.x00)) (λ b, b)
  Z (λ n _, Ok n) DemoGossip
  (λ _ _, Ok (mkDemoGossip 5 ∅ [] []))
  (λ _ g, (Ok (), g)) string string
  (λ t g, if (size (dg_topics g) <? dg_limit g)%nat
          then (Ok true, mkDemoGossip (dg_limit g) ({[t]} ∪ dg_topics g) (dg_sent g) (dg_queue g))
          else (Err "too many topics", g))
  (λ t g, (Ok true, mkDemoGossip (dg_limit g) (dg_topics g ∖ {[t]}) (dg_sent g) (dg_queue g)))
  (λ t d g, (Ok d, mkDemoGossip (dg_limit g) (dg_topics g) (dg_sent g ++ [(t, d)]) (dg_queue g))).

Definition demo_gossip_poll : @GossipPoll demo_types demo_envelope demo_gossip demo_addrs :=
  @Build_GossipPoll demo_types demo_envelope demo_gossip demo_addrs
  Empty_set Empty_set
  (λ g : DemoGossip,
    match dg_queue g with
    | [] => (None, g)
    | (t, d) :: q =>
        (Some (inl (GsMessage (@mkMessage demo_types demo_envelope demo_gossip None t d))),
         mkDemoGossip (dg_limit g) (dg_topics g) (dg_sent g) q)
    end)
  (λ _ g, g) (λ _ _ g, g) (λ _ _, []).

Definition demo_gossip_laws :
  @GossipLaws demo_types demo_envelope demo_gossip demo_addrs demo_gossip_poll.
Proof.
  refine (@Build_GossipLaws demo_types demo_envelope demo_gossip demo_addrs demo_gossip_poll
    dg_topics dg_sent (λ g, length (dg_queue g)) _ _ _ _ _ _ _ _ _ _ _ _ _); simpl.
  - by intros k c g [= <-].
  - done.
  - intros t g b g'. destruct (_ <? _)%nat; [|done]. by intros [= _ <-].
  - intros t g e g'. destruct (_ <? _)%nat; [done|]. by intros [= _ <-].
  - by intros t g b g' [= _ <-].
  - done.
  - done.
  - by intros t d g i g' [= _ <-].
  - done.
  - intros g. by destruct (dg_queue g) as [|[]].
  - intros g. destruct (dg_queue g) as [|[]] eqn:Hq; simpl; [|lia]. by intros [? ?].
  - done.
  - done.
Defined.

#[export] Instance demo_blake2b_laws : @Blake2bLaws demo_types demo_envelope demo_gossip.
Proof. split. intros n data. cbn. rewrite length_take, length_app, length_replicate. lia. Qed.

#[export] Instance demo_hashes_distinct : @HashesDistinct demo_types demo_envelope demo_gossip.
Proof. split; [by intros a b [= ->]|done]. Qed.

Section demo.
#[local] Existing Instances demo_types demo_envelope demo_gossip demo_addrs demo_gossip_poll
  demo_gossip_laws demo_timer demo_provider_serde demo_vote_serde.
#[local] Instance demo_subnet_iter : HashIter SubnetID := canonical_iter SubnetID.
#[local] Instance demo_peer_iter : HashIter PeerId := canonical_iter PeerId.

Definition demo_nc (k : N) : NetworkConfig := mkNetworkConfig (demo_key k) "net".
Definition demo_mc (ids : list (list N)) : Config :=
  mkConfig ids 10 (duration_from_secs 60) (duration_from_secs 5) (duration_from_secs 300).

(** The behaviour of peer [k] with the subnets [ids] pinned, started at 1000. *)
Definition demo_start (k : N) (ids : list (list N)) : Behaviour :=
  match new (demo_now 1000) (demo_nc k) (demo_mc ids) (λ _, 0%Z) with
  | Ok b => b
  | Err _ => empty_behaviour (demo_now 0) (mkDemoGossip 0 ∅ [] []) (demo_nc k) (demo_mc ids) (λ _, 0%Z)
  end.

Lemma demo_start_ok k ids :
  is_ok (new (demo_now 1000) (demo_nc k) (demo_mc ids) (λ _, 0%Z)) = true →
  new (demo_now 1000) (demo_nc k) (demo_mc ids) (λ _, 0%Z) = Ok (demo_start k ids).
Proof. unfold demo_start. by destruct (new _ _ _ _). Qed.

Definition demo_agent : Behaviour :=
  (add_provided_subnet (demo_now 1001) (demo_subnet [7]%N) (demo_start 3 [])).2.

Example demo_start_topics :
  elements (voting_topics demo_agent) = [(true, "/ipc/ipld/votes/net/_root_t0111")].
Proof. vm_compute. reflexivity. Qed.

Definition demo_receiver : Behaviour :=
  set_routable (demo_now 1002) (demo_peer 3) (demo_start 5 [[7]]%N).

Lemma demo_agent_subscribed : subscribed demo_agent.
Proof.
  apply add_provided_subnet_subscribed.
  apply (new_subscribed (demo_now 1000) (demo_nc 3) (demo_mc []) (λ _, 0%Z)).
  apply demo_start_ok. by vm_compute.
Qed.

(** Concrete runs are evaluated by [vm_compute] only. *)
#[local] Opaque demo_start demo_agent demo_receiver.

Lemma topic_names_separate_witness :
  voting_topic_name "net" (demo_subnet [7]%N) ≠
    preemptive_topic_name "net" (demo_subnet [7]%N) ∧
  voting_topic_name "net" (demo_subnet [7]%N) ≠ voting_topic_name "net" (demo_subnet [8]%N).
Proof.
  pose proof (topic_names_separate "net" "net" (demo_subnet [7]%N) (demo_subnet [8]%N)
    eq_refl eq_refl) as (_ & [Hv _] & _).
  split; [apply (topic_names_separate "net" "net"); reflexivity|].
  intros Heq. by destruct (Hv Heq).
Defined.

Lemma reachable_subscribed_witness :
  let b := (pin_subnet (demo_subnet [9]%N) demo_agent).2 in
  gs_topics (inner b) =
    {[membership_hash b]} ∪ voting_topics b ∪ set_map (preemptive_topic b) (pinned b).
Proof.
  refine (proj1 (proj2 (reachable_subscribed (demo_now 1000) (demo_nc 3) (demo_mc []) (λ _, 0%Z)
    (demo_start 3 []) (pin_subnet (demo_subnet [9]%N) demo_agent).2 _ _)));
    [apply demo_start_ok; by vm_compute|].
  apply rtc_l with demo_agent; [|apply rtc_once, step_pin].
  exact (step_add_provided (demo_now 1001) (demo_subnet [7]%N) (demo_start 3 [])).
Defined.

Lemma publish_for_new_peer_schedule_witness :
  next_publish_timestamp (publish_for_new_peer (demo_now 1010) (demo_peer 4) demo_agent) = 1015%Z.
Proof.
  destruct (publish_for_new_peer_schedule (demo_now 1010) (demo_peer 4) demo_agent
    [(demo_now 1011, demo_peer 5)]) as [_ [Heq|[Hn _]]].
  - by repeat constructor.
  - exfalso. apply (f_equal next_publish_timestamp) in Heq. by vm_compute in Heq.
  - etransitivity; [exact Hn|]. by vm_compute.
Defined.

Lemma membership_delivered_witness :
  ∃ data,
    demo_peer 3 ∈ providers_of_subnet
      (handle_message (demo_now 1031) (mkMessage None (membership_hash demo_agent) data)
         demo_receiver) (demo_subnet [7]%N).
Proof.
  destruct (membership_delivered (demo_now 1030) demo_agent
    (publish_membership (demo_now 1030) demo_agent).2) as [_ (data & _ & Hd)];
    [apply run_ok; by vm_compute|].
  exists data. apply Hd.
  - by vm_compute.
  - apply (bool_decide_unpack _). by vm_compute.
  - by vm_compute.
  - left. apply (bool_decide_unpack _). by vm_compute.
  - rewrite decide_True by done. apply (bool_decide_unpack _). by vm_compute.
Defined.

Lemma handle_message_routing_witness :
  subscribed demo_agent ∧
  handle_message (demo_now 1031)
    (mkMessage None (voting_topic demo_agent (demo_subnet [7]%N)) (wire demo_signed_vote))
    demo_agent =
  push_event (ReceivedVote (record demo_signed_vote)) demo_agent.
Proof.
  pose proof demo_agent_subscribed as Hs.
  split; [done|].
  destruct (handle_message_routing (demo_now 1031) demo_agent Hs) as [Hv _].
  apply (Hv _ 100%Z (demo_key 7) (demo_subnet [1]%N) (demo_cid 5) "valid").
  - apply (bool_decide_unpack _). by vm_compute.
  - by vm_compute.
Defined.

Definition demo_informed : Behaviour :=
  handle_provider_record (demo_now 1031)
    (mkProviderRecord (demo_peer 3) [demo_subnet [7]%N] 1030%Z) demo_receiver.
#[local] Opaque demo_informed.

Lemma prune_membership_exact_witness :
  demo_peer 3 ∈ providers_of_subnet demo_informed (demo_subnet [7]%N) ∧
  demo_peer 3 ∉ providers_of_subnet (prune_membership (demo_now 2000) demo_informed)
    (demo_subnet [7]%N).
Proof.
  split; [apply (bool_decide_unpack _); by vm_compute|].
  assert (Hts : map_Forall (λ _ t, 0 ≤ t ∧ t ≤ u64_max ∧ t + 300 ≤ u64_max)%Z
    (Cache.peer_timestamps (provider_cache demo_informed)))
    by (apply (bool_decide_unpack _); by vm_compute).
  destruct (prune_membership_exact (demo_now 2000) demo_informed)
    as (pruned & _ & Hp & _ & _ & Hprov).
  - split; by vm_compute.
  - split; by vm_compute.
  - intros p t (? & ? & ?)%Hts. split; [by split|].
    replace (as_secs _) with 300%Z by by vm_compute. done.
  - intros [Hn _]%Hprov. apply Hn, Hp. exists 1030%Z. by split; vm_compute.
Defined.

(** A vote about a subnet that we do not provide is reported all the same when
    it arrives on the topic of one that we do. *)
Example foreign_vote_reported :
  vr_subnet_id (record demo_signed_vote) ∉ subnet_ids demo_agent ∧
  outbox (handle_message (demo_now 1031)
    (mkMessage None (voting_topic demo_agent (demo_subnet [7]%N)) (wire demo_signed_vote))
    demo_agent) = [ReceivedVote (record demo_signed_vote)].
Proof. split; [by apply (bool_decide_unpack _); vm_compute|by vm_compute]. Qed.

(** Events raised while a poll runs stay in the outbox when it returns
    [Pending]. *)
Definition demo_busy : Behaviour :=
  set_inner (mkDemoGossip 5 (dg_topics (inner demo_receiver)) []
    [(membership_hash demo_receiver, wire demo_signed_provider)]) demo_receiver.

Example poll_pending_with_events :
  is_pending (poll 10 (demo_now 1003) demo_busy).1 = true ∧
  outbox (poll 10 (demo_now 1003) demo_busy).2 = [Skipped (demo_peer 7)].
Proof. split; by vm_compute. Qed.
End demo.
End Membership.
