(* ===== verification/Discovery.v ===== *)
(** * Peer discovery

    [ipld/resolver/src/behaviour/discovery.rs]: periodic random lookups in
    Kademlia with an exponentially growing delay, the static peers of the
    configuration, and the buffer that holds back the peers who identify
    themselves while the bootstrap is running.  [Kademlia] is [libp2p]'s, an
    interface here; [Toggle] makes it optional. *)
From S2P Require Import Prelude Timestamp Types Net Stats Records ProviderCache Membership.

Module Discovery.

(** [identify::Info], the fields that are used. *)
Record Info `{Multiaddrs} := mkInfo {
  info_protocols : list string;
  info_listen_addrs : list Multiaddr;
}.
Arguments mkInfo {_ _} _ _.

(** [KademliaEvent]. *)
Inductive KademliaEvent `{Multiaddrs} :=
  | UnroutablePeer (peer : PeerId)
  | InboundPutRecord (source : PeerId)
  | InboundOther
  | BootstrapProgressed (last : bool)
  | QueryProgressed
  | RoutablePeer (peer : PeerId)
  | PendingRoutablePeer (peer : PeerId) (address : Multiaddr)
  | RoutingUpdated (peer : PeerId) (addresses : list Multiaddr) (old_peer : option PeerId).

Class Kad `{Multiaddrs} := {
  Kademlia : Type;
  KadAction : Type;
  KadHandlerEvent : Type;
  (** [Kademlia::with_config] for a peer and a protocol name, with record
      filtering on and an empty memory store. *)
  kad_with_config : PeerId → string → Kademlia;
  kad_add_address : PeerId → Multiaddr → Kademlia → Kademlia;
  (** [bootstrap] fails when there are no known peers. *)
  kad_bootstrap : Kademlia → option Kademlia;
  kad_get_closest_peers : PeerId → Kademlia → Kademlia;
  kad_addresses_of_peer : PeerId → Kademlia → list Multiaddr;
  kad_poll : Kademlia → option (KademliaEvent + KadAction) * Kademlia;
  kad_on_swarm_event : FromSwarm → Kademlia → Kademlia;
  kad_on_connection_handler_event : PeerId → KadHandlerEvent → Kademlia → Kademlia;
}.

(** The number of events waiting to be polled; adding an address may queue one
    more. *)
Class KadLaws `{Kad} := {
  kad_waiting : Kademlia → nat;
  kad_poll_waiting : ∀ k, is_Some (kad_poll k).1 → (kad_waiting (kad_poll k).2 < kad_waiting k)%nat;
}.

Section discovery.
Context `{Envelope} `{!Multiaddrs} `{!Kad} `{!Timer}.

Inductive Event :=
  | Added (p : PeerId) (addrs : list Multiaddr)
  | Removed (p : PeerId).

Record Config := mkConfig {
  dc_static_addresses : list Multiaddr;
  dc_target_connections : nat;
  dc_enable_kademlia : bool;
}.

Inductive ConfigError :=
  | InvalidNetwork (name : string)
  | InvalidBootstrapAddress (a : Multiaddr)
  | NoBootstrapAddress.

Record Behaviour := mkBehaviour {
  peer_id : PeerId;
  static_addresses : list (PeerId * Multiaddr);
  protocol_name : string;
  inner : option Kademlia;
  num_connections : Z;
  target_connections : nat;
  lookup_interval : Interval;
  bootstrap_buffer : option (list (PeerId * Info));
  outbox : list Event;
  stats : Stats;
}.

Definition set_inner (x : option Kademlia) (b : Behaviour) : Behaviour :=
  mkBehaviour (peer_id b) (static_addresses b) (protocol_name b) x (num_connections b)
    (target_connections b) (lookup_interval b) (bootstrap_buffer b) (outbox b) (stats b).
Definition set_num_connections (x : Z) (b : Behaviour) : Behaviour :=
  mkBehaviour (peer_id b) (static_addresses b) (protocol_name b) (inner b) x
    (target_connections b) (lookup_interval b) (bootstrap_buffer b) (outbox b) (stats b).
Definition set_lookup_interval (x : Interval) (b : Behaviour) : Behaviour :=
  mkBehaviour (peer_id b) (static_addresses b) (protocol_name b) (inner b) (num_connections b)
    (target_connections b) x (bootstrap_buffer b) (outbox b) (stats b).
Definition set_bootstrap_buffer (x : option (list (PeerId * Info))) (b : Behaviour) : Behaviour :=
  mkBehaviour (peer_id b) (static_addresses b) (protocol_name b) (inner b) (num_connections b)
    (target_connections b) (lookup_interval b) x (outbox b) (stats b).
Definition set_outbox (x : list Event) (b : Behaviour) : Behaviour :=
  mkBehaviour (peer_id b) (static_addresses b) (protocol_name b) (inner b) (num_connections b)
    (target_connections b) (lookup_interval b) (bootstrap_buffer b) x (stats b).
Definition set_stats (x : Stats) (b : Behaviour) : Behaviour :=
  mkBehaviour (peer_id b) (static_addresses b) (protocol_name b) (inner b) (num_connections b)
    (target_connections b) (lookup_interval b) (bootstrap_buffer b) (outbox b) x.

Definition push_event (e : Event) (b : Behaviour) : Behaviour :=
  set_outbox (outbox b ++ [e]) b.

(** ** Construction *)

(** The loop over the configured addresses; [None] is the panic of
    [PeerId::from_multihash(mh).unwrap()]. *)
Fixpoint parse_static_addresses (l : list Multiaddr) :
    option (result ConfigError (list (PeerId * Multiaddr))) :=
  match l with
  | [] => Some (Ok [])
  | a :: l =>
      match multiaddr_pop a with
      | Some (P2p mh, addr) =>
          match peer_id_from_multihash mh with
          | None => None
          | Some peer_id =>
              match parse_static_addresses l with
              | Some (Ok rest) => Some (Ok ((peer_id, addr) :: rest))
              | other => other
              end
          end
      | _ => Some (Err (InvalidBootstrapAddress a))
      end
  end.

Definition protocol_name_of (network : string) : string := "/ipc/" +:+ network +:+ "/kad/1.0.0".

(** The Kademlia of a new behaviour and its bootstrap buffer. *)
Definition new_kademlia (local : PeerId) (protocol : string)
    (statics : list (PeerId * Multiaddr)) :
    result ConfigError (Kademlia * option (list (PeerId * Info))) :=
  let kademlia := kad_with_config local protocol in
  match statics with
  | [] => Ok (kademlia, None)
  | _ =>
      let kademlia := foldl (λ k e, kad_add_address e.1 e.2 k) kademlia statics in
      kademlia ← ok_or NoBootstrapAddress (kad_bootstrap kademlia);
      Ok (kademlia, Some [])
  end.

Definition new (now : Now) (nc : Membership.NetworkConfig) (dc : Config) (s : Stats) :
    option (result ConfigError Behaviour) :=
  let network := Membership.nc_network_name nc in
  let local := Membership.local_peer_id nc in
  if decide (network = EmptyString) then Some (Err (InvalidNetwork network)) else
  match parse_static_addresses (dc_static_addresses dc) with
  | None => None
  | Some (Err e) => Some (Err e)
  | Some (Ok statics) =>
      let protocol := protocol_name_of network in
      Some (
        '(inner, outbox, buffer) ←
          (if dc_enable_kademlia dc then
             '(k, buffer) ← new_kademlia local protocol statics;
             Ok (Some k, [], buffer)
           else Ok (None, (λ e, Added e.1 [e.2]) <$> statics, None));
        Ok (mkBehaviour local statics protocol inner 0 (dc_target_connections dc)
              (interval (mono now) (duration_from_secs 1)) buffer outbox s))
  end.

(** ** Operations *)

Definition addresses_of_peer (p : PeerId) (b : Behaviour) : list Multiaddr :=
  (filter (λ e : PeerId * Multiaddr, e.1 = p) (static_addresses b)).*2 ++
  match inner b with
  | Some k => kad_addresses_of_peer p k
  | None => []
  end.

Definition background_lookup (p : PeerId) (b : Behaviour) : Behaviour :=
  if decide (addresses_of_peer p b = []) then
    match inner b with
    | Some k =>
        let b := set_stats (stats_inc DISCOVERY_BACKGROUND_LOOKUP (stats b)) b in
        set_inner (Some (kad_get_closest_peers p k)) b
    | None => b
    end
  else b.

Definition is_static (b : Behaviour) (p : PeerId) : bool :=
  existsb (λ e, bool_decide (e.1 = p)) (static_addresses b).

Definition add_address (p : PeerId) (a : Multiaddr) (b : Behaviour) : Behaviour :=
  match inner b with
  | Some k => set_inner (Some (kad_add_address p a k)) b
  | None => b
  end.

Definition add_identified (p : PeerId) (info : Info) (b : Behaviour) : Behaviour :=
  if decide (protocol_name b ∈ info_protocols info) then
    match bootstrap_buffer b with
    | Some buffer =>
        if (length buffer <? target_connections b)%nat &&
           negb (existsb (λ e, bool_decide (e.1 = p)) buffer)
        then set_bootstrap_buffer (Some (buffer ++ [(p, info)])) b
        else b
    | None => foldl (λ b a, add_address p a b) b (info_listen_addrs info)
    end
  else b.

(** [usize] increment and decrement of a release build. *)
Definition usize_succ (n : Z) : Z := ((n + 1) mod 2 ^ 64)%Z.
Definition usize_pred (n : Z) : Z := ((n - 1) mod 2 ^ 64)%Z.

Definition on_swarm_event (ev : FromSwarm) (b : Behaviour) : Behaviour :=
  let b :=
    match ev with
    | ConnectionEstablished _ _ other =>
        if decide (other = 0%nat) then
          set_num_connections (usize_succ (num_connections b))
            (set_stats (stats_inc DISCOVERY_CONNECTED_PEERS (stats b)) b)
        else b
    | ConnectionClosed _ remaining =>
        if decide (remaining = 0%nat) then
          set_num_connections (usize_pred (num_connections b))
            (set_stats (stats_dec DISCOVERY_CONNECTED_PEERS (stats b)) b)
        else b
    | OtherSwarmEvent _ => b
    end in
  set_inner (kad_on_swarm_event ev <$> inner b) b.

Definition on_connection_handler_event (p : PeerId) (ev : KadHandlerEvent) (b : Behaviour) :
    Behaviour :=
  set_inner (kad_on_connection_handler_event p ev <$> inner b) b.

(** ** Polling *)

Inductive PollResult :=
  | Ready (a : Event + KadAction)
  | Pending
  | OutOfFuel
  | Panicked.

(** [bootstrap_buffer.take()] and the loop that adds its peers. *)
Definition finish_bootstrap (b : Behaviour) : Behaviour :=
  match bootstrap_buffer b with
  | Some buffer =>
      foldl (λ b e, add_identified e.1 e.2 b) (set_bootstrap_buffer None b) buffer
  | None => b
  end.

Definition handle_kad_event (ev : KademliaEvent) (b : Behaviour) : Behaviour :=
  match ev with
  | UnroutablePeer _ | InboundPutRecord _ | InboundOther | RoutablePeer _ | QueryProgressed => b
  | BootstrapProgressed last => if last then finish_bootstrap b else b
  | PendingRoutablePeer p a => push_event (Added p [a]) b
  | RoutingUpdated p addrs old =>
      let b :=
        match old with
        | Some q => if is_static b q then push_event (Removed q) b else b
        | None => b
        end in
      push_event (Added p addrs) b
  end.

Fixpoint poll_kad (fuel : nat) (b : Behaviour) : PollResult * Behaviour :=
  match fuel with
  | O => (OutOfFuel, b)
  | S fuel =>
      match inner b with
      | None => (Pending, b)
      | Some k =>
          let '(ev, k) := kad_poll k in
          let b := set_inner (Some k) b in
          match ev with
          | None => (Pending, b)
          | Some (inr other) => (Ready (inr other), b)
          | Some (inl ev) => poll_kad fuel (handle_kad_event ev b)
          end
      end
  end.

(** The next delay between lookups; [None] is an overflow of [Duration * 2]. *)
Definition next_period (d : Duration) : option Duration :=
  (λ d, duration_min d (duration_from_secs 60)) <$> duration_mul d 2.

(** The periodic lookup, of a random peer; [None] is a panic. *)
Definition lookup_on_tick (now : Now) (random_peer : PeerId) (b : Behaviour) : option Behaviour :=
  let '(tick, i) := poll_tick (mono now) (lookup_interval b) in
  let b := set_lookup_interval i b in
  if tick then
    let b :=
      if (num_connections b <? Z.of_nat (target_connections b))%Z then
        set_inner (kad_get_closest_peers random_peer <$> inner b) b
      else b in
    d ← next_period (period (lookup_interval b));
    Some (set_lookup_interval (interval_reset (mono now) (interval (mono now) d)) b)
  else Some b.

Definition poll (fuel : nat) (now : Now) (random_peer : PeerId) (b : Behaviour) :
    PollResult * Behaviour :=
  match outbox b with
  | ev :: evs => (Ready (inl ev), set_outbox evs b)
  | [] =>
      match lookup_on_tick now random_peer b with
      | None => (Panicked, b)
      | Some b => poll_kad fuel b
      end
  end.

(** ** Counting connections *)

Lemma num_connections_step c s ev c' b :
  conn_step c ev c' → is_connected_set s c →
  num_connections b = Z.of_nat (size s) → (Z.of_nat (size s) < 2 ^ 64 - 1)%Z →
  ∃ s', is_connected_set s' c' ∧ num_connections (on_swarm_event ev b) = Z.of_nat (size s') ∧
    (size s' ≤ S (size s))%nat ∧
    (stats (on_swarm_event ev b) DISCOVERY_CONNECTED_PEERS - Z.of_nat (size s') =
      stats b DISCOVERY_CONNECTED_PEERS - Z.of_nat (size s))%Z.
Proof.
  intros Hstep Hs Hn Hlt. destruct Hstep as [c p ep|c p n Hp|c code].
  - exists ({[p]} ∪ s). split; [by apply is_connected_established|].
    pose proof (Hs p) as Hps. unfold on_swarm_event. case_decide as Hc; cbn.
    + assert (p ∉ s) by (rewrite Hps; lia).
      rewrite size_union, size_singleton by set_solver.
      rewrite stats_inc_eq, Hn. unfold usize_succ.
      rewrite Z.mod_small by lia. split_and!; lia.
    + assert ({[p]} ∪ s = s) as -> by (apply set_eq; intros q;
        rewrite elem_of_union, elem_of_singleton; split; [|tauto];
        intros [->|]; [rewrite Hps; lia|done]).
      split_and!; [done|lia|lia].
  - pose proof (is_connected_closed _ _ _ _ Hs Hp) as Hs'.
    pose proof (Hs p) as Hps. unfold on_swarm_event. case_decide as Hc; cbn in *.
    + exists (s ∖ {[p]}). split; [done|].
      assert (p ∈ s) as Hin by (rewrite Hps; lia).
      assert (size s = S (size (s ∖ {[p]}))) as Hsz.
      { rewrite size_difference, size_singleton by set_solver.
        assert (size s ≠ 0)%nat; [|lia]. intros ->%size_empty_inv%leibniz_equiv. set_solver. }
      rewrite stats_dec_eq, Hn. unfold usize_pred. rewrite Z.mod_small by lia.
      split_and!; lia.
    + exists s. split_and!; [done|done|lia|lia].
  - exists s. split_and!; [done|done|lia|cbn; lia].
Qed.

(** C35 (connection count): after any sequence of connection events that a swarm
    can produce, of fewer than 2^64-1 events, [num_connections] is the number of
    peers with at least one open connection, without ever wrapping below zero,
    and the gauge has moved by exactly that number. *)
Theorem num_connections_exact evs c b :
  conn_steps no_connections evs c → num_connections b = 0%Z →
  (Z.of_nat (length evs) < 2 ^ 64 - 1)%Z →
  let b' := foldl (λ b ev, on_swarm_event ev b) b evs in
  ∃ s : gset PeerId, is_connected_set s c ∧ num_connections b' = Z.of_nat (size s) ∧
    stats b' DISCOVERY_CONNECTED_PEERS =
      (stats b DISCOVERY_CONNECTED_PEERS + Z.of_nat (size s))%Z.
Proof.
  intros Hsteps Hb Hlen b'.
  enough (∃ s : gset PeerId, is_connected_set s c ∧ num_connections b' = Z.of_nat (size s) ∧
    (size s ≤ length evs)%nat ∧
    stats b' DISCOVERY_CONNECTED_PEERS =
      (stats b DISCOVERY_CONNECTED_PEERS + Z.of_nat (size s))%Z) by naive_solver.
  remember no_connections as c0 eqn:Hc0. unfold b'. clear b'.
  induction Hsteps as [c|c evs c' ev c'' Hsteps IH Hstep]; subst.
  { exists ∅. rewrite size_empty. split_and!; [|done|simpl; lia|simpl; lia].
    intros p. unfold no_connections. split; [set_solver|lia]. }
  rewrite length_app in Hlen. cbn [length] in Hlen.
  destruct IH as (s & Hs & Hn & Hsz & Hst); [done|lia|].
  rewrite foldl_snoc, length_app. cbn [length].
  destruct (num_connections_step c' s ev c'' (foldl (λ b ev, on_swarm_event ev b) b evs))
    as (s' & Hs' & Hn' & Hsz' & Hst'); [done..|lia|].
  exists s'. split_and!; [done|done|lia|lia].
Qed.

(** ** The lookup timer *)

Lemma next_period_double k :
  next_period (duration_from_secs (Z.min (2 ^ Z.of_nat k) 60)) =
    Some (duration_from_secs (Z.min (2 ^ Z.of_nat (S k)) 60)).
Proof.
  unfold next_period, duration_mul, duration_from_secs; cbn [as_nanos].
  assert (0 < 2 ^ Z.of_nat k)%Z by (apply Z.pow_pos_nonneg; lia).
  destruct (Z.leb_spec (Z.min (2 ^ Z.of_nat k) 60 * nanos_per_sec * 2) duration_max) as [_|Hgt].
  2: { unfold duration_max, nanos_per_sec, u64_max in Hgt. lia. }
  cbn [fmap option_fmap option_map]. unfold duration_min; cbn [as_nanos].
  rewrite Nat2Z.inj_succ, Z.pow_succ_r by lia. unfold nanos_per_sec.
  destruct (Z.leb_spec (Z.min (2 ^ Z.of_nat k) 60 * 1000000000 * 2) (60 * 1000000000));
    do 2 f_equal; lia.
Qed.

(** The polls of a run, each with the clock and the random peer it draws. *)
Fixpoint run_lookups (l : list (Now * PeerId)) (b : Behaviour) : option Behaviour :=
  match l with
  | [] => Some b
  | (now, r) :: l => b' ← lookup_on_tick now r b; run_lookups l b'
  end.

(** How many of them find the timer due. *)
Fixpoint lookups_fired (l : list (Now * PeerId)) (b : Behaviour) : nat :=
  match l with
  | [] => 0
  | (now, r) :: l =>
      (if (poll_tick (mono now) (lookup_interval b)).1 then 1 else 0) +
      match lookup_on_tick now r b with
      | Some b' => lookups_fired l b'
      | None => 0
      end
  end.

Lemma lookup_on_tick_period `{!TimerLaws} now r b k :
  period (lookup_interval b) = duration_from_secs (Z.min (2 ^ Z.of_nat k) 60) →
  let fired := (poll_tick (mono now) (lookup_interval b)).1 in
  ∃ b', lookup_on_tick now r b = Some b' ∧
    period (lookup_interval b') =
      duration_from_secs (Z.min (2 ^ Z.of_nat ((if fired then 1 else 0) + k)) 60) ∧
    (fired = true → next_tick (lookup_interval b') =
       instant_add (mono now) (period (lookup_interval b'))) ∧
    inner b' = if fired && (num_connections b <? Z.of_nat (target_connections b))%Z
               then kad_get_closest_peers r <$> inner b else inner b.
Proof.
  intros Hk fired. unfold lookup_on_tick.
  pose proof (period_poll (mono now) (lookup_interval b)) as Hp. unfold fired.
  destruct (poll_tick (mono now) (lookup_interval b)) as [[] i]; cbn [fst snd] in *.
  2: { exists (set_lookup_interval i b). split_and!; [done|cbn; by rewrite Hp|done|done]. }
  set (b1 := if (_ <? _)%Z then _ else _).
  assert (Hl : lookup_interval b1 = i) by (unfold b1; by destruct (_ <? _)%Z).
  rewrite Hl, Hp, Hk, next_period_double. cbn [mbind option_bind].
  eexists. split; [done|]. cbn. rewrite period_reset, period_interval.
  split_and!; [done|intros _; by rewrite next_tick_reset, period_interval|].
  unfold b1. by destruct (_ <? _)%Z.
Qed.


(** ** The bootstrap buffer *)

(** The first record of each peer. *)
Definition first_by_peer (l : list (PeerId * Info)) : list (PeerId * Info) :=
  foldl (λ acc e, if decide (e.1 ∈ acc.*1) then acc else acc ++ [e]) [] l.

(** Who gets in: the first [n] distinct peers that speak our protocol. *)
Definition admitted (protocol : string) (n : nat) (l : list (PeerId * Info)) :
    list (PeerId * Info) :=
  take n (first_by_peer (filter (λ e, protocol ∈ info_protocols e.2) l)).

Definition identify_all (l : list (PeerId * Info)) (b : Behaviour) : Behaviour :=
  foldl (λ b e, add_identified e.1 e.2 b) b l.

(** Every address of every record, in order. *)
Definition all_addresses (l : list (PeerId * Info)) : list (PeerId * Multiaddr) :=
  l ≫= λ e, (pair e.1) <$> info_listen_addrs e.2.

Definition kad_add_all (l : list (PeerId * Multiaddr)) (k : Kademlia) : Kademlia :=
  foldl (λ k e, kad_add_address e.1 e.2 k) k l.

Lemma existsb_peer (p : PeerId) (l : list (PeerId * Info)) :
  existsb (λ e, bool_decide (e.1 = p)) l = bool_decide (p ∈ l.*1).
Proof.
  induction l as [|e l IH]; cbn [existsb].
  { by rewrite bool_decide_eq_false_2 by set_solver. }
  rewrite IH, fmap_cons.
  destruct (decide (e.1 = p)) as [Heq|Hne].
  - rewrite (bool_decide_eq_true_2 (e.1 = p)) by done. cbn.
    symmetry. apply bool_decide_eq_true_2. set_solver.
  - rewrite bool_decide_eq_false_2 by done. cbn. apply bool_decide_ext. set_solver.
Qed.

Lemma admitted_snoc protocol n l e :
  admitted protocol n (l ++ [e]) =
    if decide (protocol ∈ info_protocols e.2) then
      if (length (admitted protocol n l) <? n)%nat &&
         negb (bool_decide (e.1 ∈ (admitted protocol n l).*1))
      then admitted protocol n l ++ [e] else admitted protocol n l
    else admitted protocol n l.
Proof.
  unfold admitted. rewrite filter_app, filter_cons, filter_nil.
  case_decide; [|by rewrite app_nil_r].
  unfold first_by_peer at 1. rewrite foldl_snoc. fold (first_by_peer
    (filter (λ e, protocol ∈ info_protocols e.2) l)).
  set (f := first_by_peer _). rewrite length_take.
  destruct (Nat.ltb_spec (n `min` length f) n) as [Hlt|Hge]; cbn [andb].
  - rewrite (take_ge f) by lia. case_bool_decide; case_decide; try done; cbn [negb].
    + rewrite take_ge; [done|lia].
    + rewrite take_ge; [done|]. rewrite length_app; cbn; lia.
  - case_decide; [done|]. rewrite take_app_le by lia. done.
Qed.

Lemma add_identified_buffering p info b l :
  bootstrap_buffer b = Some l →
  add_identified p info b =
    set_bootstrap_buffer (Some (
      if decide (protocol_name b ∈ info_protocols info) then
        if (length l <? target_connections b)%nat && negb (bool_decide (p ∈ l.*1))
        then l ++ [(p, info)] else l
      else l)) b.
Proof.
  intros Hl. unfold add_identified. rewrite Hl, existsb_peer.
  case_decide; [destruct (_ && _)|]; destruct b; cbn in *; by subst.
Qed.

Lemma identify_all_buffering l b :
  bootstrap_buffer b = Some [] →
  identify_all l b = set_bootstrap_buffer
    (Some (admitted (protocol_name b) (target_connections b) l)) b.
Proof.
  intros Hb. unfold identify_all.
  induction l as [|e l IH] using rev_ind.
  { unfold admitted, first_by_peer. cbn. rewrite take_nil. destruct b; cbn in *. by subst. }
  rewrite foldl_snoc, IH. rewrite (add_identified_buffering _ _ _
    (admitted (protocol_name b) (target_connections b) l)) by done.
  rewrite admitted_snoc. cbn. by destruct e.
Qed.

Lemma inner_add_address p a b :
  add_address p a b = set_inner (kad_add_address p a <$> inner b) b.
Proof. unfold add_address. destruct b as [???[]]; done. Qed.

Lemma add_addresses_inner p addrs b :
  foldl (λ b a, add_address p a b) b addrs =
    set_inner (kad_add_all (pair p <$> addrs) <$> inner b) b.
Proof.
  revert b. induction addrs as [|a addrs IH]; intros b; cbn [foldl].
  { unfold kad_add_all; cbn. destruct b as [???[]]; done. }
  rewrite IH, inner_add_address. destruct b as [???[]]; done.
Qed.

Lemma identify_all_direct l b :
  bootstrap_buffer b = None → Forall (λ e, protocol_name b ∈ info_protocols e.2) l →
  identify_all l b = set_inner (kad_add_all (all_addresses l) <$> inner b) b.
Proof.
  unfold identify_all. revert b. induction l as [|e l IH]; intros b Hb Hl; cbn [foldl].
  { unfold kad_add_all; cbn. destruct b as [???[]]; done. }
  apply Forall_cons in Hl as [He Hl]. unfold add_identified at 2.
  rewrite decide_True by done. rewrite Hb, add_addresses_inner.
  rewrite IH; [|done|done]. cbn. destruct (inner b) as [k|]; cbn; [|done].
  unfold kad_add_all, all_addresses. cbn. by rewrite foldl_app.
Qed.

Lemma admitted_protocol protocol n l :
  Forall (λ e, protocol ∈ info_protocols e.2) (admitted protocol n l).
Proof.
  apply Forall_take. unfold first_by_peer.
  assert (Forall (λ e, protocol ∈ info_protocols e.2)
    (filter (λ e : PeerId * Info, protocol ∈ info_protocols e.2) l)) as Hf.
  { apply Forall_forall. by intros e [? _]%list_elem_of_filter. }
  revert Hf. generalize (filter (λ e : PeerId * Info, protocol ∈ info_protocols e.2) l).
  intros f. induction f as [|e f IH] using rev_ind; [constructor|].
  intros [Hf He]%Forall_app. rewrite foldl_snoc. case_decide; [by apply IH|].
  apply Forall_app. split; [by apply IH|done].
Qed.

(** C25 (bootstrap buffer): however many peers identify themselves while the
    bootstrap runs, Kademlia is not touched; when the bootstrap finishes it is
    given, in order of arrival, exactly the addresses of the first
    [target_connections] distinct peers that speak our protocol, and the buffer
    is gone for good. *)
Theorem bootstrap_buffer_admits l b :
  bootstrap_buffer b = Some [] →
  inner (identify_all l b) = inner b ∧
  let b' := finish_bootstrap (identify_all l b) in
  let peers := admitted (protocol_name b) (target_connections b) l in
  inner b' = kad_add_all (all_addresses peers) <$> inner b ∧
  (length peers ≤ target_connections b)%nat ∧
  bootstrap_buffer b' = None.
Proof.
  intros Hb. rewrite identify_all_buffering by done. split; [done|].
  unfold finish_bootstrap. cbn [bootstrap_buffer set_bootstrap_buffer].
  change (foldl _ ?b ?l) with (identify_all l b). rewrite identify_all_direct.
  - split_and!; [done| |done]. unfold admitted. rewrite length_take. lia.
  - done.
  - apply admitted_protocol.
Qed.

(** ** Static peers *)

Lemma static_addresses_add_identified p info b :
  static_addresses (add_identified p info b) = static_addresses b.
Proof.
  unfold add_identified. case_decide; [|done].
  destruct (bootstrap_buffer b) as [buffer|]; [by destruct (_ && _)|].
  by rewrite add_addresses_inner.
Qed.

Lemma static_addresses_handle_kad_event ev b :
  static_addresses (handle_kad_event ev b) = static_addresses b.
Proof.
  destruct ev as [| | |[]| | | |p addrs [q|]]; try done.
  - cbn. unfold finish_bootstrap. destruct (bootstrap_buffer b) as [buffer|]; [|done].
    change (static_addresses b) with (static_addresses (set_bootstrap_buffer None b)).
    generalize (set_bootstrap_buffer None b). clear b.
    induction buffer as [|e buffer IH]; intros b; cbn; [done|].
    by rewrite IH, static_addresses_add_identified.
  - cbn. by destruct (is_static b q).
Qed.

Lemma static_addresses_poll_kad fuel b :
  static_addresses (poll_kad fuel b).2 = static_addresses b.
Proof.
  revert b. induction fuel as [|fuel IH]; intros b; cbn [poll_kad]; [done|].
  destruct (inner b) as [k|]; [|done].
  destruct (kad_poll k) as [[[ev|other]|] k']; [|done|done].
  by rewrite IH, static_addresses_handle_kad_event.
Qed.

Lemma static_addresses_lookup_on_tick now r b b' :
  lookup_on_tick now r b = Some b' → static_addresses b' = static_addresses b.
Proof.
  unfold lookup_on_tick. destruct (poll_tick _ _) as [[] i]; [|by intros [= <-]].
  destruct (next_period _) as [d|]; [|done]. intros [= <-].
  cbn. by destruct (_ <? _)%Z.
Qed.

Inductive step : Behaviour → Behaviour → Prop :=
  | step_background_lookup p b : step b (background_lookup p b)
  | step_add_identified p info b : step b (add_identified p info b)
  | step_add_address p a b : step b (add_address p a b)
  | step_on_swarm_event ev b : step b (on_swarm_event ev b)
  | step_on_handler_event p ev b : step b (on_connection_handler_event p ev b)
  | step_poll fuel now r b : step b (poll fuel now r b).2.

Lemma static_addresses_step b b' : step b b' → static_addresses b' = static_addresses b.
Proof.
  destruct 1.
  - unfold background_lookup. case_decide; [|done]. by destruct (inner b).
  - apply static_addresses_add_identified.
  - by rewrite inner_add_address.
  - unfold on_swarm_event. destruct ev; cbn; repeat case_decide; done.
  - done.
  - unfold poll. destruct (outbox b); [|done].
    destruct (lookup_on_tick now r b) as [b1|] eqn:Hl; [|done].
    rewrite static_addresses_poll_kad. by eapply static_addresses_lookup_on_tick.
Qed.

Lemma parse_static_addresses_ok l statics a :
  parse_static_addresses l = Some (Ok statics) → a ∈ l →
  ∃ mh p addr, multiaddr_pop a = Some (P2p mh, addr) ∧
    peer_id_from_multihash mh = Some p ∧ (p, addr) ∈ statics.
Proof.
  revert statics. induction l as [|x l IH]; cbn [parse_static_addresses]; [set_solver|].
  intros statics. destruct (multiaddr_pop x) as [[[] addr]|] eqn:Hx; try done.
  destruct (peer_id_from_multihash mh) as [p|] eqn:Hp; [|done].
  destruct (parse_static_addresses l) as [[rest|]|] eqn:Hl; [|done|done].
  intros [= <-] [->|Ha]%elem_of_cons.
  - exists mh, p, addr. set_solver.
  - destruct (IH rest eq_refl Ha) as (mh' & p' & addr' & ? & ? & ?).
    exists mh', p', addr'. set_solver.
Qed.

Lemma new_static now nc dc s b :
  new now nc dc s = Some (Ok b) →
  parse_static_addresses (dc_static_addresses dc) = Some (Ok (static_addresses b)).
Proof.
  unfold new. case_decide; [done|].
  destruct (parse_static_addresses _) as [[statics|]|]; [|done|done].
  destruct (dc_enable_kademlia dc); cbn [mbind result_bind].
  - destruct (new_kademlia _ _ _) as [[k buffer]|]; cbn; [|done]. by intros [= <-].
  - by intros [= <-].
Qed.

Lemma static_addresses_of_peer b p a :
  (p, a) ∈ static_addresses b → a ∈ addresses_of_peer p b.
Proof.
  intros Hin. unfold addresses_of_peer. apply elem_of_app. left.
  apply list_elem_of_fmap. exists (p, a). split; [done|]. by apply list_elem_of_filter.
Qed.

(** C39 (static peers): a behaviour only starts when every configured
    address ends with the id of a peer, and from then on, whatever happens in
    the network, asking for the addresses of such a peer returns the configured
    one and no lookup is started for it. *)
Lemma static_peers_routable now nc dc s b0 b a :
  new now nc dc s = Some (Ok b0) → rtc step b0 b → a ∈ dc_static_addresses dc →
  ∃ mh p addr, multiaddr_pop a = Some (P2p mh, addr) ∧
    peer_id_from_multihash mh = Some p ∧
    addr ∈ addresses_of_peer p b ∧ is_static b p = true ∧ background_lookup p b = b.
Proof.
  intros Hnew%new_static Hsteps Ha.
  assert (static_addresses b = static_addresses b0) as Hst.
  { clear -Hsteps. induction Hsteps as [|b0 b1 b2 Hs _ IH]; [done|].
    rewrite IH. by apply static_addresses_step. }
  destruct (parse_static_addresses_ok _ _ _ Hnew Ha) as (mh & p & addr & Hpop & Hp & Hin).
  rewrite <-Hst in Hin. pose proof (static_addresses_of_peer _ _ _ Hin) as Haddr.
  exists mh, p, addr. split_and!; [done|done|done| |].
  - unfold is_static. apply existsb_exists. exists (p, addr).
    split; [by apply list_elem_of_In|]. by apply bool_decide_eq_true_2.
  - unfold background_lookup. rewrite decide_False; [done|].
    intros Hnil. rewrite Hnil in Haddr. set_solver.
Qed.

(** A peer evicted from the routing table is not reported as removed unless it
    is static. *)
Lemma evicted_peer_not_reported b p addrs q :
  is_static b q = false →
  outbox (handle_kad_event (RoutingUpdated p addrs (Some q)) b) = outbox b ++ [Added p addrs].
Proof. intros Hq. cbn. by rewrite Hq. Qed.

(** ** Termination of polling *)

Lemma kad_event_progress ev b :
  (inner (handle_kad_event ev b) = inner b ∧
   bootstrap_buffer (handle_kad_event ev b) = bootstrap_buffer b) ∨
  (is_Some (bootstrap_buffer b) ∧ bootstrap_buffer (handle_kad_event ev b) = None).
Proof.
  destruct ev as [| | |[]| | | |p addrs [q|]]; try by left.
  - cbn. unfold finish_bootstrap. destruct (bootstrap_buffer b) as [buffer|] eqn:Hb; [|by left].
    right. split; [done|].
    assert (Hn : bootstrap_buffer (set_bootstrap_buffer None b) = None) by done.
    revert Hn. generalize (set_bootstrap_buffer None b). clear b Hb.
    induction buffer as [|e buffer IH]; intros b Hb; cbn; [done|]. apply IH.
    unfold add_identified. case_decide; [|done]. rewrite Hb. by rewrite add_addresses_inner.
  - left. cbn. by destruct (is_static b q).
Qed.

Definition poll_done (n : nat) (b : Behaviour) : Prop :=
  ∀ fuel, (n ≤ fuel)%nat →
    (poll_kad fuel b).1 ≠ OutOfFuel ∧ poll_kad fuel b = poll_kad n b.

Lemma poll_done_step n b k k' ev :
  inner b = Some k → kad_poll k = (Some (inl ev), k') →
  poll_done n (handle_kad_event ev (set_inner (Some k') b)) → poll_done (S n) b.
Proof.
  intros Hk Hp Hn [|fuel] Hf; [lia|]. cbn [poll_kad]. rewrite Hk, Hp. apply Hn. lia.
Qed.

Lemma poll_done_once b :
  (∀ k, inner b = Some k → ∀ ev, (kad_poll k).1 ≠ Some (inl ev)) → poll_done 1 b.
Proof.
  intros Hk [|fuel] Hf; [lia|]. cbn [poll_kad].
  destruct (inner b) as [k|]; [|done]. specialize (Hk k eq_refl).
  destruct (kad_poll k) as [[[ev|other]|] k']; [|done|done]. by destruct (Hk ev).
Qed.

Lemma poll_done_measure `{!KadLaws} n b :
  (is_Some (bootstrap_buffer b) → ∀ b', bootstrap_buffer b' = None → ∃ m, poll_done m b') →
  (∀ k, inner b = Some k → (kad_waiting k ≤ n)%nat) → ∃ m, poll_done m b.
Proof.
  revert b. induction n as [|n IH]; intros b Hbuf Hn.
  - exists 1%nat. apply poll_done_once. intros k Hk ev Hev.
    pose proof (kad_poll_waiting k ltac:(by rewrite Hev)). specialize (Hn k Hk). lia.
  - destruct (inner b) as [k|] eqn:Hk; [|exists 1%nat; apply poll_done_once; congruence].
    destruct (kad_poll k) as [[[ev|other]|] k'] eqn:Hp.
    2-3: exists 1%nat; apply poll_done_once; rewrite Hk; intros ? [= <-] ev; by rewrite Hp.
    pose proof (kad_poll_waiting k ltac:(by rewrite Hp)) as Hw. rewrite Hp in Hw; cbn in Hw.
    specialize (Hn k eq_refl).
    enough (∃ m, poll_done m (handle_kad_event ev (set_inner (Some k') b))) as [m Hm].
    { exists (S m). by eapply poll_done_step. }
    destruct (kad_event_progress ev (set_inner (Some k') b)) as [[Hi Hb]|[Hs Hb]].
    + apply IH; [rewrite Hb; exact Hbuf|]. rewrite Hi. intros ? [= <-]. lia.
    + by apply Hbuf.
Qed.

Lemma poll_done_exists `{!KadLaws} b : ∃ n, poll_done n b.
Proof.
  assert (Hu : ∀ b, bootstrap_buffer b = None → ∃ m, poll_done m b).
  { intros b' Hb'. apply (poll_done_measure (from_option kad_waiting 0%nat (inner b'))).
    - rewrite Hb'. by intros [? ?].
    - by intros k ->. }
  apply (poll_done_measure (from_option kad_waiting 0%nat (inner b))); [by auto|].
  by intros k ->.
Qed.

(** [poll] returns for every queue of Kademlia
    events, although finishing the bootstrap in the middle of the loop queues
    new ones; it never panics once the timer holds one of its own periods, and
    queued events come out first, in order. *)
Theorem discovery_poll_terminates `{!KadLaws} `{!TimerLaws} now r b k :
  period (lookup_interval b) = duration_from_secs (Z.min (2 ^ Z.of_nat k) 60) →
  (∃ n, ∀ fuel, (n ≤ fuel)%nat →
     (poll fuel now r b).1 ≠ OutOfFuel ∧ (poll fuel now r b).1 ≠ Panicked ∧
     poll fuel now r b = poll n now r b) ∧
  (∀ e es fuel, outbox b = e :: es → poll fuel now r b = (Ready (inl e), set_outbox es b)).
Proof.
  intros Hk. split; [|intros e es fuel Ho; unfold poll; by rewrite Ho].
  unfold poll. destruct (outbox b); [|by exists 0%nat].
  destruct (lookup_on_tick_period now r b k Hk) as (b1 & -> & _).
  destruct (poll_done_exists b1) as [n Hn]. exists n. intros fuel Hf.
  destruct (Hn fuel Hf) as [? Heq]. split_and!; [done| |done].
  clear. revert b1. induction fuel as [|fuel IH]; intros b1; cbn [poll_kad]; [done|].
  destruct (inner b1) as [kk|]; [|done].
  destruct (kad_poll kk) as [[[ev|other]|] kk']; [apply IH|done|done].
Qed.

End discovery.

(** ** A concrete Kademlia *)

(** It remembers the addresses and the lookups and queues an event for each new
    address. *)
Record DemoKad := mkDemoKad {
  dk_addrs : list (@PeerId demo_types * @Multiaddr demo_types demo_addrs);
  dk_lookups : list (@PeerId demo_types);
  dk_queue : list (@KademliaEvent demo_types demo_addrs);
}.

Definition demo_kad : @Kad demo_types demo_addrs :=
  @Build_Kad demo_types demo_addrs DemoKad Empty_set Empty_set
  (λ _ _, mkDemoKad [] [] [])
  (λ p a k, mkDemoKad (dk_addrs k ++ [(p, a)]) (dk_lookups k)
     (dk_queue k ++ [@RoutingUpdated demo_types demo_addrs p [a] None]))
  (λ k, match dk_addrs k with [] => None | _ => Some k end)
  (λ p k, mkDemoKad (dk_addrs k) (dk_lookups k ++ [p]) (dk_queue k))
  (λ p k, (filter (λ e, e.1 = p) (dk_addrs k)).*2)
  (λ k, match dk_queue k with
        | [] => (None, k)
        | ev :: q => (Some (inl ev), mkDemoKad (dk_addrs k) (dk_lookups k) q)
        end)
  (λ _ k, k) (λ _ _ k, k).

Definition demo_kad_laws : @KadLaws demo_types demo_addrs demo_kad.
Proof.
  refine (@Build_KadLaws demo_types demo_addrs demo_kad (λ k, length (dk_queue k)) _).
  cbn. intros k. destruct (dk_queue k); cbn; [by intros [? ?]|lia].
Defined.

Section demo.
#[local] Existing Instances demo_types demo_envelope demo_addrs demo_kad demo_kad_laws demo_timer.

Definition demo_addr (port : Z) (p : N) : Multiaddr :=
  ([Ip4 1%Z; Tcp port; P2p p] : list (Protocol N N)).

Definition demo_dc : Config := mkConfig [demo_addr 4001 9] 2 true.
Definition demo_nc : Membership.NetworkConfig := Membership.mkNetworkConfig (demo_key 3) "net".

Definition demo_static : list (PeerId * Multiaddr) :=
  [(demo_peer 9, ([Ip4 1%Z; Tcp 4001] : list (Protocol N N)))].

(** The behaviour of peer 3 with one static peer, bootstrapping. *)
Definition demo_start : Behaviour :=
  mkBehaviour (demo_peer 3) demo_static "/ipc/net/kad/1.0.0"
    (Some (mkDemoKad demo_static [] [RoutingUpdated (demo_peer 9)
       [([Ip4 1%Z; Tcp 4001] : list (Protocol N N))] None]))
    0 2 (duration_from_secs 1, 0%Z) (Some []) [] (λ _, 0%Z).

Example demo_start_new : new (demo_now 0) demo_nc demo_dc (λ _, 0%Z) = Some (Ok demo_start).
Proof. reflexivity. Qed.

Definition demo_info (port : Z) (p : N) : PeerId * Info :=
  (demo_peer p, mkInfo ["/ipc/net/kad/1.0.0"] [demo_addr port p]).

(** Of four records only those of peers 4 and 5 are admitted. *)
Lemma bootstrap_buffer_admits_witness :
  let l := [demo_info 1 4; demo_info 2 4; demo_info 3 5; demo_info 4 6] in
  inner (finish_bootstrap (identify_all l demo_start)) =
    kad_add_all (all_addresses [demo_info 1 4; demo_info 3 5]) <$> inner demo_start.
Proof.
  intros l. destruct (bootstrap_buffer_admits l demo_start eq_refl) as [_ [Hi _]].
  exact Hi.
Defined.

Lemma static_peers_routable_witness :
  ∃ mh p addr, multiaddr_pop (demo_addr 4001 9) = Some (P2p mh, addr) ∧
    peer_id_from_multihash mh = Some p ∧
    addr ∈ addresses_of_peer p (add_address (demo_peer 4) (demo_addr 1 4) demo_start) ∧
    is_static (add_address (demo_peer 4) (demo_addr 1 4) demo_start) p = true ∧
    background_lookup p (add_address (demo_peer 4) (demo_addr 1 4) demo_start) =
      add_address (demo_peer 4) (demo_addr 1 4) demo_start.
Proof.
  apply (static_peers_routable (demo_now 0) demo_nc demo_dc (λ _, 0%Z) demo_start).
  - reflexivity.
  - apply rtc_once, step_add_address.
  - apply list_elem_of_singleton. reflexivity.
Defined.

Lemma num_connections_exact_witness :
  ∃ c (s : gset PeerId), is_connected_set s c ∧
    num_connections
      (foldl (λ b ev, on_swarm_event ev b) demo_start
        [ConnectionEstablished (demo_peer 4) (Dialer (demo_addr 1 4)) 0;
         ConnectionEstablished (demo_peer 4) (Dialer (demo_addr 1 4)) 1;
         ConnectionClosed (demo_peer 4) 1]) = Z.of_nat (size s).
Proof.
  set (c := set_connections (demo_peer 4) 1 (set_connections (demo_peer 4) 2
    (set_connections (demo_peer 4) 1 no_connections))).
  destruct (num_connections_exact
    [ConnectionEstablished (demo_peer 4) (Dialer (demo_addr 1 4)) 0;
     ConnectionEstablished (demo_peer 4) (Dialer (demo_addr 1 4)) 1;
     ConnectionClosed (demo_peer 4) 1] c demo_start) as (s & Hs & Hn & _);
    [|reflexivity|reflexivity|by exists c, s].
  eapply (conn_snoc _ [_; _] _ (ConnectionClosed (demo_peer 4) 1)); [|by apply conn_closed].
  eapply (conn_snoc _ [_]); [|apply (conn_established
    (set_connections (demo_peer 4) 1 no_connections))].
  eapply (conn_snoc _ []); [apply conn_nil|apply (conn_established no_connections)].
Defined.


Lemma discovery_poll_terminates_witness :
  ∃ n, ∀ fuel, (n ≤ fuel)%nat →
    (poll fuel (demo_now 0) (demo_peer 1) demo_start).1 ≠ OutOfFuel.
Proof.
  destruct (discovery_poll_terminates (demo_now 0) (demo_peer 1) demo_start 0 eq_refl) as [[n Hn] _].
  exists n. intros fuel Hf. by apply Hn.
Defined.
End demo.
End Discovery.
