(* ===== verification/Content.v ===== *)
(** * Content resolution and rate limiting

    [ipld/resolver/src/limiter.rs] and [behaviour/content.rs]: the behaviour
    that resolves CIDs with Bitswap, and limits what remote addresses can
    consume.  [Bitswap], the [gcra] rate limiter and [TimeCache] are third-party
    code, interfaces here. *)
From S2P Require Import Prelude Timestamp Types Net Stats Records.

Module Content.

(** ** [limiter.rs] *)

Class Gcra := {
  RateLimit : Type;
  (** [RateLimit::new(resource_limit, period)]. *)
  rate_limit_new : Z → Duration → RateLimit;
  GcraState : Type;
  gcra_default : GcraState;
  (** [check_and_modify_at limit at cost]. *)
  check_and_modify_at : RateLimit → Instant → Z → GcraState → bool * GcraState;
}.

(** [TimeCache<K, V>]: [tc_entry] is [entry(key).or_insert_with(default)], which
    looks the key up after dropping what has expired; [tc_write] stores through
    the reference that it returns. *)
Class TimeCacheI (K V : Type) := {
  TimeCache : Type;
  tc_new : Duration → TimeCache;
  tc_entry : Instant → K → V → TimeCache → V * TimeCache;
  tc_write : K → V → TimeCache → TimeCache;
}.
Arguments TimeCache K V {_}.

Section limiter.
Context `{Gcra} {K : Type} `{!TimeCacheI K GcraState}.

Definition RateLimiter : Type := TimeCache K GcraState.

Definition rate_limiter_new (ttl : Duration) : RateLimiter := tc_new ttl.

(** [RateLimiter::add_at], with the reading of the clock that [TimeCache] does
    for itself. *)
Definition add_at (now : Instant) (limit : RateLimit) (key : K) (cost : Z) (at_ : Instant)
    (r : RateLimiter) : bool * RateLimiter :=
  let '(state, r) := tc_entry now key gcra_default r in
  let '(ok, state) := check_and_modify_at limit at_ cost state in
  (ok, tc_write key state r).

Definition add (now : Instant) (limit : RateLimit) (key : K) (cost : Z) (r : RateLimiter) :
    bool * RateLimiter :=
  add_at now limit key cost now r.
End limiter.
Arguments RateLimiter {_} K {_}.
Arguments rate_limiter_new {_} K {_} _.

(** ** [content.rs] *)

(** One end of a oneshot channel. *)
Definition Channel : Type := N.

(** The events of the request-response handler: a request with the channel
    where its response is awaited, or any other event. *)
Record BitswapRequest `{ResolverTypes} := mkRequest { request_cid : Cid; request_body : Z }.
Arguments mkRequest {_} _ _.

Class BitswapI `{Multiaddrs} := {
  Bitswap : Type;
  QueryId : Type;
  QueryId_eq_dec :: EqDecision QueryId;
  QueryId_countable :: Countable QueryId;
  BitswapError : Type;
  BitswapAction : Type;
  OtherHandlerEvent : Type;
  RequestId : Type;
  BitswapStore : Type;
  bitswap_new : BitswapStore → Bitswap;
  (** [sync cid peers []]. *)
  bitswap_sync : Cid → list PeerId → Bitswap → QueryId * Bitswap;
  bitswap_on_request :
    PeerId → RequestId → BitswapRequest → Channel → Bitswap → Bitswap;
  bitswap_on_other : PeerId → OtherHandlerEvent → Bitswap → Bitswap;
  bitswap_on_swarm_event : FromSwarm → Bitswap → Bitswap;
  bitswap_addresses_of_peer : PeerId → Bitswap → list Multiaddr;
  (** [Progress], [Complete], or an action for the swarm. *)
  bitswap_poll : Bitswap →
    option (() + (QueryId * result BitswapError ()) + BitswapAction) * Bitswap;
}.

Class BitswapLaws `{BitswapI} := {
  (** The queries started so far; each [sync] starts a new one. *)
  started : Bitswap → gset QueryId;
  sync_fresh : ∀ cid ps b, (bitswap_sync cid ps b).1 ∉ started b;
  sync_started : ∀ cid ps b,
    started (bitswap_sync cid ps b).2 = {[(bitswap_sync cid ps b).1]} ∪ started b;
  started_on_request : ∀ p i r c b, started (bitswap_on_request p i r c b) = started b;
  started_on_other : ∀ p e b, started (bitswap_on_other p e b) = started b;
  started_on_swarm_event : ∀ e b, started (bitswap_on_swarm_event e b) = started b;
  started_poll : ∀ b, started (bitswap_poll b).2 = started b;
  (** The queries in the order they were started, with what was asked of whom. *)
  asked : Bitswap → list (QueryId * Cid * list PeerId);
  sync_asked : ∀ cid ps b, asked (bitswap_sync cid ps b).2 =
    asked b ++ [((bitswap_sync cid ps b).1, cid, ps)];
  bitswap_waiting : Bitswap → nat;
  bitswap_poll_waiting : ∀ b, is_Some (bitswap_poll b).1 →
    (bitswap_waiting (bitswap_poll b).2 < bitswap_waiting b)%nat;
}.

Section content.
Context `{BitswapI} `{!Gcra} `{!TimeCacheI Multiaddr GcraState}.

Inductive HandlerEvent :=
  | HandlerRequest (request_id : RequestId) (request : BitswapRequest) (sender : Channel)
  | HandlerOther (e : OtherHandlerEvent).

Inductive Event :=
  | Complete (id : QueryId) (r : result BitswapError ())
  | BitswapForward (peer_id : PeerId) (response_rx response_tx : Channel).

Record Config := mkConfig {
  rate_limit_bytes : Z;
  cfg_rate_limit_period : Duration;
}.

Record Behaviour := mkBehaviour {
  inner : Bitswap;
  peer_addresses : gmap PeerId Multiaddr;
  rate_limiter : RateLimiter Multiaddr;
  rate_limit_period : Duration;
  rate_limit : option RateLimit;
  outbox : list Event;
  next_channel : Channel;
  stats : Stats;
}.

Definition set_inner (x : Bitswap) (b : Behaviour) : Behaviour :=
  mkBehaviour x (peer_addresses b) (rate_limiter b) (rate_limit_period b) (rate_limit b)
    (outbox b) (next_channel b) (stats b).
Definition set_peer_addresses (x : gmap PeerId Multiaddr) (b : Behaviour) : Behaviour :=
  mkBehaviour (inner b) x (rate_limiter b) (rate_limit_period b) (rate_limit b) (outbox b)
    (next_channel b) (stats b).
Definition set_rate_limiter (x : RateLimiter Multiaddr) (b : Behaviour) : Behaviour :=
  mkBehaviour (inner b) (peer_addresses b) x (rate_limit_period b) (rate_limit b) (outbox b)
    (next_channel b) (stats b).
Definition set_rate_limit (x : option RateLimit) (b : Behaviour) : Behaviour :=
  mkBehaviour (inner b) (peer_addresses b) (rate_limiter b) (rate_limit_period b) x (outbox b)
    (next_channel b) (stats b).
Definition set_outbox (x : list Event) (b : Behaviour) : Behaviour :=
  mkBehaviour (inner b) (peer_addresses b) (rate_limiter b) (rate_limit_period b) (rate_limit b)
    x (next_channel b) (stats b).
Definition set_next_channel (x : Channel) (b : Behaviour) : Behaviour :=
  mkBehaviour (inner b) (peer_addresses b) (rate_limiter b) (rate_limit_period b) (rate_limit b)
    (outbox b) x (stats b).
Definition set_stats (x : Stats) (b : Behaviour) : Behaviour :=
  mkBehaviour (inner b) (peer_addresses b) (rate_limiter b) (rate_limit_period b) (rate_limit b)
    (outbox b) (next_channel b) x.

(** The limit for a number of bytes and a period; zero means none. *)
Definition make_rate_limit (bytes : Z) (p : Duration) : option RateLimit :=
  if (bytes =? 0)%Z || duration_is_zero p then None else Some (rate_limit_new bytes p).

Definition new (config : Config) (store : BitswapStore) (chan : Channel) (s : Stats) : Behaviour :=
  mkBehaviour (bitswap_new store) ∅
    (rate_limiter_new Multiaddr (cfg_rate_limit_period config))
    (cfg_rate_limit_period config)
    (make_rate_limit (rate_limit_bytes config) (cfg_rate_limit_period config)) [] chan s.

Definition resolve (cid : Cid) (peers : list PeerId) (b : Behaviour) : QueryId * Behaviour :=
  let b := set_stats (stats_inc CONTENT_RESOLVE_RUNNING (stats b)) b in
  let '(id, inner) := bitswap_sync cid peers (inner b) in
  (id, set_inner inner b).

Definition check_rate_limit (now : Instant) (p : PeerId) (cid : Cid) (b : Behaviour) :
    bool * Behaviour :=
  match rate_limit b with
  | Some limit =>
      match peer_addresses b !! p with
      | Some addr =>
          let bytes := to_u32_or_max (cid_bytes_len cid) in
          let '(ok, r) := add now limit addr bytes (rate_limiter b) in
          (ok, set_rate_limiter r b)
      | None => (true, b)
      end
  | None => (true, b)
  end.

Definition rate_limit_used (now : Instant) (p : PeerId) (bytes : Z) (b : Behaviour) : Behaviour :=
  match rate_limit b with
  | Some limit =>
      match peer_addresses b !! p with
      | Some addr =>
          set_rate_limiter (add now limit addr (to_u32_or_max bytes) (rate_limiter b)).2 b
      | None => b
      end
  | None => b
  end.

Definition update_rate_limit (bytes : Z) (b : Behaviour) : Behaviour :=
  if (bytes =? 0)%Z || duration_is_zero (rate_limit_period b)
  then set_rate_limit None b
  else set_rate_limit (Some (rate_limit_new bytes (rate_limit_period b))) b.

(** ** Addresses *)

(** The [while let] loop of [select_non_ephemeral]; [keep] grows at its end, so
    the last component comes first. *)
Fixpoint non_ephemeral_loop (fuel : nat) (addr : Multiaddr) (keep : list Proto) : list Proto :=
  match fuel with
  | O => keep
  | S fuel =>
      match multiaddr_pop addr with
      | None => keep
      | Some (proto, addr) =>
          match proto with
          | Ip4 _ | Ip6 _ => [proto]
          | P2p _ => non_ephemeral_loop fuel addr keep
          | Tcp _ | Udp _ => non_ephemeral_loop fuel addr keep
          | OtherProtocol _ => non_ephemeral_loop fuel addr (keep ++ [proto])
          end
      end
  end.

Definition select_non_ephemeral (addr : Multiaddr) : Multiaddr :=
  let keep := non_ephemeral_loop (S (length (components addr))) addr [] in
  multiaddr_from_iter (reverse keep).

Definition on_swarm_event (ev : FromSwarm) (b : Behaviour) : Behaviour :=
  let b :=
    match ev with
    | ConnectionEstablished p endpoint other =>
        if decide (other = 0%nat) then
          let peer_addr :=
            match endpoint with
            | Dialer listen_addr => listen_addr
            | Listener ephemeral_addr => select_non_ephemeral ephemeral_addr
            end in
          set_peer_addresses (<[p := peer_addr]> (peer_addresses b)) b
        else b
    | ConnectionClosed p remaining =>
        if decide (remaining = 0%nat) then set_peer_addresses (delete p (peer_addresses b)) b
        else b
    | OtherSwarmEvent _ => b
    end in
  set_inner (bitswap_on_swarm_event ev (inner b)) b.

Definition on_connection_handler_event (now : Instant) (p : PeerId) (ev : HandlerEvent)
    (b : Behaviour) : Behaviour :=
  match ev with
  | HandlerRequest request_id request sender =>
      if decide (is_Some (rate_limit b)) then
        let '(ok, b) := check_rate_limit now p (request_cid request) b in
        if negb ok then set_stats (stats_inc CONTENT_RATE_LIMITED (stats b)) b
        else
          let chan := next_channel b in
          let b := set_next_channel (chan + 1)%N b in
          let b := set_inner (bitswap_on_request p request_id request chan (inner b)) b in
          set_outbox (outbox b ++ [BitswapForward p chan sender]) b
      else set_inner (bitswap_on_request p request_id request sender (inner b)) b
  | HandlerOther e => set_inner (bitswap_on_other p e (inner b)) b
  end.

Definition addresses_of_peer (p : PeerId) (b : Behaviour) : list Multiaddr :=
  bitswap_addresses_of_peer p (inner b).

(** ** Polling *)

Inductive PollResult :=
  | Ready (a : Event + BitswapAction)
  | Pending
  | OutOfFuel.

Fixpoint poll_bitswap (fuel : nat) (b : Behaviour) : PollResult * Behaviour :=
  match fuel with
  | O => (OutOfFuel, b)
  | S fuel =>
      let '(ev, inner) := bitswap_poll (inner b) in
      let b := set_inner inner b in
      match ev with
      | None => (Pending, b)
      | Some (inl (inl _)) => poll_bitswap fuel b
      | Some (inl (inr (id, result))) =>
          let b := set_stats (stats_dec CONTENT_RESOLVE_RUNNING (stats b)) b in
          (Ready (inl (Complete id result)), b)
      | Some (inr other) => (Ready (inr other), b)
      end
  end.

Definition poll (fuel : nat) (b : Behaviour) : PollResult * Behaviour :=
  match outbox b with
  | ev :: evs => (Ready (inl ev), set_outbox evs b)
  | [] => poll_bitswap fuel b
  end.

(** ** The key of a remote address *)

Definition is_ip (p : Proto) : Prop :=
  match p with Ip4 _ | Ip6 _ => True | _ => False end.
Definition is_other (p : Proto) : Prop :=
  match p with OtherProtocol _ => True | _ => False end.
#[local] Instance is_ip_dec p : Decision (is_ip p).
Proof. destruct p; cbn; apply _. Defined.
#[local] Instance is_other_dec p : Decision (is_other p).
Proof. destruct p; cbn; apply _. Defined.

(** The last IP address alone, or else everything but ports and peer ids. *)
Definition non_ephemeral (l : list Proto) : list Proto :=
  match last (filter is_ip l) with
  | Some ip => [ip]
  | None => filter is_other l
  end.

Section addresses.
Context `{!MultiaddrLaws}.

Lemma non_ephemeral_loop_spec fuel a keep :
  (length (components a) < fuel)%nat →
  non_ephemeral_loop fuel a keep =
    match last (filter is_ip (components a)) with
    | Some ip => [ip]
    | None => keep ++ reverse (filter is_other (components a))
    end.
Proof.
  revert a keep. induction fuel as [|fuel IH]; intros a keep Hf; [lia|].
  cbn [non_ephemeral_loop]. destruct (multiaddr_pop a) as [[proto a']|] eqn:Hp.
  2: { apply pop_none in Hp as ->. cbn. by rewrite app_nil_r. }
  apply pop_some in Hp as Hc. rewrite Hc in *. rewrite length_app in Hf. cbn in Hf.
  rewrite !filter_app, !filter_cons, !filter_nil.
  destruct proto; cbn [is_ip is_other];
    repeat case_decide; try tauto;
    rewrite ?app_nil_r, ?last_snoc; try done; rewrite IH by lia; try done.
  destruct (last _); [done|]. rewrite reverse_snoc, <-(assoc_L (++)). done.
Qed.

Lemma components_select_non_ephemeral a :
  components (select_non_ephemeral a) = non_ephemeral (components a).
Proof.
  unfold select_non_ephemeral, non_ephemeral. rewrite components_from_iter.
  rewrite non_ephemeral_loop_spec by lia.
  destruct (last _); [done|]. by rewrite app_nil_l, reverse_involutive.
Qed.

Lemma non_ephemeral_idemp l : non_ephemeral (non_ephemeral l) = non_ephemeral l.
Proof.
  unfold non_ephemeral at 2 3. destruct (last (filter is_ip l)) as [ip|] eqn:Hl.
  - assert (is_ip ip) as Hip.
    { apply last_Some in Hl as [l' Hl].
      assert (ip ∈ filter is_ip l) as [? _]%list_elem_of_filter by (rewrite Hl; set_solver).
      done. }
    unfold non_ephemeral. rewrite filter_cons, decide_True by done. done.
  - unfold non_ephemeral.
    assert (filter is_ip (filter is_other l) = []) as ->.
    { destruct (filter is_ip (filter is_other l)) as [|p k] eqn:Hk; [done|].
      assert (p ∈ filter is_ip (filter is_other l)) as Hp by (rewrite Hk; set_solver).
      rewrite !list_elem_of_filter in Hp. by destruct Hp as (Hip & Ho & _), p. }
    cbn. rewrite list_filter_filter. apply list_filter_iff. tauto.
Qed.
(** The key under which a remote address is limited consists of
    its last IP component, or of everything but ports and peer ids when it has
    none; it does not depend on the ports or the peer id, and taking the key of
    a key changes nothing. *)
Lemma select_non_ephemeral_spec a a' :
  components (select_non_ephemeral a) = non_ephemeral (components a) ∧
  select_non_ephemeral (select_non_ephemeral a) = select_non_ephemeral a ∧
  (filter (λ p, is_ip p ∨ is_other p) (components a) =
     filter (λ p, is_ip p ∨ is_other p) (components a') →
   select_non_ephemeral a = select_non_ephemeral a').
Proof.
  split; [apply components_select_non_ephemeral|]. split.
  - apply (inj components). by rewrite !components_select_non_ephemeral, non_ephemeral_idemp.
  - intros Heq. apply (inj components). rewrite !components_select_non_ephemeral.
    assert (Hsub : ∀ l, non_ephemeral (filter (λ p, is_ip p ∨ is_other p) l) = non_ephemeral l).
    { intros l. unfold non_ephemeral. rewrite !list_filter_filter.
      rewrite (list_filter_iff _ is_ip), (list_filter_iff (λ x, is_other x ∧ _) is_other); [done|tauto..]. }
    by rewrite <-Hsub, Heq, Hsub.
Qed.
End addresses.

(** ** Rate limits *)

Lemma make_rate_limit_update bytes b :
  update_rate_limit bytes b = set_rate_limit (make_rate_limit bytes (rate_limit_period b)) b.
Proof. unfold update_rate_limit, make_rate_limit. by destruct (_ || _). Qed.

(** Two peers that connect from
    the same IP address, whatever their ports and identities, draw on one
    budget: a request of either gets the same answer and leaves the same
    limiter behind, and data served to either is charged to the same key. *)
Theorem rate_limit_by_address now b p q a a' ep ep' cid bytes :
  select_non_ephemeral a = select_non_ephemeral a' →
  ep = Listener a → ep' = Listener a' →
  let bp := on_swarm_event (ConnectionEstablished p ep 0) b in
  let bq := on_swarm_event (ConnectionEstablished q ep' 0) b in
  (check_rate_limit now p cid bp).1 = (check_rate_limit now q cid bq).1 ∧
  rate_limiter (check_rate_limit now p cid bp).2 = rate_limiter (check_rate_limit now q cid bq).2 ∧
  rate_limiter (rate_limit_used now p bytes bp) = rate_limiter (rate_limit_used now q bytes bq).
Proof.
  intros Ha -> -> bp bq. unfold bp, bq, on_swarm_event, check_rate_limit, rate_limit_used.
  rewrite !decide_True by done. cbn. rewrite !lookup_insert_eq, Ha. destruct (rate_limit b) as [limit|]; [|done].
  by destruct (add now limit _ _ _).
Qed.

(** What becomes of the request of a peer with a recorded address: if its budget is
    exhausted it never reaches Bitswap, and is counted; within the budget it
    reaches it with a fresh channel, and the service is asked to forward what
    arrives there to the channel of the requester; without a limit it reaches
    Bitswap unchanged, with the requester's channel. *)
Lemma request_rate_limited now p id req sender addr b :
  peer_addresses b !! p = Some addr →
  let b' := on_connection_handler_event now p (HandlerRequest id req sender) b in
  match rate_limit b with
  | None => b' = set_inner (bitswap_on_request p id req sender (inner b)) b
  | Some limit =>
      let '(ok, r) := add now limit addr (to_u32_or_max (cid_bytes_len (request_cid req)))
                        (rate_limiter b) in
      rate_limiter b' = r ∧
      if (ok : bool) then
        inner b' = bitswap_on_request p id req (next_channel b) (inner b) ∧
        outbox b' = outbox b ++ [BitswapForward p (next_channel b) sender] ∧
        (next_channel b < next_channel b')%N ∧ stats b' = stats b
      else
        inner b' = inner b ∧ outbox b' = outbox b ∧
        stats b' CONTENT_RATE_LIMITED = (stats b CONTENT_RATE_LIMITED + 1)%Z
  end.
Proof.
  intros Hp b'. unfold b', on_connection_handler_event, check_rate_limit.
  destruct (rate_limit b) as [limit|]; [|by rewrite decide_False by by intros [? ?]].
  rewrite decide_True by done. rewrite Hp.
  destruct (add now limit addr _ _) as [[] r]; cbn; split_and!;
    first [done | by rewrite stats_inc_eq | lia].
Qed.

(** ** Connected peers *)

Lemma peer_addresses_step c s ev c' b :
  conn_step c ev c' → is_connected_set s c → dom (peer_addresses b) = s →
  is_connected_set (dom (peer_addresses (on_swarm_event ev b))) c'.
Proof.
  intros Hstep Hs Hd. unfold on_swarm_event. destruct Hstep as [c p ep|c p n Hp|c code]; cbn.
  - pose proof (is_connected_established s c p Hs) as Hs'. case_decide as Hc; cbn.
    + by rewrite dom_insert_L, Hd.
    + rewrite Hd. intros q. rewrite <-(Hs' q), elem_of_union, elem_of_singleton.
      split; [by right|]. intros [->|]; [|done]. apply Hs. lia.
  - pose proof (is_connected_closed s c p n Hs Hp) as Hs'. case_decide; cbn.
    + by rewrite dom_delete_L, Hd.
    + by rewrite Hd.
  - by rewrite Hd.
Qed.

(** After any sequence of connection events
    that a swarm can produce, an address is on record for exactly the peers
    with an open connection, so the limiter knows everybody who can ask and
    forgets those who left. *)
Theorem peer_addresses_connected evs c b :
  conn_steps no_connections evs c → peer_addresses b = ∅ →
  ∀ p, is_Some (peer_addresses (foldl (λ b ev, on_swarm_event ev b) b evs) !! p) ↔ (0 < c p)%nat.
Proof.
  intros Hsteps Hb.
  enough (is_connected_set (dom (peer_addresses (foldl (λ b ev, on_swarm_event ev b) b evs))) c)
    as Hd by (intros p; rewrite <-elem_of_dom; apply Hd).
  remember no_connections as c0 eqn:Hc0.
  induction Hsteps as [c|c evs c' ev c'' Hsteps IH Hstep]; subst.
  - cbn. rewrite Hb, dom_empty_L. intros p. unfold no_connections. split; [set_solver|lia].
  - rewrite foldl_snoc. eapply peer_addresses_step; [done|by apply IH|done].
Qed.

(** ** What happens to the behaviour between the calls of the service *)

Inductive step : Behaviour → Behaviour → Prop :=
  | step_swarm_event ev b : step b (on_swarm_event ev b)
  | step_handler_event now p ev b : step b (on_connection_handler_event now p ev b)
  | step_poll fuel b : step b (poll fuel b).2.

Section started.
Context `{!BitswapLaws}.

Lemma started_check_rate_limit now p cid b : inner (check_rate_limit now p cid b).2 = inner b.
Proof.
  unfold check_rate_limit. repeat case_match; by simplify_eq/=.
Qed.

Lemma started_step b b' : step b b' → started (inner b') = started (inner b).
Proof.
  destruct 1 as [ev b|now p ev b|fuel b].
  - unfold on_swarm_event; cbn. rewrite started_on_swarm_event.
    destruct ev; cbn; repeat case_decide; done.
  - destruct ev as [id req sender|e]; cbn; [|by rewrite started_on_other].
    case_decide; [|by cbn; rewrite started_on_request].
    pose proof (started_check_rate_limit now p (request_cid req) b) as Hi.
    destruct (check_rate_limit _ _ _ b) as [[] b1]; cbn in *; [|by rewrite Hi].
    by rewrite started_on_request, Hi.
  - unfold poll. destruct (outbox b); [|done].
    revert b. induction fuel as [|fuel IH]; intros b; cbn [poll_bitswap]; [done|].
    pose proof (started_poll (inner b)) as Hs.
    destruct (bitswap_poll (inner b)) as [[[[[]|[id r]]|a]|] i]; cbn in *; try done.
    by rewrite IH.
Qed.

Lemma resolve_spec cid ps b :
  let '(id, b') := resolve cid ps b in
  id ∉ started (inner b) ∧ started (inner b') = {[id]} ∪ started (inner b) ∧
  asked (inner b') = asked (inner b) ++ [(id, cid, ps)] ∧
  id = (bitswap_sync cid ps (inner b)).1.
Proof.
  unfold resolve. cbn. pose proof (sync_fresh cid ps (inner b)).
  pose proof (sync_started cid ps (inner b)). pose proof (sync_asked cid ps (inner b)).
  by destruct (bitswap_sync cid ps (inner b)).
Qed.
End started.

(** ** Polling *)

Lemma poll_bitswap_fuel `{!BitswapLaws} fuel b :
  (bitswap_waiting (inner b) < fuel)%nat → (poll_bitswap fuel b).1 ≠ OutOfFuel.
Proof.
  revert b. induction fuel as [|fuel IH]; intros b Hf; [lia|]. cbn [poll_bitswap].
  pose proof (bitswap_poll_waiting (inner b)) as Hw.
  destruct (bitswap_poll (inner b)) as [[[[[]|[id r]]|a]|] i]; try done. cbn [fst snd] in Hw.
  specialize (Hw ltac:(done)). apply IH. cbn. lia.
Qed.

End content.

(** ** A concrete Bitswap and a token bucket *)

(** It numbers its queries, remembers what it was asked and by whom, and has a
    queue of completed queries. *)
Record DemoBitswap := mkDemoBitswap {
  db_next : N;
  db_queries : list (N * @Cid demo_types * list (@PeerId demo_types));
  db_requests : list (@PeerId demo_types * Channel);
  db_completed : list (N * result string ());
}.

Definition demo_bitswap : @BitswapI demo_types demo_addrs :=
  @Build_BitswapI demo_types demo_addrs DemoBitswap N _ _ string Empty_set Empty_set () ()
  (λ _, mkDemoBitswap 0 [] [] [])
  (λ cid ps b, (db_next b, mkDemoBitswap (db_next b + 1) (db_queries b ++ [(db_next b, cid, ps)])
     (db_requests b) (db_completed b)))
  (λ p _ _ c b, mkDemoBitswap (db_next b) (db_queries b) (db_requests b ++ [(p, c)]) (db_completed b))
  (λ _ _ b, b) (λ _ b, b) (λ _ _, [])
  (λ b, match db_completed b with
        | [] => (None, b)
        | c :: cs => (Some (inl (inr c)), mkDemoBitswap (db_next b) (db_queries b) (db_requests b) cs)
        end).

Definition demo_bitswap_laws : @BitswapLaws demo_types demo_addrs demo_bitswap.
Proof.
  refine (@Build_BitswapLaws demo_types demo_addrs demo_bitswap
    (λ b, list_to_set (N.of_nat <$> seq 0 (N.to_nat (db_next b)))) _ _ _ _ _ _
    db_queries _ (λ b, length (db_completed b)) _); cbn; try done.
  - intros cid ps b. rewrite elem_of_list_to_set, list_elem_of_fmap.
    intros (n & Hn & ?%elem_of_seq). lia.
  - intros cid ps b. rewrite N2Nat.inj_add, Nat.add_1_r, seq_S, fmap_app, list_to_set_app_L. cbn.
    rewrite N2Nat.id. set_solver.
  - intros b. by destruct (db_completed b).
  - intros b. destruct (db_completed b); cbn; [by intros [? ?]|lia].
Defined.

(** A bucket that never refills: a limit and the amount used. *)
Definition demo_gcra : Gcra :=
  @Build_Gcra Z (λ n _, n) Z 0%Z
  (λ limit _ cost used, if (used + cost <=? limit)%Z then (true, (used + cost)%Z) else (false, used)).

Definition demo_time_cache : @TimeCacheI (@Multiaddr demo_types demo_addrs) (@GcraState demo_gcra) :=
  @Build_TimeCacheI _ _ (gmap (list (Protocol N N)) Z)
  (λ _, ∅) (λ _ k d m, (default d (m !! k), m)) (λ k v m, <[k := v]> m).

Section demo.
#[local] Existing Instances demo_types demo_addrs demo_bitswap demo_gcra demo_time_cache.

Definition demo_remote (port : Z) (p : N) : Multiaddr :=
  ([Ip4 9%Z; Tcp port; P2p p] : list (Protocol N N)).

Definition demo_content : Behaviour :=
  new (mkConfig 50 (duration_from_secs 60)) () 100%N (λ _, 0%Z).

(** The examples of the unit test of [select_non_ephemeral]. *)
Example non_ephemeral_addr :
  select_non_ephemeral ([Ip4 1%Z; OtherProtocol 1%N; OtherProtocol 2%N] : list (Protocol N N)) =
    ([Ip4 1%Z] : list (Protocol N N)) ∧
  select_non_ephemeral ([Ip4 2%Z; Tcp 8008; P2p 7%N] : list (Protocol N N)) =
    ([Ip4 2%Z] : list (Protocol N N)) ∧
  select_non_ephemeral ([OtherProtocol 1%N; OtherProtocol 10%N; P2p 7%N] : list (Protocol N N)) =
    ([OtherProtocol 1%N; OtherProtocol 10%N] : list (Protocol N N)).
Proof. split_and!; reflexivity. Qed.

Lemma select_non_ephemeral_spec_witness :
  select_non_ephemeral (demo_remote 1 4) = select_non_ephemeral (demo_remote 2 5).
Proof.
  apply (select_non_ephemeral_spec (demo_remote 1 4) (demo_remote 2 5)). reflexivity.
Defined.

Lemma rate_limit_by_address_witness :
  let b := demo_content in
  (check_rate_limit 0%Z (demo_peer 4) (demo_cid 1)
     (on_swarm_event (ConnectionEstablished (demo_peer 4) (Listener (demo_remote 1 4)) 0) b)).1 =
  (check_rate_limit 0%Z (demo_peer 5) (demo_cid 1)
     (on_swarm_event (ConnectionEstablished (demo_peer 5) (Listener (demo_remote 2 5)) 0) b)).1.
Proof.
  apply (rate_limit_by_address 0%Z demo_content (demo_peer 4) (demo_peer 5)
    (demo_remote 1 4) (demo_remote 2 5) _ _ (demo_cid 1) 0%Z); reflexivity.
Defined.

(** The second request of 36 bytes exceeds the 50 allowed. *)
Definition demo_connected : Behaviour :=
  on_connection_handler_event 0%Z (demo_peer 4) (HandlerRequest () (mkRequest (demo_cid 1) 0) 7%N)
    (on_swarm_event (ConnectionEstablished (demo_peer 4) (Listener (demo_remote 1 4)) 0)
       demo_content).

Lemma request_rate_limited_witness :
  outbox demo_connected = [BitswapForward (demo_peer 4) 100%N 7%N] ∧
  inner (on_connection_handler_event 0%Z (demo_peer 4)
    (HandlerRequest () (mkRequest (demo_cid 2) 0) 8%N) demo_connected) = inner demo_connected.
Proof.
  split; [reflexivity|].
  pose proof (request_rate_limited 0%Z (demo_peer 4) () (mkRequest (demo_cid 2) 0) 8%N
    ([Ip4 9%Z] : list (Protocol N N)) demo_connected eq_refl) as (_ & Hi & _).
  exact Hi.
Defined.

Lemma peer_addresses_connected_witness :
  is_Some (peer_addresses
    (foldl (λ b ev, on_swarm_event ev b) demo_content
      [ConnectionEstablished (demo_peer 4) (Dialer (demo_remote 1 4)) 0]) !! demo_peer 4).
Proof.
  apply (peer_addresses_connected
    [ConnectionEstablished (demo_peer 4) (Dialer (demo_remote 1 4)) 0]
    (set_connections (demo_peer 4) 1 no_connections)).
  - eapply (conn_snoc _ []); [apply conn_nil|apply (conn_established no_connections)].
  - reflexivity.
  - vm_compute. lia.
Defined.
End demo.
End Content.
