(* ===== verification/MissingBlocks.v ===== *)
(** * Missing blocks

    [ipld/resolver/src/missing_blocks.rs]: the depth-first search for the CIDs
    that a block refers to, directly or not, and that the block store does not
    hold.  The store and the codec are interfaces: [get] may fail, and so may
    the decoding of the references of a block. *)
From S2P Require Import Prelude Types Records.

Module MissingBlocks.
Section missing_blocks.
Context `{ResolverTypes} {BsError CodecError : Type}.

(** [Blockstore::get], and the references of a block as [block.references]
    appends them to the stack. *)
Variable bs_get : Cid → result BsError (option bytes).
Variable references : Cid → bytes → result CodecError (list Cid).

Inductive Error :=
  | StoreError (e : BsError)
  | DecodeError (e : CodecError).

(** The body of the loop for one CID: the CIDs pushed on the stack, or the CID
    reported as missing. *)
Definition visit (cid : Cid) : result Error (list Cid * list Cid) :=
  data ← map_err StoreError (bs_get cid);
  match data with
  | Some data => refs ← map_err DecodeError (references cid data); Ok (refs, [])
  | None => Ok ([], [cid])
  end.

(** [while let Some(cid) = stack.pop()]; the top of the stack is the head of the
    list, so pushed references are reversed in front of it.  [None] is out of
    fuel. *)
Fixpoint search (fuel : nat) (stack missing : list Cid) : option (result Error (list Cid)) :=
  match fuel with
  | O => None
  | S fuel =>
      match stack with
      | [] => Some (Ok missing)
      | cid :: stack =>
          match visit cid with
          | Err e => Some (Err e)
          | Ok (refs, m) => search fuel (reverse refs ++ stack) (missing ++ m)
          end
      end
  end.

Definition missing_blocks (fuel : nat) (cid : Cid) : option (result Error (list Cid)) :=
  search fuel [cid] [].

(** ** What is missing *)

Definition refers (c d : Cid) : Prop := ∃ refs m, visit c = Ok (refs, m) ∧ d ∈ refs.

Definition absent (c : Cid) : Prop := bs_get c = Ok None.

(** The tree that hangs off a CID is finite when no block refers to itself,
    directly or not; [depth] bounds its height. *)
Inductive bounded : nat → Cid → Prop :=
  | bounded_node n c :
      (∀ refs m d, visit c = Ok (refs, m) → d ∈ refs → bounded n d) → bounded (S n) c.

Lemma visit_missing c refs m : visit c = Ok (refs, m) → m = [] ∨ (m = [c] ∧ refs = [] ∧ absent c).
Proof.
  unfold visit, absent, mbind, result_bind. destruct (bs_get c) as [[data|]|]; cbn; [| |done].
  - destruct (references c data); cbn; [|done]. intros [= <- <-]. by left.
  - intros [= <- <-]. by right.
Qed.

Lemma visit_absent c : absent c → visit c = Ok ([], [c]).
Proof. unfold absent, visit, mbind, result_bind. by intros ->. Qed.

(** More fuel does not change a result. *)
Lemma search_mono fuel fuel' stack missing r :
  search fuel stack missing = Some r → (fuel ≤ fuel')%nat → search fuel' stack missing = Some r.
Proof.
  revert fuel' stack missing. induction fuel as [|fuel IH]; intros fuel' stack missing; [done|].
  destruct fuel' as [|fuel']; [lia|]. intros Hs Hle. cbn [search] in *.
  destruct stack as [|c stack]; [done|]. destruct (visit c) as [[refs m]|]; [|done].
  apply IH; [done|lia].
Qed.

(** The search of one subtree, as a step of a longer search. *)
Lemma search_node n c : bounded n c →
  ∀ stack missing, ∃ k,
    (∃ found, (∀ fuel, search (k + fuel) (c :: stack) missing = search fuel stack (missing ++ found)) ∧
       (∀ d, d ∈ found ↔ rtc refers c d ∧ absent d)) ∨
    (∃ e d, rtc refers c d ∧ visit d = Err e ∧
       ∀ fuel, search (k + fuel) (c :: stack) missing = Some (Err e)).
Proof.
  induction 1 as [n c Hc IH]. intros stack missing.
  destruct (visit c) as [[refs m]|e] eqn:Hv.
  2: { exists 1%nat. right. exists e, c. split_and!; [done|done|]. intros fuel. cbn. by rewrite Hv. }
  assert (Hrefs : ∀ l stack missing, (∀ d, d ∈ l → d ∈ refs) → ∃ k,
    (∃ found, (∀ fuel, search (k + fuel) (l ++ stack) missing = search fuel stack (missing ++ found)) ∧
       (∀ d, d ∈ found ↔ ∃ r, r ∈ l ∧ rtc refers r d ∧ absent d)) ∨
    (∃ e d, (∃ r, r ∈ l ∧ rtc refers r d) ∧ visit d = Err e ∧
       ∀ fuel, search (k + fuel) (l ++ stack) missing = Some (Err e))).
  { clear stack missing. induction l as [|r l IHl]; intros stack missing Hl.
    { exists 0%nat. left. exists []. split; [intros fuel; by rewrite app_nil_r|]. set_solver. }
    destruct (IH refs m r eq_refl (Hl r ltac:(set_solver)) (l ++ stack) missing)
      as (k & [(found & Hf & Hd)|(e & d & Hrd & Hve & He)]).
    2: { exists k. right. exists e, d. split_and!; [exists r; set_solver|done|done]. }
    destruct (IHl stack (missing ++ found) ltac:(set_solver)) 
      as (k' & [(found' & Hf' & Hd')|(e & d & (r' & ? & ?) & Hve & He)]).
    - exists (k + k')%nat. left. exists (found ++ found'). split.
      + intros fuel. rewrite <-Nat.add_assoc, <-app_comm_cons, Hf, Hf'. by rewrite <-(assoc_L (++)).
      + intros d. rewrite elem_of_app, Hd, Hd'. set_solver.
    - exists (k + k')%nat. right. exists e, d. split_and!; [exists r'; set_solver|done|].
      intros fuel. by rewrite <-Nat.add_assoc, <-app_comm_cons, Hf. }
  destruct (Hrefs (reverse refs) stack (missing ++ m)) as (k & Hk).
  { intros d. by rewrite elem_of_reverse. }
  exists (S k). destruct Hk as [(found & Hf & Hd)|(e & d & (r & Hr & Hrd) & Hve & He)].
  - left. exists (m ++ found). split.
    + intros fuel. cbn [search Nat.add]. rewrite Hv, Hf. by rewrite <-(assoc_L (++)).
    + intros d. rewrite elem_of_app, Hd.
      destruct (visit_missing _ _ _ Hv) as [->|(-> & -> & Ha)].
      * split.
        -- intros [?|(r & Hr & Hrd & Hda)]; [set_solver|]. split; [|done].
           rewrite elem_of_reverse in Hr. eapply rtc_l; [|done]. by exists refs, [].
        -- intros [Hcd Hda]. right. inversion Hcd as [|? r ? (refs' & m' & Hv' & Hr) Hrd]; subst.
           { apply visit_absent in Hda. rewrite Hv in Hda. by simplify_eq. }
           rewrite Hv in Hv'. simplify_eq. exists r. by rewrite elem_of_reverse.
      * split.
        -- intros [->%list_elem_of_singleton|(r & Hr & _)]; [by split|set_solver].
        -- intros [Hcd Hda]. left. inversion Hcd as [|? r ? (refs' & m' & Hv' & Hr) Hrd]; subst.
           { set_solver. }
           rewrite Hv in Hv'. simplify_eq. set_solver.
  - right. exists e, d. rewrite elem_of_reverse in Hr.
    split_and!; [eapply rtc_l; [|done]; by exists refs, m|done|].
    intros fuel. cbn [search Nat.add]. by rewrite Hv.
Qed.

(** C24 (missing blocks): when the references from a CID have no cycle the search
    terminates, and unless the store or the codec fails it returns exactly the
    CIDs that are reachable from the given one and absent from the store. *)
Theorem missing_blocks_exact n cid :
  bounded n cid →
  ∃ fuel0 r, (∀ fuel, (fuel0 ≤ fuel)%nat → missing_blocks fuel cid = Some r) ∧
    match r with
    | Ok missing => ∀ d, d ∈ missing ↔ rtc refers cid d ∧ absent d
    | Err _ => ∃ d, rtc refers cid d ∧ is_err (visit d) = true
    end.
Proof.
  intros Hb.
  destruct (search_node n cid Hb [] []) as (k & [(found & Hf & Hd)|(e & d & Hcd & Hve & He)]).
  - exists (k + 1)%nat, (Ok found). split; [|done]. intros fuel Hle.
    apply (search_mono (k + 1)); [by rewrite Hf|done].
  - exists k, (Err e). split; [|exists d; by rewrite Hve].
    intros fuel Hle. apply (search_mono (k + 0)); [apply He|lia].
Qed.
End missing_blocks.

(** ** A concrete store *)

Section demo.
#[local] Existing Instance demo_types.

(** Block 1 refers to 2 and 3, block 2 to 3 and 4; 3 and 4 are not stored. *)
Definition demo_get (c : Cid) : result () (option bytes) :=
  if decide (c = demo_cid 1 ∨ c = demo_cid 2) then Ok (Some []) else Ok None.
Definition demo_references (c : Cid) (_ : bytes) : result () (list Cid) :=
  if decide (c = demo_cid 1) then Ok [demo_cid 2; demo_cid 3]
  else Ok [demo_cid 3; demo_cid 4].

Lemma demo_bounded : bounded demo_get demo_references 3 (demo_cid 1).
Proof.
  assert (Hleaf : ∀ n c, c = demo_cid 3 ∨ c = demo_cid 4 → bounded demo_get demo_references (S n) c).
  { intros n c Hc. constructor. intros refs m d Hv Hd.
    destruct Hc as [-> | ->]; vm_compute in Hv; simplify_eq; set_solver. }
  assert (H2 : bounded demo_get demo_references 2 (demo_cid 2)).
  { constructor. intros refs m d Hv Hd. vm_compute in Hv. simplify_eq.
    apply Hleaf. set_solver. }
  constructor. intros refs m d Hv Hd. vm_compute in Hv. simplify_eq.
  apply elem_of_cons in Hd as [-> | ->%list_elem_of_singleton]; [done|].
  apply Hleaf. by left.
Qed.

Lemma missing_blocks_exact_witness :
  ∃ fuel0 r, (∀ fuel, (fuel0 ≤ fuel)%nat →
    missing_blocks demo_get demo_references fuel (demo_cid 1) = Some r).
Proof.
  destruct (missing_blocks_exact demo_get demo_references 3 (demo_cid 1) demo_bounded)
    as (fuel0 & r & Hr & _).
  by exists fuel0, r.
Defined.

(** A CID that two blocks refer to is reported twice. *)
Example missing_blocks_demo :
  missing_blocks demo_get demo_references 10 (demo_cid 1) =
    Some (Ok [demo_cid 3; demo_cid 4; demo_cid 3]).
Proof. reflexivity. Qed.
End demo.
End MissingBlocks.
