(* ===== verification/Service.v ===== *)
(** * The resolver service

    [ipld/resolver/src/service.rs], [client.rs] and [behaviour/mod.rs]: the
    event loop that drives the behaviours, routes their events to each other
    and answers the clients that wait for a CID.

    The behaviours are those of [Membership], [Discovery] and [Content].  The
    swarm itself, the broadcast and oneshot channels, the Bloom filter and the
    shuffling of peers are third-party: the state records what is sent through
    the channels, and the filter and the shuffle are interfaces. *)
From S2P Require Import Prelude Timestamp Types Net Stats Records ProviderCache Membership Discovery Content.

Module Service.
#[local] Existing Instances Content.QueryId_eq_dec Content.QueryId_countable.

Class Bloom `{ResolverTypes} := {
  BloomFilter : Type;
  (** [BloomFilter::with_rate(0.1, expected)]. *)
  bloom_new : Z → BloomFilter;
  (** [insert]: whether the item was new, and the filter afterwards. *)
  bloom_insert : PeerId → BloomFilter → bool * BloomFilter;
}.

(** There are no false negatives. *)
Class BloomLaws `{Bloom} := {
  bloom_contains : PeerId → BloomFilter → Prop;
  bloom_insert_new : ∀ p f, (bloom_insert p f).1 = true → ¬ bloom_contains p f;
  bloom_insert_contains : ∀ p q f,
    p = q ∨ bloom_contains q f → bloom_contains q (bloom_insert p f).2;
}.

(** [peers.shuffle(&mut rng)], with the random choice as an argument. *)
Class Shuffle `{ResolverTypes} := {
  shuffle : Z → list PeerId → list PeerId;
  shuffle_perm : ∀ seed l, shuffle seed l ≡ₚ l;
}.

Section service.
Context `{Membership.Gossip} `{!Multiaddrs} `{!Membership.GossipPoll} `{!Timer} `{!Discovery.Kad}.
Context `{!Content.BitswapI} `{!Content.Gcra} `{!Content.TimeCacheI Multiaddr Content.GcraState}.
Context `{!HashIter SubnetID} `{!HashIter PeerId}.
Context `{!Serde ProviderRecord} `{!Serde VoteRecord} `{!Bloom} `{!Shuffle}.

(** ** Data *)

Inductive ResolveError :=
  | NoKnownPeers (id : SubnetID)
  | BitswapFailed (e : Content.BitswapError).

Definition ResolveResult : Type := result ResolveError ().
Definition ResponseChannel : Type := Content.Channel.

Record Query := mkQuery {
  query_cid : Cid;
  query_subnet_id : SubnetID;
  fallback_peer_ids : list PeerId;
  response_channel : ResponseChannel;
}.

Notation QueryMap := (gmap Content.QueryId Query).

Record ConnectionConfig := mkConnectionConfig {
  cc_listen_addr : Multiaddr;
  cc_max_incoming : Z;
  cc_expected_peer_count : Z;
  cc_max_peers_per_query : nat;
  cc_event_buffer_capacity : Z;
}.

Record Config := mkConfig {
  cfg_network : Membership.NetworkConfig;
  cfg_discovery : Discovery.Config;
  cfg_membership : Membership.Config;
  cfg_connection : ConnectionConfig;
  cfg_content : Content.Config;
}.

Inductive ConfigError :=
  | EDiscovery (e : Discovery.ConfigError)
  | EMembership (e : Membership.ConfigError).

(** The requests of the clients. *)
Inductive Request :=
  | SetProvidedSubnets (ids : list SubnetID)
  | AddProvidedSubnet (id : SubnetID)
  | RemoveProvidedSubnet (id : SubnetID)
  | PublishVote (v : SignedVoteRecord)
  | PublishPreemptive (id : SubnetID) (data : bytes)
  | PinSubnet (id : SubnetID)
  | UnpinSubnet (id : SubnetID)
  | Resolve (cid : Cid) (id : SubnetID) (tx : ResponseChannel)
  | RateLimitUsed (p : PeerId) (bytes : Z)
  | UpdateRateLimit (bytes : Z).

(** The events broadcast to the subscribers. *)
Inductive Event :=
  | ReceivedVote (v : VoteRecord)
  | ReceivedPreemptive (id : SubnetID) (data : bytes).

(** [ConnectionLimits]. *)
Record ConnectionLimits := mkLimits {
  max_pending_incoming : option Z;
  max_pending_outgoing : option Z;
  max_established_incoming : option Z;
  max_established_outgoing : option Z;
  max_established_per_peer : option Z;
}.

(** The behaviours of the swarm that the service calls ([behaviour::Behaviour]),
    and what the service does with the outside: [answers] are the results sent
    to response channels, [broadcast] the events sent to subscribers, [banned]
    the peers banned from the swarm, [forwards] the tasks spawned to forward a
    Bitswap response. *)
Record Service := mkService {
  peer_id : PeerId;
  listen_addr : Multiaddr;
  limits : ConnectionLimits;
  discovery : Discovery.Behaviour;
  membership : Membership.Behaviour;
  content : Content.Behaviour;
  queries : QueryMap;
  requests : list Request;
  background_lookup_filter : BloomFilter;
  max_peers_per_query : nat;
  answers : list (ResponseChannel * ResolveResult);
  broadcast : list Event;
  banned : list PeerId;
  forwards : list (PeerId * Content.Channel * Content.Channel);
  stats : Stats;
}.

Definition set_discovery (x : Discovery.Behaviour) (b : Service) : Service :=
  mkService (peer_id b) (listen_addr b) (limits b) x (membership b) (content b) (queries b)
    (requests b) (background_lookup_filter b) (max_peers_per_query b) (answers b) (broadcast b)
    (banned b) (forwards b) (stats b).
Definition set_membership (x : Membership.Behaviour) (b : Service) : Service :=
  mkService (peer_id b) (listen_addr b) (limits b) (discovery b) x (content b) (queries b)
    (requests b) (background_lookup_filter b) (max_peers_per_query b) (answers b) (broadcast b)
    (banned b) (forwards b) (stats b).
Definition set_content (x : Content.Behaviour) (b : Service) : Service :=
  mkService (peer_id b) (listen_addr b) (limits b) (discovery b) (membership b) x (queries b)
    (requests b) (background_lookup_filter b) (max_peers_per_query b) (answers b) (broadcast b)
    (banned b) (forwards b) (stats b).
Definition set_queries (x : QueryMap) (b : Service) : Service :=
  mkService (peer_id b) (listen_addr b) (limits b) (discovery b) (membership b) (content b) x
    (requests b) (background_lookup_filter b) (max_peers_per_query b) (answers b) (broadcast b)
    (banned b) (forwards b) (stats b).
Definition set_requests (x : list Request) (b : Service) : Service :=
  mkService (peer_id b) (listen_addr b) (limits b) (discovery b) (membership b) (content b)
    (queries b) x (background_lookup_filter b) (max_peers_per_query b) (answers b) (broadcast b)
    (banned b) (forwards b) (stats b).
Definition set_background_lookup_filter (x : BloomFilter) (b : Service) : Service :=
  mkService (peer_id b) (listen_addr b) (limits b) (discovery b) (membership b) (content b)
    (queries b) (requests b) x (max_peers_per_query b) (answers b) (broadcast b) (banned b)
    (forwards b) (stats b).
Definition set_answers (x : list (ResponseChannel * ResolveResult)) (b : Service) : Service :=
  mkService (peer_id b) (listen_addr b) (limits b) (discovery b) (membership b) (content b)
    (queries b) (requests b) (background_lookup_filter b) (max_peers_per_query b) x
    (broadcast b) (banned b) (forwards b) (stats b).
Definition set_broadcast (x : list Event) (b : Service) : Service :=
  mkService (peer_id b) (listen_addr b) (limits b) (discovery b) (membership b) (content b)
    (queries b) (requests b) (background_lookup_filter b) (max_peers_per_query b) (answers b) x
    (banned b) (forwards b) (stats b).
Definition set_banned (x : list PeerId) (b : Service) : Service :=
  mkService (peer_id b) (listen_addr b) (limits b) (discovery b) (membership b) (content b)
    (queries b) (requests b) (background_lookup_filter b) (max_peers_per_query b) (answers b)
    (broadcast b) x (forwards b) (stats b).
Definition set_forwards (x : list (PeerId * Content.Channel * Content.Channel)) (b : Service) : Service :=
  mkService (peer_id b) (listen_addr b) (limits b) (discovery b) (membership b) (content b)
    (queries b) (requests b) (background_lookup_filter b) (max_peers_per_query b) (answers b)
    (broadcast b) (banned b) x (stats b).
Definition set_stats (x : Stats) (b : Service) : Service :=
  mkService (peer_id b) (listen_addr b) (limits b) (discovery b) (membership b) (content b)
    (queries b) (requests b) (background_lookup_filter b) (max_peers_per_query b) (answers b)
    (broadcast b) (banned b) (forwards b) x.

Definition inc (m : Metric) (s : Service) : Service := set_stats (stats_inc m (stats s)) s.

(** ** Construction *)

Definition connection_limits (c : ConnectionConfig) : ConnectionLimits :=
  mkLimits (Some 10%Z) (Some 30%Z) (Some (cc_max_incoming c)) None (Some 5%Z).

(** [Behaviour::new] of [behaviour/mod.rs]; [None] is a panic. *)
Definition behaviour_new (now : Now) (c : Config) (store : Content.BitswapStore)
    (chan : Content.Channel) (st : Stats) :
    option (result ConfigError
      (Discovery.Behaviour * Membership.Behaviour * Content.Behaviour)) :=
  match Discovery.new now (cfg_network c) (cfg_discovery c) st with
  | None => None
  | Some (Err e) => Some (Err (EDiscovery e))
  | Some (Ok d) =>
      Some (m ← map_err EMembership (Membership.new now (cfg_network c) (cfg_membership c) st);
            Ok (d, m, Content.new (cfg_content c) store chan st))
  end.

(** [Service::new_with_transport]; [broadcast::channel] panics on a capacity of
    zero. *)
Definition new (now : Now) (c : Config) (store : Content.BitswapStore)
    (chan : Content.Channel) (st : Stats) : option (result ConfigError Service) :=
  match behaviour_new now c store chan st with
  | None => None
  | Some (Err e) => Some (Err e)
  | Some (Ok (d, m, ct)) =>
      if (cc_event_buffer_capacity (cfg_connection c) =? 0)%Z then None else
      Some (Ok (mkService
        (Membership.local_peer_id (cfg_network c))
        (cc_listen_addr (cfg_connection c)) (connection_limits (cfg_connection c))
        d m ct ∅ [] (bloom_new (cc_expected_peer_count (cfg_connection c)))
        (cc_max_peers_per_query (cfg_connection c)) [] [] [] [] st))
  end.

(** An event buffer without room is a panic, not a [ConfigError]. *)
Lemma zero_capacity_panics now c store chan st :
  cc_event_buffer_capacity (cfg_connection c) = 0%Z →
  ∀ s, new now c store chan st ≠ Some (Ok s).
Proof.
  intros Hc s. unfold new. rewrite Hc.
  by destruct (behaviour_new _ _ _ _ _) as [[[[d m] ct]|]|].
Qed.

(** ** Queries *)

Definition send_resolve_result (tx : ResponseChannel) (r : ResolveResult) (s : Service) : Service :=
  set_answers (answers s ++ [(tx, r)]) s.

(** [peers.split_off(size)]. *)
Definition split_peers_for_query (s : Service) (peers : list PeerId) :
    list PeerId * list PeerId :=
  let size := Nat.min (max_peers_per_query s) (length peers) in
  (take size peers, drop size peers).

Definition resolve_content (cid : Cid) (peers : list PeerId) (s : Service) :
    Content.QueryId * Service :=
  let '(id, c) := Content.resolve cid peers (content s) in (id, set_content c s).

(** [Iterator::partition] and the flattening that puts connected peers first. *)
Definition connected_first (is_connected : PeerId → bool) (peers : list PeerId) : list PeerId :=
  filter (λ p, is_connected p = true) peers ++ filter (λ p, ¬ (is_connected p = true)) peers.

Definition start_query (seed : Z) (is_connected : PeerId → bool)
    (cid : Cid) (id : SubnetID) (tx : ResponseChannel) (s : Service) : Service :=
  let peers := Membership.providers_of_subnet (membership s) id in
  match peers with
  | [] => send_resolve_result tx (Err (NoKnownPeers id)) (inc CONTENT_RESOLVE_NO_PEERS s)
  | _ =>
      let peers := connected_first is_connected (shuffle seed peers) in
      let '(peers, fallback) := split_peers_for_query s peers in
      let query := mkQuery cid id fallback tx in
      let '(query_id, s) := resolve_content cid peers s in
      set_queries (<[query_id := query]> (queries s)) s
  end.

Definition resolve_query (q : Query) (r : result Content.BitswapError ()) (s : Service) : Service :=
  match r with
  | Ok u => send_resolve_result (response_channel q) (Ok u) (inc CONTENT_RESOLVE_SUCCESS s)
  | Err e =>
      match fallback_peer_ids q with
      | [] =>
          send_resolve_result (response_channel q) (Err (BitswapFailed e))
            (inc CONTENT_RESOLVE_FAILURE s)
      | peers =>
          let s := inc CONTENT_RESOLVE_FALLBACK s in
          let '(peers, fallback) := split_peers_for_query s peers in
          let '(query_id, s) := resolve_content (query_cid q) peers s in
          let q := mkQuery (query_cid q) (query_subnet_id q) fallback (response_channel q) in
          set_queries (<[query_id := q]> (queries s)) s
      end
  end.

(** ** Events of the behaviours *)

Inductive PingResult := PingRtt (millis : Z) | Pong | PingTimeout | PingOther | PingUnsupported.

Definition handle_ping_event (p : PeerId) (r : PingResult) (s : Service) : Service :=
  match r with
  | PingRtt _ => inc PING_SUCCESS s
  | Pong => s
  | PingTimeout => inc PING_TIMEOUT s
  | PingOther => inc PING_FAILURE s
  | PingUnsupported => set_banned (banned s ++ [p]) s
  end.

Inductive IdentifyEvent :=
  | IdentifyError (p : PeerId)
  | IdentifyReceived (p : PeerId) (info : Discovery.Info)
  | IdentifyOther.

Definition handle_identify_event (ev : IdentifyEvent) (s : Service) : Service :=
  match ev with
  | IdentifyError _ => inc IDENTIFY_FAILURE s
  | IdentifyReceived p info =>
      let s := inc IDENTIFY_RECEIVED s in
      set_discovery (Discovery.add_identified p info (discovery s)) s
  | IdentifyOther => s
  end.

Definition handle_discovery_event (now : Now) (ev : Discovery.Event) (s : Service) : Service :=
  match ev with
  | Discovery.Added p _ => set_membership (Membership.set_routable now p (membership s)) s
  | Discovery.Removed p => set_membership (Membership.set_unroutable p (membership s)) s
  end.

Definition handle_membership_event (ev : Membership.Event) (s : Service) : Service :=
  match ev with
  | Membership.Skipped p =>
      let '(is_new, f) := bloom_insert p (background_lookup_filter s) in
      let s := set_background_lookup_filter f s in
      if (is_new : bool) then set_discovery (Discovery.background_lookup p (discovery s)) s else s
  | Membership.Updated _ _ => s
  | Membership.Removed _ => s
  | Membership.ReceivedVote v => set_broadcast (broadcast s ++ [ReceivedVote v]) s
  | Membership.ReceivedPreemptive id data =>
      set_broadcast (broadcast s ++ [ReceivedPreemptive id data]) s
  end.

Definition handle_content_event (ev : Content.Event) (s : Service) : Service :=
  match ev with
  | Content.Complete id r =>
      match queries s !! id with
      | Some q => resolve_query q r (set_queries (delete id (queries s)) s)
      | None => s
      end
  | Content.BitswapForward p rx tx => set_forwards (forwards s ++ [(p, rx, tx)]) s
  end.

(** The task spawned for a [BitswapForward], when the response channel yields:
    [None] if Bitswap dropped it.  A block of data is charged to the peer
    through the request queue; the response goes on to the handler. *)
Inductive BitswapResponse := RespHave (b : bool) | RespBlock (bz : bytes).

Definition run_forward (p : PeerId) (response : option BitswapResponse) (s : Service) :
    option BitswapResponse * Service :=
  match response with
  | Some (RespBlock bz) =>
      (response, set_requests (requests s ++ [RateLimitUsed p (Z.of_nat (length bz))]) s)
  | Some (RespHave _) => (response, s)
  | None => (None, s)
  end.

Inductive BehaviourEvent :=
  | EvPing (p : PeerId) (r : PingResult)
  | EvIdentify (e : IdentifyEvent)
  | EvDiscovery (e : Discovery.Event)
  | EvMembership (e : Membership.Event)
  | EvContent (e : Content.Event).

Definition handle_behaviour_event (now : Now) (ev : BehaviourEvent) (s : Service) : Service :=
  match ev with
  | EvPing p r => handle_ping_event p r s
  | EvIdentify e => handle_identify_event e s
  | EvDiscovery e => handle_discovery_event now e s
  | EvMembership e => handle_membership_event e s
  | EvContent e => handle_content_event e s
  end.

(** ** Requests *)

(** A fallible call of the membership behaviour, whose error is only logged. *)
Definition with_membership (m : Membership.M ()) (s : Service) : Service :=
  set_membership (snd (m (membership s))) s.

Definition handle_request (now : Now) (seed : Z) (is_connected : PeerId → bool)
    (r : Request) (s : Service) : Service :=
  match r with
  | SetProvidedSubnets ids => with_membership (Membership.set_provided_subnets now ids) s
  | AddProvidedSubnet id => with_membership (Membership.add_provided_subnet now id) s
  | RemoveProvidedSubnet id => with_membership (Membership.remove_provided_subnet now id) s
  | PublishVote v => with_membership (Membership.publish_vote v) s
  | PublishPreemptive id data => with_membership (Membership.publish_preemptive id data) s
  | PinSubnet id => with_membership (Membership.pin_subnet id) s
  | UnpinSubnet id => with_membership (Membership.unpin_subnet id) s
  | Resolve cid id tx => start_query seed is_connected cid id tx s
  | RateLimitUsed p bytes =>
      set_content (Content.rate_limit_used (mono now) p bytes (content s)) s
  | UpdateRateLimit bytes => set_content (Content.update_rate_limit bytes (content s)) s
  end.

(** ** The event loop *)

(** What [select!] can return in one turn of the loop of [run], with the
    readings of the clock, of the random generator and of the swarm's
    connections. *)
Inductive Input :=
  | InBehaviour (now : Now) (ev : BehaviourEvent)
  | InSwarm
  | InSwarmClosed
  | InRequest (now : Now) (seed : Z) (is_connected : PeerId → bool) (r : Request)
  | InRequestsClosed.

Definition handle_input (i : Input) (s : Service) : option Service :=
  match i with
  | InBehaviour now ev => Some (handle_behaviour_event now ev s)
  | InSwarm => Some s
  | InSwarmClosed => None
  | InRequest now seed conn r => Some (handle_request now seed conn r s)
  | InRequestsClosed => None
  end.

(** The inputs up to the first that ends the loop. *)
Fixpoint run (l : list Input) (s : Service) : Service :=
  match l with
  | [] => s
  | i :: l =>
      match handle_input i s with
      | Some s => run l s
      | None => s
      end
  end.

(** ** Clients *)

(** [Client::send_request]: the request is queued unless the service has stopped
    listening. *)
Definition send_request (listening : bool) (r : Request) : stM (list Request) string () :=
  λ q, if listening then (Ok (), q ++ [r]) else (Err "disconnected", q).

Definition client_set_provided_subnets l ids := send_request l (SetProvidedSubnets ids).
Definition client_add_provided_subnet l id := send_request l (AddProvidedSubnet id).
Definition client_remove_provided_subnet l id := send_request l (RemoveProvidedSubnet id).
Definition client_pin_subnet l id := send_request l (PinSubnet id).
Definition client_unpin_subnet l id := send_request l (UnpinSubnet id).
Definition client_update_rate_limit l bytes := send_request l (UpdateRateLimit bytes).
Definition client_publish_vote l v := send_request l (PublishVote v).
Definition client_publish_preemptive l id data := send_request l (PublishPreemptive id data).

(** [Client::resolve] up to the [await]: a fresh channel is created and its
    receiving end kept. *)
Definition client_resolve (l : bool) (tx : ResponseChannel) (cid : Cid) (id : SubnetID) :
    stM (list Request) string ResponseChannel :=
  send_request l (Resolve cid id tx);; mret tx.

(** ** Every request is answered once *)

Section laws.
Context `{!Content.BitswapLaws}.

(** The turns of the loop, the spawned tasks, and what happens inside the swarm
    between two turns; each with the response channels that it brings in. *)
Definition input_channels (i : Input) : list ResponseChannel :=
  match i with
  | InRequest _ _ _ (Resolve _ _ tx) => [tx]
  | _ => []
  end.

Inductive service_step : Service → list ResponseChannel → Service → Prop :=
  | step_input i s s' : handle_input i s = Some s' → service_step s (input_channels i) s'
  | step_forward p r s : service_step s [] (run_forward p r s).2
  | step_membership m s : Membership.step (membership s) m → service_step s [] (set_membership m s)
  | step_discovery d s : Discovery.step (discovery s) d → service_step s [] (set_discovery d s)
  | step_content c s : Content.step (content s) c → service_step s [] (set_content c s).

Inductive service_steps : Service → list ResponseChannel → Service → Prop :=
  | steps_nil s : service_steps s [] s
  | steps_snoc s l s' l' s'' :
      service_steps s l s' → service_step s' l' s'' → service_steps s (l ++ l') s''.

Definition pending_channels (s : Service) : list ResponseChannel :=
  response_channel <$> (map_to_list (queries s)).*2.

Definition answered_channels (s : Service) : list ResponseChannel := (answers s).*1.

(** All channels the service is responsible for. *)
Definition channels (s : Service) : list ResponseChannel :=
  pending_channels s ++ answered_channels s.

Definition queries_ok (s : Service) : Prop :=
  dom (queries s) ⊆ Content.started (Content.inner (content s)).

Lemma pending_insert id q s :
  queries s !! id = None →
  pending_channels (set_queries (<[id := q]> (queries s)) s) ≡ₚ
    response_channel q :: pending_channels s.
Proof. intros Hid. unfold pending_channels; cbn. by rewrite map_to_list_insert. Qed.

Lemma pending_delete id q s :
  queries s !! id = Some q →
  pending_channels s ≡ₚ
    response_channel q :: pending_channels (set_queries (delete id (queries s)) s).
Proof. intros Hid. unfold pending_channels; cbn. by rewrite <-(map_to_list_delete _ _ _ Hid). Qed.

Lemma resolve_content_spec cid ps s :
  let '(id, s') := resolve_content cid ps s in
  id ∉ Content.started (Content.inner (content s)) ∧
  Content.started (Content.inner (content s')) =
    {[id]} ∪ Content.started (Content.inner (content s)) ∧
  queries s' = queries s ∧ answers s' = answers s ∧ membership s' = membership s ∧
  max_peers_per_query s' = max_peers_per_query s ∧
  Content.asked (Content.inner (content s')) =
    Content.asked (Content.inner (content s)) ++ [(id, cid, ps)] ∧
  id = (Content.bitswap_sync cid ps (Content.inner (content s))).1.
Proof.
  unfold resolve_content. pose proof (Content.resolve_spec cid ps (content s)) as Hr.
  destruct (Content.resolve cid ps (content s)) as [id c].
  destruct Hr as (? & ? & ? & ?). by split_and!.
Qed.

(** Starting a query on a state where the ids in use are known to Bitswap. *)
Lemma add_query_channels cid ps mk s :
  queries_ok s →
  let '(id, s') := resolve_content cid ps s in
  queries_ok (set_queries (<[id := mk]> (queries s')) s') ∧
  channels (set_queries (<[id := mk]> (queries s')) s') ≡ₚ channels s ++ [response_channel mk].
Proof.
  intros Hok. pose proof (resolve_content_spec cid ps s) as Hr.
  destruct (resolve_content cid ps s) as [id s'].
  destruct Hr as (Hfresh & Hst & Hq & Ha & _). split.
  - unfold queries_ok; cbn. rewrite dom_insert_L, Hst, Hq. unfold queries_ok in Hok. set_solver.
  - unfold channels, answered_channels. rewrite pending_insert.
    2: { rewrite Hq. apply not_elem_of_dom. unfold queries_ok in Hok. set_solver. }
    cbn. unfold pending_channels. rewrite Hq, Ha. solve_Permutation.
Qed.
Lemma send_channels tx r s :
  channels (send_resolve_result tx r s) ≡ₚ channels s ++ [tx].
Proof.
  unfold channels, pending_channels, answered_channels. cbn.
  rewrite fmap_app. cbn. solve_Permutation.
Qed.

Lemma start_query_channels seed conn cid id tx s :
  queries_ok s →
  queries_ok (start_query seed conn cid id tx s) ∧
  channels (start_query seed conn cid id tx s) ≡ₚ channels s ++ [tx].
Proof.
  intros Hok. unfold start_query. destruct (Membership.providers_of_subnet _ _) as [|p ps].
  { split; [done|]. by rewrite send_channels. }
  destruct (split_peers_for_query s _) as [peers fallback].
  pose proof (add_query_channels cid peers (mkQuery cid id fallback tx) s Hok) as Hadd.
  by destruct (resolve_content cid peers s).
Qed.

Lemma resolve_query_channels id q r s :
  queries s !! id = Some q → queries_ok s →
  let s' := resolve_query q r (set_queries (delete id (queries s)) s) in
  queries_ok s' ∧ channels s' ≡ₚ channels s.
Proof.
  intros Hq Hok. set (s1 := set_queries (delete id (queries s)) s).
  assert (Hok1 : queries_ok s1).
  { unfold queries_ok in *; cbn. rewrite dom_delete_L. set_solver. }
  assert (Hch : channels s ≡ₚ channels s1 ++ [response_channel q]).
  { unfold channels. rewrite (pending_delete id q s Hq). fold s1.
    change (answered_channels s1) with (answered_channels s). solve_Permutation. }
  unfold resolve_query. destruct r as [[]|e].
  { split; [done|]. rewrite send_channels. by rewrite Hch. }
  destruct (fallback_peer_ids q) as [|p ps].
  { split; [done|]. rewrite send_channels. by rewrite Hch. }
  destruct (split_peers_for_query _ _) as [peers fallback].
  pose proof (add_query_channels (query_cid q) peers
    (mkQuery (query_cid q) (query_subnet_id q) fallback (response_channel q))
    (inc CONTENT_RESOLVE_FALLBACK s1) Hok1) as Hadd.
  destruct (resolve_content _ _ _) as [id' s2]. destruct Hadd as [? Hadd].
  split; [done|]. rewrite Hadd. by rewrite Hch.
Qed.

(** Handlers that leave the queries, the answers and Bitswap alone. *)
Definition same_queries (s s' : Service) : Prop :=
  queries s' = queries s ∧ answers s' = answers s ∧
  Content.inner (content s') = Content.inner (content s).

Lemma same_queries_channels s s' :
  same_queries s s' → queries_ok s → queries_ok s' ∧ channels s' ≡ₚ channels s ++ [].
Proof.
  intros (Hq & Ha & Hc). unfold queries_ok, channels, pending_channels, answered_channels.
  by rewrite Hq, Ha, Hc, app_nil_r.
Qed.

Lemma rate_limit_used_inner now p bytes b :
  Content.inner (Content.rate_limit_used now p bytes b) = Content.inner b.
Proof. unfold Content.rate_limit_used. by repeat case_match. Qed.

Lemma update_rate_limit_inner bytes b :
  Content.inner (Content.update_rate_limit bytes b) = Content.inner b.
Proof. unfold Content.update_rate_limit. by case_match. Qed.

Lemma handle_membership_same ev s : same_queries s (handle_membership_event ev s).
Proof. destruct ev; cbn; try done. by destruct (bloom_insert _ _) as [[] f]. Qed.

Lemma handle_input_channels i s s' :
  handle_input i s = Some s' → queries_ok s →
  queries_ok s' ∧ channels s' ≡ₚ channels s ++ input_channels i.
Proof.
  intros Hi Hok. destruct i as [now ev| | |now seed conn r|]; cbn in Hi; simplify_eq/=.
  - destruct ev as [p []|[]|[]|ev|[id r|p rx tx]]; try by apply same_queries_channels.
    + apply same_queries_channels; [apply handle_membership_same|done].
    + cbn. destruct (queries s !! id) as [q|] eqn:Hq; [|by apply same_queries_channels].
      rewrite app_nil_r. by apply resolve_query_channels.
  - by apply same_queries_channels.
  - destruct r; try by apply same_queries_channels.
    + by apply start_query_channels.
    + apply same_queries_channels; [|done]. split_and!; [done|done|apply rate_limit_used_inner].
    + apply same_queries_channels; [|done]. split_and!; [done|done|apply update_rate_limit_inner].
Qed.

Lemma service_step_channels s l s' :
  service_step s l s' → queries_ok s → queries_ok s' ∧ channels s' ≡ₚ channels s ++ l.
Proof.
  destruct 1 as [i s s' Hi|p r s|m s _|d s _|c s Hc]; intros Hok.
  - by eapply handle_input_channels.
  - apply same_queries_channels; [|done]. by destruct r as [[]|].
  - by apply same_queries_channels.
  - by apply same_queries_channels.
  - unfold queries_ok, channels in *. cbn. rewrite (Content.started_step _ _ Hc).
    by rewrite app_nil_r.
Qed.

Lemma new_queries now c store chan st s :
  new now c store chan st = Some (Ok s) → queries s = ∅ ∧ answers s = [].
Proof.
  unfold new. destruct (behaviour_new _ _ _ _ _) as [[[[d m] ct]|]|]; [|done|done].
  destruct (_ =? 0)%Z; [done|].
  by intros [= <-].
Qed.

(** C2 (every request is answered once): from the start of the service, through
    any interleaving of client requests, results of Bitswap, network activity
    and forwarded responses, each response channel handed over with a [Resolve]
    request is at every moment either waiting in exactly one running query or
    has been sent exactly one result; so when no query is running every client
    has been answered, once. *)
Theorem requests_answered_once now c store chan st s0 l s :
  new now c store chan st = Some (Ok s0) → service_steps s0 l s →
  pending_channels s ++ answered_channels s ≡ₚ l ∧
  (queries s = ∅ → answered_channels s ≡ₚ l).
Proof.
  intros [Hq Ha]%new_queries Hsteps.
  assert (queries_ok s ∧ channels s ≡ₚ l) as [_ Hch].
  { induction Hsteps as [s0|s0 l s1 l' s2 _ IH Hstep].
    - unfold queries_ok, channels, pending_channels, answered_channels.
      rewrite Hq, Ha, dom_empty_L, map_to_list_empty. split; [set_solver|done].
    - destruct (IH Hq Ha) as [Hok Hl].
      destruct (service_step_channels _ _ _ Hstep Hok) as [Hok' Hl'].
      split; [done|]. by rewrite Hl', Hl. }
  split; [exact Hch|]. intros Hempty.
  unfold channels, pending_channels in Hch. by rewrite Hempty, map_to_list_empty in Hch.
Qed.

(** ** Retries *)

(** Failing every attempt of a query, from the one with the given id, until the
    client is answered; the batches of peers asked on the way. *)
Fixpoint fail_until (fuel : nat) (e : Content.BitswapError) (id : Content.QueryId) (s : Service) :
    option (list (list PeerId) * Service) :=
  match fuel with
  | O => None
  | S fuel =>
      match queries s !! id with
      | None => None
      | Some q =>
          let s' := handle_content_event (Content.Complete id (Err e)) s in
          match fallback_peer_ids q with
          | [] => Some ([], s')
          | f =>
              let peers := (split_peers_for_query s f).1 in
              let id' := (Content.bitswap_sync (query_cid q) peers (Content.inner (content s))).1 in
              '(rest, s'') ← fail_until fuel e id' s';
              Some (peers :: rest, s'')
          end
      end
  end.

Lemma split_peers_spec s peers :
  split_peers_for_query s peers =
    (take (max_peers_per_query s) peers, drop (max_peers_per_query s) peers).
Proof.
  unfold split_peers_for_query.
  destruct (Nat.min_spec (max_peers_per_query s) (length peers)) as [[_ ->]|[? ->]]; [done|].
  by rewrite !take_ge, !drop_ge by lia.
Qed.

(** One failed attempt with peers left to ask. *)
Lemma retry_step e id q s p f :
  queries_ok s → queries s !! id = Some q → fallback_peer_ids q = p :: f →
  let peers := take (max_peers_per_query s) (p :: f) in
  let id' := (Content.bitswap_sync (query_cid q) peers (Content.inner (content s))).1 in
  let s' := handle_content_event (Content.Complete id (Err e)) s in
  queries_ok s' ∧
  queries s' = <[id' := mkQuery (query_cid q) (query_subnet_id q)
                  (drop (max_peers_per_query s) (p :: f)) (response_channel q)]>
                (delete id (queries s)) ∧
  id' ∉ dom (queries s) ∧
  answers s' = answers s ∧ max_peers_per_query s' = max_peers_per_query s ∧
  Content.asked (Content.inner (content s')) =
    Content.asked (Content.inner (content s)) ++ [(id', query_cid q, peers)].
Proof.
  intros Hok Hq Hf peers id' s'. subst peers id' s'.
  pose proof (resolve_query_channels id q (Err e) s Hq Hok) as [Hok' _].
  revert Hok'. unfold handle_content_event. rewrite Hq. unfold resolve_query. rewrite Hf.
  rewrite split_peers_spec.
  change (max_peers_per_query (inc CONTENT_RESOLVE_FALLBACK ?x)) with (max_peers_per_query s).
  pose proof (resolve_content_spec (query_cid q) (take (max_peers_per_query s) (p :: f))
    (inc CONTENT_RESOLVE_FALLBACK (set_queries (delete id (queries s)) s))) as Hr.
  destruct (resolve_content _ _ _) as [id2 s2].
  destruct Hr as (Hfresh & _ & Hqs & Ha & _ & Hm & Hasked & ->). intros Hok'.
  split_and!; [done| | |exact Ha|exact Hm|exact Hasked].
  - cbn. by rewrite Hqs.
  - unfold queries_ok in Hok. set_solver.
Qed.

Lemma last_attempt e id q s :
  queries s !! id = Some q → fallback_peer_ids q = [] →
  let s' := handle_content_event (Content.Complete id (Err e)) s in
  queries s' = delete id (queries s) ∧
  answers s' = answers s ++ [(response_channel q, Err (BitswapFailed e))] ∧
  Content.asked (Content.inner (content s')) = Content.asked (Content.inner (content s)).
Proof. intros Hq Hf. cbn. rewrite Hq. unfold resolve_query. rewrite Hf. done. Qed.

(** The outcome of failing every attempt of a query. *)
Definition exhausted (e : Content.BitswapError) (id : Content.QueryId) (q : Query) (s : Service)
    (batches : list (list PeerId)) (s' : Service) : Prop :=
  concat batches = fallback_peer_ids q ∧
  Forall (λ b, 0 < length b ≤ max_peers_per_query s)%nat batches ∧
  answers s' = answers s ++ [(response_channel q, Err (BitswapFailed e))] ∧
  queries s' = delete id (queries s) ∧
  (Content.asked (Content.inner (content s'))).*2 =
    (Content.asked (Content.inner (content s))).*2 ++ batches.

Lemma fail_until_exhausted n e id q s :
  (length (fallback_peer_ids q) < n)%nat → (0 < max_peers_per_query s)%nat →
  queries_ok s → queries s !! id = Some q →
  ∃ batches s', fail_until n e id s = Some (batches, s') ∧ exhausted e id q s batches s'.
Proof.
  revert id q s. induction n as [|n IH]; intros id q s Hlen Hmax Hok Hq; [lia|].
  cbn [fail_until]. rewrite Hq. destruct (fallback_peer_ids q) as [|p f] eqn:Hf.
  { destruct (last_attempt e id q s Hq Hf) as (Hqs & Ha & Hasked).
    eexists [], _. split; [done|].
    split_and!; [by rewrite Hf|constructor|done|done|by rewrite Hasked, app_nil_r]. }
  rewrite split_peers_spec. cbn [fst].
  destruct (retry_step e id q s p f Hok Hq Hf) as (Hok' & Hqs & Hfresh & Ha & Hm & Hasked).
  set (peers := take (max_peers_per_query s) (p :: f)) in *.
  set (id' := (Content.bitswap_sync _ _ _).1) in *.
  set (s1 := handle_content_event _ s) in *. set (q' := mkQuery _ _ _ _) in *.
  destruct (IH id' q' s1) as (batches & s' & Hrun & Hconc & Hall & Ha' & Hqs' & Hasked').
  { cbn. rewrite length_drop. cbn [length] in *. lia. }
  { by rewrite Hm. }
  { done. }
  { rewrite Hqs. by rewrite lookup_insert_eq. }
  exists (peers :: batches), s'. rewrite Hrun. split; [done|].
  rewrite Hm in Hall. split_and!.
  - cbn. rewrite Hconc, Hf. apply take_drop.
  - constructor; [|done]. unfold peers. rewrite length_take. cbn [length]. lia.
  - by rewrite Ha', Ha.
  - rewrite Hqs', Hqs, delete_insert_eq, delete_id; [done|]. apply not_elem_of_dom.
    rewrite dom_delete_L. set_solver.
  - rewrite Hasked', Hasked, fmap_app. cbn. by rewrite <-(assoc_L (++)).
Qed.

(** With [max_peers_per_query = 0] a failing query is retried for ever with no
    peers to ask, and its client is never answered. *)
Lemma zero_peers_never_answered fuel e id q s :
  max_peers_per_query s = 0%nat → queries_ok s → queries s !! id = Some q →
  fallback_peer_ids q ≠ [] → fail_until fuel e id s = None.
Proof.
  revert id q s. induction fuel as [|fuel IH]; intros id q s Hmax Hok Hq Hf; [done|].
  cbn [fail_until]. rewrite Hq. destruct (fallback_peer_ids q) as [|p f] eqn:Hfq; [done|].
  destruct (retry_step e id q s p f Hok Hq Hfq) as (Hok' & Hqs & _ & _ & Hm & _).
  rewrite split_peers_spec. cbn [fst]. rewrite Hmax in *. rewrite take_0, drop_0 in *.
  set (id' := (Content.bitswap_sync _ _ _).1) in *.
  erewrite IH; [done|by rewrite Hm|done|by rewrite Hqs, lookup_insert_eq|done].
Qed.


(** ** Starting a query *)

Lemma connected_first_perm conn l : connected_first conn l ≡ₚ l.
Proof.
  unfold connected_first. induction l as [|p l IH]; [done|].
  rewrite !filter_cons. destruct (decide (conn p = true)); cbn.
  - rewrite decide_False by tauto. by rewrite IH.
  - rewrite decide_True by done. by rewrite <-Permutation_middle, IH.
Qed.

(** A query asks the providers of its subnet, connected ones first: a
    [Resolve] for a subnet without known providers is answered at once with
    [NoKnownPeers]; otherwise one query is started with a first batch of at most
    [max_peers_per_query] providers, and the batch followed by the fallback
    peers lists every provider exactly once, the connected ones before the
    others. *)
Lemma start_query_providers seed conn cid id tx s :
  queries_ok s →
  let ps := Membership.providers_of_subnet (membership s) id in
  let s' := start_query seed conn cid id tx s in
  (ps = [] → answers s' = answers s ++ [(tx, Err (NoKnownPeers id))] ∧
     queries s' = queries s ∧ content s' = content s) ∧
  (ps ≠ [] → ∃ qid batch fallback n,
     queries s !! qid = None ∧
     queries s' = <[qid := mkQuery cid id fallback tx]> (queries s) ∧
     answers s' = answers s ∧
     Content.asked (Content.inner (content s')) =
       Content.asked (Content.inner (content s)) ++ [(qid, cid, batch)] ∧
     length batch = Nat.min (max_peers_per_query s) (length ps) ∧
     batch ++ fallback ≡ₚ ps ∧
     Forall (λ p, conn p = true) (take n (batch ++ fallback)) ∧
     Forall (λ p, conn p = false) (drop n (batch ++ fallback))).
Proof.
  intros Hok ps s'. unfold s', start_query. fold ps. clear s'.
  destruct ps as [|p0 ps0]; [by split|]. split; [done|intros _].
  set (ps := p0 :: ps0). rewrite split_peers_spec.
  set (l := connected_first conn (shuffle seed ps)).
  assert (Hl : l ≡ₚ ps) by (unfold l; by rewrite connected_first_perm, shuffle_perm).
  pose proof (resolve_content_spec cid (take (max_peers_per_query s) l) s) as Hr.
  destruct (resolve_content _ _ _) as [qid s2].
  destruct Hr as (Hfresh & _ & Hqs & Ha & _ & _ & Hasked & _).
  exists qid, (take (max_peers_per_query s) l), (drop (max_peers_per_query s) l),
    (length (filter (λ p, conn p = true) (shuffle seed ps))).
  rewrite take_drop. split_and!; [| |exact Ha|exact Hasked| |exact Hl| |].
  - apply not_elem_of_dom. unfold queries_ok in Hok. set_solver.
  - cbn. by rewrite Hqs.
  - rewrite length_take. by rewrite Hl.
  - unfold l, connected_first. rewrite take_app_length.
    apply Forall_forall. by intros q [? _]%list_elem_of_filter.
  - unfold l, connected_first. rewrite drop_app_length.
    apply Forall_forall. intros q [? _]%list_elem_of_filter. by apply not_true_is_false.
Qed.

(** ** Background lookups *)

Lemma bloom_contains_step `{!BloomLaws} p s l s' :
  service_step s l s' → bloom_contains p (background_lookup_filter s) →
  bloom_contains p (background_lookup_filter s').
Proof.
  destruct 1 as [i s s' Hi|p' r s|m s _|d s _|c s _]; intros Hp; try done.
  2: { by destruct r as [[]|]. }
  destruct i as [now ev| | |now seed conn r|]; cbn in Hi; simplify_eq/=; try done.
  - destruct ev as [q []|[]|[]|ev|[id r|q rx tx]]; try done.
    + destruct ev as [|?|q| |]; try done. cbn.
      pose proof (bloom_insert_contains q p (background_lookup_filter s) (or_intror Hp)) as Hc.
      by destruct (bloom_insert q (background_lookup_filter s)) as [[] f].
    + cbn. destruct (queries s !! id) as [q|]; [|done].
      unfold resolve_query. destruct r as [|e]; [done|]. destruct (fallback_peer_ids q); [done|].
      destruct (split_peers_for_query _ _). unfold resolve_content.
      by destruct (Content.resolve _ _ _).
  - destruct r; try done. cbn. unfold start_query.
    destruct (Membership.providers_of_subnet _ _); [done|].
    destruct (split_peers_for_query _ _). unfold resolve_content.
    by destruct (Content.resolve _ _ _).
Qed.

(** Once the service has reacted to a provider
    that it cannot route to, no later report of the same peer, whatever happens
    in between, starts another lookup. *)
Lemma background_lookup_once `{!BloomLaws} p s l s' :
  service_steps (handle_membership_event (Membership.Skipped p) s) l s' →
  discovery (handle_membership_event (Membership.Skipped p) s') = discovery s'.
Proof.
  intros Hsteps.
  assert (Hp : bloom_contains p (background_lookup_filter s')).
  { remember (handle_membership_event (Membership.Skipped p) s) as s0 eqn:Hs0.
    induction Hsteps as [s0|s0 l s1 l' s2 _ IH Hstep]; subst.
    - cbn. pose proof (bloom_insert_contains p p (background_lookup_filter s) (or_introl eq_refl)).
      by destruct (bloom_insert p (background_lookup_filter s)) as [[] f].
    - eapply bloom_contains_step; [done|]. by apply IH. }
  cbn. pose proof (bloom_insert_new p (background_lookup_filter s')) as Hn.
  destruct (bloom_insert p (background_lookup_filter s')) as [[] f]; [|done].
  by destruct (Hn eq_refl).
Qed.

(** ** Between the behaviours *)

(** A peer reported by discovery becomes
    routable in the provider cache, so that its records are accepted; a peer
    reported as removed is forgotten there, as a provider of any subnet, and
    the other peers are not affected. *)
Lemma discovery_drives_membership now p addrs s :
  let added := handle_discovery_event now (Discovery.Added p addrs) s in
  let removed := handle_discovery_event now (Discovery.Removed p) s in
  let cache s := Membership.provider_cache (membership s) in
  (∀ q, q ∈ Cache.routable_peers (cache added) ↔ q = p ∨ q ∈ Cache.routable_peers (cache s)) ∧
  (∀ id, Membership.providers_of_subnet (membership added) id =
     Membership.providers_of_subnet (membership s) id) ∧
  (∀ q, q ∈ Cache.routable_peers (cache removed) ↔ q ≠ p ∧ q ∈ Cache.routable_peers (cache s)) ∧
  (∀ id q, q ∈ Membership.providers_of_subnet (membership removed) id ↔
     q ≠ p ∧ q ∈ Membership.providers_of_subnet (membership s) id).
Proof.
  intros added removed cache.
  assert (Hc : cache added = Cache.set_routable p (cache s)).
  { unfold cache, added. cbn. unfold Membership.set_routable.
    by rewrite Membership.publish_for_new_peer_cache. }
  split_and!.
  - intros q. rewrite Hc. cbn. rewrite elem_of_union, elem_of_singleton. done.
  - intros id. unfold Membership.providers_of_subnet. fold (cache added). by rewrite Hc.
  - intros q. cbn. rewrite elem_of_difference, elem_of_singleton. tauto.
  - intros id q. unfold Membership.providers_of_subnet.
    rewrite !Cache.elem_of_providers_of_subnet.
    change (Cache.subnet_providers (Membership.provider_cache (membership removed)))
      with (Cache.remove_from_all p
              (Cache.subnet_providers (Membership.provider_cache (membership s)))).
    rewrite Cache.providers_remove_from_all, elem_of_difference, elem_of_singleton. tauto.
Qed.

(** When Bitswap answers a forwarded request with a
    block, the response reaches the requester unchanged and a request to charge
    its size is queued; handling that request charges the limiter under the
    address of the peer, with sizes above 32 bits capped. *)
Lemma served_block_charged now seed conn p bz limit addr s :
  Content.rate_limit (content s) = Some limit →
  Content.peer_addresses (content s) !! p = Some addr →
  let '(forwarded, s1) := run_forward p (Some (RespBlock bz)) s in
  forwarded = Some (RespBlock bz) ∧
  ∃ r, requests s1 = requests s ++ [r] ∧
    Content.rate_limiter (content (handle_request now seed conn r s1)) =
      (Content.add (mono now) limit addr (Z.min (Z.of_nat (length bz)) u32_max)
         (Content.rate_limiter (content s))).2.
Proof.
  intros Hl Hp. cbn. split; [done|]. eexists. split; [done|]. cbn.
  unfold Content.rate_limit_used. rewrite Hl, Hp. cbn. unfold to_u32_or_max.
  do 2 f_equal. destruct (Z.leb_spec (Z.of_nat (length bz)) u32_max); lia.
Qed.

End laws.
End service.

(** ** Metrics *)
Section metrics.
Context `{!Registry} `{!RegistryLaws}.

(** [Service::register_metrics]; [bitswap_metrics] is [Bitswap::register_metrics]. *)
Definition service_register_metrics (bitswap_metrics : stM registry registry_error ()) :
    stM registry registry_error () :=
  _ ← bitswap_metrics;
  register_metrics.

(** It fails on every registry, whatever Bitswap registers. *)
Lemma service_register_metrics_fails bitswap_metrics r :
  is_err (service_register_metrics bitswap_metrics r).1 = true.
Proof.
  unfold service_register_metrics, mbind, stM_bind.
  destruct (bitswap_metrics r) as [[[]|e] r']; [apply register_metrics_fails|done].
Qed.
End metrics.

(** ** A concrete service *)

Definition demo_bloom : @Bloom demo_types :=
  @Build_Bloom demo_types (gset N) (λ _, ∅)
  (λ p f, (bool_decide (p ∉ f), {[p]} ∪ f)).

Definition demo_bloom_laws : @BloomLaws demo_types demo_bloom.
Proof.
  refine (@Build_BloomLaws demo_types demo_bloom (λ p f, p ∈ f) _ _); cbn.
  - intros p f ?%bool_decide_eq_true. done.
  - intros p q f [->|?]; set_solver.
Defined.

Definition demo_shuffle : @Shuffle demo_types :=
  @Build_Shuffle demo_types (λ seed l, if (seed =? 0)%Z then l else reverse l)
  (λ seed l, if (seed =? 0)%Z as b return ((if b then l else reverse l) ≡ₚ l)
             then Permutation_refl _ else reverse_Permutation _).

Section demo.
#[local] Existing Instances demo_types demo_envelope demo_addrs demo_provider_serde demo_vote_serde
  demo_timer Membership.demo_gossip Membership.demo_gossip_poll
  Discovery.demo_kad Content.demo_bitswap Content.demo_bitswap_laws Content.demo_gcra
  Content.demo_time_cache demo_bloom demo_bloom_laws demo_shuffle.
#[local] Instance service_subnet_iter : HashIter SubnetID := canonical_iter SubnetID.
#[local] Instance service_peer_iter : HashIter PeerId := canonical_iter PeerId.

Definition demo_config : Config :=
  mkConfig (Membership.mkNetworkConfig (demo_key 3) "net")
    (Discovery.mkConfig [] 10 false)
    (Membership.mkConfig [] 10 (duration_from_secs 60) (duration_from_secs 5)
       (duration_from_secs 300))
    (mkConnectionConfig (Content.demo_remote 1 3) 20 100 2 10)
    (Content.mkConfig 1000 (duration_from_secs 60)).

(** The service with a fallback that [new] does not use. *)
Definition demo_service (default : Service) : Service :=
  match new (demo_now 1000) demo_config () 100%N (λ _, 0%Z) with
  | Some (Ok s) => s
  | _ => default
  end.

Lemma demo_service_new default :
  match new (demo_now 1000) demo_config () 100%N (λ _, 0%Z) with
  | Some (Ok _) => true
  | _ => false
  end = true →
  new (demo_now 1000) demo_config () 100%N (λ _, 0%Z) = Some (Ok (demo_service default)).
Proof. unfold demo_service. by destruct (new _ _ _ _ _) as [[]|]. Qed.

(** A service whose cache knows three providers of subnet [7]. *)
Definition demo_state : Service :=
  mkService (demo_peer 3) (Content.demo_remote 1 3) (connection_limits (cfg_connection demo_config))
    (Discovery.mkBehaviour (demo_peer 3) [] "" None 0 10 (duration_from_secs 1, 0%Z) None [] (λ _, 0%Z))
    (Membership.mkBehaviour (Membership.mkDemoGossip 5 ∅ [] []) [] (demo_key 3) "net" "topic" [] ∅ ∅
       (Cache.mkCache 10 ∅ {[demo_peer 4; demo_peer 5; demo_peer 6]}
          {[demo_subnet [7]%N := {[demo_peer 4; demo_peer 5; demo_peer 6]}]} ∅)
       (duration_from_secs 60, 0%Z) (duration_from_secs 5) 0%Z 0%Z (duration_from_secs 300) (λ _, 0%Z))
    Content.demo_connected ∅ [] ∅ 2 [] [] [] [] (λ _, 0%Z).

Definition demo_resolving : Service :=
  start_query 0 (λ p, bool_decide (p = demo_peer 6)) (demo_cid 1) (demo_subnet [7]%N) 1%N demo_state.

Definition demo_error : Content.BitswapError (BitswapI := Content.demo_bitswap) := "timeout".
Definition demo_query_id : Content.QueryId (BitswapI := Content.demo_bitswap) := 0%N.

Definition demo_limit : Content.RateLimit (Gcra := Content.demo_gcra) := 50%Z.

Definition demo_ip : Multiaddr (Multiaddrs := demo_addrs) := ([Ip4 9%Z] : list (Protocol N N)).

Lemma demo_state_ok : queries_ok demo_state.
Proof. unfold queries_ok. cbn. rewrite dom_empty_L. apply empty_subseteq. Qed.

Lemma demo_resolving_ok : queries_ok demo_resolving.
Proof. apply start_query_channels, demo_state_ok. Qed.

Lemma requests_answered_once_witness :
  ∃ s0 s, new (demo_now 1000) demo_config () 100%N (λ _, 0%Z) = Some (Ok s0) ∧
    pending_channels s ++ answered_channels s ≡ₚ [1%N; 2%N].
Proof.
  set (r1 := InRequest (demo_now 1001) 0 (λ _, false) (Resolve (demo_cid 1) (demo_subnet [7]%N) 1%N)).
  set (r2 := InRequest (demo_now 1001) 0 (λ _, false) (Resolve (demo_cid 2) (demo_subnet [8]%N) 2%N)).
  exists (demo_service demo_state), (run [r1; r2] (demo_service demo_state)).
  assert (Hnew : new (demo_now 1000) demo_config () 100%N (λ _, 0%Z) =
    Some (Ok (demo_service demo_state))) by (apply demo_service_new; by vm_compute).
  split; [exact Hnew|].
  refine (proj1 (requests_answered_once (demo_now 1000) demo_config () 100%N (λ _, 0%Z)
    (demo_service demo_state) [1%N; 2%N] (run [r1; r2] (demo_service demo_state)) Hnew _)).
  apply (steps_snoc _ [1%N] (run [r1] (demo_service demo_state)) (input_channels r2));
    [|by apply step_input].
  apply (steps_snoc _ [] (demo_service demo_state) (input_channels r1)); [constructor|].
  by apply step_input.
Defined.

Lemma start_query_providers_witness :
  ∃ qid batch fallback n,
    queries demo_resolving = <[qid := mkQuery (demo_cid 1) (demo_subnet [7]%N) fallback 1%N]> ∅ ∧
    length batch = 2%nat ∧
    Forall (λ p, bool_decide (p = demo_peer 6) = true) (take n (batch ++ fallback)).
Proof.
  destruct (start_query_providers 0%Z (λ p, bool_decide (p = demo_peer 6)) (demo_cid 1)
    (demo_subnet [7]%N) 1%N demo_state demo_state_ok) as [_ Hq].
  destruct Hq as (qid & batch & fallback & n & _ & Hq & _ & _ & Hlen & _ & Hconn & _).
  { by vm_compute. }
  exists qid, batch, fallback, n. split_and!; [exact Hq| |exact Hconn].
  rewrite Hlen. by vm_compute.
Defined.


Lemma background_lookup_once_witness :
  let s := handle_membership_event (Membership.Skipped (demo_peer 8)) demo_state in
  discovery (handle_membership_event (Membership.Skipped (demo_peer 8)) s) = discovery s.
Proof.
  apply (background_lookup_once (demo_peer 8) demo_state []). constructor.
Defined.

Lemma served_block_charged_witness :
  ∃ r, requests (run_forward (demo_peer 4) (Some (RespBlock [])) demo_state).2 = [r] ∧
    Content.rate_limiter (content (handle_request (demo_now 0) 0 (λ _, true) r
      (run_forward (demo_peer 4) (Some (RespBlock [])) demo_state).2)) =
    (Content.add 0%Z demo_limit demo_ip 0%Z
       (Content.rate_limiter (content demo_state))).2.
Proof.
  destruct (served_block_charged (demo_now 0) 0%Z (λ _, true) (demo_peer 4) [] demo_limit
    demo_ip demo_state eq_refl eq_refl) as [_ (r & Hr & Hc)].
  exists r. split; [exact Hr|exact Hc].
Defined.
End demo.
End Service.
