(* ===== verification/Resolution.v ===== *)
(** * From a provided subnet to a resolved CID

    Two services of [Service.v] on one network: one starts to provide a subnet, the
    other hears of it over Gossipsub and resolves CIDs of the subnet.  This composes
    publishing, signing, gossip and the provider cache with queries and their
    retries. *)
From S2P Require Import Prelude Timestamp Types Net Stats Records ProviderCache Membership Discovery Content Service.

Module Resolution.
Import Membership Service.
#[local] Existing Instances Content.QueryId_eq_dec Content.QueryId_countable.

Section resolution.
Context `{Membership.Gossip} `{!Multiaddrs} `{!Membership.GossipPoll} `{!Timer} `{!Discovery.Kad}.
Context `{!Content.BitswapI} `{!Content.Gcra} `{!Content.TimeCacheI Multiaddr Content.GcraState}.
Context `{!HashIter SubnetID} `{!HashIter PeerId}.
Context `{!Serde ProviderRecord} `{!Serde VoteRecord} `{!Bloom} `{!Shuffle}.
Context `{!Content.BitswapLaws} `{!GossipLaws} `{!TimerLaws} `{!HashesDistinct} `{!SubnetNames}.
Context `{!EnvelopeLaws} `{!SerdeLaws ProviderRecord}.

(** ** Attempts *)

(** Bitswap fails [k] attempts of a query, with the errors [es], while there are
    fallback peers; the id of the attempt that then runs. *)
Fixpoint fail_times (k : nat) (es : nat → Content.BitswapError) (id : Content.QueryId) (s : Service) :
    option (Content.QueryId * Service) :=
  match k with
  | O => Some (id, s)
  | S k =>
      q ← queries s !! id;
      match fallback_peer_ids q with
      | [] => None
      | f =>
          let peers := (split_peers_for_query s f).1 in
          let id' := (Content.bitswap_sync (query_cid q) peers (Content.inner (content s))).1 in
          fail_times k (λ i, es (S i)) id' (handle_content_event (Content.Complete id (Err (es 0%nat))) s)
      end
  end.

(** Every peer of a query is asked, if the attempts before fail. *)
Lemma peer_reached n es id q s batch p :
  (length (fallback_peer_ids q) ≤ n)%nat → (0 < max_peers_per_query s)%nat → queries_ok s →
  queries s !! id = Some q →
  (id, query_cid q, batch) ∈ Content.asked (Content.inner (content s)) →
  p ∈ batch ++ fallback_peer_ids q →
  ∃ k id' s' q' batch', (k ≤ n)%nat ∧ fail_times k es id s = Some (id', s') ∧
    (id', query_cid q, batch') ∈ Content.asked (Content.inner (content s')) ∧ p ∈ batch' ∧
    queries s' !! id' = Some q' ∧ response_channel q' = response_channel q ∧ answers s' = answers s.
Proof.
  revert es id q s batch. induction n as [|n IH]; intros es id q s batch Hlen Hmax Hok Hq Hasked Hp;
    (destruct (decide (p ∈ batch)) as [Hb|Hb]; [by exists 0%nat, id, s, q, batch; split_and!; [lia|..]|]);
    (destruct (fallback_peer_ids q) as [|p0 f] eqn:Hf; [by rewrite app_nil_r in Hp|]).
  { cbn in Hlen. lia. }
  destruct (retry_step (es 0%nat) id q s p0 f Hok Hq Hf) as (Hok' & Hqs & _ & Ha & Hm & Hasked').
  set (peers := take (max_peers_per_query s) (p0 :: f)) in *.
  set (id' := (Content.bitswap_sync _ _ _).1) in *. set (s1 := handle_content_event _ s) in *.
  set (q1 := mkQuery _ _ _ _) in *.
  destruct (IH (λ i, es (S i)) id' q1 s1 peers) as (k & id2 & s2 & q2 & b2 & Hk & Hrun & Hin & Hpb & Hq2 & Hch & Ha2).
  - cbn. rewrite length_drop. cbn [length] in *. lia.
  - by rewrite Hm.
  - done.
  - by rewrite Hqs, lookup_insert_eq.
  - rewrite Hasked'. apply elem_of_app. right. apply list_elem_of_here.
  - cbn [fallback_peer_ids q1]. unfold peers. rewrite take_drop. by apply elem_of_app in Hp as [?|?].
  - exists (S k), id2, s2, q2, b2. split_and!; [lia| |done|done|done|done|by rewrite Ha2].
    cbn [fail_times]. rewrite Hq. cbn [mbind option_bind]. rewrite Hf, split_peers_spec. exact Hrun.
Qed.

(** ** Providing a subnet *)

(** Starting to provide a subnet publishes a signed record that lists it. *)
Lemma add_provided_published now id (a a' : Membership.Behaviour) :
  id ∉ Membership.subnet_ids a → Membership.add_provided_subnet now id a = (Ok (), a') →
  ∃ sr, provider_record_signed (wall now) (Membership.local_key a) (Membership.subnet_ids a ++ [id]) = Ok sr ∧
    (Membership.membership_hash a, wire sr) ∈ gs_sent (Membership.inner a').
Proof.
  intros Hid. unfold Membership.add_provided_subnet, Membership.voting_subscribe, Membership.subscribe,
    gets, modify, mbind, stM_bind. rewrite decide_False by done.
  destruct (gs_subscribe _ _) as [[u|e] g]; cbn [map_err]; [|done].
  intros (sr & g' & i & Hsr & Hpub & -> & _)%publish_membership_ok.
  exists sr. split; [exact Hsr|]. rewrite (publish_ok _ _ _ _ _ Hpub).
  apply elem_of_app. right. apply list_elem_of_here.
Qed.

(** ** Discovering the provider, and hearing of the subnet *)

Definition discover (now : Now) (p : PeerId) (addrs : list Multiaddr) (s : Service) : Service :=
  handle_discovery_event now (Discovery.Added p addrs) s.

Definition deliver (now : Now) (m : GossipsubMessage) (s : Service) : Service :=
  set_membership (handle_message now m (membership s)) s.

Lemma discovered_cache now p addrs s :
  provider_cache (membership (discover now p addrs s)) = Cache.set_routable p (provider_cache (membership s)).
Proof. cbn. unfold set_routable. by rewrite publish_for_new_peer_cache. Qed.

Lemma discovered_subs now p addrs s : same_subs (membership s) (membership (discover now p addrs s)).
Proof. apply same_subs_set_routable. Qed.

(** A peer that signed a record with the subnet is a provider after both. *)
Lemma provider_listed now key ids sr id now1 now2 addrs s :
  let p := to_peer_id (public key) in
  provider_record_signed now key ids = Ok sr → id ∈ ids →
  (Cache.known_timestamp (provider_cache (membership s)) p < now)%Z →
  id ∈ pinned (membership s) ∨
  (size (dom (Cache.subnet_providers (provider_cache (membership s))) ∪ list_to_set ids) ≤
     Cache.max_subnets (provider_cache (membership s)))%nat →
  p ∈ Membership.providers_of_subnet
    (membership (deliver now2 (mkMessage None (membership_hash (membership s)) (wire sr)) (discover now1 p addrs s))) id.
Proof.
  intros p Hsr Hid Hts Hroom. destruct (discovered_subs now1 p addrs s) as (_ & _ & Htop & _).
  unfold deliver. cbn [membership set_membership].
  assert (membership_hash (membership s) = membership_hash (membership (discover now1 p addrs s))) as ->
    by (unfold membership_hash; by rewrite Htop).
  eapply (signed_record_delivered now); [exact Hsr|..]; unfold pinned; rewrite ?discovered_cache.
  - cbn. set_solver.
  - exact Hts.
  - exact Hroom.
  - by rewrite decide_True.
Qed.

Lemma start_query_limit seed conn cid id tx s :
  max_peers_per_query (start_query seed conn cid id tx s) = max_peers_per_query s.
Proof.
  unfold start_query. destruct (Membership.providers_of_subnet _ _); [done|].
  destruct (split_peers_for_query s _) as [peers fallback].
  pose proof (resolve_content_spec cid peers s) as Hr. destruct (resolve_content _ _ _).
  cbn. by destruct Hr as (_ & _ & _ & _ & _ & -> & _).
Qed.

(** A listed provider is asked and its success answers the client. *)
Lemma provider_asked seed conn cid id tx s p :
  queries_ok s → (0 < max_peers_per_query s)%nat → p ∈ Membership.providers_of_subnet (membership s) id →
  ∃ qid, ∀ es, ∃ k qid' s' batch,
    (k ≤ length (Membership.providers_of_subnet (membership s) id))%nat ∧
    fail_times k es qid (start_query seed conn cid id tx s) = Some (qid', s') ∧
    (qid', cid, batch) ∈ Content.asked (Content.inner (content s')) ∧ p ∈ batch ∧
    answers (handle_content_event (Content.Complete qid' (Ok ())) s') = answers s ++ [(tx, Ok ())].
Proof.
  intros Hok Hmax Hp. destruct (start_query_providers seed conn cid id tx s Hok) as [_ Hq].
  destruct Hq as (qid & batch & fallback & n & Hfresh & Hqs & Ha & Hasked & _ & Hperm & _);
    [intros Hn; rewrite Hn in Hp; by apply elem_of_nil in Hp|].
  exists qid. intros es. assert (Hlen := Permutation_length Hperm). rewrite length_app in Hlen.
  destruct (peer_reached (length fallback) es qid (mkQuery cid id fallback tx)
    (start_query seed conn cid id tx s) batch p) as (k & qid' & s' & q' & b & Hk & Hrun & Hin & Hpb & Hq' & Hch & Ha').
  - done.
  - by rewrite start_query_limit.
  - by apply start_query_channels.
  - by rewrite Hqs, lookup_insert_eq.
  - rewrite Hasked. apply elem_of_app. right. apply list_elem_of_here.
  - cbn. by rewrite Hperm.
  - exists k, qid', s', b. split_and!; [lia|done|done|done|].
    cbn. rewrite Hq'. cbn. by rewrite Ha', Ha, Hch.
Qed.

(** C3 (a provided subnet can be resolved): when a service starts to provide a subnet
    that it did not provide before and its publication succeeds, a message goes out
    such that the following holds of every service on the network that asks at least
    one peer per query ([max_peers_per_query] is not 0), is in a consistent state as
    all reachable ones are, discovers the provider, receives the message, knows no
    record of the provider of the same second or later, and has pinned the subnet or
    has room for the provider's subnets.  It resolves CIDs of the subnet with the
    provider's help: the client's request starts a query, and whatever errors the
    attempts before meet, after at most as many failures as there are providers the
    provider is asked for the CID; if this attempt succeeds, the client is answered
    with success. *)
Theorem provided_subnet_resolvable now seed conn id (a : Service) :
  let p := to_peer_id (public (local_key (membership a))) in
  id ∉ subnet_ids (membership a) → (add_provided_subnet now id (membership a)).1 = Ok () →
  ∃ data,
    (membership_hash (membership a), data) ∈
      gs_sent (inner (membership (handle_request now seed conn (AddProvidedSubnet id) a))) ∧
    ∀ now1 now2 now3 addrs seed' conn' cid tx (b : Service),
      membership_topic (membership b) = membership_topic (membership a) →
      queries_ok b → (0 < max_peers_per_query b)%nat →
      (Cache.known_timestamp (provider_cache (membership b)) p < wall now)%Z →
      id ∈ pinned (membership b) ∨
      (size (dom (Cache.subnet_providers (provider_cache (membership b))) ∪
             list_to_set (subnet_ids (membership a) ++ [id])) ≤
         Cache.max_subnets (provider_cache (membership b)))%nat →
      let b1 := deliver now2 (mkMessage None (membership_hash (membership a)) data) (discover now1 p addrs b) in
      let b2 := handle_request now3 seed' conn' (Resolve cid id tx) b1 in
      ∃ qid, ∀ es, ∃ k qid' s' batch,
        (k ≤ length (Membership.providers_of_subnet (membership b1) id))%nat ∧
        fail_times k es qid b2 = Some (qid', s') ∧
        (qid', cid, batch) ∈ Content.asked (Content.inner (content s')) ∧ p ∈ batch ∧
        answers (handle_content_event (Content.Complete qid' (Ok ())) s') = answers b ++ [(tx, Ok ())].
Proof.
  intros p Hid Hadd. destruct (add_provided_subnet now id (membership a)) as [r a'] eqn:Hr. cbn in Hadd. subst r.
  destruct (add_provided_published _ _ _ _ Hid Hr) as (sr & Hsr & Hsent).
  exists (wire sr). split; [cbn; unfold with_membership; by rewrite Hr|].
  intros now1 now2 now3 addrs seed' conn' cid tx b Htopic Hok Hmax Hts Hroom b1 b2.
  apply (provider_asked seed' conn' cid id tx b1 p); [exact Hok|exact Hmax|].
  unfold b1, membership_hash. rewrite <-Htopic. eapply provider_listed; [exact Hsr| |exact Hts|exact Hroom].
  set_solver.
Qed.
End resolution.

(** ** Two services *)
Section demo.
#[local] Existing Instances demo_types demo_envelope demo_envelope_laws demo_addrs demo_provider_serde demo_vote_serde
  demo_provider_serde_laws demo_timer demo_timer_laws demo_gossip demo_gossip_poll demo_gossip_laws
  demo_hashes_distinct demo_subnet_names Discovery.demo_kad Content.demo_bitswap Content.demo_bitswap_laws Content.demo_gcra
  Content.demo_time_cache demo_bloom demo_shuffle.
#[local] Instance resolution_subnet_iter : HashIter SubnetID := canonical_iter SubnetID.
#[local] Instance resolution_peer_iter : HashIter PeerId := canonical_iter PeerId.

Definition demo_two (k : N) (pinned : list (list N)) : Service :=
  let c := Service.mkConfig (mkNetworkConfig (demo_key k) "net") (Discovery.mkConfig [] 10 false)
    (Membership.mkConfig pinned 10 (duration_from_secs 60) (duration_from_secs 5) (duration_from_secs 300))
    (mkConnectionConfig (Content.demo_remote 1 k) 20 100 2 10)
    (Content.mkConfig 1000 (duration_from_secs 60)) in
  match new (demo_now 1000) c () 100%N (λ _, 0%Z) with
  | Some (Ok s) => s
  | _ => demo_state
  end.
#[local] Opaque demo_two.

Lemma provided_subnet_resolvable_witness :
  ∃ data qid, ∀ es, ∃ k qid' s' (batch : list PeerId),
    fail_times k es qid
      (handle_request (demo_now 1040) 0%Z (λ _, true) (Resolve (demo_cid 1) (demo_subnet [7]%N) 1%N)
        (deliver (demo_now 1031) (mkMessage None (membership_hash (membership (demo_two 3 []%N))) data)
          (discover (demo_now 1020) (demo_peer 3) [] (demo_two 5 [[7]]%N)))) = Some (qid', s') ∧
    demo_peer 3 ∈ batch ∧
    answers (handle_content_event (Content.Complete qid' (Ok ())) s') = [(1%N, Ok ())].
Proof.
  destruct (provided_subnet_resolvable (demo_now 1030) 0%Z (λ _, true) (demo_subnet [7]%N) (demo_two 3 []%N))
    as (data & _ & Hd).
  - apply (bool_decide_unpack _). by vm_compute.
  - by vm_compute.
  - assert (Hpeer : to_peer_id (public (local_key (membership (demo_two 3 []%N)))) = demo_peer 3) by (by vm_compute).
    rewrite Hpeer in Hd. exists data.
    destruct (Hd (demo_now 1020) (demo_now 1031) (demo_now 1040) [] 0%Z (λ _, true) (demo_cid 1) 1%N
      (demo_two 5 [[7]]%N)) as [qid Hq].
    + by vm_compute.
    + unfold queries_ok. apply (bool_decide_unpack _). by vm_compute.
    + vm_compute. lia.
    + by vm_compute.
    + left. apply (bool_decide_unpack _). by vm_compute.
    + exists qid. intros es. destruct (Hq es) as (k & qid' & s' & batch & _ & Hrun & _ & Hp & Ha).
      exists k, qid', s', batch. split_and!; [exact Hrun|exact Hp|]. etransitivity; [exact Ha|]. by vm_compute.
Defined.
End demo.
End Resolution.
