(* ===== verification/Gossiping.v ===== *)
(** * From a client's vote to the clients of other agents

    Two services of [Service.v] on one network: one publishes a vote or a block
    of data on behalf of its client, Gossipsub carries it, and the other hands
    it to the clients that listen to its events.  This composes signing,
    publishing, topics, subscriptions, the queue of the membership behaviour and
    the broadcast of the service. *)
From S2P Require Import Prelude Timestamp Types Net Stats Records ProviderCache Membership Discovery Content Service Resolution.

Module Gossiping.
Import Membership Service Resolution.
#[local] Existing Instances Content.QueryId_eq_dec Content.QueryId_countable.

Section gossiping.
Context `{Membership.Gossip} `{!Multiaddrs} `{!Membership.GossipPoll} `{!Timer} `{!Discovery.Kad}.
Context `{!Content.BitswapI} `{!Content.Gcra} `{!Content.TimeCacheI Multiaddr Content.GcraState}.
Context `{!HashIter SubnetID} `{!HashIter PeerId}.
Context `{!Serde ProviderRecord} `{!Serde VoteRecord} `{!Bloom} `{!Shuffle}.

(** ** The events of a service *)

(** What clients are told of an event of the membership behaviour. *)
Definition client_event (e : Membership.Event) : option Service.Event :=
  match e with
  | Membership.ReceivedVote v => Some (Service.ReceivedVote v)
  | Membership.ReceivedPreemptive id data => Some (Service.ReceivedPreemptive id data)
  | Membership.Updated _ _ | Membership.Removed _ | Membership.Skipped _ => None
  end.

(** [n] turns of the loop of [run] in which the swarm polls the membership
    behaviour and the service handles the event it returns. *)
Fixpoint turns (n fuel : nat) (now : Now) (s : Service) : Service :=
  match n with
  | O => s
  | S n =>
      match poll fuel now (membership s) with
      | (Ready (inl ev), m) =>
          turns n fuel now (handle_behaviour_event now (EvMembership ev) (set_membership m s))
      | (_, m) => set_membership m s
      end
  end.

(** The events queued in the membership behaviour. *)
Definition queued (s : Service) : list Membership.Event := outbox (membership s).

Lemma handle_membership_event_membership ev s :
  membership (handle_membership_event ev s) = membership s ∧
  broadcast (handle_membership_event ev s) = broadcast s ++ option_list (client_event ev).
Proof.
  destruct ev as [p d|p|p|v|id data]; cbn; rewrite ?app_nil_r; try done.
  destruct (bloom_insert p _) as [[] f]; cbn; by rewrite ?app_nil_r.
Qed.

(** As many turns as there are queued events tell the clients about them, in
    order, and leave the behaviour as it was but for the queue. *)
Lemma turns_queued fuel now s :
  let s' := turns (length (queued s)) fuel now s in
  broadcast s' = broadcast s ++ omap client_event (queued s) ∧
  membership s' = set_outbox [] (membership s).
Proof.
  cbv zeta. remember (queued s) as evs eqn:Hq. revert s Hq.
  induction evs as [|ev evs IH]; intros s Hq; cbn [length turns].
  { rewrite app_nil_r. split; [done|]. unfold queued in Hq. rewrite Hq. by destruct (membership s). }
  unfold queued in Hq. unfold poll. rewrite <-Hq. cbn [handle_behaviour_event].
  set (s1 := set_membership (set_outbox evs (membership s)) s).
  destruct (handle_membership_event_membership ev s1) as [Hm Hb].
  destruct (IH (handle_membership_event ev s1)) as [IH1 IH2].
  { unfold queued. by rewrite Hm. }
  rewrite IH1, IH2, Hm, Hb. split; [|done]. cbn [omap list_omap].
  rewrite <-(assoc_L (++)). by destruct (client_event ev).
Qed.

Context `{!GossipLaws} `{!TimerLaws} `{!HashesDistinct} `{!SubnetNames} `{!EnvelopeLaws} `{!SerdeLaws VoteRecord}.

Lemma is_ok_unit {E} (r : result E ()) : is_ok r = true → r = Ok ().
Proof. by destruct r as [[]|]. Qed.

(** ** Publishing *)

Lemma publish_counted_sent t data (a : Membership.Behaviour) :
  (publish_counted t data a).1 = Ok () →
  gs_sent (inner (publish_counted t data a).2) = gs_sent (inner a) ++ [(t, data)].
Proof.
  unfold publish_counted, publish. destruct (gs_publish t data (inner a)) as [[i|e] g] eqn:Hp; [|done].
  intros _. cbn. by eapply publish_ok.
Qed.

(** ** Receiving *)

(** The states of a behaviour that was created and then used in any way. *)
Definition in_use (b : Membership.Behaviour) : Prop :=
  ∃ now nc mc st b0, Membership.new now nc mc st = Ok b0 ∧ rtc Membership.step b0 b.

Lemma in_use_subscribed b : in_use b → subscribed b.
Proof.
  intros (now & nc & mc & st & b0 & Hnew%new_subscribed & Hsteps).
  induction Hsteps as [|b0 b1 b2 Hs _ IH]; [done|]. apply IH. by eapply step_subscribed.
Qed.

Lemma new_in_use now c store chan st s :
  Service.new now c store chan st = Some (Ok s) → in_use (membership s).
Proof.
  unfold Service.new, behaviour_new, mbind, result_bind.
  destruct (Discovery.new _ _ _ _) as [[d|]|]; [|done..].
  destruct (Membership.new now (cfg_network c) (cfg_membership c) st) as [m|] eqn:Hm; [|done].
  destruct (_ =? 0)%Z; [done|]. intros [= <-]. cbn. by repeat eexists.
Qed.

Lemma in_use_step b b' : in_use b → Membership.step b b' → in_use b'.
Proof.
  intros (now & nc & mc & st & b0 & Hnew & Hsteps) Hs.
  exists now, nc, mc, st, b0. split; [done|]. by eapply rtc_r.
Qed.

(** A vote received on the topic of its subnet. *)
Lemma vote_received now t key id cid claim sv b :
  subscribed b → vote_record_signed t key id cid claim = Ok sv →
  outbox (handle_message now (mkMessage None (voting_topic b id) (wire sv)) b) =
    outbox b ++ if decide (voting_topic b id ∈ voting_topics b)
                then [Membership.ReceivedVote (record sv)]
                else omap (λ id, Some (Membership.ReceivedPreemptive id (wire sv)))
                       (option_list (preemptive_topics b !! voting_topic b id)).
Proof.
  intros Hb Hsv. unfold handle_message. cbn [msg_topic msg_data].
  rewrite decide_False by (symmetry; by eapply membership_hash_ne).
  destruct (decide _).
  - by rewrite (vote_record_roundtrip _ _ _ _ _ _ Hsv).
  - destruct (preemptive_topics b !! _); cbn; by rewrite ?app_nil_r.
Qed.

(** Data received on the pre-emptive topic of a subnet. *)
Lemma preemptive_received now id data b :
  subscribed b →
  outbox (handle_message now (mkMessage None (preemptive_topic b id) data) b) =
    outbox b ++ if decide (id ∈ pinned b) then [Membership.ReceivedPreemptive id data] else [].
Proof.
  intros Hb. unfold handle_message. cbn [msg_topic msg_data].
  rewrite decide_False by (symmetry; by eapply membership_hash_ne).
  rewrite decide_False by by eapply preemptive_not_voting.
  destruct (preemptive_topics b !! preemptive_topic b id) as [id'|] eqn:Hp.
  - pose proof (subs_preemptive _ _ Hb _ _ Hp) as <-%preemptive_topic_inj.
    by rewrite decide_True by by apply (subs_pinned _ _ Hb).
  - rewrite decide_False; [by rewrite app_nil_r|].
    rewrite (subs_pinned _ _ Hb), Hp. done.
Qed.

(** The service that has received a message and told its clients. *)
Definition receive (fuel : nat) (now : Now) (topic : TopicHash) (data : bytes) (b : Service) : Service :=
  let b := deliver now (mkMessage None topic data) b in
  turns (length (queued b)) fuel now b.

Lemma receive_broadcast fuel now topic data b evs :
  outbox (handle_message now (mkMessage None topic data) (membership b)) =
    outbox (membership b) ++ evs →
  broadcast (receive fuel now topic data b) =
    broadcast b ++ omap client_event (queued b) ++ omap client_event evs.
Proof.
  intros Hout. unfold receive. cbv zeta.
  destruct (turns_queued fuel now (deliver now (mkMessage None topic data) b)) as [-> _].
  unfold queued at 1, deliver. cbn [membership set_membership broadcast].
  by rewrite Hout, omap_app.
Qed.

(** C12 (votes and data reach the clients): when a service publishes a signed vote
    and Gossipsub takes it, a message goes out such that every service on the
    network that receives it tells its clients, after the events already
    queued, about exactly this vote with its signer, subnet, CID, claim and
    time, if it is subscribed to the votes of the subnet, as it is when it
    provides the subnet, and otherwise about nothing.  Data published
    pre-emptively reaches, with its subnet, exactly the clients of the services
    that have pinned the subnet. *)
Theorem gossip_reaches_clients now seed conn (a : Service) :
  (∀ t key id cid claim sv,
    vote_record_signed t key id cid claim = Ok sv →
    (publish_vote sv (membership a)).1 = Ok () →
    ∃ topic data,
      gs_sent (inner (membership (handle_request now seed conn (PublishVote sv) a))) =
        gs_sent (inner (membership a)) ++ [(topic, data)] ∧
      ∀ fuel now' b, network_name (membership b) = network_name (membership a) → in_use (membership b) →
        broadcast (receive fuel now' topic data b) =
          broadcast b ++ omap client_event (queued b) ++
          (if decide (topic ∈ voting_topics (membership b))
           then [ReceivedVote (mkVoteRecord (mkValidatorKey (public key)) id cid claim t)]
           else []) ∧
        (id ∈ subnet_ids (membership b) → topic ∈ voting_topics (membership b))) ∧
  (∀ id data,
    (publish_preemptive id data (membership a)).1 = Ok () →
    ∃ topic,
      gs_sent (inner (membership (handle_request now seed conn (PublishPreemptive id data) a))) =
        gs_sent (inner (membership a)) ++ [(topic, data)] ∧
      ∀ fuel now' b, network_name (membership b) = network_name (membership a) → in_use (membership b) →
        broadcast (receive fuel now' topic data b) =
          broadcast b ++ omap client_event (queued b) ++
          (if decide (id ∈ pinned (membership b)) then [ReceivedPreemptive id data] else [])).
Proof.
  split.
  - intros t key id cid claim sv Hsv Hpub.
    assert (Hrec : record sv = mkVoteRecord (mkValidatorKey (public key)) id cid claim t).
    { revert Hsv. unfold vote_record_signed, signed_record_new, mbind, result_bind.
      destruct (to_vec _); simpl; [|done]. destruct (envelope_new _ _ _ _); simpl; [|done].
      by intros [= <-]. }
    exists (voting_topic (membership a) id), (wire sv). split.
    { revert Hpub. unfold publish_vote, gets, mbind, stM_bind. rewrite Hrec. cbn [vr_subnet_id].
      intros Hpub. cbn. unfold with_membership, publish_vote, gets, mbind, stM_bind. rewrite Hrec.
      by apply publish_counted_sent. }
    intros fuel now' b Hnet Hb%in_use_subscribed.
    assert (Htopic : voting_topic (membership a) id = voting_topic (membership b) id)
      by (unfold voting_topic; by rewrite <-Hnet).
    rewrite Htopic. split; [|apply (subs_votes _ _ Hb)].
    erewrite receive_broadcast; [|by eapply vote_received]. do 2 f_equal.
    rewrite (proj1 (not_elem_of_dom _ _) (voting_not_preemptive _ _ id Hb)), Hrec.
    by destruct (decide _).
  - intros id data Hpub. exists (preemptive_topic (membership a) id). split.
    { by apply publish_counted_sent. }
    intros fuel now' b Hnet Hb%in_use_subscribed.
    assert (preemptive_topic (membership a) id = preemptive_topic (membership b) id) as ->
      by (unfold preemptive_topic; by rewrite <-Hnet).
    erewrite receive_broadcast; [|by apply preemptive_received]. do 2 f_equal.
    by destruct (decide _).
Qed.
End gossiping.

(** ** Two services *)
Section demo.
#[local] Existing Instances demo_types demo_envelope demo_envelope_laws demo_addrs demo_provider_serde demo_vote_serde
  demo_vote_serde_laws demo_timer demo_timer_laws demo_gossip demo_gossip_poll demo_gossip_laws
  demo_hashes_distinct demo_subnet_names Discovery.demo_kad Content.demo_bitswap Content.demo_gcra
  Content.demo_time_cache demo_bloom demo_shuffle.
#[local] Instance gossiping_subnet_iter : HashIter SubnetID := canonical_iter SubnetID.
#[local] Instance gossiping_peer_iter : HashIter PeerId := canonical_iter PeerId.

(** The second service has pinned subnet 1 and provides it. *)
Definition demo_listener : Service :=
  let s := demo_two 5 [[1]]%N in
  set_membership (add_provided_subnet (demo_now 1010) (demo_subnet [1]%N) (membership s)).2 s.

Lemma demo_listener_in_use : in_use (membership demo_listener).
Proof.
  eapply in_use_step; [|apply step_add_provided].
  unfold demo_two. set (created := Service.new _ _ _ _ _).
  assert (Hok : match created with Some r => is_ok r | None => false end = true) by (by vm_compute).
  destruct created as [[s|]|] eqn:Hs; [|done..]. by eapply new_in_use.
Qed.

#[local] Opaque demo_listener demo_two.

Lemma gossip_reaches_clients_witness :
  ∃ topic data topic',
    broadcast (receive 5 (demo_now 1041) topic data demo_listener) = [ReceivedVote (record demo_signed_vote)] ∧
    broadcast (receive 5 (demo_now 1041) topic' [] demo_listener) = [ReceivedPreemptive (demo_subnet [1]%N) []].
Proof.
  destruct (gossip_reaches_clients (demo_now 1040) 0%Z (λ _, true) (demo_two 3 []%N)) as [Hv Hp].
  destruct (Hv 100%Z (demo_key 7) (demo_subnet [1]%N) (demo_cid 5) "valid" demo_signed_vote eq_refl)
    as (topic & data & _ & Hr); [apply is_ok_unit; by vm_compute|].
  destruct (Hp (demo_subnet [1]%N) []) as (topic' & _ & Hr'); [apply is_ok_unit; by vm_compute|].
  exists topic, data, topic'.
  assert (Hnet : network_name (membership demo_listener) = network_name (membership (demo_two 3 []%N)))
    by (by vm_compute).
  assert (Hb : broadcast demo_listener = []) by (apply nil_length_inv; by vm_compute).
  assert (Hq : queued demo_listener = []) by (apply nil_length_inv; by vm_compute).
  destruct (Hr 5%nat (demo_now 1041) demo_listener Hnet demo_listener_in_use) as [-> Hin].
  rewrite (Hr' 5%nat (demo_now 1041) demo_listener Hnet demo_listener_in_use), Hb, Hq.
  rewrite decide_True by (apply Hin, (bool_decide_unpack _); by vm_compute).
  rewrite decide_True by (apply (bool_decide_unpack _); by vm_compute).
  split; reflexivity.
Defined.
End demo.
End Gossiping.
