(* ===== verification/Recovery.v ===== *)
(** * A provider that is heard of before it can be reached

    A record of a peer that the service cannot route to is not stored: the cache
    skips it, the service has discovery look the peer up, and once Kademlia
    reports the peer its records are taken.  This composes the provider cache,
    the membership behaviour, the event loop of the service and the discovery
    behaviour. *)
From S2P Require Import Prelude Timestamp Types Net Stats Records ProviderCache Membership Discovery Content Service Resolution Gossiping.

Module Recovery.
Import Membership Service Resolution Gossiping.
#[local] Existing Instances Content.QueryId_eq_dec Content.QueryId_countable.

Section recovery.
Context `{Membership.Gossip} `{!Multiaddrs} `{!Membership.GossipPoll} `{!Timer} `{!Discovery.Kad}.
Context `{!Content.BitswapI} `{!Content.Gcra} `{!Content.TimeCacheI Multiaddr Content.GcraState}.
Context `{!HashIter SubnetID} `{!HashIter PeerId}.
Context `{!Serde ProviderRecord} `{!Serde VoteRecord} `{!Bloom} `{!Shuffle}.
Context `{!GossipLaws} `{!TimerLaws} `{!HashesDistinct} `{!SubnetNames} `{!EnvelopeLaws} `{!SerdeLaws ProviderRecord}.

(** ** Skipping *)

Lemma skipped_message t key ids sr now b :
  let p := to_peer_id (public key) in
  provider_record_signed t key ids = Ok sr → p ∉ Cache.routable_peers (provider_cache b) →
  handle_message now (mkMessage None (membership_hash b) (wire sr)) b =
    push_event (Skipped p) (Membership.inc MEMBERSHIP_SKIPPED_PEERS b).
Proof.
  intros p Hsr Hp. rewrite (handle_own_record now sr b) by (by eapply provider_record_roundtrip).
  rewrite (provider_record_signed_record _ _ _ _ Hsr). unfold handle_provider_record.
  rewrite Cache.add_provider_unroutable by done. by destruct b.
Qed.

(** Whether a skipped record of the peer starts a lookup: the filter takes the peer
    for new, and no address of it is known. *)
Definition looked_up (p : PeerId) (b : Service) : bool :=
  (bloom_insert p (background_lookup_filter b)).1 &&
  bool_decide (Discovery.addresses_of_peer p (discovery b) = []).

(** The record is not stored, and the peer is looked up under these conditions. *)
Lemma skipped_lookup fuel now t key ids sr b :
  let p := to_peer_id (public key) in
  provider_record_signed t key ids = Ok sr → p ∉ Cache.routable_peers (provider_cache (membership b)) →
  queued b = [] →
  let b1 := receive fuel now (membership_hash (membership b)) (wire sr) b in
  provider_cache (membership b1) = provider_cache (membership b) ∧
  membership_topic (membership b1) = membership_topic (membership b) ∧
  broadcast b1 = broadcast b ∧
  Discovery.inner (discovery b1) =
    (if looked_up p b then Discovery.kad_get_closest_peers p <$> Discovery.inner (discovery b)
     else Discovery.inner (discovery b)) ∧
  ∃ b0, b1 = handle_membership_event (Skipped p) b0.
Proof.
  intros p Hsr Hp Hq b1. unfold b1, receive, queued, deliver in *. cbn [membership set_membership].
  rewrite (skipped_message t key ids sr now (membership b) Hsr Hp). fold p.
  set (m := push_event _ _). assert (Hout : outbox m = [Skipped p]) by (cbn; by rewrite Hq).
  rewrite Hout. cbn [length turns]. unfold poll. cbn [membership set_membership]. rewrite Hout.
  cbn [handle_behaviour_event turns].
  set (b0 := set_membership _ (set_membership _ b)).
  destruct (handle_membership_event_membership (Skipped p) b0) as [Hm Hb].
  rewrite Hm, Hb. cbn [client_event option_list]. rewrite app_nil_r.
  split_and!; [done|done|done| |by exists b0].
  unfold looked_up. cbn. destruct (bloom_insert p (background_lookup_filter b)) as [[] f]; cbn; [|done].
  unfold Discovery.background_lookup. case_decide.
  - rewrite bool_decide_true by done. by destruct (Discovery.inner (discovery b)) eqn:Hk.
  - by rewrite bool_decide_false.
Qed.

(** ** Discovering *)

(** Kademlia's next event says that the peer can be reached. *)
Definition kad_reports (p : PeerId) (k : Discovery.Kademlia) : Prop :=
  ∃ ev k', Discovery.kad_poll k = (Some (inl ev), k') ∧
    ((∃ a, ev = Discovery.PendingRoutablePeer p a) ∨ ∃ addrs old, ev = Discovery.RoutingUpdated p addrs old).

Definition reports (now : Now) (r p : PeerId) (d : Discovery.Behaviour) : Prop :=
  Discovery.outbox d = [] ∧
  ∃ d1 k, Discovery.lookup_on_tick now r d = Some d1 ∧ Discovery.inner d1 = Some k ∧ kad_reports p k.

(** Turns of the loop in which the discovery behaviour returns its events. *)
Fixpoint discovery_turns (n fuel : nat) (now : Now) (r : PeerId) (s : Service) : Service :=
  match n with
  | O => s
  | S n =>
      match Discovery.poll fuel now r (discovery s) with
      | (Discovery.Ready (inl ev), d) =>
          discovery_turns n fuel now r (handle_behaviour_event now (EvDiscovery ev) (set_discovery d s))
      | (_, d) => set_discovery d s
      end
  end.

(** A poll that handles what Kademlia reports, and the turns that follow. *)
Definition discovered (fuel : nat) (now : Now) (r : PeerId) (s : Service) : Service :=
  let s := set_discovery (Discovery.poll fuel now r (discovery s)).2 s in
  discovery_turns (length (Discovery.outbox (discovery s))) fuel now r s.

(** The events that were queued are handled in order. *)
Lemma discovery_turns_queued fuel now r s :
  membership (discovery_turns (length (Discovery.outbox (discovery s))) fuel now r s) =
  membership (foldl (λ s ev, handle_discovery_event now ev s) s (Discovery.outbox (discovery s))).
Proof.
  remember (Discovery.outbox (discovery s)) as evs eqn:Hq. revert s Hq.
  induction evs as [|ev evs IH]; intros s Hq; cbn [length discovery_turns foldl]; [done|].
  unfold Discovery.poll. rewrite <-Hq. cbn [handle_behaviour_event].
  rewrite IH by (by destruct ev).
  assert (∀ l s1 s2, membership s1 = membership s2 →
    membership (foldl (λ s ev, handle_discovery_event now ev s) s1 l) =
    membership (foldl (λ s ev, handle_discovery_event now ev s) s2 l)) as Hext.
  { clear. intros l. induction l as [|ev l IH]; intros s1 s2 Hm; cbn; [done|].
    apply IH. by destruct ev; cbn; rewrite Hm. }
  apply Hext. by destruct ev.
Qed.

Lemma outbox_add_address p a d : Discovery.outbox (Discovery.add_address p a d) = Discovery.outbox d.
Proof. unfold Discovery.add_address. by destruct (Discovery.inner d). Qed.

Lemma outbox_add_identified p info d : Discovery.outbox (Discovery.add_identified p info d) = Discovery.outbox d.
Proof.
  unfold Discovery.add_identified. case_decide; [|done]. destruct (Discovery.bootstrap_buffer d); [by case_match|].
  assert (∀ l d, Discovery.outbox (foldl (λ b a, Discovery.add_address p a b) d l) = Discovery.outbox d) as Hl; [|apply Hl].
  intros l. induction l as [|a l IH]; intros d'; cbn; [done|]. by rewrite IH, outbox_add_address.
Qed.

Lemma outbox_finish_bootstrap d : Discovery.outbox (Discovery.finish_bootstrap d) = Discovery.outbox d.
Proof.
  unfold Discovery.finish_bootstrap. destruct (Discovery.bootstrap_buffer d) as [l|]; [|done].
  assert (∀ d, Discovery.outbox (foldl (λ b e, Discovery.add_identified e.1 e.2 b) d l) = Discovery.outbox d) as ->; [|done].
  induction l as [|e l IH]; intros d'; cbn; [done|]. by rewrite IH, outbox_add_identified.
Qed.

(** Kademlia's events only add to the queue, and never the removal of a peer that
    is not static. *)
Lemma kad_event_outbox ev d p :
  Discovery.is_static d p = false →
  ∃ evs, Discovery.outbox (Discovery.handle_kad_event ev d) = Discovery.outbox d ++ evs ∧
    Discovery.Removed p ∉ evs.
Proof.
  intros Hs. destruct ev as [| | |[]| | |q a|q addrs [o|]]; cbn;
    try (exists []; rewrite app_nil_r; split; [done|set_solver]).
  - exists []. rewrite app_nil_r, outbox_finish_bootstrap. split; [done|set_solver].
  - exists [Discovery.Added q [a]]. split; [done|set_solver].
  - destruct (Discovery.is_static d o) eqn:Ho; cbn.
    + exists [Discovery.Removed o; Discovery.Added q addrs]. rewrite <-(assoc_L (++)). split; [done|].
      assert (o ≠ p) by congruence. set_solver.
    + exists [Discovery.Added q addrs]. split; [done|set_solver].
  - exists [Discovery.Added q addrs]. split; [done|set_solver].
Qed.

Lemma is_static_ext d d' p :
  Discovery.static_addresses d' = Discovery.static_addresses d → Discovery.is_static d' p = Discovery.is_static d p.
Proof. unfold Discovery.is_static. by intros ->. Qed.

Lemma poll_kad_outbox fuel d p :
  Discovery.is_static d p = false →
  ∃ evs, Discovery.outbox (Discovery.poll_kad fuel d).2 = Discovery.outbox d ++ evs ∧ Discovery.Removed p ∉ evs.
Proof.
  revert d. induction fuel as [|fuel IH]; intros d Hs; cbn [Discovery.poll_kad];
    [exists []; rewrite app_nil_r; split; [done|set_solver]|].
  destruct (Discovery.inner d) as [k|]; [|exists []; rewrite app_nil_r; split; [done|set_solver]].
  destruct (Discovery.kad_poll k) as [[[ev|other]|] k'];
    [|exists []; cbn; rewrite app_nil_r; split; [done|set_solver]..].
  set (d1 := Discovery.set_inner (Some k') d).
  destruct (kad_event_outbox ev d1 p Hs) as (evs & Hevs & Hn).
  destruct (IH (Discovery.handle_kad_event ev d1)) as (evs' & Hevs' & Hn').
  { rewrite (is_static_ext d); [done|]. by rewrite Discovery.static_addresses_handle_kad_event. }
  exists (evs ++ evs'). rewrite Hevs', Hevs, <-(assoc_L (++)). split; [done|set_solver].
Qed.

Lemma outbox_lookup_on_tick now r d d' :
  Discovery.lookup_on_tick now r d = Some d' → Discovery.outbox d' = Discovery.outbox d.
Proof.
  unfold Discovery.lookup_on_tick. destruct (poll_tick _ _) as [[] i]; [|by intros [= <-]].
  destruct (Discovery.next_period _) as [x|]; [|done]. intros [= <-]. cbn. by destruct (_ <? _)%Z.
Qed.

Lemma reports_queued fuel now r p d :
  reports now r p d → Discovery.is_static d p = false →
  let evs := Discovery.outbox (Discovery.poll (S fuel) now r d).2 in
  (∃ addrs, Discovery.Added p addrs ∈ evs) ∧ Discovery.Removed p ∉ evs.
Proof.
  intros (Ho & d1 & k & Hl & Hk & ev & k' & Hp & Hev) Hs evs. subst evs. unfold Discovery.poll. rewrite Ho, Hl.
  assert (Hs1 : Discovery.is_static d1 p = false)
    by (rewrite (is_static_ext d); [done|by eapply Discovery.static_addresses_lookup_on_tick]).
  cbn [Discovery.poll_kad]. rewrite Hk, Hp. set (d2 := Discovery.set_inner (Some k') d1).
  assert (∃ addrs l, Discovery.outbox (Discovery.handle_kad_event ev d2) = l ++ [Discovery.Added p addrs] ∧
    Discovery.Removed p ∉ l) as (addrs & l & Hd2 & Hn).
  { assert (Ho2 : Discovery.outbox d2 = []) by (cbn; by rewrite (outbox_lookup_on_tick _ _ _ _ Hl)).
    destruct (kad_event_outbox ev d2 p Hs1) as (evs & Hevs & Hn). rewrite Ho2 in Hevs. cbn in Hevs.
    destruct Hev as [[a ->]|(addrs & old & ->)].
    - exists [a], []. cbn. cbn in Ho2. rewrite Ho2. split; [done|set_solver].
    - exists addrs. cbn. eexists. split; [done|]. intros Hin. apply Hn. rewrite <-Hevs. cbn. set_solver. }
  destruct (poll_kad_outbox fuel (Discovery.handle_kad_event ev d2) p) as (evs & -> & Hn').
  { rewrite (is_static_ext d1); [done|]. by rewrite Discovery.static_addresses_handle_kad_event. }
  rewrite Hd2. split; [exists addrs|]; set_solver.
Qed.

(** What the events of discovery change in the provider cache, for a peer that is
    not removed. *)
Lemma discovery_events_cache now evs s p :
  Discovery.Removed p ∉ evs →
  let c := provider_cache (membership s) in
  let s' := foldl (λ s ev, handle_discovery_event now ev s) s evs in
  let c' := provider_cache (membership s') in
  Cache.known_timestamp c' p = Cache.known_timestamp c p ∧ Cache.max_subnets c' = Cache.max_subnets c ∧
  Cache.pinned_subnets c' = Cache.pinned_subnets c ∧
  dom (Cache.subnet_providers c') = dom (Cache.subnet_providers c) ∧
  membership_topic (membership s') = membership_topic (membership s) ∧
  (p ∈ Cache.routable_peers c ∨ (∃ addrs, Discovery.Added p addrs ∈ evs) → p ∈ Cache.routable_peers c').
Proof.
  revert s. induction evs as [|ev evs IH]; intros s Hn; cbn [foldl]; [by split_and!; try naive_solver set_solver|].
  destruct (IH (handle_discovery_event now ev s)) as (-> & -> & -> & -> & -> & Hr); [set_solver|].
  destruct ev as [q addrs|q]; cbn [handle_discovery_event membership set_membership] in *.
  - destruct (discovered_subs now q addrs s) as (_ & _ & Htop & _).
    pose proof (discovered_cache now q addrs s) as Hc.
    unfold discover in Htop, Hc. cbn [handle_discovery_event membership set_membership] in Htop, Hc.
    rewrite Hc in *. split_and!; try done. intros Hp. apply Hr. cbn.
    destruct Hp as [Hp|[a [Ha|Ha]%elem_of_cons]]; [left; set_solver|simplify_eq; left; set_solver|right; eauto].
  - assert (q ≠ p) by set_solver. cbn. unfold Cache.known_timestamp. cbn. rewrite lookup_delete_ne by done.
    split_and!; try done; [apply dom_fmap_L|]. intros Hp. apply Hr. cbn.
    destruct Hp as [Hp|[a [Ha|Ha]%elem_of_cons]]; [left; set_solver|done|right; eauto].
Qed.

Context `{!BloomLaws} `{!Content.BitswapLaws}.

(** C4 (a skipped provider is found): when a service with no membership events
    waiting receives the record of a peer that it cannot route to, nothing is stored
    and no client is told.  Kademlia, if there is one, is asked for the peer exactly
    when the Bloom filter takes the peer for new (on a false positive of the filter
    nobody is asked) and no address of it is known; no later record of the
    peer, in whatever run of the service, asks again.  If Kademlia reports the peer,
    in any state with the same cache and topic in which the peer has no configured
    address, the peer becomes routable as soon as discovery's events are handled, and
    the very record that was skipped, received again, makes it a provider of every
    subnet it lists that is pinned or that there is room for, unless a record of the
    peer of the same second or later is already known. *)
Theorem skipped_provider_recovered fuel now t key ids sr b :
  let p := to_peer_id (public key) in
  provider_record_signed t key ids = Ok sr →
  p ∉ Cache.routable_peers (provider_cache (membership b)) →
  queued b = [] →
  let topic := membership_hash (membership b) in
  let b1 := receive fuel now topic (wire sr) b in
  (provider_cache (membership b1) = provider_cache (membership b) ∧ broadcast b1 = broadcast b ∧
   Discovery.inner (discovery b1) =
     (if looked_up p b then Discovery.kad_get_closest_peers p <$> Discovery.inner (discovery b)
      else Discovery.inner (discovery b))) ∧
  (∀ l s, service_steps b1 l s → discovery (handle_membership_event (Skipped p) s) = discovery s) ∧
  (∀ fuel' now1 now2 r id s,
     provider_cache (membership s) = provider_cache (membership b1) →
     membership_topic (membership s) = membership_topic (membership b1) →
     Discovery.is_static (discovery s) p = false →
     reports now1 r p (discovery s) → id ∈ ids →
     (Cache.known_timestamp (provider_cache (membership b)) p < t)%Z →
     id ∈ pinned (membership b) ∨
     (size (dom (Cache.subnet_providers (provider_cache (membership b))) ∪ list_to_set ids) ≤
        Cache.max_subnets (provider_cache (membership b)))%nat →
     p ∈ providers_of_subnet
       (membership (deliver now2 (mkMessage None topic (wire sr)) (discovered (S fuel') now1 r s))) id).
Proof.
  intros p Hsr Hp Hq topic b1.
  destruct (skipped_lookup fuel now t key ids sr b Hsr Hp Hq) as (Hc & Htop & Hb & Hl & b0 & Hb0).
  fold p topic b1 in Hc, Htop, Hb, Hl, Hb0. split_and!; [done|done|done| |].
  { intros l s Hs. rewrite Hb0 in Hs. by eapply background_lookup_once. }
  intros fuel' now1 now2 r id s Hcs Hts Hst Hrep Hid Ht Hroom.
  destruct (reports_queued fuel' now1 r p (discovery s) Hrep Hst) as [Hadd Hrem].
  set (s0 := set_discovery (Discovery.poll (S fuel') now1 r (discovery s)).2 s).
  pose proof (discovery_turns_queued (S fuel') now1 r s0) as Hm.
  change (membership (discovered (S fuel') now1 r s)) with
    (membership (discovery_turns (length (Discovery.outbox (discovery s0))) (S fuel') now1 r s0)) in *.
  destruct (discovery_events_cache now1 (Discovery.outbox (discovery s0)) s0 p Hrem)
    as (Hkt & Hmax & Hpin & Hdom & Htop' & Hr).
  unfold deliver. cbn [membership set_membership].
  change (membership (discovered (S fuel') now1 r s)) with
    (membership (discovery_turns (length (Discovery.outbox (discovery s0))) (S fuel') now1 r s0)).
  rewrite Hm. set (m := membership (foldl _ s0 _)) in *. change (membership s0) with (membership s) in *.
  assert (topic = membership_hash m) as ->
    by (unfold topic, membership_hash; by rewrite Htop', Hts, Htop).
  rewrite Hcs, Hc in Hkt, Hmax, Hpin, Hdom.
  eapply (signed_record_delivered t key ids sr now2 m id p Hsr); [by apply Hr; right| | |by rewrite decide_True].
  - fold p. by rewrite <-Hkt in Ht.
  - unfold pinned in *. rewrite Hmax, Hpin, Hdom. exact Hroom.
Qed.
End recovery.

(** ** A provider that is looked up *)
Section demo.
#[local] Existing Instances demo_types demo_envelope demo_envelope_laws demo_addrs demo_provider_serde demo_vote_serde
  demo_provider_serde_laws demo_timer demo_timer_laws demo_gossip demo_gossip_poll demo_gossip_laws
  demo_hashes_distinct demo_subnet_names Discovery.demo_kad Content.demo_bitswap Content.demo_bitswap_laws Content.demo_gcra
  Content.demo_time_cache demo_bloom demo_bloom_laws demo_shuffle.
#[local] Instance recovery_subnet_iter : HashIter SubnetID := canonical_iter SubnetID.
#[local] Instance recovery_peer_iter : HashIter PeerId := canonical_iter PeerId.

(** A service with Kademlia that has pinned subnet 1. *)
Definition demo_seeker : Service :=
  let c := Service.mkConfig (mkNetworkConfig (demo_key 5) "net") (Discovery.mkConfig [] 10 true)
    (Membership.mkConfig [[1]]%N 10 (duration_from_secs 60) (duration_from_secs 5) (duration_from_secs 300))
    (mkConnectionConfig (Content.demo_remote 1 5) 20 100 2 10)
    (Content.mkConfig 1000 (duration_from_secs 60)) in
  match new (demo_now 1000) c () 100%N (λ _, 0%Z) with
  | Some (Ok s) => s
  | _ => demo_state
  end.

(** Kademlia before and after it was asked for peer 7, and when it has found it. *)
Definition demo_kad_of (s : Service) : Discovery.Kademlia :=
  default (Discovery.mkDemoKad [] [] []) (Discovery.inner (discovery s)).

Definition demo_skipped : Service :=
  receive 5 (demo_now 1041) (membership_hash (membership demo_seeker)) (wire demo_signed_provider) demo_seeker.

Definition demo_found : Service :=
  set_discovery (Discovery.add_address (demo_peer 7) (Content.demo_remote 4 7) (discovery demo_skipped)) demo_skipped.

Lemma demo_reports : reports (demo_now 1042) (demo_peer 9) (demo_peer 7) (discovery demo_found).
Proof.
  split; [apply nil_length_inv; by vm_compute|]. eexists _, _. split; [reflexivity|]. split; [reflexivity|].
  eexists _, _. split; [reflexivity|]. right. by eexists _, _.
Qed.

Lemma demo_not_static : Discovery.is_static (discovery demo_found) (demo_peer 7) = false.
Proof. by vm_compute. Qed.

Lemma demo_inner : Discovery.inner (discovery demo_seeker) = Some (demo_kad_of demo_seeker).
Proof. reflexivity. Qed.

Lemma demo_known : (Cache.known_timestamp (provider_cache (membership demo_seeker)) (demo_peer 7) < 100)%Z.
Proof. by vm_compute. Qed.

Lemma demo_pinned : demo_subnet [1]%N ∈ pinned (membership demo_seeker).
Proof. apply (bool_decide_unpack _). by vm_compute. Qed.

Lemma demo_looked_up : looked_up (to_peer_id (public (demo_key 7))) demo_seeker = true.
Proof. by vm_compute. Qed.

#[local] Opaque demo_seeker.

Lemma demo_found_membership : membership demo_found = membership demo_skipped.
Proof. unfold demo_found. generalize demo_skipped. by intros []. Qed.

Lemma skipped_provider_recovered_witness :
  Discovery.dk_lookups (demo_kad_of demo_skipped) = [demo_peer 7] ∧
  demo_peer 7 ∈ providers_of_subnet
    (membership (deliver (demo_now 1043)
       (mkMessage None (membership_hash (membership demo_seeker)) (wire demo_signed_provider))
       (discovered 3 (demo_now 1042) (demo_peer 9) demo_found))) (demo_subnet [1]%N).
Proof.
  destruct (skipped_provider_recovered 5 (demo_now 1041) 100%Z (demo_key 7) [demo_subnet [1%N]] demo_signed_provider
    demo_seeker) as ((_ & _ & Hl) & _ & Hr).
  - reflexivity.
  - apply (bool_decide_unpack _). by vm_compute.
  - apply nil_length_inv. by vm_compute.
  - fold demo_skipped in Hl, Hr. split.
    + unfold demo_kad_of. rewrite Hl, demo_looked_up, demo_inner. by vm_compute.
    + specialize (Hr 2%nat (demo_now 1042) (demo_now 1043) (demo_peer 9) (demo_subnet [1]%N) demo_found).
      specialize (Hr (f_equal _ demo_found_membership) (f_equal _ demo_found_membership) demo_not_static demo_reports).
      exact (Hr (list_elem_of_here _ _) demo_known (or_introl demo_pinned)).
Defined.
End demo.
End Recovery.
