(* ===== verification/Outcome.v ===== *)
(** * Errors, panics and recorded runs of the agent

    The agent's functions return [anyhow::Result] and may panic.  An [outcome]
    keeps the two apart: an error is handled by the caller, a panic ends the
    task; [OutOfFuel] is the model's own answer for a loop cut off by its fuel.
    [act S] is the state monad over it.

    A manager's run is an [act] over a world (everything outside the agent) and
    the trace of the calls made so far, the latest first.  [wps] is a weakest
    precondition for such runs: the run makes only calls that the guard allows
    at the point where they are made, whatever the world answers. *)
From S2P Require Import Prelude.

Inductive outcome (A : Type) :=
  | Done (a : A)
  | Fail (e : string)
  | Panic (msg : string)
  | OutOfFuel.
Arguments Done {A} a.
Arguments Fail {A} e.
Arguments Panic {A} msg.
Arguments OutOfFuel {A}.

#[export] Instance outcome_ret : MRet outcome := λ A, Done.
#[export] Instance outcome_bind : MBind outcome := λ A B f m,
  match m with
  | Done a => f a
  | Fail e => Fail e
  | Panic p => Panic p
  | OutOfFuel => OutOfFuel
  end.

Definition of_result {A} (r : result string A) : outcome A :=
  match r with Ok a => Done a | Err e => Fail e end.

Definition is_done {A} (r : outcome A) : bool :=
  match r with Done _ => true | _ => false end.

(** The outcomes that no caller handles. *)
Definition aborts {A} (r : outcome A) : bool :=
  match r with Panic _ | OutOfFuel => true | _ => false end.

(** [Option::unwrap] and [assert_eq!]. *)
Definition unwrap {A} (o : option A) : outcome A :=
  match o with
  | Some a => Done a
  | None => Panic "called `Option::unwrap()` on a `None` value"
  end.

Definition assert_that (b : bool) : outcome () :=
  if b then Done () else Panic "assertion failed".

(** [Option::ok_or_else]. *)
Definition ok_or_fail {A} (e : string) (o : option A) : outcome A :=
  match o with Some a => Done a | None => Fail e end.

(** [iter().map(f).collect()], where [f] may fail or panic. *)
Fixpoint traverse {A B} (f : A → outcome B) (l : list A) : outcome (list B) :=
  match l with
  | [] => Done []
  | x :: l => y ← f x; ys ← traverse f l; Done (y :: ys)
  end.

Lemma traverse_roundtrip {A B C} (f : A → outcome B) (g : C → A) (h : C → B) l :
  (∀ x, f (g x) = Done (h x)) → traverse f (g <$> l) = Done (h <$> l).
Proof.
  intros Hf. induction l as [|x l IH]; cbn; [done|]. rewrite Hf; cbn. by rewrite IH.
Qed.

Lemma traverse_fails {A B} (f : A → outcome B) l x :
  x ∈ l → (∀ r, f x ≠ Done r) → ∀ r, traverse f l ≠ Done r.
Proof.
  induction l as [|y l IH]; [set_solver|]. intros [->|Hx]%elem_of_cons Hf r; cbn.
  - destruct (f y); cbn; try done. by destruct (Hf a).
  - destruct (f y); cbn; try done. specialize (IH Hx Hf).
    destruct (traverse f l); cbn; try done. by destruct (IH a0).
Qed.

Lemma traverse_done {A B} (f : A → outcome B) l ys :
  traverse f l = Done ys → Forall2 (λ x y, f x = Done y) l ys.
Proof.
  revert ys. induction l as [|x l IH]; intros ys; cbn; [intros [= <-]; constructor|].
  destruct (f x) eqn:Hx; cbn; try done. destruct (traverse f l); cbn; try done.
  intros [= <-]. constructor; [done|by apply IH].
Qed.

(** ** Actions *)

Definition act (S A : Type) : Type := S → outcome A * S.

#[export] Instance act_ret {S} : MRet (act S) := λ A a s, (Done a, s).
#[export] Instance act_bind {S} : MBind (act S) := λ A B f m s,
  match m s with
  | (Done a, s') => f a s'
  | (Fail e, s') => (Fail e, s')
  | (Panic p, s') => (Panic p, s')
  | (OutOfFuel, s') => (OutOfFuel, s')
  end.

(** [?] on a value computed without effects; panics included. *)
Definition lift {S A} (r : outcome A) : act S A := λ s, (r, s).

(** [let r = m.await; ... r.is_err()]: errors become values, panics do not. *)
Definition attempt {S A} (m : act S A) : act S (result string A) := λ s,
  match m s with
  | (Done a, s') => (Done (Ok a), s')
  | (Fail e, s') => (Done (Err e), s')
  | (Panic p, s') => (Panic p, s')
  | (OutOfFuel, s') => (OutOfFuel, s')
  end.

(** [m.await.expect(msg)]. *)
Definition expect {S A} (msg : string) (m : act S A) : act S A := λ s,
  match m s with
  | (Fail e, s') => (Panic (msg +:+ ": " +:+ e), s')
  | p => p
  end.

(** [result.context(msg)]. *)
Definition with_context {S A} (ctx : string) (m : act S A) : act S A := λ s,
  match m s with
  | (Fail e, s') => (Fail (ctx +:+ ": " +:+ e), s')
  | p => p
  end.

(** ** Recorded runs *)

Record run_state (W Ev : Type) := mkRun { world : W; trace : list Ev }.
Arguments mkRun {W Ev} _ _.
Arguments world {W Ev} _.
Arguments trace {W Ev} _.

Definition io (W Ev A : Type) : Type := act (run_state W Ev) A.

(** A call of the outside world, recorded together with its answer. *)
Definition call {W Ev A} (ev : outcome A → Ev) (op : W → outcome A * W) : io W Ev A := λ s,
  let '(r, w) := op (world s) in (r, mkRun w (ev r :: trace s)).

Definition events {W Ev A} (p : outcome A * run_state W Ev) : list Ev := trace p.2.

Section wps.
Context {W Ev : Type} (P : list Ev → Ev → Prop).

(** Every recorded call was allowed by what had been recorded before it. *)
Fixpoint guarded (t : list Ev) : Prop :=
  match t with
  | [] => True
  | e :: old => P old e ∧ guarded old
  end.

(** [Q] holds after success, [E] after an error or a panic or without fuel. *)
Definition wps {A} (m : io W Ev A) (Q : A → list Ev → Prop) (E : list Ev → Prop) (t : list Ev) : Prop :=
  ∀ w, let p := m (mkRun w t) in
    guarded (trace p.2) ∧ t `suffix_of` trace p.2 ∧
    match p.1 with
    | Done a => Q a (trace p.2)
    | _ => E (trace p.2)
    end.

Lemma wps_ret {A} (a : A) (Q : A → list Ev → Prop) E t :
  guarded t → Q a t → wps (mret a) Q E t.
Proof. intros Ht HQ w; cbn. by split_and!. Qed.

Lemma wps_lift {A} (r : outcome A) (Q : A → list Ev → Prop) (E : list Ev → Prop) t :
  guarded t → E t → (∀ a, r = Done a → Q a t) → wps (lift r) Q E t.
Proof. intros Ht HE HQ w; cbn. split_and!; [done|done|]. destruct r; auto. Qed.

Lemma wps_call {A} (ev : outcome A → Ev) op (Q : A → list Ev → Prop) (E : list Ev → Prop) t :
  guarded t → (∀ r, P t (ev r)) → (∀ r, is_done r = false → E (ev r :: t)) →
  (∀ a, Q a (ev (Done a) :: t)) → wps (call ev op) Q E t.
Proof.
  intros Ht HP HE HQ w. unfold call; cbn. destruct (op w) as [r w']; cbn.
  split_and!; [done|done|by apply suffix_cons_r|]. destruct r; auto.
Qed.

Lemma wps_mono {A} (m : io W Ev A) (Q Q' : A → list Ev → Prop) (E E' : list Ev → Prop) t :
  wps m Q E t →
  (∀ a t', guarded t' → t `suffix_of` t' → Q a t' → Q' a t') →
  (∀ t', guarded t' → t `suffix_of` t' → E t' → E' t') → wps m Q' E' t.
Proof.
  intros Hm HQ HE w. destruct (Hm w) as (Hg & Hs & Hd). split_and!; [done|done|].
  destruct ((m (mkRun w t)).1); auto.
Qed.

Lemma wps_bind {A B} (m : io W Ev A) (f : A → io W Ev B) Mid Q E t :
  wps m Mid E t →
  (∀ a t', guarded t' → t `suffix_of` t' → Mid a t' → wps (f a) Q E t') →
  wps (m ≫= f) Q E t.
Proof.
  intros Hm Hf w. specialize (Hm w). unfold mbind, act_bind.
  destruct (m (mkRun w t)) as [[a|e|p|] [w' t']] eqn:Hr; cbn in *;
    destruct Hm as (Hg & Hs & Hd); [|by split_and!..].
  destruct (Hf a t' Hg Hs Hd w') as (Hg' & Hs' & Hd').
  split_and!; [done|by etrans|done].
Qed.

Lemma wps_bind_call {A B} (ev : outcome A → Ev) op (f : A → io W Ev B) Q (E : list Ev → Prop) t :
  guarded t → (∀ r, P t (ev r)) → (∀ r, is_done r = false → E (ev r :: t)) →
  (∀ a, guarded (ev (Done a) :: t) → wps (f a) Q E (ev (Done a) :: t)) →
  wps (call ev op ≫= f) Q E t.
Proof.
  intros Ht HP HE Hf. eapply (wps_bind _ _ (λ a t', t' = ev (Done a) :: t)).
  - by apply wps_call.
  - intros a t' Hg _ ->. by apply Hf.
Qed.

Lemma wps_bind_lift {A B} (r : outcome A) (f : A → io W Ev B) Q (E : list Ev → Prop) t :
  guarded t → E t → (∀ a, r = Done a → wps (f a) Q E t) → wps (lift r ≫= f) Q E t.
Proof.
  intros Ht HE Hf. eapply (wps_bind _ _ (λ a t', r = Done a ∧ t' = t)).
  - apply wps_lift; auto.
  - intros a t' _ _ [Hr ->]. by apply Hf.
Qed.

Lemma wps_bind_lift_if {A B} (r : outcome A) (f : A → io W Ev B) Q (E : list Ev → Prop) t :
  guarded t → (is_done r = false → E t) → (∀ a, r = Done a → wps (f a) Q E t) → wps (lift r ≫= f) Q E t.
Proof.
  intros Ht HE Hf w. destruct r as [a|e|p|]; [by apply Hf|..]; (split_and!; [done|done|by apply HE]).
Qed.

Lemma wps_attempt {A} (m : io W Ev A) (Q : result string A → list Ev → Prop) (E E' : list Ev → Prop) t :
  wps m (λ a t', Q (Ok a) t') E' t →
  (∀ e t', guarded t' → t `suffix_of` t' → E' t' → Q (Err e) t') →
  (∀ t', E' t' → E t') →
  wps (attempt m) Q E t.
Proof.
  intros Hm He HE w. specialize (Hm w). unfold attempt.
  destruct (m (mkRun w t)) as [[a|e|p|] s'] eqn:Hr; cbn in *;
    destruct Hm as (Hg & Hs & Hd); split_and!; auto.
Qed.

(** The same when it matters that only panics get through. *)
Lemma wps_attempt_aborts {A} (m : io W Ev A) (Q : result string A → list Ev → Prop) (E E' : list Ev → Prop) t :
  wps m (λ a t', Q (Ok a) t') E' t →
  (∀ e t', guarded t' → t `suffix_of` t' → E' t' → Q (Err e) t') →
  (∀ w, aborts (m (mkRun w t)).1 = true → E' (trace (m (mkRun w t)).2) → E (trace (m (mkRun w t)).2)) →
  wps (attempt m) Q E t.
Proof.
  intros Hm He HE w. specialize (Hm w). specialize (HE w). unfold attempt.
  destruct (m (mkRun w t)) as [[a|e|p|] s'] eqn:Hr; cbn in *;
    destruct Hm as (Hg & Hs & Hd); split_and!; auto.
Qed.

Lemma wps_bind_assoc {A B C} (m : io W Ev A) (f : A → io W Ev B) (g : B → io W Ev C) Q E t :
  wps (m ≫= λ a, f a ≫= g) Q E t → wps ((m ≫= f) ≫= g) Q E t.
Proof.
  intros Hm w. specialize (Hm w). unfold mbind, act_bind in *.
  by destruct (m (mkRun w t)) as [[a|e|p|] s'].
Qed.

Lemma wps_context {A} ctx (m : io W Ev A) Q E t : wps m Q E t → wps (with_context ctx m) Q E t.
Proof.
  intros Hm w. specialize (Hm w). unfold with_context.
  by destruct (m (mkRun w t)) as [[a|e|p|] s'] eqn:Hr.
Qed.

(** Every call of a guarded run, with the calls before it. *)
Lemma guarded_split t new e old : guarded t → t = new ++ e :: old → P old e ∧ guarded old.
Proof.
  intros Ht ->. induction new as [|e' new IH]; [done|]. apply IH, Ht.
Qed.
End wps.

(** A weaker guard. *)
Lemma guarded_mono {Ev} (P P' : list Ev → Ev → Prop) t :
  (∀ old e, P old e → P' old e) → guarded P t → guarded P' t.
Proof. intros HP. induction t as [|e t IH]; [done|]. intros [He Ht]. split; auto. Qed.

Lemma wps_guard_mono {W Ev A} (P P' : list Ev → Ev → Prop) (m : io W Ev A) Q E t :
  (∀ old e, P old e → P' old e) → wps P m Q E t → wps P' m Q E t.
Proof.
  intros HP Hm w. destruct (Hm w) as (Hg & Hs & Hd). split; [by eapply guarded_mono|done].
Qed.

(** A fact that holds of an earlier trace holds of a later one. *)
Lemma suffix_elem_of {A} (t t' : list A) e : t `suffix_of` t' → e ∈ t → e ∈ t'.
Proof. intros [l ->]. set_solver. Qed.

(** ** Why a run aborts

    A run panics (or is out of fuel) only after a call that [B] singles out, or
    because of [c], which held before. *)
Section breaks.
Context {W Ev : Type} (B : Ev → Prop).

Definition breaks {A} (c : Prop) (m : io W Ev A) : Prop :=
  ∀ w t, ∃ new, trace (m (mkRun w t)).2 = new ++ t ∧
    (aborts (m (mkRun w t)).1 = true → c ∨ Exists B new).

Lemma breaks_ret {A} c (a : A) : breaks c (mret a).
Proof. intros w t. by exists []. Qed.

Lemma breaks_lift {A B'} c (r : outcome A) (f : A → io W Ev B') :
  (aborts r = true → c) → (∀ a, r = Done a → breaks c (f a)) → breaks c (lift r ≫= f).
Proof.
  intros Hr Hf w t. unfold mbind, act_bind, lift. destruct r as [a|e|p|]; cbn; [by apply Hf|exists []..];
    (split; [done|]); [done|auto..].
Qed.

Lemma breaks_call {A B'} c (ev : outcome A → Ev) op (f : A → io W Ev B') :
  (∀ r, aborts r = true → B (ev r)) → (∀ a, breaks (c ∨ B (ev (Done a))) (f a)) →
  breaks c (call ev op ≫= f).
Proof.
  intros Hev Hf w t. unfold mbind, act_bind, call. cbn. destruct (op w) as [r w']; cbn.
  destruct r as [a|e|p|]; cbn.
  - destruct (Hf a w' (ev (Done a) :: t)) as (new & Hnew & Hb). exists (new ++ [ev (Done a)]).
    split; [by rewrite Hnew, <-app_assoc|]. intros [[?|?]|?]%Hb; [by left|right..].
    + apply Exists_app. right. by left.
    + apply Exists_app. by left.
  - by exists [ev (Fail e)].
  - exists [ev (Panic p)]. split; [done|]. intros ?. right. left. by apply Hev.
  - exists [ev OutOfFuel]. split; [done|]. intros ?. right. left. by apply Hev.
Qed.
End breaks.

(** ** Runs do not look at their past

    What a run does after [t] is what it does from the beginning. *)
Definition framed {W Ev A} (m : io W Ev A) : Prop :=
  ∀ w t, m (mkRun w t) =
    let p := m (mkRun w []) in (p.1, mkRun (world p.2) (trace p.2 ++ t)).

Lemma framed_ret {W Ev A} (a : A) : framed (mret a : io W Ev A).
Proof. done. Qed.

Lemma framed_lift {W Ev A} (r : outcome A) : framed (lift r : io W Ev A).
Proof. done. Qed.

Lemma framed_call {W Ev A} (ev : outcome A → Ev) (op : W → outcome A * W) : framed (call ev op).
Proof. intros w t. unfold call. cbn. by destruct (op w). Qed.

Lemma framed_bind {W Ev A B} (m : io W Ev A) (f : A → io W Ev B) :
  framed m → (∀ a, framed (f a)) → framed (m ≫= f).
Proof.
  intros Hm Hf w t. unfold mbind, act_bind. rewrite Hm. destruct (m (mkRun w [])) as [[a|e|p|] [w' t']]; cbn; try done.
  rewrite (Hf a w' (t' ++ t)), (Hf a w' t'). cbn. by rewrite app_assoc.
Qed.

Create HintDb framed.
#[export] Hint Resolve framed_ret framed_lift framed_call framed_bind : framed.

Ltac solve_framed :=
  repeat first [ solve [auto with framed] | apply framed_bind; [|intros ?] | case_match ].
