(* ===== verification/Json.v ===== *)
(** * JSON values and the JSON-RPC client

    [src/jsonrpc/mod.rs].  A [Json] is a [serde_json::Value]; numbers that are
    not integers keep their text, since no decoder of the agent accepts them.
    A [decoder] is a [Deserialize] instance as [serde]'s derive generates it
    for the structs of the sources: an object is read by field name, an array
    by position.  The HTTP client and the JSON parser are interfaces. *)
From S2P Require Import Prelude Outcome.

Inductive Json :=
  | JNull
  | JBool (b : bool)
  | JNum (n : Z)
  | JFloat (text : string)
  | JStr (s : string)
  | JArr (l : list Json)
  | JObj (fields : list (string * Json)).

(** [Map::get]. *)
Fixpoint json_get (k : string) (fields : list (string * Json)) : option Json :=
  match fields with
  | [] => None
  | (k', v) :: fields => if String.eqb k' k then Some v else json_get k fields
  end.

(** Whether a field is given twice. *)
Fixpoint json_repeats (k : string) (fields : list (string * Json)) : bool :=
  match fields with
  | [] => false
  | (k', _) :: fields =>
      if String.eqb k' k then match json_get k fields with Some _ => true | None => false end
      else json_repeats k fields
  end.

(** ** Decoders *)

Definition decoder (A : Type) : Type := Json → result string A.

Definition de_value : decoder Json := Ok.

Definition de_string : decoder string := λ j,
  match j with JStr s => Ok s | _ => Err "invalid type: expected a string" end.

Definition de_bool : decoder bool := λ j,
  match j with JBool b => Ok b | _ => Err "invalid type: expected a boolean" end.

Definition de_int (lo hi : Z) : decoder Z := λ j,
  match j with
  | JNum n => if (lo <=? n)%Z && (n <=? hi)%Z then Ok n else Err "integer out of range"
  | _ => Err "invalid type: expected an integer"
  end.

Lemma de_int_in lo hi n : (lo ≤ n ≤ hi)%Z → de_int lo hi (JNum n) = Ok n.
Proof.
  intros [Hlo Hhi]. unfold de_int. by rewrite (proj2 (Z.leb_le _ _) Hlo), (proj2 (Z.leb_le _ _) Hhi).
Qed.

Definition de_u8 : decoder Z := de_int 0 255.
Definition de_u16 : decoder Z := de_int 0 65535.
Definition de_u32 : decoder Z := de_int 0 u32_max.
Definition de_u64 : decoder Z := de_int 0 u64_max.
Definition de_i64 : decoder Z := de_int i64_min i64_max.

Definition de_vec {A} (d : decoder A) : decoder (list A) := λ j,
  match j with JArr l => collect d l | _ => Err "invalid type: expected a sequence" end.

Definition de_option {A} (d : decoder A) : decoder (option A) := λ j,
  match j with JNull => Ok None | _ => Some <$> d j end.

(** The fields of a struct, in the order of its declaration; unknown fields are
    ignored. *)
Definition de_struct (names : list string) : decoder (list (option Json)) := λ j,
  match j with
  | JObj fields =>
      if existsb (λ n, json_repeats n fields) names then Err "duplicate field"
      else Ok ((λ n, json_get n fields) <$> names)
  | JArr vs => if decide (length vs = length names) then Ok (Some <$> vs)
               else Err "invalid length"
  | _ => Err "invalid type: expected a struct"
  end.

Definition required {A} (d : decoder A) (o : option Json) : result string A :=
  match o with Some j => d j | None => Err "missing field" end.

(** A missing [Option] field is [None]. *)
Definition optional {A} (d : decoder A) (o : option Json) : result string (option A) :=
  match o with Some j => de_option d j | None => Ok None end.

(** ** Requests and responses *)

Definition DEFAULT_JSON_RPC_VERSION : string := "2.0".
Definition DEFAULT_JSON_RPC_ID : Z := 1.
Definition NO_PARAMS : Json := JArr [].

(** The [has_params] of [build_jsonrpc_request]. *)
Definition has_params (params : Json) : result string bool :=
  match params with
  | JArr l => Ok (match l with [] => false | _ => true end)
  | JObj fields => Ok (match fields with [] => false | _ => true end)
  | JNull => Ok false
  | _ => Err "params is not an array nor an object"
  end.

Definition build_jsonrpc_request (method : string) (params : Json) : result string Json :=
  (λ has_params : bool,
     if has_params then
        JObj [("jsonrpc", JStr DEFAULT_JSON_RPC_VERSION); ("id", JNum DEFAULT_JSON_RPC_ID);
              ("method", JStr method); ("params", params)]
      else
        JObj [("jsonrpc", JStr DEFAULT_JSON_RPC_VERSION); ("id", JNum DEFAULT_JSON_RPC_ID);
              ("method", JStr method)]) <$> has_params params.

Record JsonRpcResponse (T : Type) := mkJsonRpcResponse {
  rpc_id : Z;
  rpc_jsonrpc : string;
  rpc_result : option T;
  rpc_error : option Json;
}.
Arguments mkJsonRpcResponse {T} _ _ _ _.
Arguments rpc_id {T} _.
Arguments rpc_jsonrpc {T} _.
Arguments rpc_result {T} _.
Arguments rpc_error {T} _.

Definition de_response {T} (d : decoder T) : decoder (JsonRpcResponse T) := λ j,
  fs ← de_struct ["id"; "jsonrpc"; "result"; "error"] j;
  match fs with
  | [id; jsonrpc; res; err] =>
      id ← required de_u8 id;
      jsonrpc ← required de_string jsonrpc;
      res ← optional d res;
      err ← optional de_value err;
      Ok (mkJsonRpcResponse id jsonrpc res err)
  | _ => Err "invalid length"
  end.

(** [From<JsonRpcResponse<T>> for Result<T>]. *)
Definition response_into_result {T} (d : decoder T) (j : JsonRpcResponse T) : result string T :=
  match rpc_error j with
  | Some _ => Err "json_rpc error"
  | None =>
      match rpc_result j with
      | Some v => Ok v
      | None => d JNull
      end
  end.

(** [JsonRpcClientImpl]: the URL and the bearer token. *)
Record Client := mkClient { client_url : string; bearer_token : option string }.

#[export] Instance Client_eq_dec : EqDecision Client.
Proof. solve_decision. Defined.

(** [reqwest] posts a body and gives back the response's text. *)
Class Http (W : Type) := {
  http_post : Client → Json → W → result string string * W;
}.

(** [serde_json]: the parser, and the text of a value as a [RawValue] holds it. *)
Class SerdeJson := {
  json_from_str : string → result string Json;
  raw_value : Json → string;
}.

Section request.
Context {W : Type} `{!Http W} `{!SerdeJson}.

(** The part of [request] after the response's text is there. *)
Definition read_response {T} (d : decoder T) (text : string) : outcome T :=
  match j ← json_from_str text; de_response d j with
  | Err e => Fail ("cannot parse json rpc response: " +:+ text +:+ " due to " +:+ e)
  | Ok value =>
      if negb (bool_decide (rpc_id value = DEFAULT_JSON_RPC_ID))
         || negb (bool_decide (rpc_jsonrpc value = DEFAULT_JSON_RPC_VERSION))
      then Fail "json_rpc id or version not matching."
      else of_result (response_into_result d value)
  end.

(** [JsonRpcClientImpl::request]. *)
Definition request {T} (d : decoder T) (c : Client) (method : string) (params : Json) : act W T := λ w,
  match build_jsonrpc_request method params with
  | Err e => (Fail e, w)
  | Ok body =>
      let '(response, w) := http_post c body w in
      (match response with
       | Err e => Fail e
       | Ok text => read_response d text
       end, w)
  end.

Lemma build_jsonrpc_request_ok method params b :
  has_params params = Ok b →
  ∃ fields, build_jsonrpc_request method params = Ok (JObj fields) ∧
    json_get "jsonrpc" fields = Some (JStr "2.0") ∧ json_get "id" fields = Some (JNum 1) ∧
    json_get "method" fields = Some (JStr method) ∧
    json_get "params" fields = (if b then Some params else None).
Proof.
  intros Hb. unfold build_jsonrpc_request. rewrite Hb; cbn.
  destruct b; eexists; split; try reflexivity; by split_and!.
Qed.

Lemma read_response_done {T} (d : decoder T) text a :
  read_response d text = Done a ↔
  ∃ v, (j ← json_from_str text; de_response d j) = Ok v ∧
    rpc_id v = 1%Z ∧ rpc_jsonrpc v = "2.0" ∧ rpc_error v = None ∧
    (rpc_result v = Some a ∨ rpc_result v = None ∧ d JNull = Ok a).
Proof.
  unfold read_response, response_into_result. split.
  - destruct (json_from_str text ≫= de_response d) as [v|e] eqn:Hv; [|done].
    repeat case_bool_decide; cbn; try done. destruct (rpc_error v) eqn:He; [done|].
    destruct (rpc_result v) eqn:Hr; cbn; intros Hd.
    + simplify_eq. eauto 10.
    + destruct (d JNull) eqn:Hn; simplify_eq/=. exists v. eauto 10.
  - intros (v & -> & -> & -> & -> & [->|[-> ->]]); by repeat case_bool_decide.
Qed.

(** Parameters that are neither an array, an object nor null
    are refused before anything is sent.  Otherwise exactly one body is posted, with
    the version, the id, the method and, unless they are empty, the parameters; and
    the request returns a value exactly when the response carries the same id and
    version, has no error, and its result (null, if it has none) decodes to that
    value.  A request never panics. *)
Theorem request_spec {T} (d : decoder T) c method params w :
  match has_params params with
  | Err e => request d c method params w = (Fail e, w)
  | Ok b =>
      ∃ fields, json_get "jsonrpc" fields = Some (JStr "2.0") ∧
        json_get "id" fields = Some (JNum 1) ∧ json_get "method" fields = Some (JStr method) ∧
        json_get "params" fields = (if b then Some params else None) ∧
        (request d c method params w).2 = (http_post c (JObj fields) w).2 ∧
        (∀ p, (request d c method params w).1 ≠ Panic p) ∧
        ∀ a, (request d c method params w).1 = Done a ↔
          ∃ text j v, (http_post c (JObj fields) w).1 = Ok text ∧ json_from_str text = Ok j ∧
            de_response d j = Ok v ∧ rpc_id v = 1%Z ∧ rpc_jsonrpc v = "2.0" ∧
            rpc_error v = None ∧
            (rpc_result v = Some a ∨ rpc_result v = None ∧ d JNull = Ok a)
  end.
Proof.
  unfold request. destruct (has_params params) as [b|e] eqn:Hp.
  - destruct (build_jsonrpc_request_ok method params b Hp) as (fields & -> & Hf).
    exists fields. destruct Hf as (?&?&?&?). split_and!; try done.
    + by destruct (http_post c (JObj fields) w).
    + intros p. destruct (http_post c (JObj fields) w) as [[text|] ?]; cbn; [|done].
      unfold read_response, response_into_result.
      destruct (json_from_str text ≫= de_response d) as [v|]; [|done].
      repeat case_bool_decide; cbn; try done.
      destruct (rpc_error v), (rpc_result v); cbn; try done. by destruct (d JNull).
    + intros a. destruct (http_post c (JObj fields) w) as [[text|e] w']; cbn.
      * rewrite read_response_done. split.
        -- intros (v & Hv & Hrest). destruct (json_from_str text) as [j|] eqn:Hj; [|done].
           exists text, j, v. naive_solver.
        -- intros (? & j & v & [= <-] & Hj & Hv & Hrest). exists v. by rewrite Hj.
      * split; [done|]. naive_solver.
  - unfold build_jsonrpc_request. by rewrite Hp.
Qed.
End request.
