(* ===== verification/JsonText.v ===== *)
(** * JSON texts

    Two parts of the agent exchange JSON as text: a value is printed by one and
    parsed by the other.  What [serde_json] promises is that the parsed value is
    the printed one up to the order of the fields of objects ([json_equiv]), for
    values without repeated keys and with integers that fit its number type
    ([json_wf]).  A decoder is [Robust] when it cannot tell equivalent values
    apart; the decoders of the sources are, so printing and parsing can be
    ignored when they are composed. *)
From S2P Require Import Prelude Outcome Json.

(** ** Values that can be printed *)

Fixpoint json_wf (j : Json) : bool :=
  match j with
  | JNull | JBool _ | JStr _ => true
  | JNum n => (i64_min <=? n)%Z && (n <=? u64_max)%Z
  | JFloat _ => false
  | JArr l => forallb json_wf l
  | JObj fields => bool_decide (NoDup fields.*1) && forallb (λ f, json_wf f.2) fields
  end.

(** ** Equality up to the order of fields *)

Inductive json_equiv : Json → Json → Prop :=
  | equiv_null : json_equiv JNull JNull
  | equiv_bool b : json_equiv (JBool b) (JBool b)
  | equiv_num n : json_equiv (JNum n) (JNum n)
  | equiv_float t : json_equiv (JFloat t) (JFloat t)
  | equiv_str s : json_equiv (JStr s) (JStr s)
  | equiv_arr l l' : Forall2 json_equiv l l' → json_equiv (JArr l) (JArr l')
  | equiv_obj fs hs gs :
      NoDup fs.*1 → Forall2 (λ x y, x.1 = y.1 ∧ json_equiv x.2 y.2) fs hs → hs ≡ₚ gs →
      json_equiv (JObj fs) (JObj gs).

(** The induction principle that goes through arrays and objects. *)
Lemma json_ind' (P : Json → Prop) :
  P JNull → (∀ b, P (JBool b)) → (∀ n, P (JNum n)) → (∀ t, P (JFloat t)) → (∀ s, P (JStr s)) →
  (∀ l, Forall P l → P (JArr l)) → (∀ fs, Forall (λ f, P f.2) fs → P (JObj fs)) → ∀ j, P j.
Proof.
  intros Hnull Hbool Hnum Hfloat Hstr Harr Hobj. fix IH 1. intros [|b|n|t|s|l|fs];
    [exact Hnull|apply Hbool|apply Hnum|apply Hfloat|apply Hstr| |].
  - apply Harr. induction l as [|x l IHl]; constructor; [apply IH|apply IHl].
  - apply Hobj. induction fs as [|[k x] fs IHfs]; constructor; [apply IH|apply IHfs].
Qed.

Lemma json_wf_equiv j : json_wf j = true → json_equiv j j.
Proof.
  induction j as [|b|n|t|s|l IH|fs IH] using json_ind'; cbn; try done; try by constructor.
  - intros Hl. constructor. rewrite forallb_forall in Hl.
    induction IH as [|x l Hx _ IHl]; constructor.
    + apply Hx, Hl. by left.
    + apply IHl. intros y Hy. apply Hl. by right.
  - intros [Hnd%bool_decide_eq_true Hl]%andb_prop. eapply equiv_obj; [done| |done].
    clear Hnd. rewrite forallb_forall in Hl. induction IH as [|x l Hx _ IHl]; constructor.
    + split; [done|]. apply Hx, Hl. by left.
    + apply IHl. intros y Hy. apply Hl. by right.
Qed.

Lemma json_get_perm (fs gs : list (string * Json)) k :
  NoDup fs.*1 → fs ≡ₚ gs → json_get k fs = json_get k gs.
Proof.
  intros Hnd Hp. induction Hp as [|[k' v] fs gs Hp IH|[k1 v1] [k2 v2] fs|fs hs gs Hp1 IH1 Hp2 IH2]; cbn in *.
  - done.
  - apply NoDup_cons in Hnd as [_ Hnd]. case_match; [done|by apply IH].
  - apply NoDup_cons in Hnd as [Hk _]. destruct (String.eqb_spec k1 k), (String.eqb_spec k2 k); try done.
    subst. set_solver.
  - rewrite IH1 by done. apply IH2. by rewrite <-Hp1.
Qed.

Lemma equiv_keys (fs hs : list (string * Json)) :
  Forall2 (λ x y, x.1 = y.1 ∧ json_equiv x.2 y.2) fs hs → hs.*1 = fs.*1.
Proof. induction 1 as [|x y fs hs [Hk _] _ IH]; cbn; congruence. Qed.

Lemma json_get_equiv fs gs k :
  json_equiv (JObj fs) (JObj gs) → option_Forall2 json_equiv (json_get k fs) (json_get k gs).
Proof.
  inversion_clear 1 as [| | | | | |fs' hs gs' Hnd Hf Hp].
  rewrite <-(json_get_perm hs gs) by (by rewrite ?(equiv_keys _ _ Hf)). clear Hnd Hp.
  induction Hf as [|[k1 v1] [k2 v2] fs hs [Hk Hv] Hf IH]; cbn in *; [constructor|].
  subst. by case_match; [constructor|].
Qed.

Lemma json_get_absent k (fields : list (string * Json)) : k ∉ fields.*1 → json_get k fields = None.
Proof.
  induction fields as [|[k' v] fields IH]; cbn; [done|]. intros Hk.
  destruct (String.eqb_spec k' k); [set_solver|]. apply IH. set_solver.
Qed.

Lemma json_repeats_none names (fields : list (string * Json)) :
  NoDup fields.*1 → existsb (λ n, json_repeats n fields) names = false.
Proof.
  intros Hnd. induction names as [|n names IH]; cbn; [done|]. rewrite IH, orb_false_r. clear IH.
  induction fields as [|[k v] fields IH]; cbn in *; [done|]. apply NoDup_cons in Hnd as [Hk Hnd].
  destruct (String.eqb_spec k n) as [->|]; [by rewrite json_get_absent|by apply IH].
Qed.

(** ** Robust decoders *)

(** Equivalent values decode to related results. *)
Class Robust {A} (R : relation A) (d : decoder A) : Prop :=
  robust : ∀ j j' a, json_equiv j j' → d j = Ok a → ∃ a', d j' = Ok a' ∧ R a a'.

Lemma robust_eq {A} (d : decoder A) `{!Robust (=) d} j j' a :
  json_equiv j j' → d j = Ok a → d j' = Ok a.
Proof. intros Hj Ha. by destruct (robust j j' a Hj Ha) as (a' & ? & <-). Qed.

#[export] Instance de_value_robust : Robust json_equiv de_value.
Proof. intros j j' a Hj [= <-]. by exists j'. Qed.

#[export] Instance de_string_robust : Robust (=) de_string.
Proof. intros j j' a Hj. destruct Hj; try done. eauto. Qed.

#[export] Instance de_bool_robust : Robust (=) de_bool.
Proof. intros j j' a Hj. destruct Hj; try done. eauto. Qed.

#[export] Instance de_int_robust lo hi : Robust (=) (de_int lo hi).
Proof. intros j j' a Hj. destruct Hj; try done. eauto. Qed.

#[export] Instance de_u64_robust : Robust (=) de_u64 := de_int_robust _ _.
#[export] Instance de_u8_robust : Robust (=) de_u8 := de_int_robust _ _.
#[export] Instance de_i64_robust : Robust (=) de_i64 := de_int_robust _ _.

Lemma collect_robust {A} (R : relation A) (d : decoder A) `{!Robust R d} l l' ys :
  Forall2 json_equiv l l' → collect d l = Ok ys → ∃ ys', collect d l' = Ok ys' ∧ Forall2 R ys ys'.
Proof.
  intros Hl. revert ys. induction Hl as [|j j' l l' Hj _ IH]; cbn; intros ys.
  - intros [= <-]. by exists [].
  - destruct (d j) as [y|] eqn:Hy; cbn; [|done]. destruct (robust j j' y Hj Hy) as (y' & -> & Hr).
    destruct (collect d l) as [ys0|]; cbn; [|done]. intros [= <-].
    destruct (IH _ eq_refl) as (ys' & -> & Hys). cbn. eexists; split; [done|]. by constructor.
Qed.

#[export] Instance de_vec_robust {A} (d : decoder A) `{!Robust (=) d} : Robust (=) (de_vec d).
Proof.
  intros j j' a Hj. destruct Hj as [| | | | |l l' Hl|]; try done. cbn. intros Ha.
  destruct (collect_robust (=) d l l' a Hl Ha) as (a' & ? & Hr). exists a'. split; [done|].
  by apply list_eq_Forall2.
Qed.

#[export] Instance de_option_robust {A} R (d : decoder A) `{!Robust R d} :
  Robust (option_Forall2 R) (de_option d).
Proof.
  intros j j' a Hj.
  assert ((j = JNull ∧ j' = JNull) ∨
          (de_option d j = Some <$> d j ∧ de_option d j' = Some <$> d j')) as [[-> ->]|[-> ->]]
    by (destruct Hj; auto).
  - intros [= <-]. eexists; split; [done|constructor].
  - destruct (d j) as [y|] eqn:Hy; cbn; [|done]. intros [= <-].
    destruct (robust j j' y Hj Hy) as (y' & -> & HR). by eexists; split; [|constructor].
Qed.

(** Fields of a struct. *)
Lemma required_robust {A} R (d : decoder A) `{!Robust R d} o o' a :
  option_Forall2 json_equiv o o' → required d o = Ok a → ∃ a', required d o' = Ok a' ∧ R a a'.
Proof. intros [j j' Hj|]; cbn; [by apply robust|done]. Qed.

Lemma optional_robust {A} R (d : decoder A) `{!Robust R d} o o' a :
  option_Forall2 json_equiv o o' → optional d o = Ok a → ∃ a', optional d o' = Ok a' ∧ option_Forall2 R a a'.
Proof.
  intros [j j' Hj|]; cbn.
  - intros Ha. eapply (robust (R := option_Forall2 R)) in Ha as (a' & Ha' & Hr); [|done]. eauto.
  - intros [= <-]. eexists; split; [done|constructor].
Qed.

Lemma required_eq {A} (d : decoder A) `{!Robust (=) d} o o' a :
  option_Forall2 json_equiv o o' → required d o = Ok a → required d o' = Ok a.
Proof. intros Ho Ha. by destruct (required_robust (=) d o o' a Ho Ha) as (? & ? & <-). Qed.

Lemma optional_eq {A} (d : decoder A) `{!Robust (=) d} o o' a :
  option_Forall2 json_equiv o o' → optional d o = Ok a → optional d o' = Ok a.
Proof.
  intros Ho Ha. destruct (optional_robust (=) d o o' a Ho Ha) as (a' & -> & Hr).
  f_equal. by destruct Hr as [?? ->|].
Qed.

Lemma de_struct_equiv names j j' fs :
  json_equiv j j' → de_struct names j = Ok fs →
  ∃ fs', de_struct names j' = Ok fs' ∧ Forall2 (option_Forall2 json_equiv) fs fs'.
Proof.
  intros Hj. pose proof Hj as Hj0. destruct Hj as [| | | | |l l' Hl|fs0 hs gs Hnd Hf Hp]; cbn; try done.
  - pose proof (Forall2_length _ _ _ Hl) as Hlen. rewrite <-Hlen. case_decide; [|done]. intros [= <-].
    eexists; split; [done|]. apply Forall2_fmap. eapply Forall2_impl; [exact Hl|]. by constructor.
  - rewrite !json_repeats_none by (rewrite <-?Hp, ?(equiv_keys _ _ Hf); done).
    intros [= <-]. eexists; split; [done|]. apply Forall2_fmap, Forall_Forall2_diag, Forall_forall.
    intros k _. by apply json_get_equiv.
Qed.

Lemma equiv_some o j : option_Forall2 json_equiv (Some j) o → ∃ j', o = Some j' ∧ json_equiv j j'.
Proof. inversion 1; eauto. Qed.

Lemma equiv_none o : option_Forall2 json_equiv None o → o = None.
Proof. by inversion 1. Qed.

Lemma equiv_num_inv n j : json_equiv (JNum n) j → j = JNum n.
Proof. by inversion 1. Qed.

Lemma equiv_str_inv s j : json_equiv (JStr s) j → j = JStr s.
Proof. by inversion 1. Qed.

(** The fields of a value equivalent to a known one. *)
Ltac struct_fields Hf :=
  cbn in Hf;
  repeat match type of Hf with Forall2 _ (_ :: _) _ =>
    apply Forall2_cons_inv_l in Hf as (? & ? & ? & Hf & ->) end;
  apply Forall2_nil_inv_l in Hf as ->;
  repeat match goal with
    | H : option_Forall2 json_equiv (Some _) _ |- _ => apply equiv_some in H as (? & -> & ?)
    | H : option_Forall2 json_equiv None _ |- _ => apply equiv_none in H as ->
    | H : json_equiv (JNum _) _ |- _ => apply equiv_num_inv in H as ->
    | H : json_equiv (JStr _) _ |- _ => apply equiv_str_inv in H as ->
    end.

(** A derived decoder: read the struct, then its fields one by one. *)
Ltac robust_struct :=
  let j := fresh "j" in let j' := fresh "j'" in let a := fresh "a" in let Hj := fresh "Hj" in
  intros j j' a Hj; cbv beta;
  let Hs := fresh "Hs" in
  match goal with |- context [de_struct ?ns j] =>
    destruct (de_struct ns j) as [?|] eqn:Hs; cbn; [|done];
    let fs' := fresh "fs" in let Hs' := fresh "Hs'" in let Hf := fresh "Hf" in
    destruct (de_struct_equiv ns j j' _ Hj Hs) as (fs' & Hs' & Hf); rewrite Hs'
  end;
  repeat (match goal with H : Forall2 (option_Forall2 json_equiv) _ _ |- _ => destruct H end; cbn; try done);
  repeat match goal with
    | Ho : option_Forall2 json_equiv ?o ?o' |- mbind _ (required ?d ?o) = _ → _ =>
        let E := fresh "E" in destruct (required d o) eqn:E; [|done];
        rewrite (required_eq d o o' _ Ho E); cbn
    | Ho : option_Forall2 json_equiv ?o ?o' |- mbind _ (optional ?d ?o) = _ → _ =>
        let E := fresh "E" in destruct (optional d o) eqn:E; [|done];
        rewrite (optional_eq d o o' _ Ho E); cbn
    end;
  let H := fresh in intros H; eauto.

(** A [HashMap<String, A>]; of a repeated key the last value counts. *)
Definition de_map {A} (d : decoder A) : decoder (gmap string A) := λ j,
  match j with
  | JObj fields =>
      kvs ← collect (λ f, (λ v, (f.1, v)) <$> d f.2) fields;
      Ok (list_to_map (reverse kvs))
  | _ => Err "invalid type: expected a map"
  end.

(** [()]. *)
Definition de_unit : decoder () := λ j,
  match j with JNull => Ok () | _ => Err "invalid type: expected unit" end.

#[export] Instance de_unit_robust : Robust (=) de_unit.
Proof. intros j j' a Hj. destruct Hj; try done. eauto. Qed.

Lemma collect_perm {E A B} (f : A → result E B) l l' ys :
  l ≡ₚ l' → collect f l = Ok ys → ∃ ys', collect f l' = Ok ys' ∧ ys ≡ₚ ys'.
Proof.
  intros Hp. revert ys. induction Hp as [|x l l' _ IH|x y l|l1 l2 l3 _ IH1 _ IH2]; intros ys; cbn.
  - intros [= <-]. by exists [].
  - destruct (f x); cbn; [|done]. destruct (collect f l) as [ys0|]; cbn; [|done]. intros [= <-].
    destruct (IH _ eq_refl) as (ys' & -> & ?). cbn. eexists; split; [done|]. by constructor.
  - destruct (f y), (f x); cbn; try done. destruct (collect f l); cbn; [|done]. intros [= <-].
    eexists; split; [done|]. constructor.
  - intros Hys. destruct (IH1 _ Hys) as (ys1 & H1 & ?). destruct (IH2 _ H1) as (ys2 & ? & ?).
    exists ys2. split; [done|]. by etrans.
Qed.

Lemma collect_fields_keys {E A B C} (f : A → result E B) (l : list (C * A)) ys :
  collect (λ x, (λ v, (x.1, v)) <$> f x.2) l = Ok ys → ys.*1 = l.*1.
Proof.
  revert ys. induction l as [|[k x] l IH]; cbn; intros ys; [by intros [= <-]|].
  destruct (f x); cbn; [|done]. destruct (collect _ l); cbn; [|done]. intros [= <-]. cbn. f_equal. by apply IH.
Qed.

#[export] Instance de_map_robust {A} (d : decoder A) `{!Robust (=) d} : Robust (=) (de_map d).
Proof.
  intros j j' m Hj. destruct Hj as [| | | | | |fs hs gs Hnd Hf Hp]; try done. cbn.
  destruct (collect _ fs) as [kvs|] eqn:Hc; cbn; [|done]. intros [= <-].
  assert (Hh : collect (λ f, (λ v, (f.1, v)) <$> d f.2) hs = Ok kvs).
  { clear Hnd Hp. revert kvs Hc. induction Hf as [|[k v] [k' v'] fs hs [Hk Hv] _ IH]; cbn in *; [done|].
    intros kvs. subst k'. destruct (d v) as [a|] eqn:Ha; cbn; [|done].
    rewrite (robust_eq d v v' a) by done. cbn. destruct (collect _ fs); cbn; [|done].
    intros [= <-]. by rewrite (IH _ eq_refl). }
  destruct (collect_perm _ _ _ _ Hp Hh) as (kvs' & -> & Hperm). cbn. eexists; split; [done|].
  apply list_to_map_proper; [|by rewrite !reverse_Permutation].
  rewrite fmap_reverse, reverse_Permutation. by rewrite (collect_fields_keys d fs kvs Hc).
Qed.

(** ** Printing *)

(** [serde_json::to_string]. *)
Class JsonPrinter := { json_to_string : Json → string }.

Class JsonTextLaws `{SerdeJson} `{JsonPrinter} := {
  json_print_parse : ∀ j, json_wf j = true →
    ∃ j', json_from_str (json_to_string j) = Ok j' ∧ json_equiv j j';
}.

(** ** A printer and its parser

    A text that determines the value: the binary digits of the value's number in an
    enumeration of all values. *)
Module TextDemo.

Definition leaf : Type := (bool + Z) + string.

Fixpoint to_tree (j : Json) : gen_tree leaf :=
  match j with
  | JNull => GenNode 0 []
  | JBool b => GenNode 1 [GenLeaf (inl (inl b))]
  | JNum n => GenNode 2 [GenLeaf (inl (inr n))]
  | JFloat t => GenNode 3 [GenLeaf (inr t)]
  | JStr s => GenNode 4 [GenLeaf (inr s)]
  | JArr l => GenNode 5 (to_tree <$> l)
  | JObj fs => GenNode 6 ((λ f, GenNode 0 [GenLeaf (inr f.1); to_tree f.2]) <$> fs)
  end.

Fixpoint of_tree (t : gen_tree leaf) : option Json :=
  match t with
  | GenNode 0 [] => Some JNull
  | GenNode 1 [GenLeaf (inl (inl b))] => Some (JBool b)
  | GenNode 2 [GenLeaf (inl (inr n))] => Some (JNum n)
  | GenNode 3 [GenLeaf (inr t)] => Some (JFloat t)
  | GenNode 4 [GenLeaf (inr s)] => Some (JStr s)
  | GenNode 5 l => JArr <$> mapM of_tree l
  | GenNode 6 l =>
      JObj <$> mapM (λ t, match t with
        | GenNode 0 [GenLeaf (inr k); t] => (λ j, (k, j)) <$> of_tree t
        | _ => None
        end) l
  | _ => None
  end.

Lemma of_to_tree j : of_tree (to_tree j) = Some j.
Proof.
  induction j as [|b|n|t|s|l IH|fs IH] using json_ind'; try done.
  - cbn. induction IH as [|j l Hj _ IH]; [done|]. cbn. rewrite Hj. cbn.
    destruct (mapM of_tree (to_tree <$> l)); [by simplify_eq/=|done].
  - cbn. induction IH as [|[k j] l Hj _ IH]; [done|]. cbn in *. rewrite Hj. cbn.
    destruct (mapM _ ((λ f, _) <$> l)); [by simplify_eq/=|done].
Qed.

Fixpoint print_bits (p : positive) : string :=
  match p with
  | xH => EmptyString
  | xO p => String "0" (print_bits p)
  | xI p => String "1" (print_bits p)
  end.

Fixpoint parse_bits (s : string) : positive :=
  match s with
  | EmptyString => xH
  | String "0" s => xO (parse_bits s)
  | String _ s => xI (parse_bits s)
  end.

Lemma parse_print_bits p : parse_bits (print_bits p) = p.
Proof. induction p as [p IH|p IH|]; cbn; [by rewrite IH..|done]. Qed.

Definition print (j : Json) : string := print_bits (encode (to_tree j)).

Definition parse (s : string) : result string Json :=
  ok_or "not a value" (t ← decode (parse_bits s); of_tree t).

Definition serde_json : SerdeJson := {| json_from_str := parse; raw_value := print |}.
Definition printer : JsonPrinter := {| json_to_string := print |}.
#[local] Existing Instances serde_json printer.

#[export] Instance text_laws : JsonTextLaws.
Proof.
  split. intros j Hj. exists j. split; [|by apply json_wf_equiv].
  cbn. unfold parse, print. rewrite parse_print_bits, decode_encode. cbn. by rewrite of_to_tree.
Qed.
End TextDemo.
