(* ===== verification/Toml.v ===== *)
(** * The TOML documents of the agent

    The [toml] crate turns the text of a configuration file into the tree that the
    decoders of [Config.v] read.  [toml_read] is a reader, after the TOML
    specification, for the part of the language that the template of [config init]
    and the configurations of the tests are written in: comments, tables, arrays of
    tables, and keys whose values are strings without escapes or arrays of such
    strings.  It answers [None] for everything else, also for valid TOML outside
    that part, and for keys and tables that are defined twice.  [TomlLaws] of
    [Config.v] says that the crate reads what [toml_read] reads. *)
From S2P Require Import Prelude Json.

(** ** Characters and lines *)

Definition is_space (c : ascii) : bool := Ascii.eqb c " " || Ascii.eqb c "009".

(** A character of a basic string that stands for itself. *)
Definition is_basic (c : ascii) : bool :=
  let n := N_of_ascii c in
  (32 <=? n)%N && (n <=? 126)%N && negb (Ascii.eqb c "034") && negb (Ascii.eqb c "\").

(** A character of a bare key. *)
Definition is_bare (c : ascii) : bool :=
  let n := N_of_ascii c in
  ((97 <=? n)%N && (n <=? 122)%N) || ((65 <=? n)%N && (n <=? 90)%N) || ((48 <=? n)%N && (n <=? 57)%N)
  || Ascii.eqb c "_" || Ascii.eqb c "-".

Fixpoint text_lines (s : string) : list string :=
  match s with
  | EmptyString => [EmptyString]
  | String c s =>
      if Ascii.eqb c "010" then EmptyString :: text_lines s
      else match text_lines s with
           | l :: ls => String c l :: ls
           | [] => [String c EmptyString]
           end
  end.

Fixpoint skip_spaces (s : string) : string :=
  match s with
  | String c s' => if is_space c then skip_spaces s' else s
  | EmptyString => EmptyString
  end.

Definition is_blank (s : string) : bool := String.eqb (skip_spaces s) EmptyString.

(** The text of a comment may be any printable one. *)
Fixpoint is_printable (s : string) : bool :=
  match s with
  | EmptyString => true
  | String c s => (32 <=? N_of_ascii c)%N && (N_of_ascii c <=? 126)%N && is_printable s
  end.

(** [expect c s]: what follows the character [c]. *)
Definition expect (c : ascii) (s : string) : option string :=
  match s with
  | String c' s => if Ascii.eqb c' c then Some s else None
  | EmptyString => None
  end.

(** ** Values *)

(** The rest of a string up to its closing quote, and what follows. *)
Fixpoint until_quote (s : string) : option (string * string) :=
  match s with
  | EmptyString => None
  | String c s =>
      if Ascii.eqb c "034" then Some (EmptyString, s)
      else if is_basic c then '(a, b) ← until_quote s; Some (String c a, b) else None
  end.

Definition read_quoted (s : string) : option (string * string) :=
  s ← expect "034" s; until_quote s.

(** The elements of an array after its bracket or a comma; every element takes
    characters of the line, whose length is enough fuel. *)
Fixpoint read_items (fuel : nat) (s : string) : option (list Json) :=
  match fuel with
  | O => None
  | S fuel =>
      '(v, rest) ← read_quoted (skip_spaces s);
      match expect "," (skip_spaces rest) with
      | Some rest => l ← read_items fuel rest; Some (JStr v :: l)
      | None => rest ← expect "]" (skip_spaces rest); if is_blank rest then Some [JStr v] else None
      end
  end.

Definition read_array (s : string) : option Json :=
  match expect "]" (skip_spaces s) with
  | Some rest => if is_blank rest then Some (JArr []) else None
  | None => JArr <$> read_items (String.length s) s
  end.

Definition read_value (s : string) : option Json :=
  match expect "[" s with
  | Some rest => read_array rest
  | None => '(v, rest) ← read_quoted s; if is_blank rest then Some (JStr v) else None
  end.

(** ** Lines *)

Inductive Line :=
  | Blank
  | TableHeader (name : string)
  | ArrayHeader (name : string)
  | KeyValue (key : string) (v : Json).

Fixpoint read_bare (s : string) : string * string :=
  match s with
  | EmptyString => (EmptyString, EmptyString)
  | String c s' => if is_bare c then let '(a, b) := read_bare s' in (String c a, b) else (EmptyString, s)
  end.

Definition read_key (s : string) : option (string * string) :=
  let '(k, rest) := read_bare s in if String.eqb k EmptyString then None else Some (k, rest).

Definition read_header (s : string) : option Line :=
  match expect "[" s with
  | Some s =>
      '(name, rest) ← read_key s; rest ← expect "]" rest; rest ← expect "]" rest;
      if is_blank rest then Some (ArrayHeader name) else None
  | None =>
      '(name, rest) ← read_key s; rest ← expect "]" rest;
      if is_blank rest then Some (TableHeader name) else None
  end.

Definition read_line (line : string) : option Line :=
  let s := skip_spaces line in
  match s with
  | EmptyString => Some Blank
  | String c rest =>
      if Ascii.eqb c "#" then if is_printable rest then Some Blank else None
      else if Ascii.eqb c "[" then read_header rest
      else '(key, rest) ← read_key s; rest ← expect "=" (skip_spaces rest);
           v ← read_value (skip_spaces rest); Some (KeyValue key v)
  end.

(** ** Documents *)

Definition add_field (k : string) (v : Json) (fields : list (string * Json)) :
    option (list (string * Json)) :=
  match json_get k fields with
  | Some _ => None
  | None => Some (fields ++ [(k, v)])
  end.

(** Applies [f] to the value of [k]. *)
Fixpoint alter_field (k : string) (f : Json → option Json) (fields : list (string * Json)) :
    option (list (string * Json)) :=
  match fields with
  | [] => None
  | (k', v) :: fields =>
      if String.eqb k' k then v ← f v; Some ((k', v) :: fields)
      else fields ← alter_field k f fields; Some ((k', v) :: fields)
  end.

(** The table under the latest header: a table, or the last element of an array of
    tables. *)
Fixpoint add_to_last (k : string) (v : Json) (l : list Json) : option (list Json) :=
  match l with
  | [] => None
  | [JObj fields] => fields ← add_field k v fields; Some [JObj fields]
  | t :: l => l ← add_to_last k v l; Some (t :: l)
  end.

Definition add_to_table (k : string) (v : Json) (table : Json) : option Json :=
  match table with
  | JObj fields => JObj <$> add_field k v fields
  | JArr l => JArr <$> add_to_last k v l
  | _ => None
  end.

(** A new element of an array of tables, which has elements of that kind only. *)
Definition add_table (array : Json) : option Json :=
  match array with
  | JArr (JObj fields :: l) => Some (JArr (JObj fields :: l ++ [JObj []]))
  | _ => None
  end.

(** The document so far and the name in the latest header. *)
Definition Reading : Type := list (string * Json) * option string.

Definition read_step (st : Reading) (line : Line) : option Reading :=
  let '(doc, header) := st in
  match line with
  | Blank => Some st
  | TableHeader name => doc ← add_field name (JObj []) doc; Some (doc, Some name)
  | ArrayHeader name =>
      doc ← match json_get name doc with
            | None => add_field name (JArr [JObj []]) doc
            | Some _ => alter_field name add_table doc
            end;
      Some (doc, Some name)
  | KeyValue k v =>
      doc ← match header with
            | None => add_field k v doc
            | Some name => alter_field name (add_to_table k v) doc
            end;
      Some (doc, header)
  end.

Fixpoint read_lines (st : Reading) (ls : list string) : option Reading :=
  match ls with
  | [] => Some st
  | l :: ls => line ← read_line l; st ← read_step st line; read_lines st ls
  end.

Definition toml_read (s : string) : option Json :=
  '(doc, _) ← read_lines ([], None) (text_lines s); Some (JObj doc).
