(* ===== verification/Stream.v ===== *)
(** * Subscriptions over a websocket

    [JsonRpcClientImpl::subscribe] and [handle_stream] of [src/jsonrpc/mod.rs].  A
    subscription connects, sends one request and spawns a task that reads the
    messages of the server, parses each as JSON and sends it into an unbounded
    channel.  [tungstenite], [async_channel] and the parser are interfaces: a
    message is one of the frames of the protocol, and [to_text] is its documented
    conversion.

    The task's input is the sequence of what it meets: items of the stream, and the
    moment when the receiver of the channel is dropped; the end of the sequence is
    the end of the stream. *)
From S2P Require Import Prelude Records Outcome Json JsonText.

(** [tungstenite::Message]; a close frame has an optional reason. *)
Inductive Message :=
  | Text (s : string)
  | Binary (b : bytes)
  | Ping (b : bytes)
  | Pong (b : bytes)
  | Close (reason : option string)
  | Frame (b : bytes).

(** [str::from_utf8]. *)
Class Utf8 := { from_utf8 : bytes → option string }.

(** Connecting with an optional authorization header, and sending a text; whether
    a string can be a header. *)
Class WebSocket (W : Type) := {
  header_value_from_str : string → option string;
  connect_async : string → option string → W → result string () * W;
  ws_send : string → W → result string () * W;
}.

(** The channel: what was sent, whether its receiver is alive, whether it is closed. *)
Record Channel := mkChannel { sent : list Json; receiving : bool; closed : bool }.

Inductive StreamEvent := Item (r : result string Message) | ReceiverDropped.

Section stream.
Context `{!SerdeJson} `{!JsonPrinter} `{!Utf8}.

Definition to_text (m : Message) : option string :=
  match m with
  | Text s => Some s
  | Binary b | Ping b | Pong b | Frame b => from_utf8 b
  | Close None => Some EmptyString
  | Close (Some reason) => Some reason
  end.

Definition read_message (m : Message) : option Json :=
  s ← to_text m;
  match json_from_str s with Ok j => Some j | Err _ => None end.

Definition send (j : Json) (c : Channel) : option Channel :=
  if receiving c && negb (closed c) then Some (mkChannel (sent c ++ [j]) (receiving c) (closed c)) else None.

(** [Sender::close]; a panic of the task drops the only sender, which closes the
    channel as well. *)
Definition close (c : Channel) : Channel := mkChannel (sent c) (receiving c) true.

Definition drop_receiver (c : Channel) : Channel := mkChannel (sent c) false (closed c).

Fixpoint handle_stream (es : list StreamEvent) (c : Channel) : outcome () * Channel :=
  match es with
  | [] => (Done (), close c)
  | ReceiverDropped :: es => handle_stream es (drop_receiver c)
  | Item (Err _) :: _ => (Done (), close c)
  | Item (Ok msg) :: es =>
      match unwrap (read_message msg) with
      | Done value =>
          match unwrap (send value c) with
          | Done c' => handle_stream es c'
          | _ => (Panic "called `Result::unwrap()` on an `Err` value", close c)
          end
      | _ => (Panic "called `Result::unwrap()` on an `Err` value", close c)
      end
  end.

(** [subscribe], up to the spawned task; [send_chan] is new. *)
Definition subscribe {W} `{!WebSocket W} (c : Client) (method : string) : act W Channel :=
  header ← lift
    match bearer_token c with
    | Some token => h ← ok_or_fail "failed to parse header value" (header_value_from_str ("Bearer " +:+ token)); Done (Some h)
    | None => Done None
    end;
  _ ← ((λ w, let '(r, w) := connect_async (client_url c) header w in (of_result r, w)) : act W ());
  body ← lift (of_result (build_jsonrpc_request method NO_PARAMS));
  _ ← ((λ w, let '(r, w) := ws_send (json_to_string body) w in (of_result r, w)) : act W ());
  mret (mkChannel [] true false).

(** ** Properties *)

Definition open (c : Channel) : Prop := receiving c = true ∧ closed c = false.

Definition messages (msgs : list Message) : list StreamEvent := (λ m, Item (Ok m)) <$> msgs.

(** What ends the forwarding of messages, and how the task then ends. *)
Inductive ends : list StreamEvent → outcome () → Prop :=
  | ends_closed : ends [] (Done ())
  | ends_error e es : ends (Item (Err e) :: es) (Done ())
  | ends_not_json m es p : read_message m = None → ends (Item (Ok m) :: es) (Panic p)
  | ends_dropped es r : ends (ReceiverDropped :: es) r.

(** Without a receiver nothing is sent any more, and a further message is a panic. *)
Lemma dropped_sends_nothing es c :
  receiving c = false →
  let '(r, c') := handle_stream es c in sent c' = sent c ∧ closed c' = true.
Proof.
  revert c. induction es as [|[[msg|e]|] es IH]; intros c Hc; cbn; [done| |done|].
  - destruct (read_message msg) as [v|]; cbn; [|done]. unfold send. by rewrite Hc.
  - exact (IH (drop_receiver c) eq_refl).
Qed.

Lemma handle_stream_prefix es c :
  open c →
  ∃ msgs vs rest, es = messages msgs ++ rest ∧ Forall2 (λ m v, read_message m = Some v) msgs vs ∧
    ends rest (handle_stream es c).1 ∧
    sent (handle_stream es c).2 = sent c ++ vs ∧ closed (handle_stream es c).2 = true.
Proof.
  revert c. induction es as [|[[msg|e]|] es IH]; intros c [Hr Hc].
  - exists [], [], []. cbn. rewrite app_nil_r. split_and!; by constructor.
  - destruct (read_message msg) as [v|] eqn:Hm.
    + destruct (IH (mkChannel (sent c ++ [v]) true false)) as (msgs & vs & rest & -> & Hf & He & Hs & Hcl); [done|].
      exists (msg :: msgs), (v :: vs), rest. split; [done|]. split; [by constructor|].
      cbn [handle_stream]. rewrite Hm. unfold send. rewrite Hr, Hc. cbn [andb negb unwrap].
      rewrite Hs. cbn. rewrite <-app_assoc. by split_and!.
    + exists [], [], (Item (Ok msg) :: es). cbn. rewrite Hm, app_nil_r. cbn. split_and!; by constructor.
  - exists [], [], (Item (Err e) :: es). cbn. rewrite app_nil_r. split_and!; by constructor.
  - exists [], [], (ReceiverDropped :: es). split; [done|]. split; [constructor|]. split; [constructor|].
    cbn [handle_stream]. rewrite app_nil_r.
    pose proof (dropped_sends_nothing es (drop_receiver c) eq_refl) as Hd.
    by destruct (handle_stream es (drop_receiver c)) as [r c'].
Qed.

(** C31 (forwarding a subscription): the receiver gets exactly the values of a prefix of the
    stream's messages, in their order and each once; afterwards the channel is always
    closed.  The prefix ends where the stream ends or reports an error, and then the
    task returns; or at a message whose text is not JSON, and then the task panics;
    or when the receiver is dropped. *)
Theorem subscription_forwarded es c :
  open c →
  ∃ msgs vs rest, es = messages msgs ++ rest ∧ Forall2 (λ m v, read_message m = Some v) msgs vs ∧
    ends rest (handle_stream es c).1 ∧
    sent (handle_stream es c).2 = sent c ++ vs ∧ closed (handle_stream es c).2 = true.
Proof. apply handle_stream_prefix. Qed.

(** The close frame of an orderly end is read as a message with an empty text. *)
Lemma close_frame_panics msgs vs c e :
  json_from_str EmptyString = Err e →
  Forall2 (λ m v, read_message m = Some v) msgs vs → open c →
  ∃ p, (handle_stream (messages msgs ++ [Item (Ok (Close None))]) c).1 = Panic p.
Proof.
  intros He Hf. revert c. induction Hf as [|m v msgs vs Hm _ IH]; intros c [Hr Hc]; cbn.
  - rewrite He. by eexists.
  - rewrite Hm. unfold send. rewrite Hr, Hc. cbn. by apply IH.
Qed.
End stream.

(** ** A subscription *)
Module StreamDemo.
#[local] Existing Instances TextDemo.serde_json TextDemo.printer.
#[local] Instance no_utf8 : Utf8 := {| from_utf8 := λ _, None |}.

Definition chan : Channel := mkChannel [] true false.
Definition stream : list StreamEvent :=
  [Item (Ok (Text (json_to_string (JNum 1)))); Item (Ok (Text (json_to_string (JNum 2))));
   Item (Ok (Binary [])); Item (Ok (Text (json_to_string (JNum 3))))].

Example forwarded : sent (handle_stream stream chan).2 = [JNum 1; JNum 2].
Proof. vm_compute. reflexivity. Qed.

Lemma subscription_forwarded_witness :
  ∃ msgs vs rest, stream = messages msgs ++ rest ∧ vs = [JNum 1; JNum 2] ∧
    Forall2 (λ m v, read_message m = Some v) msgs vs ∧ ends rest (handle_stream stream chan).1.
Proof.
  destruct (subscription_forwarded stream chan) as (msgs & vs & rest & Hes & Hf & He & Hs & _); [by split|].
  exists msgs, vs, rest. split_and!; [done| |done|done]. by rewrite forwarded in Hs.
Defined.
End StreamDemo.
