(* ===== verification/Lotus.v ===== *)
(** * The agent's view of a Lotus node

    [src/lotus/message/*.rs] and [src/lotus/json.rs]: the data the agent
    exchanges with a Lotus node, the conversions between the JSON forms of CIDs
    and checkpoints and their own types, and the decoders of the responses.

    [SubnetID], [Cid], [Address] and the checkpoint codec come from other
    crates and are the interface [AgentTypes]; [Demo] is an instance. *)
From S2P Require Import Prelude Types Records Outcome Json.

(** ** Types of other crates *)

(** The methods of the subnet actor and of the gateway that the agent calls. *)
Inductive Method :=
  | SendValue | InitExec
  | SubnetJoin | SubnetLeave | SubnetKill | SubnetSubmitCheckpoint | SubnetSetValidatorNetAddr
  | GatewayFund | GatewayRelease | GatewayPropagate | GatewayWhiteListPropagator
  | GatewaySubmitTopDownCheckpoint.

#[export] Instance Method_eq_dec : EqDecision Method.
Proof. solve_decision. Defined.

Class AgentTypes `{ResolverTypes} := {
  Address : Type;
  Address_eq_dec :: EqDecision Address;
  Address_countable :: Countable Address;
  address_from_str : string → option Address;
  address_to_string : Address → string;
  (** [SubnetID::parent], [SubnetID::subnet_actor], [SubnetID::from_str]. *)
  subnet_parent : SubnetID → option SubnetID;
  subnet_actor : SubnetID → Address;
  subnet_from_str : string → option SubnetID;
  cid_from_str : string → option Cid;
  cid_to_string : Cid → string;
  cid_to_bytes : Cid → bytes;
  (** [SubnetID::new_from_parent]. *)
  subnet_new_from_parent : SubnetID → Address → SubnetID;
  (** [BigInt::from_str] and [Display for BigInt]. *)
  bigint_from_str : string → option Z;
  bigint_to_string : Z → string;
  (** The number of a method of the actors, as the message carries it. *)
  method_num : Method → Z;
  (** The gateway's [Status] of a subnet and its decoder. *)
  Status : Type;
  de_status : decoder Status;
  (** [TCid::from] and [TCid::default]. *)
  TCid : Type;
  tcid_from : Cid → TCid;
  tcid_default : TCid;
  IPCAddress : Type;
}.

Class AgentTypesLaws `{AgentTypes} := {
  cid_str_roundtrip : ∀ c, cid_from_str (cid_to_string c) = Some c;
  address_str_roundtrip : ∀ a, address_from_str (address_to_string a) = Some a;
  bigint_str_roundtrip : ∀ z, bigint_from_str (bigint_to_string z) = Some z;
  subnet_str_roundtrip : ∀ s, subnet_from_str (subnet_to_string s) = Some s;
  subnet_from_parts : ∀ s p,
    subnet_parent s = Some p → subnet_new_from_parent p (subnet_actor s) = s;
}.

(** [TokenAmount], in atto. *)
Definition TokenAmount : Type := Z.
Definition ChainEpoch : Type := Z.

(** ** CIDs in JSON *)

Record CIDMap := mkCIDMap { cm_cid : option string }.

#[export] Instance CIDMap_eq_dec : EqDecision CIDMap.
Proof. solve_decision. Defined.

Section cid_map.
Context `{AgentTypes}.

(** [From<CIDMap> for Option<Cid>]; a string that is not a CID is a panic. *)
Definition cid_map_to_option (m : CIDMap) : outcome (option Cid) :=
  match cm_cid m with
  | None => Done None
  | Some s =>
      match cid_from_str s with
      | Some c => Done (Some c)
      | None => Panic "invalid cid str"
      end
  end.

(** [TryFrom<CIDMap> for Cid]. *)
Definition cid_try_from (m : CIDMap) : outcome Cid :=
  o ← cid_map_to_option m;
  match o with
  | Some c => Done c
  | None => Fail "cid not found"
  end.

Definition cid_map_from_option (c : option Cid) : CIDMap :=
  match c with
  | Some c => mkCIDMap (Some (cid_to_string c))
  | None => mkCIDMap None
  end.

Definition cid_map_from (c : Cid) : CIDMap := mkCIDMap (Some (cid_to_string c)).

Lemma cid_map_roundtrip `{!AgentTypesLaws} c : cid_try_from (cid_map_from c) = Done c.
Proof.
  unfold cid_try_from, cid_map_to_option, cid_map_from; cbn. by rewrite cid_str_roundtrip.
Qed.
End cid_map.

(** ** Responses *)

Record ChainHeadResponse := mkChainHead {
  head_cids : list CIDMap;
  head_blocks : list Json;
  head_height : Z;
}.

Record Voting := mkVoting { genesis_epoch : Z; last_voting_executed : Z }.

Record GatewayState := mkGatewayState {
  gw_bottom_up_check_period : ChainEpoch;
  gw_top_down_check_period : ChainEpoch;
  applied_topdown_nonce : Z;
  top_down_checkpoint_voting : Voting;
  gw_initialized : bool;
}.

Record Validator := mkValidator { v_addr : string; v_net_addr : string; v_weight : string }.

Record ValidatorSet := mkValidatorSet {
  validators : option (list Validator);
  configuration_number : Z;
}.

Record SubnetActorState := mkSubnetActorState {
  sa_bottom_up_check_period : ChainEpoch;
  sa_validator_set : ValidatorSet;
  min_validators : Z;
  bottom_up_checkpoint_voting : Voting;
}.

Record MpoolPushMessage `{AgentTypes} := mkMpoolPushMessage {
  msg_to : Address;
  msg_from : Address;
  msg_value : TokenAmount;
  msg_method : Method;
  msg_params : bytes;
  msg_nonce : option Z;
  msg_gas_limit : option TokenAmount;
  msg_gas_fee_cap : option TokenAmount;
  msg_gas_premium : option TokenAmount;
  msg_cid : option Cid;
  msg_version : option Z;
  msg_max_fee : option TokenAmount;
}.
Arguments mkMpoolPushMessage {_ _} _ _ _ _ _ _ _ _ _ _ _ _.

(** [MpoolPushMessage::new]. *)
Definition mpool_push_message_new `{AgentTypes} (to from : Address) (method : Method)
    (params : bytes) : MpoolPushMessage :=
  mkMpoolPushMessage to from 0%Z method params None None None None None None None.

Definition set_msg_value `{AgentTypes} (v : TokenAmount) (m : MpoolPushMessage) : MpoolPushMessage :=
  mkMpoolPushMessage (msg_to m) (msg_from m) v (msg_method m) (msg_params m) (msg_nonce m)
    (msg_gas_limit m) (msg_gas_fee_cap m) (msg_gas_premium m) (msg_cid m) (msg_version m)
    (msg_max_fee m).

Record MpoolPushMessageResponseInner := mkPushResponseInner {
  resp_to : string;
  resp_from : string;
  resp_value : string;
  resp_method : Z;
  resp_params : string;
  resp_nonce : Z;
  resp_gas_limit : Z;
  resp_gas_fee_cap : string;
  resp_gas_premium : string;
  resp_version : Z;
  resp_cid : CIDMap;
}.

Record MpoolPushMessageResponse := mkPushResponse {
  push_message : MpoolPushMessageResponseInner;
  push_cid : CIDMap;
}.

(** [MpoolPushMessageResponseInner::cid], [::to] and [::from]. *)
Definition push_response_cid `{AgentTypes} (r : MpoolPushMessageResponseInner) : outcome Cid :=
  cid_try_from (resp_cid r).

Definition push_response_to `{AgentTypes} (r : MpoolPushMessageResponseInner) : outcome Address :=
  ok_or_fail "invalid address" (address_from_str (resp_to r)).

Definition push_response_from `{AgentTypes} (r : MpoolPushMessageResponseInner) : outcome Address :=
  ok_or_fail "invalid address" (address_from_str (resp_from r)).

Record Receipt := mkReceipt {
  exit_code : Z;
  receipt_result : option string;
  gas_used : Z;
}.

Record StateWaitMsgResponse := mkStateWait {
  wait_message : CIDMap;
  wait_receipt : Receipt;
  wait_tip_set : list CIDMap;
  wait_height : Z;
}.

Record ReadStateResponse (State : Type) := mkReadState {
  rs_balance : string;
  rs_code : CIDMap;
  rs_state : State;
}.
Arguments mkReadState {State} _ _ _.

(** [Receipt::parse_result_into::<T>], with the codecs of [base64] and of the
    actors' runtime and [T]'s default as arguments. *)
Definition parse_result_into {T} (base64_decode : string → option bytes)
    (cbor_deserialize : bytes → option T) (default : T) (r : Receipt) : outcome T :=
  match receipt_result r with
  | None => Done default
  | Some s =>
      b ← ok_or_fail "cannot decode return string" (base64_decode s);
      ok_or_fail "cannot cbor deserialize return data" (cbor_deserialize b)
  end.

Record SubnetInfo `{AgentTypes} := mkSubnetInfo {
  si_id : SubnetID;
  si_stake : TokenAmount;
  si_circ_supply : TokenAmount;
  si_status : Status;
}.
Arguments mkSubnetInfo {_ _} _ _ _ _.

Inductive WalletKeyType := BLS | Secp256k1 | Secp256k1Ledger.

#[export] Instance WalletKeyType_eq_dec : EqDecision WalletKeyType.
Proof. solve_decision. Defined.

(** [AsRefStr] and [EnumString]. *)
Definition wallet_key_as_ref (k : WalletKeyType) : string :=
  match k with
  | BLS => "bls"
  | Secp256k1 => "secp256k1"
  | Secp256k1Ledger => "secp256k1-ledger"
  end.

Definition wallet_key_from_str (s : string) : option WalletKeyType :=
  if decide (s = "bls") then Some BLS
  else if decide (s = "secp256k1") then Some Secp256k1
  else if decide (s = "secp256k1-ledger") then Some Secp256k1Ledger
  else None.

(** ** Checkpoints *)

Record StorableMsg `{AgentTypes} := mkStorableMsg {
  sm_from : IPCAddress;
  sm_to : IPCAddress;
  sm_method : Z;
  sm_params : bytes;
  sm_value : TokenAmount;
  sm_nonce : Z;
}.
Arguments mkStorableMsg {_ _} _ _ _ _ _ _.

Record CrossMsg `{AgentTypes} := mkCrossMsg { cross_msg : StorableMsg; cross_wrapped : bool }.
Arguments mkCrossMsg {_ _} _ _.

Record BatchCrossMsgs `{AgentTypes} := mkBatchCrossMsgs {
  batch_cross_msgs : option (list CrossMsg);
  batch_fee : TokenAmount;
}.
Arguments mkBatchCrossMsgs {_ _} _ _.

Record ChildCheck `{AgentTypes} := mkChildCheck { cc_source : SubnetID; cc_checks : list TCid }.
Arguments mkChildCheck {_ _} _ _.

Record CheckData `{AgentTypes} := mkCheckData {
  cd_source : SubnetID;
  cd_proof : bytes;
  cd_epoch : ChainEpoch;
  cd_prev_check : TCid;
  cd_children : list ChildCheck;
  cd_cross_msgs : BatchCrossMsgs;
}.
Arguments mkCheckData {_ _} _ _ _ _ _ _.

Record BottomUpCheckpoint `{AgentTypes} := mkBottomUp { bu_data : CheckData; bu_sig : bytes }.
Arguments mkBottomUp {_ _} _ _.

Record TopDownCheckpoint `{AgentTypes} := mkTopDown {
  td_epoch : ChainEpoch;
  td_msgs : list CrossMsg;
}.
Arguments mkTopDown {_ _} _ _.

(** What the actors' crates provide for checkpoints: the constructor
    [BottomUpCheckpoint::new] and the CBOR encoding of parameters. *)
Class Checkpoints `{AgentTypes} := {
  checkpoint_new : SubnetID → ChainEpoch → BottomUpCheckpoint;
  cbor_bottomup : BottomUpCheckpoint → result string bytes;
  cbor_topdown : TopDownCheckpoint → result string bytes;
}.

Class CheckpointsLaws `{Checkpoints} := {
  checkpoint_new_source : ∀ id e, cd_source (bu_data (checkpoint_new id e)) = id;
  checkpoint_new_epoch : ∀ id e, cd_epoch (bu_data (checkpoint_new id e)) = e;
}.

(** ** The JSON form of checkpoints *)

Section wrappers.
Context `{AgentTypes}.

Record StorableMsgsWrapper := mkStorableMsgsWrapper {
  smw_from : IPCAddress;
  smw_to : IPCAddress;
  smw_method : Z;
  smw_params : bytes;
  smw_value : TokenAmount;
  smw_nonce : Z;
}.

Record CrossMsgsWrapper := mkCrossMsgsWrapper { cw_msg : StorableMsgsWrapper; cw_wrapped : bool }.

Record BatchCrossMsgsWrapper := mkBatchWrapper {
  bw_cross_msgs : option (list CrossMsgsWrapper);
  bw_fee : TokenAmount;
}.

Record ChildWrapper := mkChildWrapper { chw_source : SubnetID; chw_checks : list CIDMap }.

Record CheckDataWrapper := mkCheckDataWrapper {
  cdw_source : SubnetID;
  cdw_proof : option bytes;
  cdw_epoch : Z;
  cdw_prev_check : option CIDMap;
  cdw_children : option (list ChildWrapper);
  cdw_cross_msgs : option BatchCrossMsgsWrapper;
}.

Record BottomUpCheckpointWrapper := mkBottomUpWrapper {
  buw_data : CheckDataWrapper;
  buw_sig : option bytes;
}.

(** [From<BatchCrossMsgsWrapper> for BatchCrossMsgs]. *)
Definition batch_from_wrapper (w : BatchCrossMsgsWrapper) : BatchCrossMsgs :=
  mkBatchCrossMsgs
    (map (λ c, mkCrossMsg
       (mkStorableMsg (smw_from (cw_msg c)) (smw_to (cw_msg c)) (smw_method (cw_msg c))
          (smw_params (cw_msg c)) (smw_value (cw_msg c)) (smw_nonce (cw_msg c)))
       (cw_wrapped c)) <$> bw_cross_msgs w)
    (bw_fee w).

(** [BatchCrossMsgs::default]. *)
Definition batch_default : BatchCrossMsgs := mkBatchCrossMsgs None 0%Z.

Definition child_from_wrapper (c : ChildWrapper) : outcome ChildCheck :=
  checks ← traverse (λ m, c ← cid_try_from m; Done (tcid_from c)) (chw_checks c);
  Done (mkChildCheck (chw_source c) checks).

(** [TryFrom<BottomUpCheckpointWrapper> for BottomUpCheckpoint]. *)
Definition checkpoint_try_from (w : BottomUpCheckpointWrapper) : outcome BottomUpCheckpoint :=
  let d := buw_data w in
  prev_check ←
    match cdw_prev_check d with
    | Some m => c ← cid_try_from m; Done (tcid_from c)
    | None => Done tcid_default
    end;
  children ←
    match cdw_children d with
    | Some cs => traverse child_from_wrapper cs
    | None => Done []
    end;
  let cross_msgs :=
    match cdw_cross_msgs d with
    | Some b => batch_from_wrapper b
    | None => batch_default
    end in
  Done (mkBottomUp
    (mkCheckData (cdw_source d) (default [] (cdw_proof d)) (cdw_epoch d) prev_check
       children cross_msgs)
    (default [] (buw_sig w))).

(** The JSON form that a node produces for a checkpoint whose CIDs are given. *)
Definition wrap_msg (c : CrossMsg) : CrossMsgsWrapper :=
  let m := cross_msg c in
  mkCrossMsgsWrapper
    (mkStorableMsgsWrapper (sm_from m) (sm_to m) (sm_method m) (sm_params m) (sm_value m) (sm_nonce m))
    (cross_wrapped c).

Definition wrap_batch (b : BatchCrossMsgs) : BatchCrossMsgsWrapper :=
  mkBatchWrapper (map wrap_msg <$> batch_cross_msgs b) (batch_fee b).

Lemma batch_wrap_roundtrip b : batch_from_wrapper (wrap_batch b) = b.
Proof.
  destruct b as [[msgs|] fee]; unfold batch_from_wrapper, wrap_batch; cbn; [|done].
  rewrite map_map. do 2 f_equal. rewrite <-(map_id msgs) at 2. apply map_ext.
  by intros [[] ?].
Qed.

Definition wrap_checkpoint (source : SubnetID) (proof : bytes) (epoch : ChainEpoch)
    (prev : option Cid) (children : list (SubnetID * list Cid)) (b : BatchCrossMsgs)
    (sig : bytes) : BottomUpCheckpointWrapper :=
  mkBottomUpWrapper
    (mkCheckDataWrapper source (Some proof) epoch (cid_map_from <$> prev)
       (Some ((λ c, mkChildWrapper c.1 (cid_map_from <$> c.2)) <$> children))
       (Some (wrap_batch b)))
    (Some sig).

(** The wrapper of a checkpoint is converted back to the checkpoint. *)
Lemma checkpoint_wrapper_roundtrip `{!AgentTypesLaws} source proof epoch prev children b sig :
  checkpoint_try_from (wrap_checkpoint source proof epoch prev children b sig) =
    Done (mkBottomUp
      (mkCheckData source proof epoch (from_option tcid_from tcid_default prev)
         ((λ c, mkChildCheck c.1 (tcid_from <$> c.2)) <$> children) b) sig).
Proof.
  assert (Hcid : ∀ c, (c ← cid_try_from (cid_map_from c); Done (tcid_from c)) = Done (tcid_from c))
    by (intros; by rewrite cid_map_roundtrip).
  unfold checkpoint_try_from, wrap_checkpoint; cbn.
  assert (match cid_map_from <$> prev with
    | Some m => c ← cid_try_from m; Done (tcid_from c) | None => Done tcid_default end =
    Done (from_option tcid_from tcid_default prev)) as -> by (destruct prev; cbn; [apply Hcid|done]).
  cbn. rewrite (traverse_roundtrip _ _ (λ c, mkChildCheck c.1 (tcid_from <$> c.2))).
  - cbn. by rewrite batch_wrap_roundtrip.
  - intros [s cids]. unfold child_from_wrapper; cbn.
    by rewrite (traverse_roundtrip (λ m, c ← cid_try_from m; Done (tcid_from c)) cid_map_from tcid_from cids Hcid).
Qed.

(** A check of a child without a CID is never converted. *)
Lemma checkpoint_child_hole d sig cs c m cp :
  cdw_children d = Some cs → c ∈ cs → m ∈ chw_checks c → cm_cid m = None →
  checkpoint_try_from (mkBottomUpWrapper d sig) ≠ Done cp.
Proof.
  intros Hcs Hc Hm Hnone. unfold checkpoint_try_from; cbn. rewrite Hcs.
  destruct (match cdw_prev_check d with Some _ => _ | None => _ end); cbn; try done.
  enough (∀ r, traverse child_from_wrapper cs ≠ Done r) as Hne.
  { destruct (traverse child_from_wrapper cs); cbn; try done. by destruct (Hne a0). }
  apply (traverse_fails _ _ c Hc). unfold child_from_wrapper. intros r.
  pose proof (traverse_fails (λ m, c ← cid_try_from m; Done (tcid_from c)) _ m Hm) as Hf.
  destruct (traverse _ (chw_checks c)); cbn; try done. exfalso. apply (Hf ltac:(
    intros r'; unfold cid_try_from, cid_map_to_option; by rewrite Hnone) a0 eq_refl).
Qed.
End wrappers.

(** ** Decoding the responses

    The [Deserialize] instances of the response structs, with the field names
    that their [serde] attributes give them. *)
Section decoders.
Context `{AgentTypes} `{!SerdeJson}.

Definition de_cid_map : decoder CIDMap := λ j,
  fs ← de_struct ["/"] j;
  match fs with
  | [cid] => cid ← optional de_string cid; Ok (mkCIDMap cid)
  | _ => Err "invalid length"
  end.

Definition de_chain_head : decoder ChainHeadResponse := λ j,
  fs ← de_struct ["Cids"; "Blocks"; "Height"] j;
  match fs with
  | [cids; blocks; height] =>
      cids ← required (de_vec de_cid_map) cids;
      blocks ← required (de_vec de_value) blocks;
      height ← required de_u64 height;
      Ok (mkChainHead cids blocks height)
  | _ => Err "invalid length"
  end.

Definition de_push_response_inner : decoder MpoolPushMessageResponseInner := λ j,
  fs ← de_struct ["To"; "From"; "Value"; "Method"; "Params"; "Nonce"; "GasLimit"; "GasFeeCap";
                  "GasPremium"; "Version"; "CID"] j;
  match fs with
  | [to; from; value; method; params; nonce; gas_limit; gas_fee_cap; gas_premium; version; cid] =>
      to ← required de_string to;
      from ← required de_string from;
      value ← required de_string value;
      method ← required de_u64 method;
      params ← required de_string params;
      nonce ← required de_u64 nonce;
      gas_limit ← required de_u64 gas_limit;
      gas_fee_cap ← required de_string gas_fee_cap;
      gas_premium ← required de_string gas_premium;
      version ← required de_u16 version;
      cid ← required de_cid_map cid;
      Ok (mkPushResponseInner to from value method params nonce gas_limit gas_fee_cap
            gas_premium version cid)
  | _ => Err "invalid length"
  end.

Definition de_push_response : decoder MpoolPushMessageResponse := λ j,
  fs ← de_struct ["Message"; "CID"] j;
  match fs with
  | [message; cid] =>
      message ← required de_push_response_inner message;
      cid ← required de_cid_map cid;
      Ok (mkPushResponse message cid)
  | _ => Err "invalid length"
  end.

Definition de_receipt : decoder Receipt := λ j,
  fs ← de_struct ["ExitCode"; "Return"; "GasUsed"] j;
  match fs with
  | [code; ret; gas] =>
      code ← required de_u32 code;
      ret ← optional de_string ret;
      gas ← required de_u64 gas;
      Ok (mkReceipt code ret gas)
  | _ => Err "invalid length"
  end.

Definition de_state_wait : decoder StateWaitMsgResponse := λ j,
  fs ← de_struct ["Message"; "Receipt"; "TipSet"; "Height"] j;
  match fs with
  | [message; receipt; tip_set; height] =>
      message ← required de_cid_map message;
      receipt ← required de_receipt receipt;
      tip_set ← required (de_vec de_cid_map) tip_set;
      height ← required de_u64 height;
      Ok (mkStateWait message receipt tip_set height)
  | _ => Err "invalid length"
  end.

Definition de_read_state {State} (d : decoder State) : decoder (ReadStateResponse State) := λ j,
  fs ← de_struct ["Balance"; "Code"; "State"] j;
  match fs with
  | [balance; code; state] =>
      balance ← required de_string balance;
      code ← required de_cid_map code;
      state ← required d state;
      Ok (mkReadState balance code state)
  | _ => Err "invalid length"
  end.

Definition de_voting : decoder Voting := λ j,
  fs ← de_struct ["GenesisEpoch"; "LastVotingExecuted"] j;
  match fs with
  | [genesis; last] =>
      genesis ← required de_i64 genesis;
      last ← required de_i64 last;
      Ok (mkVoting genesis last)
  | _ => Err "invalid length"
  end.

Definition de_gateway_state : decoder GatewayState := λ j,
  fs ← de_struct ["BottomUpCheckPeriod"; "TopDownCheckPeriod"; "AppliedTopdownNonce";
                  "TopDownCheckpointVoting"; "Initialized"] j;
  match fs with
  | [bottom_up; top_down; nonce; voting; initialized] =>
      bottom_up ← required de_i64 bottom_up;
      top_down ← required de_i64 top_down;
      nonce ← required de_u64 nonce;
      voting ← required de_voting voting;
      initialized ← required de_bool initialized;
      Ok (mkGatewayState bottom_up top_down nonce voting initialized)
  | _ => Err "invalid length"
  end.

Definition de_validator : decoder Validator := λ j,
  fs ← de_struct ["addr"; "net_addr"; "weight"] j;
  match fs with
  | [addr; net_addr; weight] =>
      addr ← required de_string addr;
      net_addr ← required de_string net_addr;
      weight ← required de_string weight;
      Ok (mkValidator addr net_addr weight)
  | _ => Err "invalid length"
  end.

Definition de_validator_set : decoder ValidatorSet := λ j,
  fs ← de_struct ["validators"; "configuration_number"] j;
  match fs with
  | [vs; number] =>
      vs ← optional (de_vec de_validator) vs;
      number ← required de_u64 number;
      Ok (mkValidatorSet vs number)
  | _ => Err "invalid length"
  end.

Definition de_subnet_actor_state : decoder SubnetActorState := λ j,
  fs ← de_struct ["BottomUpCheckPeriod"; "ValidatorSet"; "MinValidators";
                  "BottomUpCheckpointVoting"] j;
  match fs with
  | [period; vs; min; voting] =>
      period ← required de_i64 period;
      vs ← required de_validator_set vs;
      min ← required de_u64 min;
      voting ← required de_voting voting;
      Ok (mkSubnetActorState period vs min voting)
  | _ => Err "invalid length"
  end.

(** [s[1..s.len() - 1]] of a value whose text starts with a quote. *)
Definition unquote (raw : string) : option string :=
  match raw with
  | String c rest =>
      if decide (c = "034"%char) then Some (String.substring 0 (String.length rest - 1) rest)
      else None
  | EmptyString => None
  end.

(** The loop of [visit_map]: the last occurrence of a key counts, any
    malformed occurrence is an error. *)
Fixpoint visit_subnet_id (fields : list (string * Json)) (parent : option SubnetID)
    (actor : option Address) : result string (option SubnetID * option Address) :=
  match fields with
  | [] => Ok (parent, actor)
  | (key, value) :: fields =>
      if decide (key = "Parent") then
        match unquote (raw_value value) with
        | None => Err "invalid parent"
        | Some s =>
            id ← ok_or "invalid subnet id" (subnet_from_str s);
            visit_subnet_id fields (Some id) actor
        end
      else if decide (key = "Actor") then
        match unquote (raw_value value) with
        | None => Err "invalid actor"
        | Some s =>
            addr ← ok_or "invalid address" (address_from_str s);
            visit_subnet_id fields parent (Some addr)
        end
      else visit_subnet_id fields parent actor
  end.

Definition deserialize_subnet_id_from_map : decoder SubnetID := λ j,
  match j with
  | JObj fields =>
      r ← visit_subnet_id fields None None;
      match r with
      | (Some parent, Some actor) => Ok (subnet_new_from_parent parent actor)
      | _ => Err "parent or actor not present"
      end
  | _ => Err "invalid type: expected a map"
  end.

Definition deserialize_token_amount_from_str : decoder TokenAmount := λ j,
  s ← de_string j; ok_or "invalid digit found in string" (bigint_from_str s).

Definition deserialize_address_from_str : decoder Address := λ j,
  s ← de_string j; ok_or "invalid address" (address_from_str s).

Definition de_subnet_info : decoder SubnetInfo := λ j,
  fs ← de_struct ["ID"; "Stake"; "CircSupply"; "Status"] j;
  match fs with
  | [id; stake; supply; status] =>
      id ← required deserialize_subnet_id_from_map id;
      stake ← required deserialize_token_amount_from_str stake;
      supply ← required deserialize_token_amount_from_str supply;
      status ← required de_status status;
      Ok (mkSubnetInfo id stake supply status)
  | _ => Err "invalid length"
  end.

(** [ToJson for SubnetID]; the root has no parent, which is a panic. *)
Definition subnet_to_json (s : SubnetID) : outcome Json :=
  match subnet_parent s with
  | None => Panic "no parent found"
  | Some parent =>
      Done (JObj [("Parent", JStr (subnet_to_string parent));
                  ("Actor", JStr (address_to_string (subnet_actor s)))])
  end.

(** [Serialize for CIDMap]. *)
Definition cid_map_to_json (m : CIDMap) : Json :=
  JObj (match cm_cid m with Some s => [("/", JStr s)] | None => [] end).
End decoders.

(** A string without quotes, backslashes or control characters is its own
    escaped form. *)
Definition is_plain_char (c : ascii) : bool :=
  negb (bool_decide (c = "034"%char)) && negb (bool_decide (c = "092"%char))
  && (32 <=? N_of_ascii c)%N.

Fixpoint is_plain (s : string) : bool :=
  match s with
  | EmptyString => true
  | String c s => is_plain_char c && is_plain s
  end.

Class SerdeJsonLaws `{SerdeJson} := {
  raw_value_plain : ∀ s, is_plain s = true →
    raw_value (JStr s) = String "034" (s +:+ String "034" EmptyString);
}.

Lemma length_snoc s c : String.length (s +:+ String c EmptyString) = S (String.length s).
Proof.
  induction s as [|a s IH]; [done|].
  change (S (String.length (s +:+ String c EmptyString)) = S (S (String.length s))). by rewrite IH.
Qed.

Lemma substring_prefix s t : String.substring 0 (String.length s) (s +:+ t) = s.
Proof.
  induction s as [|a s IH]; [by destruct t|].
  change (String a (String.substring 0 (String.length s) (s +:+ t)) = String a s). by rewrite IH.
Qed.

Lemma substring_app s c : String.substring 0 (String.length (s +:+ String c EmptyString) - 1)
  (s +:+ String c EmptyString) = s.
Proof. rewrite length_snoc. cbn [Nat.sub]. rewrite Nat.sub_0_r. apply substring_prefix. Qed.

Section subnet_json.
Context `{!ResolverTypes} `{!AgentTypes} `{!AgentTypesLaws} `{!SerdeJson} `{!SerdeJsonLaws}.

Lemma unquote_raw s : is_plain s = true → unquote (raw_value (JStr s)) = Some s.
Proof. intros Hs. rewrite raw_value_plain by done. cbn. by rewrite substring_app. Qed.

Lemma visit_parent parent fields p a :
  is_plain (subnet_to_string parent) = true →
  visit_subnet_id (("Parent", JStr (subnet_to_string parent)) :: fields) p a =
  visit_subnet_id fields (Some parent) a.
Proof.
  intros Hp. cbn [visit_subnet_id]. rewrite decide_True by done.
  rewrite unquote_raw by done. cbn. by rewrite subnet_str_roundtrip.
Qed.

Lemma visit_actor addr fields p a :
  is_plain (address_to_string addr) = true →
  visit_subnet_id (("Actor", JStr (address_to_string addr)) :: fields) p a =
  visit_subnet_id fields p (Some addr).
Proof.
  intros Hp. cbn [visit_subnet_id]. rewrite decide_False, decide_True by done.
  rewrite unquote_raw by done. cbn. by rewrite address_str_roundtrip.
Qed.

(** The form in which a subnet id is sent to a node is
    decoded to the same id, whatever other fields surround it and in either order
    of the two; the id of the root cannot be sent, and an object that lacks one of
    the two fields is refused. *)
Lemma subnet_json_roundtrip s parent fields :
  subnet_parent s = Some parent →
  is_plain (subnet_to_string parent) = true →
  is_plain (address_to_string (subnet_actor s)) = true →
  Forall (λ f, f.1 ≠ "Parent" ∧ f.1 ≠ "Actor") fields →
  ∃ p a, subnet_to_json s = Done (JObj [p; a]) ∧
    deserialize_subnet_id_from_map (JObj (p :: a :: fields)) = Ok s ∧
    deserialize_subnet_id_from_map (JObj (fields ++ [a; p])) = Ok s ∧
    deserialize_subnet_id_from_map (JObj (p :: fields)) = Err "parent or actor not present" ∧
    deserialize_subnet_id_from_map (JObj (a :: fields)) = Err "parent or actor not present".
Proof.
  intros Hp Hplain Hactor Hf. unfold subnet_to_json. rewrite Hp. do 2 eexists. split; [done|].
  assert (Hskip : ∀ l p a, visit_subnet_id (fields ++ l) p a = visit_subnet_id l p a).
  { intros l p a. induction Hf as [|[k v] fields [Hk Hk'] Hf IH]; [done|].
    cbn. by rewrite (decide_False _ _ Hk), (decide_False _ _ Hk'). }
  assert (Hskip' : ∀ p a, visit_subnet_id fields p a = Ok (p, a))
    by (intros p a; rewrite <-(app_nil_r fields); apply Hskip).
  pose proof (subnet_from_parts s parent Hp) as Hparts.
  unfold deserialize_subnet_id_from_map. rewrite Hskip.
  rewrite !visit_parent, !visit_actor, !visit_parent, !Hskip' by done. cbn.
  by rewrite !Hparts.
Qed.
End subnet_json.

(** ** An instance

    Subnets are their display strings, addresses, CIDs and statuses are
    strings, amounts are written in binary, the lowest digit first. *)
Module Demo.
Fixpoint last_slash (s : string) : option (string * string) :=
  match s with
  | EmptyString => None
  | String c rest =>
      match last_slash rest with
      | Some (p, a) => Some (String c p, a)
      | None => if decide (c = "/"%char) then Some (EmptyString, rest) else None
      end
  end.

Lemma last_slash_join s p a : last_slash s = Some (p, a) → p +:+ "/" +:+ a = s.
Proof.
  revert p. induction s as [|c s IH]; intros p; cbn; [done|].
  destruct (last_slash s) as [[p' a']|].
  - intros [= <- <-]. change (String c (p' +:+ "/" +:+ a') = String c s). by rewrite (IH p').
  - case_decide; [|done]. intros [= <- <-]. by subst.
Qed.

Fixpoint no_slash (s : string) : string :=
  match s with
  | EmptyString => EmptyString
  | String c s => if decide (c = "/"%char) then no_slash s else String c (no_slash s)
  end.

Lemma last_slash_none s : last_slash s = None → no_slash s = s.
Proof.
  induction s as [|c s IH]; cbn; [done|]. destruct (last_slash s) as [[]|]; [done|].
  case_decide; [done|]. intros _. by rewrite IH.
Qed.

Lemma last_slash_after s p a : last_slash s = Some (p, a) → last_slash a = None.
Proof.
  revert p. induction s as [|c s IH]; intros p; cbn; [done|]. destruct (last_slash s) as [[p' a']|] eqn:Hs.
  - intros [= <- <-]. by eapply IH.
  - case_decide; [|done]. by intros [= _ <-].
Qed.

Lemma no_slash_last a : last_slash (no_slash a) = None.
Proof.
  induction a as [|c a IH]; cbn; [done|]. case_decide; cbn; [done|]. rewrite IH. by rewrite decide_False.
Qed.

Lemma last_slash_app p a : last_slash a = None → last_slash (p +:+ "/" +:+ a) = Some (p, a).
Proof.
  intros Ha. change ("/" +:+ a) with (String "/" a). induction p as [|c p IH].
  - change (last_slash (String "/" a) = Some ("", a)). cbn [last_slash]. by rewrite Ha.
  - change (last_slash (String c (p +:+ String "/" a)) = Some (String c p, a)). cbn [last_slash]. by rewrite IH.
Qed.

Definition parent (s : string) : option string :=
  match last_slash s with
  | Some (String c p, a) => Some (String c p)
  | _ => None
  end.

Definition actor (s : string) : string :=
  match last_slash s with Some (_, a) => a | None => "" end.

Fixpoint parse_pos (s : string) : option positive :=
  match s with
  | EmptyString => None
  | String c EmptyString => if decide (c = "1"%char) then Some xH else None
  | String c s =>
      p ← parse_pos s;
      if decide (c = "0"%char) then Some (xO p)
      else if decide (c = "1"%char) then Some (xI p) else None
  end.

Lemma parse_digits p : parse_pos (demo_digits p) = Some p.
Proof.
  induction p as [p IH|p IH|]; cbn [demo_digits parse_pos]; [| |done];
    destruct (demo_digits p) eqn:Hd; [by destruct p| |by destruct p|]; rewrite IH; done.
Qed.

Definition print_z (z : Z) : string :=
  match z with
  | Z0 => "z"
  | Zpos p => demo_digits p
  | Zneg p => String "-" (demo_digits p)
  end.

Definition parse_z (s : string) : option Z :=
  match s with
  | EmptyString => None
  | String c rest =>
      if decide (c = "z"%char) then Some 0%Z
      else if decide (c = "-"%char) then Zneg <$> parse_pos rest
      else Zpos <$> parse_pos s
  end.

Lemma parse_print_z z : parse_z (print_z z) = Some z.
Proof.
  destruct z as [|p|p]; [done| |cbn; by rewrite parse_digits].
  assert (Hp := parse_digits p). unfold parse_z, print_z.
  destruct p; cbn [demo_digits] in *; rewrite ?Hp; done.
Qed.

Definition resolver_types : ResolverTypes := {|
  SubnetID := string;
  subnet_to_string := λ s, s;
  PeerId := N;
  Cid := string;
  cid_bytes_len := λ _, 36%Z;
|}.
#[local] Existing Instance resolver_types.

Definition agent_types : AgentTypes := {|
  Address := string;
  address_from_str := Some;
  address_to_string := λ a, a;
  subnet_parent := parent;
  subnet_actor := actor;
  subnet_from_str := Some;
  cid_from_str := λ s, match s with String c s => if decide (c = "b"%char) then Some s else None | _ => None end;
  cid_to_string := λ c, String "b" c;
  cid_to_bytes := λ c, String.list_byte_of_string c;
  subnet_new_from_parent := λ p a, p +:+ "/" +:+ no_slash a;
  bigint_from_str := parse_z;
  bigint_to_string := print_z;
  method_num := λ m, 0%Z;
  Status := string;
  de_status := de_string;
  TCid := string;
  tcid_from := λ c, c;
  tcid_default := "";
  IPCAddress := string;
|}.
#[local] Existing Instance agent_types.

(** Literals of the abstract types. *)
Definition subnet (s : string) : @SubnetID resolver_types := s.
Definition cid (s : string) : @Cid resolver_types := s.
Definition addr (s : string) : @Address resolver_types agent_types := s.

#[export] Instance agent_types_laws : AgentTypesLaws.
Proof.
  split; try done; [apply parse_print_z|]. intros s p. cbn. unfold parent, actor.
  destruct (last_slash s) as [[[|c p'] a]|] eqn:Hs; try done.
  intros [= <-]. rewrite (last_slash_none a) by (by eapply last_slash_after). by apply last_slash_join.
Qed.

Definition serde_json : SerdeJson := {|
  json_from_str := λ s, Ok (JStr s);
  raw_value := λ j, match j with
    | JStr s => String "034" (s +:+ String "034" EmptyString)
    | _ => "null"
    end;
|}.
#[local] Existing Instance serde_json.

#[export] Instance serde_json_laws : SerdeJsonLaws.
Proof. by split. Qed.

Lemma subnet_json_roundtrip_witness :
  deserialize_subnet_id_from_map
    (JObj [("Parent", JStr "/root"); ("Actor", JStr "t01"); ("Other", JNull)]) =
  Ok (subnet "/root/t01").
Proof.
  destruct (subnet_json_roundtrip (subnet "/root/t01") (subnet "/root") [("Other", JNull)])
    as (p & a & Hj & Hd & _); [done..|by repeat constructor|].
  cbn in Hj. by injection Hj as <- <-.
Defined.
End Demo.
