(* ===== verification/Wrappers.v ===== *)
(** * Checkpoints in JSON

    The [Deserialize] instances of the wrappers of [src/lotus/message/ipc.rs] and
    [deserialize_ipc_address_from_map] of [deserialize.rs]: with the conversions of
    [Lotus.v], the way from the JSON of a node to a checkpoint. *)
From S2P Require Import Prelude Types Records Outcome Json Lotus.

(** ** Types of other crates *)

Class WrapperTypes `{AgentTypes} := {
  (** [IPCAddress::new]. *)
  ipc_address_new : SubnetID → Address → result string IPCAddress;
  (** The decoders of [serde_bytes], of [RawBytes] and of [TokenAmount]. *)
  de_serde_bytes : decoder bytes;
  de_raw_bytes : decoder bytes;
  de_token_amount : decoder TokenAmount;
}.

(** The JSON forms they accept, and the parts of an address. *)
Class WrapperLaws `{WrapperTypes} := {
  ipc_subnet : IPCAddress → SubnetID;
  ipc_raw : IPCAddress → Address;
  ipc_address_parts : ∀ a, ipc_address_new (ipc_subnet a) (ipc_raw a) = Ok a;
  bytes_json : bytes → Json;
  bytes_json_null : ∀ b, bytes_json b ≠ JNull;
  de_serde_bytes_json : ∀ b, de_serde_bytes (bytes_json b) = Ok b;
  raw_json : bytes → Json;
  de_raw_bytes_json : ∀ b, de_raw_bytes (raw_json b) = Ok b;
  amount_json : TokenAmount → Json;
  de_token_amount_json : ∀ v, de_token_amount (amount_json v) = Ok v;
}.

Section wrappers.
Context `{!ResolverTypes} `{!AgentTypes} `{!SerdeJson} `{!WrapperTypes}.

(** ** The decoders *)

Definition deserialize_ipc_address_from_map : decoder IPCAddress := λ j,
  fs ← de_struct ["SubnetId"; "RawAddress"] j;
  match fs with
  | [id; raw] =>
      id ← required deserialize_subnet_id_from_map id;
      raw ← required deserialize_address_from_str raw;
      ipc_address_new id raw
  | _ => Err "invalid length"
  end.

Definition de_storable_msg : decoder StorableMsgsWrapper := λ j,
  fs ← de_struct ["From"; "To"; "Method"; "Params"; "Value"; "Nonce"] j;
  match fs with
  | [from; to; method; params; value; nonce] =>
      from ← required deserialize_ipc_address_from_map from;
      to ← required deserialize_ipc_address_from_map to;
      method ← required de_u64 method;
      params ← required de_raw_bytes params;
      value ← required de_token_amount value;
      nonce ← required de_u64 nonce;
      Ok (mkStorableMsgsWrapper from to method params value nonce)
  | _ => Err "invalid length"
  end.

Definition de_cross_msg : decoder CrossMsgsWrapper := λ j,
  fs ← de_struct ["Msg"; "Wrapped"] j;
  match fs with
  | [msg; wrapped] =>
      msg ← required de_storable_msg msg;
      wrapped ← required de_bool wrapped;
      Ok (mkCrossMsgsWrapper msg wrapped)
  | _ => Err "invalid length"
  end.

Definition de_batch : decoder BatchCrossMsgsWrapper := λ j,
  fs ← de_struct ["CrossMsgs"; "Fee"] j;
  match fs with
  | [msgs; fee] =>
      msgs ← optional (de_vec de_cross_msg) msgs;
      fee ← required deserialize_token_amount_from_str fee;
      Ok (mkBatchWrapper msgs fee)
  | _ => Err "invalid length"
  end.

Definition de_child : decoder ChildWrapper := λ j,
  fs ← de_struct ["Source"; "Checks"] j;
  match fs with
  | [source; checks] =>
      source ← required deserialize_subnet_id_from_map source;
      checks ← required (de_vec de_cid_map) checks;
      Ok (mkChildWrapper source checks)
  | _ => Err "invalid length"
  end.

(** An [Option] field with a decoder of its own must be present. *)
Definition de_check_data : decoder CheckDataWrapper := λ j,
  fs ← de_struct ["Source"; "Proof"; "Epoch"; "PrevCheck"; "Children"; "CrossMsgs"] j;
  match fs with
  | [source; proof; epoch; prev_check; children; cross_msgs] =>
      source ← required deserialize_subnet_id_from_map source;
      proof ← required (de_option de_serde_bytes) proof;
      epoch ← required de_i64 epoch;
      prev_check ← optional de_cid_map prev_check;
      children ← optional (de_vec de_child) children;
      cross_msgs ← optional de_batch cross_msgs;
      Ok (mkCheckDataWrapper source proof epoch prev_check children cross_msgs)
  | _ => Err "invalid length"
  end.

Definition de_checkpoint : decoder BottomUpCheckpointWrapper := λ j,
  fs ← de_struct ["Data"; "Sig"] j;
  match fs with
  | [data; sig] =>
      data ← required de_check_data data;
      sig ← required (de_option de_serde_bytes) sig;
      Ok (mkBottomUpWrapper data sig)
  | _ => Err "invalid length"
  end.

(** From the JSON of a node to the checkpoint. *)
Definition checkpoint_from_json (j : Json) : outcome BottomUpCheckpoint :=
  w ← of_result (de_checkpoint j); checkpoint_try_from w.

(** ** The JSON of a node *)

Context `{!AgentTypesLaws} `{!SerdeJsonLaws} `{!WrapperLaws}.

(** How the node writes a subnet: the [Parent] and [Actor] of its map form. *)
Context (parts : SubnetID → SubnetID * Address).

(** The subnets that have this form: [new_from_parent] makes them of their parts, whose
    printed forms need no escapes. *)
Definition sendable (s : SubnetID) : Prop :=
  subnet_new_from_parent (parts s).1 (parts s).2 = s ∧
  is_plain (subnet_to_string (parts s).1) = true ∧ is_plain (address_to_string (parts s).2) = true.

Definition node_subnet (s : SubnetID) : Json :=
  JObj [("Parent", JStr (subnet_to_string (parts s).1)); ("Actor", JStr (address_to_string (parts s).2))].

Definition node_address (a : IPCAddress) : Json :=
  JObj [("SubnetId", node_subnet (ipc_subnet a)); ("RawAddress", JStr (address_to_string (ipc_raw a)))].

Definition node_msg (c : CrossMsg) : Json :=
  let m := cross_msg c in
  JObj [("Msg", JObj [("From", node_address (sm_from m)); ("To", node_address (sm_to m));
          ("Method", JNum (sm_method m)); ("Params", raw_json (sm_params m));
          ("Value", amount_json (sm_value m)); ("Nonce", JNum (sm_nonce m))]);
        ("Wrapped", JBool (cross_wrapped c))].

Definition node_batch (b : BatchCrossMsgs) : Json :=
  JObj [("CrossMsgs", match batch_cross_msgs b with Some l => JArr (node_msg <$> l) | None => JNull end);
        ("Fee", JStr (bigint_to_string (batch_fee b)))].

Definition node_cid (c : Cid) : Json := cid_map_to_json (cid_map_from c).

Definition node_child (c : SubnetID * list Cid) : Json :=
  JObj [("Source", node_subnet c.1); ("Checks", JArr (node_cid <$> c.2))].

(** The fields of the data that must be there, and those that may be absent. *)
Definition node_required (source : SubnetID) (proof : bytes) (epoch : ChainEpoch) : list (string * Json) :=
  [("Source", node_subnet source); ("Proof", bytes_json proof); ("Epoch", JNum epoch)].

Definition node_optional (prev : option Cid) (children : list (SubnetID * list Cid)) (b : BatchCrossMsgs) :
    list (string * Json) :=
  [("PrevCheck", from_option node_cid JNull prev); ("Children", JArr (node_child <$> children));
   ("CrossMsgs", node_batch b)].

Definition node_checkpoint (data : list (string * Json)) (sig : bytes) : Json :=
  JObj [("Data", JObj data); ("Sig", bytes_json sig)].

Definition without (k : string) : list (string * Json) → list (string * Json) :=
  List.filter (λ f, negb (String.eqb f.1 k)).

Definition msg_sendable (c : CrossMsg) : Prop :=
  sendable (ipc_subnet (sm_from (cross_msg c))) ∧ sendable (ipc_subnet (sm_to (cross_msg c))) ∧
  in_u64 (sm_method (cross_msg c)) ∧ in_u64 (sm_nonce (cross_msg c)).

(** ** Decoding it *)

#[local] Arguments deserialize_ipc_address_from_map : simpl never.
#[local] Arguments deserialize_subnet_id_from_map : simpl never.
#[local] Arguments deserialize_token_amount_from_str : simpl never.
#[local] Arguments de_storable_msg : simpl never.
#[local] Arguments de_cross_msg : simpl never.
#[local] Arguments de_batch : simpl never.
#[local] Arguments de_child : simpl never.
#[local] Arguments de_cid_map : simpl never.
#[local] Arguments de_check_data : simpl never.
#[local] Arguments de_vec : simpl never.
#[local] Arguments de_int : simpl never.
#[local] Arguments node_address : simpl never.
#[local] Arguments node_subnet : simpl never.
#[local] Arguments node_cid : simpl never.

Lemma node_subnet_decoded s : sendable s → deserialize_subnet_id_from_map (node_subnet s) = Ok s.
Proof.
  intros (Hs & Hp & Ha). unfold deserialize_subnet_id_from_map, node_subnet.
  rewrite visit_parent, visit_actor by done. cbn. by rewrite Hs.
Qed.

(** All the ids that the decoder accepts are made in this way. *)
Lemma decoded_from_parts j s :
  deserialize_subnet_id_from_map j = Ok s → ∃ p a, s = subnet_new_from_parent p a.
Proof.
  unfold deserialize_subnet_id_from_map. destruct j as [| | | | | |fields]; try done.
  destruct (visit_subnet_id fields None None) as [[[p|] [a|]]|]; cbn; try done. intros [= <-]. by exists p, a.
Qed.

Lemma node_address_decoded a :
  sendable (ipc_subnet a) → deserialize_ipc_address_from_map (node_address a) = Ok a.
Proof.
  intros Ha. unfold deserialize_ipc_address_from_map, node_address. cbn.
  rewrite node_subnet_decoded by done. cbn. unfold deserialize_address_from_str. cbn.
  rewrite address_str_roundtrip. cbn. apply ipc_address_parts.
Qed.

Lemma node_msg_decoded c : msg_sendable c → de_cross_msg (node_msg c) = Ok (wrap_msg c).
Proof.
  intros (Hf & Ht & Hm & Hn). destruct c as [[from to method params value nonce] wrapped].
  unfold de_cross_msg, node_msg. cbn. unfold de_storable_msg. cbn in *.
  rewrite !node_address_decoded by done. cbn. unfold de_u64. rewrite !de_int_in by done. cbn.
  by rewrite de_raw_bytes_json; cbn; rewrite de_token_amount_json.
Qed.

Lemma de_vec_decoded {A B} (d : decoder B) (f : A → Json) (g : A → B) l :
  Forall (λ x, d (f x) = Ok (g x)) l → de_vec d (JArr (f <$> l)) = Ok (g <$> l).
Proof. unfold de_vec. induction 1 as [|x l Hx _ IH]; cbn; [done|]. rewrite Hx. cbn. by rewrite IH. Qed.

Lemma node_batch_decoded b :
  Forall msg_sendable (default [] (batch_cross_msgs b)) → de_batch (node_batch b) = Ok (wrap_batch b).
Proof.
  destruct b as [[l|] fee]; intros Hl; unfold de_batch, node_batch; cbn in *;
    [|unfold deserialize_token_amount_from_str; cbn; by rewrite bigint_str_roundtrip].
  rewrite (de_vec_decoded de_cross_msg node_msg wrap_msg l); 
    [unfold deserialize_token_amount_from_str; cbn; by rewrite bigint_str_roundtrip|].
  eapply Forall_impl; [done|]. apply node_msg_decoded.
Qed.

Lemma node_cid_decoded c : de_cid_map (node_cid c) = Ok (cid_map_from c).
Proof. done. Qed.

Lemma node_child_decoded c :
  sendable c.1 → de_child (node_child c) = Ok (mkChildWrapper c.1 (cid_map_from <$> c.2)).
Proof.
  intros Hc. destruct c as [s cids]. unfold de_child, node_child. cbn in *.
  rewrite node_subnet_decoded by done. cbn.
  rewrite (de_vec_decoded de_cid_map node_cid cid_map_from cids); [done|]. by apply Forall_true.
Qed.

Lemma de_option_json {A} (d : decoder A) j a : j ≠ JNull → d j = Ok a → de_option d j = Ok (Some a).
Proof. intros Hj Ha. unfold de_option. rewrite Ha. by destruct j. Qed.

Lemma bytes_decoded b : de_option de_serde_bytes (bytes_json b) = Ok (Some b).
Proof. apply de_option_json; [apply bytes_json_null|apply de_serde_bytes_json]. Qed.

#[local] Arguments de_option : simpl never.

Section checkpoint.
Variables (source : SubnetID) (proof : bytes) (epoch : ChainEpoch) (sig : bytes).
Hypothesis source_sendable : sendable source.
Hypothesis epoch_in : in_i64 epoch.

Lemma required_decoded fields :
  existsb (λ n, json_repeats n (node_required source proof epoch ++ fields))
    ["Source"; "Proof"; "Epoch"; "PrevCheck"; "Children"; "CrossMsgs"] = false →
  de_check_data (JObj (node_required source proof epoch ++ fields)) =
    (prev_check ← optional de_cid_map (json_get "PrevCheck" fields);
     children ← optional (de_vec de_child) (json_get "Children" fields);
     cross_msgs ← optional de_batch (json_get "CrossMsgs" fields);
     Ok (mkCheckDataWrapper source (Some proof) epoch prev_check children cross_msgs)).
Proof.
  intros Hd. unfold de_check_data, de_struct. rewrite Hd. cbn. rewrite node_subnet_decoded by done. cbn.
  rewrite bytes_decoded. cbn. unfold de_i64. by rewrite de_int_in.
Qed.

(** The signature is read last. *)
Lemma checkpoint_decoded data d :
  de_check_data (JObj data) = Ok d → de_checkpoint (node_checkpoint data sig) = Ok (mkBottomUpWrapper d (Some sig)).
Proof. intros Hd. unfold de_checkpoint, node_checkpoint. cbn. rewrite Hd. cbn. by rewrite bytes_decoded. Qed.

Lemma check_data_decoded prev children b :
  Forall (λ c, sendable c.1) children → Forall msg_sendable (default [] (batch_cross_msgs b)) →
  de_checkpoint (node_checkpoint (node_required source proof epoch ++ node_optional prev children b) sig) =
    Ok (wrap_checkpoint source proof epoch prev children b sig).
Proof.
  intros Hc Hb. apply checkpoint_decoded. rewrite required_decoded by done. cbn.
  assert (de_option de_cid_map (from_option node_cid JNull prev) = Ok (cid_map_from <$> prev)) as ->
    by (by destruct prev).
  cbn. rewrite (de_option_json _ (JArr (node_child <$> children))
    ((λ c, mkChildWrapper c.1 (cid_map_from <$> c.2)) <$> children)); [|done|].
  - cbn. by rewrite (de_option_json _ (node_batch b) (wrap_batch b)); [|done|apply node_batch_decoded].
  - apply de_vec_decoded. eapply Forall_impl; [done|]. apply node_child_decoded.
Qed.

Lemma missing_required k prev children b :
  k ∈ ["Source"; "Proof"; "Epoch"] →
  de_checkpoint (node_checkpoint (without k (node_required source proof epoch) ++ node_optional prev children b) sig) =
    Err "missing field".
Proof.
  intros Hk. unfold de_checkpoint, node_checkpoint, node_required. cbn. unfold de_check_data.
  repeat (apply elem_of_cons in Hk as [-> | Hk]); [..|by apply elem_of_nil in Hk];
    cbn; rewrite ?node_subnet_decoded by done; cbn; rewrite ?bytes_decoded; done.
Qed.

Lemma hole_decoded children s :
  Forall (λ c, sendable c.1) children → sendable s →
  de_option (de_vec de_child)
    (JArr ((node_child <$> children) ++ [JObj [("Source", node_subnet s); ("Checks", JArr [JObj []])]])) =
  Ok (Some (((λ c, mkChildWrapper c.1 (cid_map_from <$> c.2)) <$> children) ++
            [mkChildWrapper s [mkCIDMap None]])).
Proof.
  intros Hc Hs. apply de_option_json; [done|]. unfold de_vec.
  induction Hc as [|c l Hc _ IH]; cbn.
  - unfold de_child. cbn. by rewrite node_subnet_decoded.
  - rewrite node_child_decoded by done. cbn. by rewrite IH.
Qed.

(** C37 (checkpoints from the JSON of a node): a bottom-up checkpoint whose subnets the
    node can write as a parent and an actor, in printed forms that need no escapes, and
    whose epoch, methods and nonces are in their integer ranges, is read from its JSON
    as exactly this checkpoint, with its children, messages, addresses, amounts and
    previous checkpoint.  Without the optional parts it is read with the defaults;
    without the source, the proof or the epoch it is refused; and a previous
    checkpoint or a check of a child without a CID is an error, never a hole.  No
    other subnets can be read: every id that the decoder accepts is made by
    [new_from_parent], so a message from or to the root is read only if the node
    writes the root in that way too.  The forms of bytes, amounts and addresses are
    those that the decoders of their crates accept. *)
Theorem checkpoint_json_roundtrip prev children b s :
  Forall (λ c, sendable c.1) children → Forall msg_sendable (default [] (batch_cross_msgs b)) → sendable s →
  let required := node_required source proof epoch in
  checkpoint_from_json (node_checkpoint (required ++ node_optional prev children b) sig) =
    Done (mkBottomUp (mkCheckData source proof epoch (from_option tcid_from tcid_default prev)
      ((λ c, mkChildCheck c.1 (tcid_from <$> c.2)) <$> children) b) sig) ∧
  checkpoint_from_json (node_checkpoint required sig) =
    Done (mkBottomUp (mkCheckData source proof epoch tcid_default [] batch_default) sig) ∧
  (∀ k, k ∈ ["Source"; "Proof"; "Epoch"] →
   checkpoint_from_json (node_checkpoint (without k required ++ node_optional prev children b) sig) =
     Fail "missing field") ∧
  checkpoint_from_json (node_checkpoint (required ++ [("PrevCheck", JObj [])]) sig) = Fail "cid not found" ∧
  (let hole := JObj [("Source", node_subnet s); ("Checks", JArr [JObj []])] in
   ∀ cp, checkpoint_from_json
     (node_checkpoint (required ++ [("Children", JArr ((node_child <$> children) ++ [hole]))]) sig) ≠ Done cp) ∧
  (∀ j s, deserialize_subnet_id_from_map j = Ok s → ∃ p a, s = subnet_new_from_parent p a).
Proof.
  intros Hc Hb Hs required. unfold checkpoint_from_json. split_and!.
  - rewrite check_data_decoded by done. cbn. apply checkpoint_wrapper_roundtrip.
  - unfold required. rewrite <-(app_nil_r (node_required _ _ _)).
    by erewrite checkpoint_decoded by (rewrite required_decoded; reflexivity).
  - intros k Hk. unfold required. by rewrite missing_required.
  - unfold required. by erewrite checkpoint_decoded by (rewrite required_decoded; reflexivity).
  - intros cp. erewrite checkpoint_decoded.
    2: { unfold required. rewrite required_decoded by done. cbn. rewrite hole_decoded by done. cbn. reflexivity. }
    cbn [of_result mbind]. eapply (checkpoint_child_hole _ _ _ (mkChildWrapper s [mkCIDMap None]) (mkCIDMap None));
      [done| |apply list_elem_of_here|done].
    apply elem_of_app. right. apply list_elem_of_here.
  - apply decoded_from_parts.
Qed.
End checkpoint.
End wrappers.

(** ** An instance *)
Module WrappersDemo.
#[local] Existing Instances Demo.resolver_types Demo.agent_types Demo.agent_types_laws Demo.serde_json
  Demo.serde_json_laws.

(** An address is the subnet without its first character, a slash and the actor. *)
Definition address_subnet (a : string) : string :=
  match Demo.last_slash a with Some (p, _) => String "/" p | None => EmptyString end.

Definition address_raw (a : string) : string :=
  match Demo.last_slash a with Some (_, r) => r | None => a end.

Definition address_new (s r : string) : string :=
  match s with EmptyString => r | String _ p => p +:+ "/" +:+ r end.

Definition de_string_bytes : decoder bytes := λ j, String.list_byte_of_string <$> de_string j.

#[export] Instance wrapper_types : WrapperTypes := {|
  ipc_address_new := λ s a, Ok (address_new s a : @IPCAddress _ Demo.agent_types);
  de_serde_bytes := de_string_bytes;
  de_raw_bytes := de_string_bytes;
  de_token_amount := deserialize_token_amount_from_str;
|}.

Lemma bytes_roundtrip b : de_string_bytes (JStr (String.string_of_list_byte b)) = Ok b.
Proof. unfold de_string_bytes. cbn. by rewrite String.list_byte_of_string_of_list_byte. Qed.

Lemma address_roundtrip a : address_new (address_subnet a) (address_raw a) = a.
Proof.
  unfold address_subnet, address_raw. destruct (Demo.last_slash a) as [[p r]|] eqn:Ha; [|done].
  by apply Demo.last_slash_join.
Qed.

#[export] Instance wrapper_laws : WrapperLaws.
Proof.
  refine {| ipc_subnet := λ a, address_subnet a : @SubnetID Demo.resolver_types;
            ipc_raw := λ a, address_raw a : @Address _ Demo.agent_types;
            bytes_json := λ b, JStr (String.string_of_list_byte b);
            raw_json := λ b, JStr (String.string_of_list_byte b);
            amount_json := λ v, JStr (Demo.print_z v) |}; try done.
  - intros a. cbn. by rewrite address_roundtrip.
  - apply bytes_roundtrip.
  - apply bytes_roundtrip.
  - intros v. unfold de_token_amount, wrapper_types, deserialize_token_amount_from_str. cbn.
    by rewrite Demo.parse_print_z.
Defined.

Definition msg : CrossMsg :=
  mkCrossMsg (mkStorableMsg ("root/t01/t1a" : @IPCAddress _ Demo.agent_types) "root/t02/t1b" 0%Z [] 5%Z 1%Z) false.

Definition batch : BatchCrossMsgs := mkBatchCrossMsgs (Some [msg]) 2%Z.

Definition map_form (s : @SubnetID Demo.resolver_types) : @SubnetID Demo.resolver_types * @Address _ Demo.agent_types :=
  (default s (subnet_parent s), subnet_actor s).

Lemma sendable_child : sendable map_form (Demo.subnet "/root/t01").
Proof. done. Qed.

Lemma checkpoint_json_roundtrip_witness :
  checkpoint_from_json (node_checkpoint
    (node_required map_form (Demo.subnet "/root/t01") [] 10%Z ++
     node_optional map_form (Some (Demo.cid "prev")) [(Demo.subnet "/root/t01", [Demo.cid "c"])] batch) []) =
  Done (mkBottomUp (mkCheckData (Demo.subnet "/root/t01") [] 10%Z "prev"
    [mkChildCheck (Demo.subnet "/root/t01") ["c"]] batch) []).
Proof.
  refine (proj1 (checkpoint_json_roundtrip map_form (Demo.subnet "/root/t01") [] 10%Z [] sendable_child ltac:(done)
    (Some (Demo.cid "prev")) [(Demo.subnet "/root/t01", [Demo.cid "c"])] batch (Demo.subnet "/root/t01")
    _ _ _)).
  - by repeat constructor.
  - apply Forall_singleton. by split_and!.
  - apply sendable_child.
Defined.
End WrappersDemo.
