(* ===== verification/LotusApi.v ===== *)
(** * The trait [LotusClient] and recorded calls

    [src/lotus/mod.rs] and [src/config/subnet.rs].  [LotusClient W] is the
    trait as a class over a world [W]: every operation takes the client (the
    node's URL and token) and acts on the world.  The managers are written
    against it, and each call they make is an [Event] of their trace, so their
    theorems hold for any nodes.  [LotusJsonRPCClient] of [RpcClient.v] is
    the instance that the agent uses. *)
From S2P Require Import Prelude Types Records Outcome Json Lotus.

(** [Subnet] of the configuration. *)
Record Subnet `{AgentTypes} := mkSubnet {
  subnet_id : SubnetID;
  gateway_addr : Address;
  network_name : string;
  jsonrpc_api_http : string;
  jsonrpc_api_ws : option string;
  auth_token : option string;
  accounts : list Address;
}.
Arguments mkSubnet {_ _} _ _ _ _ _ _ _.

(** [LotusJsonRPCClient::from_subnet]. *)
Definition from_subnet `{AgentTypes} (s : Subnet) : Client :=
  mkClient (jsonrpc_api_http s) (auth_token s).

Definition GATEWAY_ACTOR_ADDRESS : string := "t064".

Class LotusClient (W : Type) `{AgentTypes} := {
  lc_mpool_push_message : Client → MpoolPushMessage → act W MpoolPushMessageResponseInner;
  lc_state_wait_msg : Client → Cid → act W StateWaitMsgResponse;
  lc_state_network_name : Client → act W string;
  lc_state_network_version : Client → list Cid → act W Z;
  lc_state_actor_code_cids : Client → Z → act W (gmap string Cid);
  lc_wallet_default : Client → act W Address;
  lc_wallet_list : Client → act W (list string);
  lc_wallet_new : Client → WalletKeyType → act W string;
  lc_wallet_balance : Client → Address → act W TokenAmount;
  lc_read_state {State} : decoder State → Client → Address → Cid → act W (ReadStateResponse State);
  lc_chain_head : Client → act W ChainHeadResponse;
  lc_get_tipset_by_height : Client → ChainEpoch → Cid → act W ChainHeadResponse;
  lc_get_prev_checkpoint_for_child : Client → SubnetID → act W (option CIDMap);
  lc_get_checkpoint_template : Client → ChainEpoch → act W BottomUpCheckpoint;
  lc_get_checkpoint : Client → SubnetID → ChainEpoch → act W BottomUpCheckpoint;
  lc_read_gateway_state : Client → Cid → act W GatewayState;
  lc_read_subnet_actor_state : Client → SubnetID → Cid → act W SubnetActorState;
  lc_list_child_subnets : Client → Address → act W (list SubnetInfo);
  lc_validator_has_voted_bottomup : Client → SubnetID → ChainEpoch → Address → act W bool;
  lc_validator_has_voted_topdown : Client → Address → ChainEpoch → Address → act W bool;
  lc_get_topdown_msgs : Client → SubnetID → Address → Cid → Z → act W (list CrossMsg);
  lc_get_genesis_epoch_for_subnet : Client → SubnetID → Address → act W ChainEpoch;
  lc_list_checkpoints : Client → SubnetID → ChainEpoch → ChainEpoch → act W (list BottomUpCheckpoint);
}.

(** [tokio]'s [select!] between [sleep(timeout)] and [stop_notify.notified()]:
    true if the sleep ended first. *)
Class Notify (W : Type) := { sleep_or_notified : Z → W → bool * W }.

(** ** Events *)

Inductive Event `{AgentTypes} :=
  | EvPush (c : Client) (m : MpoolPushMessage) (r : outcome MpoolPushMessageResponseInner)
  | EvWaitMsg (c : Client) (cid : Cid) (r : outcome StateWaitMsgResponse)
  | EvNetworkName (c : Client) (r : outcome string)
  | EvNetworkVersion (c : Client) (tip_sets : list Cid) (r : outcome Z)
  | EvActorCodes (c : Client) (version : Z) (r : outcome (gmap string Cid))
  | EvWalletList (c : Client) (r : outcome (list string))
  | EvWalletNew (c : Client) (k : WalletKeyType) (r : outcome string)
  | EvWalletBalance (c : Client) (a : Address) (r : outcome TokenAmount)
  | EvHead (c : Client) (r : outcome ChainHeadResponse)
  | EvTipset (c : Client) (epoch : ChainEpoch) (tip_set : Cid) (r : outcome ChainHeadResponse)
  | EvPrev (c : Client) (s : SubnetID) (r : outcome (option CIDMap))
  | EvTemplate (c : Client) (epoch : ChainEpoch) (r : outcome BottomUpCheckpoint)
  | EvGateway (c : Client) (tip_set : Cid) (r : outcome GatewayState)
  | EvSubnetActor (c : Client) (s : SubnetID) (tip_set : Cid) (r : outcome SubnetActorState)
  | EvListChildren (c : Client) (gateway : Address) (r : outcome (list SubnetInfo))
  | EvTopdown (c : Client) (s : SubnetID) (gateway : Address) (tip_set : Cid) (nonce : Z)
      (r : outcome (list CrossMsg))
  | EvGenesis (c : Client) (s : SubnetID) (gateway : Address) (r : outcome ChainEpoch)
  | EvListCheckpoints (c : Client) (s : SubnetID) (from to : ChainEpoch)
      (r : outcome (list BottomUpCheckpoint))
  | EvSleep (secs : Z) (r : outcome bool).

Definition is_push `{AgentTypes} (e : Event) : bool :=
  match e with EvPush _ _ _ => true | _ => false end.

Section api.
Context {W : Type} `{!ResolverTypes} `{!AgentTypes} `{!LotusClient W} `{!Notify W}.

Notation io := (io W Event).

Definition mpool_push_message c m : io _ := call (EvPush c m) (lc_mpool_push_message c m).
Definition state_wait_msg c cid : io _ := call (EvWaitMsg c cid) (lc_state_wait_msg c cid).
Definition state_network_name c : io _ := call (EvNetworkName c) (lc_state_network_name c).
Definition state_network_version c ts : io _ :=
  call (EvNetworkVersion c ts) (lc_state_network_version c ts).
Definition state_actor_code_cids c v : io _ :=
  call (EvActorCodes c v) (lc_state_actor_code_cids c v).
Definition wallet_list c : io _ := call (EvWalletList c) (lc_wallet_list c).
Definition wallet_new c k : io _ := call (EvWalletNew c k) (lc_wallet_new c k).
Definition wallet_balance c a : io _ := call (EvWalletBalance c a) (lc_wallet_balance c a).
Definition chain_head c : io _ := call (EvHead c) (lc_chain_head c).
Definition get_tipset_by_height c e t : io _ :=
  call (EvTipset c e t) (lc_get_tipset_by_height c e t).
Definition ipc_get_prev_checkpoint_for_child c s : io _ :=
  call (EvPrev c s) (lc_get_prev_checkpoint_for_child c s).
Definition ipc_get_checkpoint_template c e : io _ :=
  call (EvTemplate c e) (lc_get_checkpoint_template c e).
Definition ipc_read_gateway_state c t : io _ :=
  call (EvGateway c t) (lc_read_gateway_state c t).
Definition ipc_read_subnet_actor_state c s t : io _ :=
  call (EvSubnetActor c s t) (lc_read_subnet_actor_state c s t).
Definition ipc_list_child_subnets c g : io _ :=
  call (EvListChildren c g) (lc_list_child_subnets c g).
Definition ipc_get_topdown_msgs c s g t n : io _ :=
  call (EvTopdown c s g t n) (lc_get_topdown_msgs c s g t n).
Definition ipc_get_genesis_epoch_for_subnet c s g : io _ :=
  call (EvGenesis c s g) (lc_get_genesis_epoch_for_subnet c s g).
Definition ipc_list_checkpoints c s f t : io _ :=
  call (EvListCheckpoints c s f t) (lc_list_checkpoints c s f t).

(** [wait_next_iteration]. *)
Definition wait_next_iteration (timeout : Z) : io bool :=
  call (EvSleep timeout)
    (λ w, let '(b, w) := sleep_or_notified timeout w in (Done b, w)).
End api.

(** ** A pair of simulated nodes

    A world that executes every submitted checkpoint at once, with a period of
    10 epochs and both chains at height 25; the first wait is ended by the stop
    notification. *)
Module DemoNode.
#[local] Existing Instances Demo.resolver_types Demo.agent_types.

Record node := mkNode { executed_bottomup : Z; executed_topdown : Z }.

Definition answer {A} (a : A) : act node A := λ w, (Done a, w).

Definition response : MpoolPushMessageResponseInner :=
  mkPushResponseInner "t064" "t1a" "0" 2 "" 0 0 "0" "0" 0 (mkCIDMap (Some "bmessage")).

Definition push (c : Client) (m : MpoolPushMessage) : act node MpoolPushMessageResponseInner := λ w,
  (Done response,
   match msg_method m with
   | SubnetSubmitCheckpoint => mkNode (executed_bottomup w + 10) (executed_topdown w)
   | GatewaySubmitTopDownCheckpoint => mkNode (executed_bottomup w) (executed_topdown w + 10)
   | _ => w
   end).

Definition tip : CIDMap := mkCIDMap (Some "btip").
Definition chain : ChainHeadResponse := mkChainHead [tip] [] 25.
Definition receipt : Receipt := mkReceipt 0 None 0.

Definition template (epoch : Z) : BottomUpCheckpoint :=
  mkBottomUp (mkCheckData (Demo.subnet "/root/t01") [] epoch (tcid_default) [] batch_default) [].

#[export] Instance checkpoints : Checkpoints := {|
  checkpoint_new := λ id e, mkBottomUp (mkCheckData id [] e tcid_default [] batch_default) [];
  cbor_bottomup := λ _, Ok [];
  cbor_topdown := λ _, Ok [];
|}.

#[export] Instance checkpoints_laws : CheckpointsLaws.
Proof. by split. Qed.

Definition actor_state (w : node) : SubnetActorState :=
  mkSubnetActorState 10%Z
    (mkValidatorSet (Some [mkValidator "t1a" "" "1"; mkValidator "t1b" "" "1"]) 1) 1
    (mkVoting 0 (executed_bottomup w)).

Definition gateway_state (w : node) : GatewayState :=
  mkGatewayState 10%Z 10%Z 7 (mkVoting 0 (executed_topdown w)) true.

#[export] Instance client : LotusClient node := {|
  lc_mpool_push_message := push;
  lc_state_wait_msg := λ _ _, answer (mkStateWait tip receipt [] 0);
  lc_state_network_name := λ _, answer "/root";
  lc_state_network_version := λ _ _, answer 1%Z;
  lc_state_actor_code_cids := λ _ _, answer {["ipc_subnet_actor" := Demo.cid "code"]};
  lc_wallet_default := λ _, answer (Demo.addr "t1a");
  lc_wallet_list := λ _, answer ["t1a"];
  lc_wallet_new := λ _ _, answer "t1c";
  lc_wallet_balance := λ _ _, answer 5%Z;
  lc_read_state := λ _ _ _ _ _ w, (Fail "no state", w);
  lc_chain_head := λ _, answer chain;
  lc_get_tipset_by_height := λ _ _ _, answer chain;
  lc_get_prev_checkpoint_for_child := λ _ _, answer None;
  lc_get_checkpoint_template := λ _ e, answer (template e);
  lc_get_checkpoint := λ _ _ e, answer (template e);
  lc_read_gateway_state := λ _ _ w, (Done (gateway_state w), w);
  lc_read_subnet_actor_state := λ _ _ _ w, (Done (actor_state w), w);
  lc_list_child_subnets := λ _ _, answer [];
  lc_validator_has_voted_bottomup := λ _ _ _ _, answer false;
  lc_validator_has_voted_topdown := λ _ _ _ _, answer false;
  lc_get_topdown_msgs := λ _ _ _ _ _, answer [];
  lc_get_genesis_epoch_for_subnet := λ _ _ _, answer 0%Z;
  lc_list_checkpoints := λ _ _ _ _, answer [];
|}.

#[export] Instance notify : Notify node := {| sleep_or_notified := λ _ w, (false, w) |}.

(** The same world, where waits go on. *)
Definition patient : Notify node := {| sleep_or_notified := λ _ w, (true, w) |}.

Definition child : Subnet :=
  mkSubnet (Demo.subnet "/root/t01") (Demo.addr "t064") "/root/t01" "http://child" None None
    [Demo.addr "t1a"; Demo.addr "t1b"; Demo.addr "t1x"].
Definition parent : Subnet :=
  mkSubnet (Demo.subnet "/root") (Demo.addr "t064") "/root" "http://parent" None None [].

(** The epochs and senders of the pushed messages, the latest first. *)
Definition pushes (t : list Event) : list (string * Method) :=
  omap (λ e, match e with EvPush c m _ => Some (msg_from m : string, msg_method m) | _ => None end) t.
End DemoNode.
