(* ===== verification/RpcClient.v ===== *)
(** * The Lotus client over JSON-RPC

    [src/lotus/client.rs]: every operation of the trait [LotusClient] builds
    the JSON parameters of one method of the node's API, sends them with
    [Json.request] and converts the response.  [LotusJsonRPCClient] is the
    instance of the trait that the agent uses. *)
From S2P Require Import Prelude Types Records Outcome Json Lotus LotusApi.

Module Methods.
Definition MPOOL_PUSH_MESSAGE : string := "Filecoin.MpoolPushMessage".
Definition STATE_WAIT_MSG : string := "Filecoin.StateWaitMsg".
Definition STATE_NETWORK_NAME : string := "Filecoin.StateNetworkName".
Definition STATE_NETWORK_VERSION : string := "Filecoin.StateNetworkVersion".
Definition STATE_ACTOR_CODE_CIDS : string := "Filecoin.StateActorCodeCIDs".
Definition WALLET_NEW : string := "Filecoin.WalletNew".
Definition WALLET_LIST : string := "Filecoin.WalletList".
Definition WALLET_BALANCE : string := "Filecoin.WalletBalance".
Definition WALLET_DEFAULT_ADDRESS : string := "Filecoin.WalletDefaultAddress".
Definition STATE_READ_STATE : string := "Filecoin.StateReadState".
Definition CHAIN_HEAD : string := "Filecoin.ChainHead".
Definition GET_TIPSET_BY_HEIGHT : string := "Filecoin.ChainGetTipSetByHeight".
Definition IPC_GET_PREV_CHECKPOINT_FOR_CHILD : string := "Filecoin.IPCGetPrevCheckpointForChild".
Definition IPC_GET_CHECKPOINT_TEMPLATE : string := "Filecoin.IPCGetCheckpointTemplateSerialized".
Definition IPC_GET_CHECKPOINT : string := "Filecoin.IPCGetCheckpointSerialized".
Definition IPC_READ_GATEWAY_STATE : string := "Filecoin.IPCReadGatewayState".
Definition IPC_READ_SUBNET_ACTOR_STATE : string := "Filecoin.IPCReadSubnetActorState".
Definition IPC_LIST_CHILD_SUBNETS : string := "Filecoin.IPCListChildSubnets".
Definition IPC_VALIDATOR_HAS_VOTED_BOTTOMUP : string := "Filecoin.IPCHasVotedBottomUpCheckpoint".
Definition IPC_VALIDATOR_HAS_VOTED_TOPDOWN : string := "Filecoin.IPCHasVotedTopDownCheckpoint".
Definition IPC_LIST_BOTTOMUP_CHECKPOINTS : string := "Filecoin.IPCListCheckpointsSerialized".
Definition IPC_GET_TOPDOWN_MESSAGES : string := "Filecoin.IPCGetTopDownMsgsSerialized".
Definition IPC_GENESIS_EPOCH_FOR_SUBNET : string := "Filecoin.IPCGetGenesisEpochForSubnet".
End Methods.
Import Methods.

Definition STATE_WAIT_CONFIDENCE : Z := 2.
Definition STATE_WAIT_LOOK_BACK_NO_LIMIT : Z := -1.
Definition STATE_WAIT_ALLOW_REPLACE : bool := true.

(** [base64] and the CBOR decoders of the actors' crates. *)
Class Codecs `{AgentTypes} := {
  base64_decode : string → option bytes;
  cbor_de_checkpoint : bytes → option BottomUpCheckpoint;
  cbor_de_cross_msg : bytes → option CrossMsg;
}.

Section client.
Context {W : Type} `{!ResolverTypes} `{!AgentTypes} `{!SerdeJson} `{!Http W} `{!Codecs}.
Context `{!HashIter string}.

Definition json_bytes (b : bytes) : Json := JArr ((λ x, JNum (Z.of_N (Byte.to_N x))) <$> b).

(** The closure [to_value] of [mpool_push_message]. *)
Definition to_value (t : option TokenAmount) : outcome Json :=
  match t with
  | None => Done JNull
  | Some n =>
      if (0 <=? n)%Z && (n <=? u64_max)%Z then Done (JNum n)
      else Panic "called `Option::unwrap()` on a `None` value"
  end.

Definition push_params (m : MpoolPushMessage) : outcome Json :=
  let nonce := match msg_nonce m with Some n => JNum n | None => JNull end in
  gas_limit ← to_value (msg_gas_limit m);
  gas_premium ← to_value (msg_gas_premium m);
  gas_fee_cap ← to_value (msg_gas_fee_cap m);
  max_fee ← to_value (msg_max_fee m);
  Done (JArr [
    JObj [
      ("to", JStr (address_to_string (msg_to m)));
      ("from", JStr (address_to_string (msg_from m)));
      ("value", JStr (bigint_to_string (msg_value m)));
      ("method", JNum (method_num (msg_method m)));
      ("params", json_bytes (msg_params m));
      ("nonce", nonce);
      ("gas_limit", gas_limit);
      ("gas_fee_cap", gas_fee_cap);
      ("gas_premium", gas_premium);
      ("cid", cid_map_to_json (cid_map_from_option (msg_cid m)));
      ("version", JNull)];
    JObj [("max_fee", max_fee)]]).

Definition rpc_mpool_push_message (c : Client) (m : MpoolPushMessage) : act W MpoolPushMessageResponseInner :=
  params ← lift (push_params m);
  r ← request de_push_response c MPOOL_PUSH_MESSAGE params;
  mret (push_message r).

Definition rpc_state_wait_msg (c : Client) (cid : Cid) : act W StateWaitMsgResponse :=
  request de_state_wait c STATE_WAIT_MSG
    (JArr [cid_map_to_json (cid_map_from cid); JNum STATE_WAIT_CONFIDENCE;
           JNum STATE_WAIT_LOOK_BACK_NO_LIMIT; JBool STATE_WAIT_ALLOW_REPLACE]).

Definition rpc_state_network_name (c : Client) : act W string :=
  request de_string c STATE_NETWORK_NAME JNull.

Definition rpc_state_network_version (c : Client) (tip_sets : list Cid) : act W Z :=
  request de_u32 c STATE_NETWORK_VERSION
    (JArr [JArr ((λ t, cid_map_to_json (cid_map_from t)) <$> tip_sets)]).

Definition de_cid_maps : decoder (gmap string CIDMap) := λ j,
  match j with
  | JObj fields =>
      kvs ← collect (λ f, (λ v, (f.1, v)) <$> de_cid_map f.2) fields;
      Ok (list_to_map (reverse kvs))
  | _ => Err "invalid type: expected a map"
  end.

(** The loop that converts the CIDs, in the iteration order of the map. *)
Fixpoint convert_cids (kvs : list (string * CIDMap)) (cids : gmap string Cid) : outcome (gmap string Cid) :=
  match kvs with
  | [] => Done cids
  | (key, m) :: kvs => c ← cid_try_from m; convert_cids kvs (<[key := c]> cids)
  end.

Definition rpc_state_actor_code_cids (c : Client) (network_version : Z) : act W (gmap string Cid) :=
  r ← request de_cid_maps c STATE_ACTOR_CODE_CIDS (JArr [JNum network_version]);
  lift (convert_cids (map_iter r) ∅).

Definition rpc_wallet_default (c : Client) : act W Address :=
  r ← request de_string c WALLET_DEFAULT_ADDRESS (JObj []);
  lift (ok_or_fail "invalid address" (address_from_str r)).

Definition rpc_wallet_list (c : Client) : act W (list string) :=
  request (de_vec de_string) c WALLET_LIST (JObj []).

Definition rpc_wallet_new (c : Client) (key_type : WalletKeyType) : act W string :=
  request de_string c WALLET_NEW (JArr [JStr (wallet_key_as_ref key_type)]).

Definition rpc_wallet_balance (c : Client) (a : Address) : act W TokenAmount :=
  r ← request de_string c WALLET_BALANCE (JArr [JStr (address_to_string a)]);
  lift (ok_or_fail "invalid digit found in string" (bigint_from_str r)).

Definition json_tipset (t : Cid) : Json := JArr [cid_map_to_json (cid_map_from t)].

Definition rpc_read_state {State} (d : decoder State) (c : Client) (a : Address) (tipset : Cid) :
    act W (ReadStateResponse State) :=
  request (de_read_state d) c STATE_READ_STATE
    (JArr [JStr (address_to_string a); json_tipset tipset]).

Definition rpc_chain_head (c : Client) : act W ChainHeadResponse :=
  request de_chain_head c CHAIN_HEAD NO_PARAMS.

Definition rpc_get_tipset_by_height (c : Client) (epoch : ChainEpoch) (tip_set : Cid) : act W ChainHeadResponse :=
  request de_chain_head c GET_TIPSET_BY_HEIGHT (JArr [JNum epoch; json_tipset tip_set]).

Definition rpc_get_prev_checkpoint_for_child (c : Client) (child : SubnetID) : act W (option CIDMap) :=
  match subnet_parent child with
  | None => lift (Fail "The child_subnet_id must be a valid child subnet")
  | Some _ =>
      j ← lift (subnet_to_json child);
      request (de_option de_cid_map) c IPC_GET_PREV_CHECKPOINT_FOR_CHILD
        (JArr [JStr GATEWAY_ACTOR_ADDRESS; j])
  end.

(** [base64] then CBOR; [e] is the error of either. *)
Definition decode_checkpoint (e : string) (s : string) : outcome BottomUpCheckpoint :=
  b ← ok_or_fail e (base64_decode s);
  ok_or_fail e (cbor_de_checkpoint b).

Definition decode_cross_msg (s : string) : outcome CrossMsg :=
  b ← ok_or_fail "cannot decode cross-msgs base64 string" (base64_decode s);
  ok_or_fail "cannot decode cross-msgs base64 string" (cbor_de_cross_msg b).

Definition rpc_get_checkpoint_template (c : Client) (epoch : ChainEpoch) : act W BottomUpCheckpoint :=
  r ← request de_string c IPC_GET_CHECKPOINT_TEMPLATE (JArr [JStr GATEWAY_ACTOR_ADDRESS; JNum epoch]);
  lift (decode_checkpoint "decode error" r).

Definition rpc_get_checkpoint (c : Client) (s : SubnetID) (epoch : ChainEpoch) : act W BottomUpCheckpoint :=
  j ← lift (subnet_to_json s);
  r ← request de_string c IPC_GET_CHECKPOINT (JArr [j; JNum epoch]);
  lift (decode_checkpoint "decode error" r).

Definition rpc_read_gateway_state (c : Client) (tip_set : Cid) : act W GatewayState :=
  request de_gateway_state c IPC_READ_GATEWAY_STATE
    (JArr [JStr GATEWAY_ACTOR_ADDRESS; json_tipset tip_set]).

Definition rpc_read_subnet_actor_state (c : Client) (s : SubnetID) (tip_set : Cid) : act W SubnetActorState :=
  j ← lift (subnet_to_json s);
  request de_subnet_actor_state c IPC_READ_SUBNET_ACTOR_STATE (JArr [j; json_tipset tip_set]).

Definition rpc_list_child_subnets (c : Client) (gateway : Address) : act W (list SubnetInfo) :=
  r ← request (de_option (de_vec de_subnet_info)) c IPC_LIST_CHILD_SUBNETS
        (JArr [JStr (address_to_string gateway)]);
  mret (default [] r).

Definition rpc_validator_has_voted_bottomup (c : Client) (s : SubnetID) (epoch : ChainEpoch)
    (v : Address) : act W bool :=
  j ← lift (subnet_to_json s);
  request de_bool c IPC_VALIDATOR_HAS_VOTED_BOTTOMUP
    (JArr [j; JNum epoch; JStr (address_to_string v)]).

Definition rpc_validator_has_voted_topdown (c : Client) (gateway : Address) (epoch : ChainEpoch)
    (v : Address) : act W bool :=
  request de_bool c IPC_VALIDATOR_HAS_VOTED_TOPDOWN
    (JArr [JStr (address_to_string gateway); JNum epoch; JStr (address_to_string v)]).

Definition rpc_get_topdown_msgs (c : Client) (s : SubnetID) (gateway : Address) (tip_set : Cid)
    (nonce : Z) : act W (list CrossMsg) :=
  j ← lift (subnet_to_json s);
  r ← request (de_vec de_string) c IPC_GET_TOPDOWN_MESSAGES
        (JArr [JStr (address_to_string gateway); j; json_tipset tip_set; JNum nonce]);
  lift (traverse decode_cross_msg r).

Definition rpc_get_genesis_epoch_for_subnet (c : Client) (s : SubnetID) (gateway : Address) : act W ChainEpoch :=
  j ← lift (subnet_to_json s);
  request de_i64 c IPC_GENESIS_EPOCH_FOR_SUBNET (JArr [JStr (address_to_string gateway); j]).

Definition rpc_list_checkpoints (c : Client) (s : SubnetID) (from_epoch to_epoch : ChainEpoch) :
    act W (list BottomUpCheckpoint) :=
  j ← lift (subnet_to_json s);
  r ← request (de_vec de_string) c IPC_LIST_BOTTOMUP_CHECKPOINTS
        (JArr [j; JNum from_epoch; JNum to_epoch]);
  lift (traverse (decode_checkpoint "cannot decode checkpoint base64 string") r).

#[export] Instance LotusJsonRPCClient : LotusClient W := {|
  lc_mpool_push_message := rpc_mpool_push_message;
  lc_state_wait_msg := rpc_state_wait_msg;
  lc_state_network_name := rpc_state_network_name;
  lc_state_network_version := rpc_state_network_version;
  lc_state_actor_code_cids := rpc_state_actor_code_cids;
  lc_wallet_default := rpc_wallet_default;
  lc_wallet_list := rpc_wallet_list;
  lc_wallet_new := rpc_wallet_new;
  lc_wallet_balance := rpc_wallet_balance;
  lc_read_state := @rpc_read_state;
  lc_chain_head := rpc_chain_head;
  lc_get_tipset_by_height := rpc_get_tipset_by_height;
  lc_get_prev_checkpoint_for_child := rpc_get_prev_checkpoint_for_child;
  lc_get_checkpoint_template := rpc_get_checkpoint_template;
  lc_get_checkpoint := rpc_get_checkpoint;
  lc_read_gateway_state := rpc_read_gateway_state;
  lc_read_subnet_actor_state := rpc_read_subnet_actor_state;
  lc_list_child_subnets := rpc_list_child_subnets;
  lc_validator_has_voted_bottomup := rpc_validator_has_voted_bottomup;
  lc_validator_has_voted_topdown := rpc_validator_has_voted_topdown;
  lc_get_topdown_msgs := rpc_get_topdown_msgs;
  lc_get_genesis_epoch_for_subnet := rpc_get_genesis_epoch_for_subnet;
  lc_list_checkpoints := rpc_list_checkpoints;
|}.

(** ** What the node receives *)

(** The message a node reads from the parameters of a push. *)
Record SentMessage := mkSentMessage {
  sent_to : Address;
  sent_from : Address;
  sent_value : Z;
  sent_method : Z;
  sent_params : bytes;
  sent_nonce : option Z;
  sent_gas_limit : option Z;
  sent_gas_fee_cap : option Z;
  sent_gas_premium : option Z;
  sent_cid : CIDMap;
  sent_version : option Z;
  sent_max_fee : option Z;
}.

Definition de_byte : decoder Byte.byte := λ j,
  n ← de_u8 j; ok_or "not a byte" (Byte.of_N (Z.to_N n)).

Definition read_sent (j : Json) : result string SentMessage :=
  match j with
  | JArr [msg; spec] =>
      fs ← de_struct ["to"; "from"; "value"; "method"; "params"; "nonce"; "gas_limit";
                      "gas_fee_cap"; "gas_premium"; "cid"; "version"] msg;
      ms ← de_struct ["max_fee"] spec;
      match fs, ms with
      | [to; from; value; method; params; nonce; limit; cap; premium; cid; version], [fee] =>
          to ← required deserialize_address_from_str to;
          from ← required deserialize_address_from_str from;
          value ← required deserialize_token_amount_from_str value;
          method ← required de_u64 method;
          params ← required (de_vec de_byte) params;
          nonce ← required (de_option de_u64) nonce;
          limit ← required (de_option de_u64) limit;
          cap ← required (de_option de_u64) cap;
          premium ← required (de_option de_u64) premium;
          cid ← required de_cid_map cid;
          version ← required (de_option de_u64) version;
          fee ← required (de_option de_u64) fee;
          Ok (mkSentMessage to from value method params nonce limit cap premium cid version fee)
      | _, _ => Err "invalid length"
      end
  | _ => Err "invalid type"
  end.

Definition fits_u64 (t : option TokenAmount) : bool :=
  match t with Some n => (0 <=? n)%Z && (n <=? u64_max)%Z | None => true end.

Definition fees_fit (m : MpoolPushMessage) : bool :=
  fits_u64 (msg_gas_limit m) && fits_u64 (msg_gas_premium m)
  && fits_u64 (msg_gas_fee_cap m) && fits_u64 (msg_max_fee m).

Lemma to_value_fits t : fits_u64 t = true → ∃ j, to_value t = Done j ∧ de_option de_u64 j = Ok t.
Proof.
  destruct t as [n|]; cbn; [|by eexists]. intros Hn. rewrite Hn. eexists; split; [done|].
  cbn. unfold de_u64, de_int. by rewrite Hn.
Qed.

Lemma to_value_panics t : fits_u64 t = false → ∃ p, to_value t = Panic p.
Proof. destruct t as [n|]; cbn; [|done]. intros ->. by eexists. Qed.

Lemma de_byte_roundtrip b : de_byte (JNum (Z.of_N (Byte.to_N b))) = Ok b.
Proof. by destruct b. Qed.

Lemma de_json_bytes b : de_vec de_byte (json_bytes b) = Ok b.
Proof.
  unfold json_bytes, de_vec. induction b as [|x b IH]; [done|].
  cbn [fmap list_fmap collect]. rewrite de_byte_roundtrip. cbn. by rewrite IH.
Qed.

Lemma de_cid_map_roundtrip m : de_cid_map (cid_map_to_json m) = Ok m.
Proof. by destruct m as [[s|]]. Qed.

Lemma de_optional_u64 o : fits_u64 o = true →
  de_option de_u64 (match o with Some n => JNum n | None => JNull end) = Ok o.
Proof. destruct o as [n|]; [|done]. cbn. unfold de_u64, de_int. by intros ->. Qed.

Ltac split_fee t :=
  let Hf := fresh "Hf" in
  destruct (fits_u64 t) eqn:Hf;
  [ destruct (to_value_fits _ Hf) as (? & -> & ?); cbn
  | destruct (to_value_panics _ Hf) as [p ->]; by exists p ].

Lemma push_params_panics m : fees_fit m = false → ∃ p, push_params m = Panic p.
Proof.
  unfold fees_fit, push_params. intros Hno. split_fee (msg_gas_limit m).
  split_fee (msg_gas_premium m). split_fee (msg_gas_fee_cap m). by split_fee (msg_max_fee m).
Qed.

Lemma push_params_sent `{!AgentTypesLaws} m :
  fees_fit m = true → fits_u64 (msg_nonce m) = true → fits_u64 (Some (method_num (msg_method m))) = true →
  ∃ params, push_params m = Done params ∧ has_params params = Ok true ∧
    read_sent params = Ok (mkSentMessage (msg_to m) (msg_from m) (msg_value m)
      (method_num (msg_method m)) (msg_params m) (msg_nonce m) (msg_gas_limit m)
      (msg_gas_fee_cap m) (msg_gas_premium m) (cid_map_from_option (msg_cid m)) None (msg_max_fee m)).
Proof.
  unfold fees_fit, push_params. intros (((Hl & Hp)%andb_true_iff & Hc)%andb_true_iff & Hm)%andb_true_iff Hn Hmeth.
  destruct (to_value_fits _ Hl) as (jl & -> & Hjl). destruct (to_value_fits _ Hp) as (jp & -> & Hjp).
  destruct (to_value_fits _ Hc) as (jc & -> & Hjc). destruct (to_value_fits _ Hm) as (jm & -> & Hjm).
  eexists; split; [reflexivity|]. split; [done|]. unfold read_sent.
  cbn -[de_vec json_bytes de_cid_map cid_map_to_json de_option de_u64].
  unfold deserialize_address_from_str, deserialize_token_amount_from_str, required.
  cbn -[de_vec json_bytes de_cid_map cid_map_to_json de_option de_u64].
  rewrite !address_str_roundtrip, bigint_str_roundtrip.
  cbn -[de_vec json_bytes de_cid_map cid_map_to_json de_option de_u64].
  assert (de_u64 (JNum (method_num (msg_method m))) = Ok (method_num (msg_method m))) as ->
    by (unfold de_u64, de_int; cbn in Hmeth; by rewrite Hmeth).
  cbn -[de_vec json_bytes de_cid_map cid_map_to_json de_option de_u64].
  rewrite de_json_bytes.
  cbn -[de_vec json_bytes de_cid_map cid_map_to_json de_option de_u64].
  rewrite de_optional_u64, Hjl by done; cbn -[de_vec de_cid_map cid_map_to_json de_option de_u64].
  rewrite Hjc; cbn -[de_vec de_cid_map cid_map_to_json de_option de_u64].
  rewrite Hjp; cbn -[de_vec de_cid_map cid_map_to_json de_option de_u64].
  rewrite de_cid_map_roundtrip; cbn -[de_option de_u64]. by rewrite Hjm.
Qed.

(** A request posts one body. *)
Lemma request_posts {T} (d : decoder T) c method params w b :
  has_params params = Ok b →
  ∃ fields, json_get "method" fields = Some (JStr method) ∧
    json_get "params" fields = (if b then Some params else None) ∧
    (request d c method params w).2 = (http_post c (JObj fields) w).2.
Proof.
  intros Hb. destruct (build_jsonrpc_request_ok method params b Hb) as (fields & Hf & ? & ? & ? & ?).
  exists fields. split_and!; [done..|]. unfold request. rewrite Hf.
  by destruct (http_post c (JObj fields) w).
Qed.

End client.

(** A node that answers nothing, and keeps the bodies it was sent. *)
Module RpcDemo.
#[local] Existing Instances Demo.resolver_types Demo.agent_types Demo.agent_types_laws Demo.serde_json.

Definition http : Http (list Json) := {| http_post := λ c b w, (Err "offline", b :: w) |}.
#[local] Existing Instance http.

Definition message (fee : Z) : MpoolPushMessage :=
  mkMpoolPushMessage (Demo.addr "t064") (Demo.addr "t1a") 1000%Z GatewayFund [Byte.x01]
    (Some 7%Z) None None None None None (Some fee).

End RpcDemo.
