(* ===== verification/Checkpointing.v ===== *)
(** * What the checkpoint managers share

    For every managed pair of a child and its parent, one task submits the
    child's bottom-up checkpoints to the parent ([BottomUp.v]) and one submits
    the parent's top-down checkpoints to the child ([TopDown.v]).  Here are the
    conversions that [src/manager/bottomup.rs] and [topdown.rs] have in common,
    and the vocabulary in which their theorems speak of the trace of a run:
    what had been read from the nodes, and which messages were pushed. *)
From S2P Require Import Prelude Types Records Outcome Json Lotus LotusApi.

(** In seconds. *)
Definition CHAIN_HEAD_REQUEST_PERIOD : Z := 10.

Section conversions.
Context `{!ResolverTypes} `{!AgentTypes}.

(** [Cid::try_from(head.cids.first().unwrap().clone())?]. *)
Definition first_tip_set (h : ChainHeadResponse) : outcome Cid :=
  m ← unwrap (head (head_cids h)); cid_try_from m.

(** [ChainEpoch::try_from(height)?], from [u64]. *)
Definition epoch_try_from (height : Z) : outcome ChainEpoch :=
  if (height <=? i64_max)%Z then Done height
  else Fail "out of range integral type conversion attempted".

Fixpoint insert_validators (vs : list Validator) (acc : gset Address) : outcome (gset Address) :=
  match vs with
  | [] => Done acc
  | v :: vs =>
      a ← ok_or_fail "invalid address" (address_from_str (v_addr v));
      insert_validators vs ({[a]} ∪ acc)
  end.

Definition validators_of (s : SubnetActorState) : outcome (gset Address) :=
  match validators (sa_validator_set s) with
  | None => Done ∅
  | Some vs => insert_validators vs ∅
  end.

(** The epoch at which the next checkpoint is due; [i64] addition wraps. *)
Definition submission_epoch (v : Voting) (period : ChainEpoch) : ChainEpoch :=
  wrapping_add_i64 (last_voting_executed v) period.

(** The loop [for account in child.accounts.iter()] over the accounts in the
    validator set; [handle] is its body, false if the task was told to stop. *)
Fixpoint for_accounts {W} (set : gset Address) (handle : Address → io W Event bool)
    (accounts : list Address) : io W Event bool :=
  match accounts with
  | [] => mret true
  | account :: accounts =>
      if decide (account ∈ set) then
        go ← handle account;
        if (go : bool) then for_accounts set handle accounts else mret false
      else for_accounts set handle accounts
  end.
End conversions.

(** ** Reading a trace *)

Section traces.
Context `{!ResolverTypes} `{!AgentTypes}.

(** The latest chain head read from [c]. *)
Fixpoint last_head (c : Client) (t : list Event) : option ChainHeadResponse :=
  match t with
  | [] => None
  | EvHead c' (Done h) :: t => if decide (c' = c) then Some h else last_head c t
  | _ :: t => last_head c t
  end.

(** The first state of the subnet actor, and of the gateway. *)
Fixpoint first_actor (t : list Event) : option SubnetActorState :=
  match t with
  | [] => None
  | e :: t =>
      match first_actor t, e with
      | Some st, _ => Some st
      | None, EvSubnetActor _ _ _ (Done st) => Some st
      | None, _ => None
      end
  end.

Fixpoint first_gateway (t : list Event) : option GatewayState :=
  match t with
  | [] => None
  | e :: t =>
      match first_gateway t, e with
      | Some st, _ => Some st
      | None, EvGateway _ _ (Done st) => Some st
      | None, _ => None
      end
  end.

(** The last call was a wait that ended with the stop notification. *)
Definition stopped (t : list Event) : bool :=
  match t with
  | EvSleep _ (Done false) :: _ => true
  | _ => false
  end.

Lemma first_actor_suffix t t' st :
  t `suffix_of` t' → first_actor t = Some st → first_actor t' = Some st.
Proof. intros [new ->] Ht. induction new as [|e new IH]; [done|]. cbn. by rewrite IH. Qed.

Lemma first_gateway_suffix t t' st :
  t `suffix_of` t' → first_gateway t = Some st → first_gateway t' = Some st.
Proof. intros [new ->] Ht. induction new as [|e new IH]; [done|]. cbn. by rewrite IH. Qed.

(** The gateway of the child was seen initialised. *)
Definition seen_initialized (c : Client) (t : list Event) : Prop :=
  ∃ tip gw, EvGateway c tip (Done gw) ∈ t ∧ gw_initialized gw = true.

(** [a] was seen among the validators in the subnet actor's state. *)
Definition seen_validator (c : Client) (s : SubnetID) (a : Address) (t : list Event) : Prop :=
  ∃ tip st vs v, EvSubnetActor c s tip (Done st) ∈ t ∧
    validators (sa_validator_set st) = Some vs ∧ v ∈ vs ∧ address_from_str (v_addr v) = Some a.

(** [tip] is the tip set of a chain head that was read from [c]. *)
Definition seen_tip_set (c : Client) (tip : Cid) (t : list Event) : Prop :=
  ∃ h, EvHead c (Done h) ∈ t ∧ first_tip_set h = Done tip.

Lemma seen_initialized_suffix c t t' :
  t `suffix_of` t' → seen_initialized c t → seen_initialized c t'.
Proof. intros Hs (tip & gw & Hin & Hi). exists tip, gw. split; [by eapply suffix_elem_of|done]. Qed.

Lemma seen_validator_suffix c s a t t' :
  t `suffix_of` t' → seen_validator c s a t → seen_validator c s a t'.
Proof.
  intros Hs (tip & st & vs & v & Hin & Hr). exists tip, st, vs, v.
  split; [by eapply suffix_elem_of|done].
Qed.

Lemma seen_tip_set_suffix c tip t t' :
  t `suffix_of` t' → seen_tip_set c tip t → seen_tip_set c tip t'.
Proof. intros Hs (h & Hin & Ht). exists h. split; [by eapply suffix_elem_of|done]. Qed.

Lemma insert_validators_seen vs acc set a :
  insert_validators vs acc = Done set → a ∈ set →
  a ∈ acc ∨ ∃ v, v ∈ vs ∧ address_from_str (v_addr v) = Some a.
Proof.
  revert acc. induction vs as [|v vs IH]; intros acc; cbn; [intros [= <-]; by left|].
  destruct (address_from_str (v_addr v)) as [a'|] eqn:Ha; cbn; [|done].
  intros Hset Hin. destruct (IH _ Hset Hin) as [Hacc|(v' & Hv & Hv')].
  - apply elem_of_union in Hacc as [->%elem_of_singleton|Hacc]; [|by left].
    right. exists v. split; [apply list_elem_of_here|done].
  - right. exists v'. split; [by apply list_elem_of_further|done].
Qed.

Lemma validators_of_seen st set a c s tip t :
  validators_of st = Done set → a ∈ set → EvSubnetActor c s tip (Done st) ∈ t →
  seen_validator c s a t.
Proof.
  unfold validators_of. destruct (validators (sa_validator_set st)) as [vs|] eqn:Hvs.
  - intros Hset Hin Ht. destruct (insert_validators_seen _ _ _ _ Hset Hin) as [?|(v & Hv & Ha)];
      [set_solver|]. by exists tip, st, vs, v.
  - intros [= <-] Hin. set_solver.
Qed.

Lemma epoch_try_from_done h e : epoch_try_from h = Done e → e = h.
Proof. unfold epoch_try_from. case_match; [by intros [= <-]|done]. Qed.
End traces.

#[export] Hint Resolve seen_initialized_suffix seen_validator_suffix seen_tip_set_suffix
  first_actor_suffix first_gateway_suffix : core.

(** ** Pushes in a trace *)

Section pushes.
Context `{!ResolverTypes} `{!AgentTypes}.

Definition push_by (P : Address → Prop) (e : Event) : Prop :=
  match e with
  | EvPush _ m _ => P (msg_from m)
  | _ => True
  end.

(** All pushes of [t] are from [a]; none is. *)
Definition only_pushes (a : Address) (t : list Event) : Prop := Forall (push_by (λ b, b = a)) t.
Definition no_pushes (a : Address) (t : list Event) : Prop := Forall (push_by (λ b, b ≠ a)) t.

Lemma only_no_pushes a b t : a ≠ b → only_pushes a t → no_pushes b t.
Proof.
  intros Hab Ht. eapply Forall_impl; [exact Ht|]. intros [] Hp; cbn in *; congruence.
Qed.

Lemma last_head_here c h t : last_head c (EvHead c (Done h) :: t) = Some h.
Proof. cbn. by rewrite decide_True. Qed.

(** The calls made since [t], when all their pushes are from [a]. *)
Definition grew (a : Address) (t t' : list Event) : Prop := ∃ new, t' = new ++ t ∧ only_pushes a new.

Lemma grew_refl a t : grew a t t.
Proof. exists []. by split; [|constructor]. Qed.

Lemma grew_trans a t t' t'' : grew a t t' → grew a t' t'' → grew a t t''.
Proof.
  intros (new & -> & Hn) (new' & -> & Hn'). exists (new' ++ new).
  split; [by rewrite app_assoc|by apply Forall_app].
Qed.

Lemma grew_cons a t t' e : grew a t t' → push_by (λ b, b = a) e → grew a t (e :: t').
Proof. intros (new & -> & Hn) He. exists (e :: new). split; [done|by constructor]. Qed.
End pushes.

#[export] Hint Resolve grew_refl grew_cons : core.
#[export] Hint Extern 1 (push_by _ _) => done : core.
#[export] Hint Extern 1 (stopped (_ :: _) = _) => done : core.

(** An account that the list names again further on. *)
Definition repeated `{!ResolverTypes} `{!AgentTypes} (a : Address) (accs : list Address) : Prop :=
  ∃ l1 l2, accs = l1 ++ a :: l2 ∧ a ∈ l2.

(** ** The loop over the accounts *)

Section outcomes.
Context `{!ResolverTypes} `{!AgentTypes}.

(** The call did not succeed, or its answer is one that the managers cannot go on
    with: a head whose height is no epoch or which has not exactly one readable tip
    set, a validator whose address cannot be read, or a message or a previous
    checkpoint without a readable CID. *)
Definition bad_head (h : ChainHeadResponse) : Prop :=
  is_done (epoch_try_from (head_height h)) = false ∨ is_done (first_tip_set h) = false ∨
  length (head_cids h) ≠ 1%nat.

Definition unusable (e : Event) : Prop :=
  match e with
  | EvHead _ (Done h) | EvTipset _ _ _ (Done h) => bad_head h
  | EvSubnetActor _ _ _ (Done st) => is_done (validators_of st) = false
  | EvPush _ _ (Done resp) => is_done (push_response_cid resp) = false
  | EvPrev _ _ (Done (Some m)) => is_done (cid_try_from m) = false
  | EvPrev _ _ (Done None) => False
  | EvHead _ r => is_done r = false
  | EvTipset _ _ _ r => is_done r = false
  | EvSubnetActor _ _ _ r => is_done r = false
  | EvPush _ _ r => is_done r = false
  | EvWaitMsg _ _ r => is_done r = false
  | EvPrev _ _ r => is_done r = false
  | EvTemplate _ _ r => is_done r = false
  | EvGateway _ _ r => is_done r = false
  | EvTopdown _ _ _ _ _ r => is_done r = false
  | EvSleep _ r => is_done r = false
  | _ => False
  end.

Lemma assert_that_false b : is_done (assert_that b) = false → b = false.
Proof. by destruct b. Qed.

(** The messages that were committed. *)
Definition is_commit (e : Event) : bool := match e with EvWaitMsg _ _ (Done _) => true | _ => false end.

Definition commits (t : list Event) : nat := length (filter (λ e, is_commit e = true) t).

Lemma commits_app t t' : commits (t ++ t') = (commits t + commits t')%nat.
Proof. unfold commits. by rewrite filter_app, length_app. Qed.

(** The calls of a submission that was committed, and of one that failed. *)
Variables submitted failed : Address → list Event → Prop.

(** The handling of one account, the latest call first: its submission was
    committed, after which only the account itself pushes; or it failed and the
    manager waited. *)
Definition account_outcome (a : Address) (seg : list Event) : Prop :=
  (∃ after sub, seg = after ++ sub ∧ submitted a sub ∧ only_pushes a after) ∨
  (∃ b fs, seg = EvSleep CHAIN_HEAD_REQUEST_PERIOD (Done b) :: fs ∧ failed a fs).

(** Accounts handled one after the other. *)
Inductive served : list Address → list Event → Prop :=
  | served_nil : served [] []
  | served_cons a l seg later :
      account_outcome a seg → served l later → served (a :: l) (later ++ seg).

(** The regular wait at the end of an iteration that ends with [r]. *)
Definition waited (r : outcome bool) (t : list Event) : Prop :=
  match r with
  | Done b => t = [EvSleep CHAIN_HEAD_REQUEST_PERIOD (Done b)]
  | _ => ∃ r', is_done r' = false ∧ t = [EvSleep CHAIN_HEAD_REQUEST_PERIOD r']
  end.

(** The calls of an iteration for the accounts [todo], when it ends with [r]: all
    have been handled and the regular wait follows; or the manager was told to stop
    while it waited after a failed submission; or the iteration broke off in the handling of an
    account, because of an unusable answer or after more than [fuel] commits. *)
Definition accounts_handled (fuel : nat) (todo : list Address) (r : outcome bool) (new : list Event) : Prop :=
  ∃ handled rest later tail, todo = handled ++ rest ∧ new = tail ++ later ∧ served handled later ∧
    ((rest = [] ∧ waited r tail) ∨
     match r with
     | Done true => False
     | Done false => tail = [] ∧ stopped later = true
     | _ => ∃ a rest', rest = a :: rest' ∧ only_pushes a tail ∧
              (Exists unusable tail ∨ (fuel < commits tail)%nat)
     end).
End outcomes.

(** [Exists unusable l] where one of the listed calls is known to be. *)
Ltac unusable_here :=
  cbn; unfold bad_head; first
    [ done | by left | by right; left
    | right; right; intros Hlen; match goal with H : is_done (assert_that _) = false |- _ =>
        apply assert_that_false, Nat.eqb_neq in H; contradiction end ].
Ltac unusable_now := first [ solve [left; unusable_here] | right; unusable_now ].

(** The calls of the trace [t'] since [t]. *)
Ltac calls_since t' t :=
  lazymatch t' with
  | t => constr:(@nil Event)
  | ?e :: ?l => let new := calls_since l t in constr:(e :: new)
  end.

Section accounts_loop.
Context {W : Type} `{!ResolverTypes} `{!AgentTypes} `{!LotusClient W} `{!Notify W}.
Variable P : list Event → Event → Prop.
Hypothesis P_wait : ∀ t r, stopped t = false → P t (EvSleep CHAIN_HEAD_REQUEST_PERIOD r).
Variables submitted failed : Address → list Event → Prop.

Lemma wait_ok t :
  guarded P t → stopped t = false →
  wps P (wait_next_iteration (W:=W) CHAIN_HEAD_REQUEST_PERIOD)
    (λ b t', t' = EvSleep CHAIN_HEAD_REQUEST_PERIOD (Done b) :: t ∧ stopped t' = negb b)
    (λ t', ∃ r, is_done r = false ∧ t' = EvSleep CHAIN_HEAD_REQUEST_PERIOD r :: t ∧ stopped t' = false) t.
Proof.
  intros Hg Hr. apply wps_call; [done|by intros; apply P_wait| |by intros []].
  intros r Hd. exists r. split; [done|]. split; [done|]. by destruct r.
Qed.

(** What the handling of one account leaves behind, and an aborted one. *)
Definition account_done (account : Address) (t : list Event) (b : bool) (t' : list Event) : Prop :=
  ∃ new, t' = new ++ t ∧ only_pushes account new ∧ stopped t' = negb b ∧
    account_outcome submitted failed account new.

Definition aborted (n : nat) (account : Address) (t t' : list Event) : Prop :=
  ∃ new, t' = new ++ t ∧ only_pushes account new ∧ stopped t' = false ∧
    (Exists unusable new ∨ (n ≤ commits new)%nat).

Lemma aborted_grew n account t t' t'' : grew account t t' → aborted n account t' t'' → aborted n account t t''.
Proof.
  intros (new & -> & Ho) (new' & -> & Ho' & Hs & Hr). exists (new' ++ new).
  split_and!; [by rewrite app_assoc|by apply Forall_app|done|].
  destruct Hr as [Hr|Hr]; [left; apply Exists_app; by left|right; rewrite commits_app; lia].
Qed.

Hypothesis submitted_commits : ∀ a sub, submitted a sub → (1 ≤ commits sub)%nat.

(** A submission, then a wait if it failed or else [lagging]. *)
Lemma submit_then_ok n account (submit : io W Event ()) (lagging : io W Event bool) t :
  breaks unusable False submit →
  wps P submit
    (λ _ t', ∃ sub, t' = sub ++ t ∧ only_pushes account sub ∧ stopped t' = false ∧ submitted account sub)
    (λ t', ∃ fs, t' = fs ++ t ∧ only_pushes account fs ∧ stopped t' = false ∧ failed account fs) t →
  (∀ t', guarded P t' → stopped t' = false → t `suffix_of` t' →
    wps P lagging (λ b t'', grew account t' t'' ∧ stopped t'' = negb b) (aborted n account t') t') →
  wps P (r ← attempt submit;
         match r with
         | Err _ => wait_next_iteration CHAIN_HEAD_REQUEST_PERIOD
         | Ok _ => lagging
         end) (account_done account t) (aborted (S n) account t) t.
Proof.
  intros Hbreaks Hsub Hlag.
  eapply (wps_bind _ _ _ (λ r t', ∃ new, t' = new ++ t ∧ only_pushes account new ∧
    stopped t' = false ∧ if is_ok r then submitted account new else failed account new)).
  - eapply wps_attempt_aborts.
    + eapply wps_mono; [exact Hsub| |by intros ? _ _ HE; exact HE]. by intros [] t' _ _ HQ.
    + by intros e t' _ _ HE.
    + intros w Ha (fs & Hfs & Ho & Hs & _). destruct (Hbreaks w t) as (new & Hnew & Hb).
      exists fs. split_and!; [done|done|done|]. left. rewrite Hfs in Hnew.
      apply app_inv_tail in Hnew as ->. by destruct (Hb Ha).
  - intros r t' Hg Hs (new & -> & Ho & Hrun & Hp). destruct r as [[]|e].
    + eapply wps_mono; [by apply Hlag| |].
      * intros b t' _ _ [(new' & -> & Ho') Hs']. exists (new' ++ new).
        split_and!; [by rewrite app_assoc|by apply Forall_app|done|]. left. by exists new', new.
      * intros t' _ _ (new' & -> & Ho' & Hs' & Hr). exists (new' ++ new).
        split_and!; [by rewrite app_assoc|by apply Forall_app|done|].
        destruct Hr as [Hr|Hr]; [left; apply Exists_app; by left|right]. rewrite commits_app.
        apply submitted_commits in Hp. lia.
    + eapply wps_mono; [by apply wait_ok| |].
      * intros b t' _ _ [-> Hs']. eexists (_ :: new). split_and!; [done|by constructor|done|].
        right. by exists b, new.
      * intros t' _ _ (r & Hr & -> & Hs'). eexists (_ :: new). split_and!; [done|by constructor|done|].
        left. by constructor.
Qed.

(** [ready a t] is what the handling of [a] relies on; the handling of other
    accounts keeps it, and that of [a] itself if [a] is repeated. *)
Variable ready : Address → list Event → Prop.
Variable dup : Address → Prop.
Hypothesis ready_grew : ∀ a b t t', (b = a → dup a) → grew b t t' → ready a t → ready a t'.

Lemma for_accounts_ok n set (handle : Address → io W Event bool) accs t :
  (∀ a t', guarded P t' → stopped t' = false → ready a t' →
     wps P (handle a) (account_done a t') (aborted (S n) a t') t') →
  (∀ a, repeated a accs → dup a) →
  guarded P t → stopped t = false → (∀ a, a ∈ accs → a ∈ set → ready a t) →
  wps P (for_accounts set handle accs)
    (λ b t', stopped t' = negb b ∧ ∃ handled rest later,
       filter (λ a, a ∈ set) accs = handled ++ rest ∧ t' = later ++ t ∧
       served submitted failed handled later ∧ if b then rest = [] else stopped later = true)
    (λ t', stopped t' = false ∧ ∃ handled a rest later tail,
       filter (λ a, a ∈ set) accs = handled ++ a :: rest ∧ t' = tail ++ later ++ t ∧
       served submitted failed handled later ∧ only_pushes a tail ∧
       (Exists unusable tail ∨ (n < commits tail)%nat)) t.
Proof.
  intros Hhandle. revert t. induction accs as [|a accs IH]; intros t Hdup Hg Hrun Hall; cbn [for_accounts].
  { apply wps_ret; [done|]. split; [done|]. exists [], [], []. split_and!; [done|done|constructor|done]. }
  assert (Hdup' : ∀ b, repeated b accs → dup b).
  { intros b (l1 & l2 & -> & Hb). apply Hdup. by exists (a :: l1), l2. }
  rewrite filter_cons. case_decide as Hset.
  2:{ apply IH; [done|done|done|by intros; apply Hall; [by right|]]. }
  eapply wps_bind.
  { eapply wps_mono; [apply Hhandle; [done|done|apply Hall; [apply list_elem_of_here|done]]
      |by intros b t' _ _ HQ; exact HQ|].
    intros t' _ _ (new & -> & Ho & Hs & Hr). split; [done|].
    exists [], a, (filter (λ a, a ∈ set) accs), [], new. split_and!; [done|done|constructor|done|done]. }
  intros go t2 Hg2 _ (seg & -> & Ho2 & Hrun2 & Hout). destruct go.
  2:{ apply wps_ret; [done|]. split; [done|].
      exists [a], (filter (λ a, a ∈ set) accs), seg. split_and!; [done|done| |].
      - apply (served_cons _ _ a [] seg []); [done|constructor].
      - destruct seg; [|done]. destruct Hout as [(? & sub & Hn & Hsub%submitted_commits & _)|(? & ? & ? & _)]; [|done].
        symmetry in Hn. apply app_eq_nil in Hn as [_ ->]. cbn in Hsub. lia. }
  eapply wps_mono; [apply IH; [done|done|done|]| |].
  - intros a' Hin Hin'. eapply (ready_grew _ a); [|by eexists|apply Hall; [by right|done]].
    intros ->. apply Hdup. by exists [], accs.
  - intros b t' _ _ (Hs & handled & rest & later & Hf & -> & Hsv & Hb). split; [done|].
    exists (a :: handled), rest, (later ++ seg). split_and!; [by rewrite Hf|by rewrite app_assoc|by constructor|].
    destruct b; [done|]. by destruct later.
  - intros t' _ _ (Hs & handled & a' & rest & later & tail & Hf & -> & Hsv & Ho). split; [done|].
    exists (a :: handled), a', rest, (later ++ seg), tail.
    split_and!; [by rewrite Hf|by rewrite !app_assoc|by constructor|apply Ho..].
Qed.

(** The loop followed by the regular wait. *)
Lemma accounts_then_wait n set (handle : Address → io W Event bool) accs t :
  (∀ a t', guarded P t' → stopped t' = false → ready a t' →
     wps P (handle a) (account_done a t') (aborted (S n) a t') t') →
  (∀ a, repeated a accs → dup a) →
  guarded P t → stopped t = false → (∀ a, a ∈ accs → a ∈ set → ready a t) →
  wps P (go ← for_accounts set handle accs;
         if (go : bool) then wait_next_iteration CHAIN_HEAD_REQUEST_PERIOD else mret false)
    (λ b t', stopped t' = negb b ∧ ∃ new, t' = new ++ t ∧
       accounts_handled submitted failed n (filter (λ a, a ∈ set) accs) (Done b) new)
    (λ t', stopped t' = false ∧ ∃ new, t' = new ++ t ∧
       ∀ r, is_done r = false → accounts_handled submitted failed n (filter (λ a, a ∈ set) accs) r new) t.
Proof.
  intros Hhandle Hdup Hg Hrun Hall. eapply wps_bind.
  { eapply wps_mono; [by apply for_accounts_ok|by intros b t' _ _ HQ; exact HQ|].
    intros t' _ _ (Hs & handled & a & rest & later & tail & Hf & -> & Hsv & Ho). split; [done|].
    exists (tail ++ later). split; [by rewrite app_assoc|]. intros r Hr. exists handled, (a :: rest), later, tail.
    split_and!; [done|done|done|]. right. destruct r; try done; by eexists _, _. }
  intros go t' Hg' _ (Hs & handled & rest & later & Hf & -> & Hsv & Hgo). destruct go.
  - rewrite Hgo, app_nil_r in Hf. eapply wps_mono; [by apply wait_ok| |].
    + intros b t' _ _ [-> Hs']. split; [done|]. eexists (_ :: later). split; [done|].
      exists handled, [], later, [EvSleep CHAIN_HEAD_REQUEST_PERIOD (Done b)]. rewrite app_nil_r.
      split_and!; [done|done|done|by left].
    + intros t' _ _ (r' & Hr' & -> & Hs'). split; [done|]. eexists (_ :: later). split; [done|]. intros r Hr.
      exists handled, [], later, [EvSleep CHAIN_HEAD_REQUEST_PERIOD r']. rewrite app_nil_r.
      split_and!; [done|done|done|]. left. split; [done|]. by destruct r; [|exists r'..].
  - apply wps_ret; [done|]. split; [done|]. exists later. split; [done|].
    exists handled, rest, later, []. split_and!; [done|done|done|by right].
Qed.
End accounts_loop.

Ltac aborted_now :=
  lazymatch goal with
  | |- aborted _ _ ?t ?t' =>
      let new := calls_since t' t in exists new;
      split_and!; [done|by repeat constructor|done|left; unusable_now]
  end.
