(* ===== verification/Posts.v ===== *)
(** * What a client posts

    The client of [RpcClient.v] in a world extended with the list of the posted
    bodies, the latest first.  A relation with the trace of calls is kept by every
    program over the client: the bodies that push a message are exactly those of
    the recorded pushes. *)
From S2P Require Import Prelude Types Records Outcome Json Lotus LotusApi RpcClient Checkpointing.

(** [MethodNum] is a u64. *)
Class MethodNums `{AgentTypes} := { method_num_u64 : ∀ m, in_u64 (method_num m) }.

(** ** Posted bodies *)

Record wire (W : Type) := mkWire { wire_world : W; posts : list (Client * Json) }.
Arguments mkWire {W} _ _.
Arguments wire_world {W} _.
Arguments posts {W} _.

#[export] Instance wire_http {W} `{!Http W} : Http (wire W) := {|
  http_post := λ c b w,
    let '(r, w') := http_post c b (wire_world w) in (r, mkWire w' ((c, b) :: posts w)) |}.

Definition is_push_body (b : Json) : bool :=
  match b with
  | JObj fields =>
      match json_get "method" fields with
      | Some (JStr m) => bool_decide (m = Methods.MPOOL_PUSH_MESSAGE)
      | _ => false
      end
  | _ => false
  end.

Definition pushed (w : list (Client * Json)) : list (Client * Json) := filter (λ p, is_push_body p.2 = true) w.

Lemma pushed_cons c b l :
  pushed ((c, b) :: l) = if is_push_body b then (c, b) :: pushed l else pushed l.
Proof. unfold pushed. rewrite filter_cons. cbn. by destruct (is_push_body b). Qed.

Section wire.
Context {W : Type} `{!ResolverTypes} `{!AgentTypes} `{!SerdeJson} `{!Http W} `{!Codecs} `{!HashIter string}.

#[local] Existing Instance LotusJsonRPCClient.

(** ** Calls that push nothing *)

Definition quiet_act {A} (m : act (wire W) A) : Prop := ∀ w, pushed (posts (m w).2) = pushed (posts w).

Lemma quiet_ret {A} (a : A) : quiet_act (mret a).
Proof. done. Qed.

Lemma quiet_lift {A} (r : outcome A) : quiet_act (lift r).
Proof. done. Qed.

Lemma quiet_bind {A B} (m : act (wire W) A) (f : A → act (wire W) B) :
  quiet_act m → (∀ a, quiet_act (f a)) → quiet_act (m ≫= f).
Proof.
  intros Hm Hf w. specialize (Hm w). unfold mbind, act_bind.
  destruct (m w) as [[a|e|p|] w'] eqn:Hw; cbn in *; [|done..]. by rewrite Hf.
Qed.

Lemma build_method method params body :
  build_jsonrpc_request method params = Ok body →
  ∃ fields, body = JObj fields ∧ json_get "method" fields = Some (JStr method).
Proof.
  unfold build_jsonrpc_request. destruct (has_params params) as [b|]; cbn; [|done].
  intros [= <-]. destruct b; by eexists.
Qed.

Lemma quiet_request {T} (d : decoder T) c method params :
  method ≠ Methods.MPOOL_PUSH_MESSAGE → quiet_act (request d c method params).
Proof.
  intros Hm w. unfold request. destruct (build_jsonrpc_request method params) as [body|] eqn:Hb; [|done].
  cbn [http_post wire_http]. destruct (http_post c body (wire_world w)) as [r w']. cbn [snd posts].
  rewrite pushed_cons. destruct (build_method _ _ _ Hb) as (fields & -> & Hg).
  cbn [is_push_body]. rewrite Hg. by rewrite bool_decide_eq_false_2.
Qed.

Lemma quiet_prev_checkpoint c child : quiet_act (rpc_get_prev_checkpoint_for_child c child).
Proof.
  unfold rpc_get_prev_checkpoint_for_child. case_match; [|apply quiet_lift].
  apply quiet_bind; [apply quiet_lift|]. intros j. by apply quiet_request.
Qed.

(** ** Pushes *)

Definition push_body (c : Client) (m : MpoolPushMessage) : option (Client * Json) :=
  match push_params m with
  | Done params =>
      match build_jsonrpc_request Methods.MPOOL_PUSH_MESSAGE params with
      | Ok body => Some (c, body)
      | Err _ => None
      end
  | _ => None
  end.

Definition event_body (e : Event) : option (Client * Json) :=
  match e with EvPush c m _ => push_body c m | _ => None end.

Lemma push_posts c m (w : wire W) :
  pushed (posts (rpc_mpool_push_message c m w).2) = option_list (push_body c m) ++ pushed (posts w).
Proof.
  unfold rpc_mpool_push_message, push_body, mbind, act_bind, lift.
  destruct (push_params m) as [params|e|p|]; [|done..]. unfold request.
  destruct (build_jsonrpc_request _ params) as [body|] eqn:Hb; [|done].
  cbn [http_post wire_http]. destruct (http_post c body (wire_world w)) as [r w'].
  destruct (build_method _ _ _ Hb) as (fields & -> & Hg).
  assert (Hp : pushed ((c, JObj fields) :: posts w) = (c, JObj fields) :: pushed (posts w)).
  { rewrite pushed_cons. cbn [is_push_body]. rewrite Hg. by rewrite bool_decide_eq_true_2. }
  destruct r as [text|e]; [|exact Hp]. by destruct (read_response de_push_response text).
Qed.

(** The posted pushes are those of the trace. *)
Definition linked (s : run_state (wire W) Event) : Prop :=
  pushed (posts (world s)) = omap event_body (trace s).

Definition kept {A} (m : io (wire W) Event A) : Prop := ∀ s, linked s → linked (m s).2.

Lemma kept_ret {A} (a : A) : kept (mret a).
Proof. by intros s. Qed.

Lemma kept_lift {A} (r : outcome A) : kept (lift r).
Proof. by intros s. Qed.

Lemma kept_bind {A B} (m : io (wire W) Event A) (f : A → io (wire W) Event B) :
  kept m → (∀ a, kept (f a)) → kept (m ≫= f).
Proof.
  intros Hm Hf s Hs. specialize (Hm s Hs). unfold mbind, act_bind.
  destruct (m s) as [[a|e|p|] s'] eqn:Hr; cbn in *; [|done..]. by apply Hf.
Qed.

Lemma kept_attempt {A} (m : io (wire W) Event A) : kept m → kept (attempt m).
Proof.
  intros Hm s Hs. specialize (Hm s Hs). unfold attempt. by destruct (m s) as [[] s'].
Qed.

Lemma kept_call {A} (ev : outcome A → Event) (op : act (wire W) A) :
  (∀ r, is_push (ev r) = false) → quiet_act op → kept (call ev op).
Proof.
  intros Hev Hop s Hs. specialize (Hop (world s)). unfold call, linked in *.
  destruct (op (world s)) as [r w']; cbn in *. rewrite Hop, Hs. specialize (Hev r). by destruct (ev r).
Qed.

Lemma kept_push c m : kept (mpool_push_message c m).
Proof.
  intros s Hs. pose proof (push_posts c m (world s)) as Hp. unfold linked in *. unfold mpool_push_message, call.
  cbn [lc_mpool_push_message LotusJsonRPCClient].
  destruct (rpc_mpool_push_message c m (world s)) as [r w']; cbn in *. rewrite Hp, Hs.
  by destruct (push_body c m).
Qed.

(** ** The message that a node reads *)

Context `{!AgentTypesLaws} `{!MethodNums}.

Definition body_message (b : Json) : result string SentMessage :=
  match b with
  | JObj fields => match json_get "params" fields with Some j => read_sent j | None => Err "missing field" end
  | _ => Err "invalid type"
  end.

Definition plain_message (m : MpoolPushMessage) : SentMessage :=
  mkSentMessage (msg_to m) (msg_from m) (msg_value m) (method_num (msg_method m)) (msg_params m)
    None None None None (mkCIDMap None) None None.

(** The messages that the agent builds: no gas fields, no nonce. *)
Lemma push_body_read v to from method params c :
  ∃ b, let m := set_msg_value v (mpool_push_message_new to from method params) in
    push_body c m = Some (c, b) ∧ body_message b = Ok (plain_message m).
Proof.
  destruct (method_num_u64 method) as [Hlo Hhi]. unfold push_body.
  destruct (push_params_sent (set_msg_value v (mpool_push_message_new to from method params)))
    as (js & Hps & Hhas & Hread); [done|done|cbn; by rewrite (proj2 (Z.leb_le _ _) Hlo), (proj2 (Z.leb_le _ _) Hhi)|].
  rewrite Hps. unfold build_jsonrpc_request. rewrite Hhas. cbn. eauto.
Qed.
End wire.

Create HintDb quiet discriminated.
#[export] Hint Resolve quiet_ret quiet_lift quiet_prev_checkpoint : quiet.

(** The calls of the trait but [mpool_push_message]. *)
Ltac solve_quiet :=
  intros; repeat first
    [ apply quiet_bind; [|intros ?] | apply quiet_request; discriminate
    | solve [auto with quiet] | case_match ].

Ltac solve_kept :=
  repeat first
    [ apply kept_bind; [|intros ?] | apply kept_ret | apply kept_lift | apply kept_push
    | apply kept_attempt
    | apply kept_call; [done|cbn [lc_state_wait_msg lc_state_network_name lc_state_network_version
        lc_state_actor_code_cids lc_wallet_list lc_wallet_new lc_wallet_balance lc_chain_head
        lc_read_gateway_state lc_read_subnet_actor_state lc_list_child_subnets
        lc_get_genesis_epoch_for_subnet lc_list_checkpoints lc_get_tipset_by_height
        lc_get_prev_checkpoint_for_child lc_get_checkpoint_template lc_get_topdown_msgs LotusJsonRPCClient]; by solve_quiet]
    | case_match ].
