(* ===== verification/BottomUp.v ===== *)
(** * The bottom-up checkpoint manager

    [src/manager/bottomup.rs]: an endless loop, given fuel here, that watches
    the child's chain and submits the child's checkpoints to its subnet actor
    on the parent, for every configured account that is a validator.

    The theorems hold for any answers of the two nodes, in any iteration,
    whatever errors occur on the way. *)
From S2P Require Import Prelude Types Records Outcome Json Lotus LotusApi Checkpointing.

Section manager.
Context {W : Type} `{!ResolverTypes} `{!AgentTypes} `{!Checkpoints} `{!LotusClient W} `{!Notify W}.

Notation io := (io W Event).

(** The checkpoint that [submit_checkpoint] builds. *)
Definition fill_checkpoint (cp template : BottomUpCheckpoint) (prev : option Cid) (tip : Cid) : BottomUpCheckpoint :=
  let d := bu_data cp in
  mkBottomUp
    (mkCheckData (cd_source d) (cid_to_bytes tip) (cd_epoch d)
       (match prev with Some c => tcid_from c | None => cd_prev_check d end)
       (cd_children (bu_data template)) (cd_cross_msgs (bu_data template)))
    (bu_sig cp).

Definition prev_cid (response : option CIDMap) : outcome (option Cid) :=
  match response with
  | Some m => c ← cid_try_from m; Done (Some c)
  | None => Done None
  end.

Definition submit_checkpoint (child_tip_set : Cid) (epoch : ChainEpoch) (account : Address)
    (child : Subnet) (child_client parent_client : Client) : io () :=
  let checkpoint := checkpoint_new (subnet_id child) epoch in
  template ← ipc_get_checkpoint_template child_client epoch;
  response ← ipc_get_prev_checkpoint_for_child parent_client (subnet_id child);
  prev ← lift (prev_cid response);
  let checkpoint := fill_checkpoint checkpoint template prev child_tip_set in
  params ← lift (of_result (cbor_bottomup checkpoint));
  let message :=
    mpool_push_message_new (subnet_actor (subnet_id child)) account SubnetSubmitCheckpoint params in
  mem_push_response ← mpool_push_message parent_client message;
  message_cid ← lift (push_response_cid mem_push_response);
  _ ← state_wait_msg parent_client message_cid;
  mret ().

(** The inner loop for lagging checkpoints.  The answer is false if the task
    was told to stop. *)
Fixpoint bottomup_lagging (fuel : nat) (child : Subnet) (child_client parent_client : Client)
    (period : ChainEpoch) (child_tip_set : Cid) (account : Address) : io bool :=
  match fuel with
  | O => lift OutOfFuel
  | S fuel =>
      child_head ← chain_head child_client;
      curr_epoch ← lift (epoch_try_from (head_height child_head));
      parent_head ← chain_head parent_client;
      parent_tip_set ← lift (first_tip_set parent_head);
      subnet_actor_state ← ipc_read_subnet_actor_state parent_client (subnet_id child) parent_tip_set;
      let epoch := submission_epoch (bottom_up_checkpoint_voting subnet_actor_state) period in
      if (epoch <=? curr_epoch)%Z then
        r ← attempt (submit_checkpoint child_tip_set epoch account child child_client parent_client);
        match r with
        | Err _ => wait_next_iteration CHAIN_HEAD_REQUEST_PERIOD
        | Ok _ =>
            bottomup_lagging fuel child child_client parent_client period child_tip_set account
        end
      else mret true
  end.

(** The body of the loop over the accounts, for an account that is a validator;
    after a failed submission and a wait it goes on with the next account. *)
Definition bottomup_account (fuel : nat) (child : Subnet) (child_client parent_client : Client)
    (period : ChainEpoch) (epoch : ChainEpoch) (child_tip_set : Cid) (account : Address) : io bool :=
  r ← attempt (submit_checkpoint child_tip_set epoch account child child_client parent_client);
  match r with
  | Err _ => wait_next_iteration CHAIN_HEAD_REQUEST_PERIOD
  | Ok _ => bottomup_lagging fuel child child_client parent_client period child_tip_set account
  end.

(** The body of the main loop. *)
Definition bottomup_iteration (fuel : nat) (child : Subnet) (child_client parent_client : Client)
    (period : ChainEpoch) : io bool :=
  child_head ← chain_head child_client;
  curr_epoch ← lift (epoch_try_from (head_height child_head));
  child_tip_set ← lift (first_tip_set child_head);
  child_gw_state ← ipc_read_gateway_state child_client child_tip_set;
  parent_head ← chain_head parent_client;
  _ ← lift (assert_that (length (head_cids parent_head) =? 1)%nat);
  parent_tip_set ← lift (first_tip_set parent_head);
  subnet_actor_state ← ipc_read_subnet_actor_state parent_client (subnet_id child) parent_tip_set;
  let epoch := submission_epoch (bottom_up_checkpoint_voting subnet_actor_state) period in
  go ← (if gw_initialized child_gw_state && (epoch <=? curr_epoch)%Z then
          validator_set ← lift (validators_of subnet_actor_state);
          _ ← lift (assert_that (length (head_cids child_head) =? 1)%nat);
          child_tip_set ← lift (first_tip_set child_head);
          for_accounts validator_set
            (bottomup_account fuel child child_client parent_client period epoch child_tip_set)
            (accounts child)
        else mret true);
  if (go : bool) then wait_next_iteration CHAIN_HEAD_REQUEST_PERIOD else mret false.

Fixpoint bottomup_loop (fuel : nat) (child : Subnet) (child_client parent_client : Client)
    (period : ChainEpoch) : io () :=
  match fuel with
  | O => lift OutOfFuel
  | S fuel =>
      go ← bottomup_iteration fuel child child_client parent_client period;
      if (go : bool) then bottomup_loop fuel child child_client parent_client period else mret ()
  end.

Definition manage_bottomup_checkpoints (fuel : nat) (child parent : Subnet) : io () :=
  let child_client := from_subnet child in
  let parent_client := from_subnet parent in
  with_context ("error in subnet pair (" +:+ subnet_to_string (subnet_id parent) +:+ ", "
                +:+ subnet_to_string (subnet_id child) +:+ ")") (
    parent_head ← chain_head parent_client;
    parent_tip_set ← lift (first_tip_set parent_head);
    state ← ipc_read_subnet_actor_state parent_client (subnet_id child) parent_tip_set;
    bottomup_loop fuel child child_client parent_client (sa_bottom_up_check_period state)).

End manager.

(** ** What a bottom-up manager may do *)

Section bottomup.
Context {W : Type} `{!ResolverTypes} `{!AgentTypes} `{!Checkpoints} `{!CheckpointsLaws}.
Context `{!LotusClient W} `{!Notify W}.
Variable child parent : Subnet.

Notation cc := (from_subnet child).
Notation pc := (from_subnet parent).

(** The checkpoint for [epoch]: its children and messages are those of the
    template, its previous checkpoint is the one the parent's gateway knows,
    its proof is the tip set. *)
Definition is_checkpoint (cp : BottomUpCheckpoint) (epoch : ChainEpoch) (template : BottomUpCheckpoint)
    (prev : option Cid) (tip : Cid) : Prop :=
  let new := bu_data (checkpoint_new (subnet_id child) epoch) in
  let d := bu_data cp in
  cd_source d = subnet_id child ∧ cd_epoch d = epoch ∧ cd_proof d = cid_to_bytes tip ∧
  cd_prev_check d = from_option tcid_from (cd_prev_check new) prev ∧
  cd_children d = cd_children (bu_data template) ∧
  cd_cross_msgs d = cd_cross_msgs (bu_data template).

(** The reads that decide about a submission, the latest first: the head of the
    child (and its gateway, at the start of an iteration), the head of the parent,
    and the subnet actor there. *)
Definition epoch_reads (h hp : ChainHeadResponse) (gateway : list Event) (tip' : Cid)
    (st : SubnetActorState) : list Event :=
  EvSubnetActor pc (subnet_id child) tip' (Done st) :: EvHead pc (Done hp) ::
    gateway ++ [EvHead cc (Done h)].

Definition gateway_read (l : list Event) : Prop := l = [] ∨ ∃ tip gw, l = [EvGateway cc tip (Done gw)].

(** The epoch of a submission by [a] is due: it is one period after the last
    executed epoch and was reached by the child, according to reads since which [a]
    has pushed nothing, unless the configuration names [a] more than once. *)
Definition bottomup_due (epoch : ChainEpoch) (a : Address) (t : list Event) : Prop :=
  ∃ st0 since h hp gateway tip' st before,
    first_actor t = Some st0 ∧ t = since ++ epoch_reads h hp gateway tip' st ++ before ∧
    gateway_read gateway ∧ (no_pushes a since ∨ repeated a (accounts child)) ∧
    epoch = submission_epoch (bottom_up_checkpoint_voting st) (sa_bottom_up_check_period st0) ∧
    (epoch ≤ head_height h)%Z.

Definition bottomup_push_ok (old : list Event) (c : Client) (m : MpoolPushMessage) : Prop :=
  ∃ before epoch template response prev tip cp params,
    old = EvPrev pc (subnet_id child) (Done response) :: EvTemplate cc epoch (Done template) :: before ∧
    bottomup_due epoch (msg_from m) before ∧ seen_initialized cc before ∧
    msg_from m ∈ accounts child ∧ seen_validator pc (subnet_id child) (msg_from m) before ∧
    seen_tip_set cc tip before ∧ prev_cid response = Done prev ∧
    is_checkpoint cp epoch template prev tip ∧ cbor_bottomup cp = Ok params ∧
    c = pc ∧
    m = mpool_push_message_new (subnet_actor (subnet_id child)) (msg_from m)
          SubnetSubmitCheckpoint params.

Definition bottomup_ok (old : list Event) (e : Event) : Prop :=
  stopped old = false ∧
  match e with
  | EvPush c m _ => bottomup_push_ok old c m
  | EvWaitMsg c cid _ =>
      ∃ m r before, old = EvPush c m (Done r) :: before ∧ push_response_cid r = Done cid
  | EvHead c _ => c = cc ∨ c = pc
  | EvGateway c tip _ => c = cc ∧ ∃ h, last_head cc old = Some h ∧ first_tip_set h = Done tip
  | EvSubnetActor c s tip _ =>
      c = pc ∧ s = subnet_id child ∧ ∃ h, last_head pc old = Some h ∧ first_tip_set h = Done tip
  | EvPrev c s _ => c = pc ∧ s = subnet_id child
  | EvTemplate c _ _ => c = cc
  | EvSleep secs _ => secs = CHAIN_HEAD_REQUEST_PERIOD
  | _ => False
  end.

Notation wps := (wps bottomup_ok).
Notation running := (λ t, stopped t = false).

Lemma bottomup_wait t r :
  stopped t = false → bottomup_ok t (EvSleep CHAIN_HEAD_REQUEST_PERIOD r).
Proof. by split. Qed.

(** What a submission for [account] relies on. *)
Record submit_ready (epoch : ChainEpoch) (tip : Cid) (account : Address) (t : list Event) : Prop := {
  sr_guarded : guarded bottomup_ok t;
  sr_running : stopped t = false;
  sr_due : bottomup_due epoch account t;
  sr_initialized : seen_initialized cc t;
  sr_account : account ∈ accounts child;
  sr_validator : seen_validator pc (subnet_id child) account t;
  sr_tip : seen_tip_set cc tip t;
}.

(** The calls of a submission that was committed: the template and the previous
    checkpoint were read, and the checkpoint for [epoch] was pushed for [a] and
    waited for. *)
Definition bottomup_submitted (epoch : ChainEpoch) (tip : Cid) (a : Address) (sub : list Event) : Prop :=
  ∃ template response prev cp params m resp cid w,
    sub = [EvWaitMsg pc cid (Done w); EvPush pc m (Done resp);
           EvPrev pc (subnet_id child) (Done response); EvTemplate cc epoch (Done template)] ∧
    prev_cid response = Done prev ∧ is_checkpoint cp epoch template prev tip ∧ cbor_bottomup cp = Ok params ∧
    m = mpool_push_message_new (subnet_actor (subnet_id child)) a SubnetSubmitCheckpoint params ∧
    push_response_cid resp = Done cid.

(** The calls of a submission for [epoch] that failed: nothing was committed. *)
Definition bottomup_failed (epoch : ChainEpoch) (a : Address) (fs : list Event) : Prop :=
  (∃ r rest, fs = rest ++ [EvTemplate cc epoch r]) ∧ commits fs = 0%nat.

Lemma bottomup_submitted_commits epoch tip a sub :
  bottomup_submitted epoch tip a sub → (1 ≤ commits sub)%nat.
Proof. intros (? & ? & ? & ? & ? & ? & ? & ? & ? & -> & _). unfold commits. rewrite filter_cons_True by done. cbn [length]. lia. Qed.

(** A submission that broke off after the calls [fs]. *)
Definition submit_failed (epoch : ChainEpoch) (account : Address) (t t' : list Event) : Prop :=
  ∃ fs, t' = fs ++ t ∧ only_pushes account fs ∧ stopped t' = false ∧ bottomup_failed epoch account fs.

Lemma submit_failed_template epoch account t r :
  submit_failed epoch account t (EvTemplate cc epoch r :: t).
Proof.
  exists [EvTemplate cc epoch r]. split; [done|]. split; [by repeat constructor|]. split; [done|].
  split; [by exists r, []|done].
Qed.

Lemma submit_failed_cons epoch account t t' e :
  push_by (λ b, b = account) e → is_commit e = false → stopped (e :: t') = false →
  submit_failed epoch account t t' → submit_failed epoch account t (e :: t').
Proof.
  intros Hp He Hs (fs & -> & Ho & _ & (r & rest & ->) & Hc). exists (e :: rest ++ [EvTemplate cc epoch r]).
  split; [done|]. split; [by constructor|]. split; [done|]. split.
  - by exists r, (e :: rest).
  - unfold commits in *. rewrite filter_cons. by rewrite decide_False by (by rewrite He).
Qed.

#[local] Hint Resolve submit_failed_template submit_failed_cons : core.
#[local] Hint Extern 1 (is_commit _ = false) => done : core.

Lemma submit_checkpoint_breaks tip epoch account :
  breaks unusable False (submit_checkpoint (W:=W) tip epoch account child cc pc).
Proof.
  unfold submit_checkpoint.
  apply breaks_call; [by intros []|]. intros template.
  apply breaks_call; [by intros []|]. intros response.
  apply breaks_lift; [|intros prev _].
  { intros Ha. right. destruct response as [m|]; [|done]. cbn in *. by destruct (cid_try_from m). }
  apply breaks_lift; [by destruct (cbor_bottomup _)|]. intros params _.
  apply breaks_call; [by intros []|]. intros resp.
  apply breaks_lift; [|intros cid _]. { intros Ha. right. cbn. by destruct (push_response_cid resp). }
  apply breaks_call; [by intros []|]. intros w. apply breaks_ret.
Qed.

Lemma submit_checkpoint_ok tip epoch account t :
  submit_ready epoch tip account t →
  wps (submit_checkpoint (W:=W) tip epoch account child cc pc)
    (λ _ t', ∃ sub, t' = sub ++ t ∧ only_pushes account sub ∧ stopped t' = false ∧
       bottomup_submitted epoch tip account sub)
    (submit_failed epoch account t) t.
Proof.
  intros [Hg Hrun Hdue Hinit Hacc Hval Htip]. unfold submit_checkpoint.
  eapply wps_bind_call; [done|by split|by auto|]. intros template Hg1.
  eapply wps_bind_call; [done|by split|by auto|]. intros response Hg2.
  eapply wps_bind_lift; [done|by auto|]. intros prev Hprev.
  eapply wps_bind_lift; [done|by auto|]. intros params Hparams.
  assert (Hcp : is_checkpoint (fill_checkpoint (checkpoint_new (subnet_id child) epoch) template prev tip)
    epoch template prev tip).
  { split; [apply checkpoint_new_source|]. by split; [apply checkpoint_new_epoch|]. }
  assert (Hcbor : cbor_bottomup (fill_checkpoint (checkpoint_new (subnet_id child) epoch) template prev tip) =
    Ok params) by (destruct (cbor_bottomup _); [by injection Hparams as ->|done]).
  eapply wps_bind_call; [done| |by auto 6|].
  { intros r. split; [done|].
    exists t, epoch, template, response, prev, tip,
      (fill_checkpoint (checkpoint_new (subnet_id child) epoch) template prev tip), params.
    by split_and!. }
  intros resp Hg3.
  eapply wps_bind_lift; [done|by auto 7|]. intros cid Hcid.
  eapply wps_bind_call; [done|split; [done|by do 3 eexists]| |].
  { intros [] Hr; try done; by auto 8. }
  intros w Hg4. apply wps_ret; [done|].
  eexists [_; _; _; _]. split; [done|]. split; [by repeat constructor|]. split; [done|].
  by eexists template, response, prev, _, params, _, resp, cid, w.
Qed.

(** What stays true during the loops for one account. *)
Record account_ready (period : ChainEpoch) (tip : Cid) (account : Address) (t : list Event) : Prop := {
  ar_period : ∃ st0, first_actor t = Some st0 ∧ sa_bottom_up_check_period st0 = period;
  ar_initialized : seen_initialized cc t;
  ar_account : account ∈ accounts child;
  ar_validator : seen_validator pc (subnet_id child) account t;
  ar_tip : seen_tip_set cc tip t;
}.

Lemma account_ready_suffix period tip account t t' :
  t `suffix_of` t' → account_ready period tip account t → account_ready period tip account t'.
Proof. intros Hs [(st0 & ? & ?) ? ? ? ?]. split; eauto. Qed.

(** The reads before a submission make it due. *)
Lemma due_after_reads period account t h hp gateway tip' st :
  (∃ st0, first_actor t = Some st0 ∧ sa_bottom_up_check_period st0 = period) → gateway_read gateway →
  (submission_epoch (bottom_up_checkpoint_voting st) period ≤ head_height h)%Z →
  bottomup_due (submission_epoch (bottom_up_checkpoint_voting st) period) account
    (epoch_reads h hp gateway tip' st ++ t).
Proof.
  intros (st0 & Hst0 & <-) Hgw Hle. exists st0, [], h, hp, gateway, tip', st, t.
  split_and!; [|done|done|by left; constructor|done|done].
  eapply first_actor_suffix; [by eexists|done].
Qed.

Lemma bottomup_lagging_ok fuel period tip account t :
  guarded bottomup_ok t → stopped t = false → account_ready period tip account t →
  wps (bottomup_lagging (W:=W) fuel child cc pc period tip account)
    (λ b t', grew account t t' ∧ stopped t' = negb b) (aborted fuel account t) t.
Proof.
  revert t. induction fuel as [|fuel IH]; intros t Hg Hrun Hready; cbn [bottomup_lagging].
  { apply wps_lift; [done| |done]. exists []. split_and!; [done|constructor|done|right; cbn; lia]. }
  eapply wps_bind_call; [done|split; [done|by left]|by intros []; intros; aborted_now|]. intros h Hg1.
  eapply wps_bind_lift_if; [done|by intros; aborted_now|]. intros e He%epoch_try_from_done. subst e.
  eapply wps_bind_call; [done|split; [done|by right]|by intros []; intros; aborted_now|]. intros hp Hg2.
  eapply wps_bind_lift_if; [done|by intros; aborted_now|]. intros tip' Htip'.
  eapply wps_bind_call; [done| |by intros []; intros; aborted_now|].
  { intros r. split; [done|]. split_and!; [done..|]. exists hp. split; [apply last_head_here|done]. }
  intros st Hg3. set (t3 := _ :: _ :: _ :: t).
  assert (Hgrew : grew account t t3) by (subst t3; auto 6).
  case_match eqn:Hle; [apply Z.leb_le in Hle|by apply wps_ret].
  assert (Hready' : account_ready period tip account t3)
    by (eapply account_ready_suffix; [|exact Hready]; by do 3 apply suffix_cons_r).
  set (epoch := submission_epoch _ period) in *.
  eapply wps_mono; [apply (submit_then_ok _ bottomup_wait _ (bottomup_failed epoch)
    (bottomup_submitted_commits epoch tip) fuel account)| |].
  - apply submit_checkpoint_breaks.
  - apply submit_checkpoint_ok. destruct Hready'. split; try done.
    apply (due_after_reads period account t h hp [] tip' st); [by destruct Hready|by left|done].
  - intros t' Hg' Hrun' Hs. apply IH; [done|done|]. by eapply account_ready_suffix.
  - intros b t' _ _ (new & -> & Ho & Hs & _). split; [|done]. eapply grew_trans; [done|by eexists].
  - intros t' _ _ Hab. by eapply aborted_grew.
Qed.

Lemma due_grew epoch a b t t' :
  (b = a → repeated a (accounts child)) → grew b t t' → bottomup_due epoch a t → bottomup_due epoch a t'.
Proof.
  intros Hab (new & -> & Ho) (st0 & since & h & hp & g & tip' & st & before & Hf & -> & Hg & Hn & Hrest).
  exists st0, (new ++ since), h, hp, g, tip', st, before. split_and!; try apply Hrest; [| |done|].
  - eapply first_actor_suffix; [|done]. by eexists.
  - by rewrite app_assoc.
  - destruct (decide (b = a)) as [->|Hne]; [right; by apply Hab|]. destruct Hn as [Hn|Hn]; [left|by right].
    apply Forall_app. split; [|done]. by eapply only_no_pushes.
Qed.

(** What the loop over the accounts relies on. *)
Definition bottomup_ready (period epoch : ChainEpoch) (tip : Cid) (a : Address) (t : list Event) : Prop :=
  account_ready period tip a t ∧ bottomup_due epoch a t.

Lemma bottomup_ready_grew period epoch tip a b t t' :
  (b = a → repeated a (accounts child)) → grew b t t' →
  bottomup_ready period epoch tip a t → bottomup_ready period epoch tip a t'.
Proof.
  intros Hab Hg [Hr Hd]. split; [|by eapply due_grew]. eapply account_ready_suffix; [|done].
  destruct Hg as (new & -> & _). by eexists.
Qed.

Lemma bottomup_account_ok fuel period epoch tip a t :
  guarded bottomup_ok t → stopped t = false → bottomup_ready period epoch tip a t →
  wps (bottomup_account (W:=W) fuel child cc pc period epoch tip a)
    (account_done (bottomup_submitted epoch tip) (bottomup_failed epoch) a t) (aborted (S fuel) a t) t.
Proof.
  intros Hg Hrun [Hready Hdue].
  apply (submit_then_ok _ bottomup_wait _ _ (bottomup_submitted_commits epoch tip)).
  - apply submit_checkpoint_breaks.
  - apply submit_checkpoint_ok. destruct Hready. by split.
  - intros t' Hg' Hrun' Hs. apply bottomup_lagging_ok; [done|done|]. by eapply account_ready_suffix.
Qed.

(** The four reads with which an iteration starts, the latest first. *)
Definition iteration_reads (h hp : ChainHeadResponse) (tip tip' : Cid) (gw : GatewayState)
    (st : SubnetActorState) : list Event :=
  epoch_reads h hp [EvGateway cc tip (Done gw)] tip' st.

(** An iteration after the trace [t] that ends with [r] and the trace [t']. *)
Definition iteration_outcome (fuel : nat) (period : ChainEpoch) (t : list Event) (r : outcome bool) (t' : list Event) : Prop :=
  (is_done r = false ∧ ∃ reads, t' = reads ++ t ∧ Forall (push_by (λ _, False)) reads ∧ Exists unusable reads) ∨
  (∃ h hp tip tip' gw st new,
    t' = new ++ iteration_reads h hp tip tip' gw st ++ t ∧ first_tip_set h = Done tip ∧
    let epoch := submission_epoch (bottom_up_checkpoint_voting st) period in
    if gw_initialized gw && (epoch <=? head_height h)%Z then
      ∃ set, validators_of st = Done set ∧
        accounts_handled (bottomup_submitted epoch tip) (bottomup_failed epoch) fuel
          (filter (λ a, a ∈ set) (accounts child)) r new
    else waited r new).

Definition period_known (period : ChainEpoch) (t : list Event) : Prop :=
  ∃ st0, first_actor t = Some st0 ∧ sa_bottom_up_check_period st0 = period.

(** The reads of an iteration make a due submission ready for every account. *)
Lemma iteration_ready period h hp tip tip' gw st set a t :
  period_known period t → gw_initialized gw = true → first_tip_set h = Done tip →
  (submission_epoch (bottom_up_checkpoint_voting st) period ≤ head_height h)%Z →
  validators_of st = Done set → a ∈ accounts child → a ∈ set →
  bottomup_ready period (submission_epoch (bottom_up_checkpoint_voting st) period) tip a
    (iteration_reads h hp tip tip' gw st ++ t).
Proof.
  intros Hperiod Hinit Htip Hle Hset Hacc Hin. split.
  - destruct Hperiod as (st0 & Hst0 & <-). split; [exists st0; split; [|done]| | | |].
    + eapply first_actor_suffix; [by eexists|done].
    + exists tip, gw. split; [unfold iteration_reads, epoch_reads; set_solver|done].
    + done.
    + eapply validators_of_seen; [done|done|apply list_elem_of_here].
    + exists h. split; [unfold iteration_reads, epoch_reads; set_solver|done].
  - apply due_after_reads; [done|right; by eexists _, _|done].
Qed.

(** What an iteration leaves behind when it breaks off. *)
Definition iteration_broken (fuel : nat) (period : ChainEpoch) (t t' : list Event) : Prop :=
  stopped t' = false ∧ ∀ r, is_done r = false → iteration_outcome fuel period t r t'.

Lemma broken_reads fuel period t reads :
  Forall (push_by (λ _, False)) reads → Exists unusable reads → stopped (reads ++ t) = false →
  iteration_broken fuel period t (reads ++ t).
Proof. intros Hp Hu Hs. split; [done|]. intros r Hr. left. split; [done|]. by exists reads. Qed.

Ltac broken_now :=
  lazymatch goal with
  | |- iteration_broken _ _ ?t ?t' =>
      let t' := eval cbv [iteration_reads epoch_reads app] in t' in
      let new := calls_since t' t in apply (broken_reads _ _ t new);
      [by repeat constructor|unusable_now|done]
  end.

(** The conditional part of an iteration and the wait, after its reads. *)
Lemma bottomup_branch_ok fuel period h hp tip tip' gw st t :
  let epoch := submission_epoch (bottom_up_checkpoint_voting st) period in
  let start := iteration_reads h hp tip tip' gw st ++ t in
  guarded bottomup_ok start → period_known period t → first_tip_set h = Done tip →
  wps (go ← (if gw_initialized gw && (epoch <=? head_height h)%Z then
         validator_set ← lift (validators_of st);
         _ ← lift (assert_that (length (head_cids h) =? 1)%nat);
         child_tip_set ← lift (first_tip_set h);
         for_accounts validator_set (bottomup_account (W:=W) fuel child cc pc period epoch child_tip_set)
           (accounts child)
       else mret true);
       if (go : bool) then wait_next_iteration CHAIN_HEAD_REQUEST_PERIOD else mret false)
    (λ b t', stopped t' = negb b ∧ iteration_outcome fuel period t (Done b) t')
    (iteration_broken fuel period t) start.
Proof.
  intros epoch start Hg Hperiod Htip.
  destruct (gw_initialized gw && (epoch <=? head_height h)%Z) eqn:Hdue.
  - pose proof Hdue as [Hinit Hle%Z.leb_le]%andb_true_iff.
    apply wps_bind_assoc. eapply wps_bind_lift_if; [done|intros; subst start; broken_now|]. intros set Hset.
    apply wps_bind_assoc. eapply wps_bind_lift_if; [done|intros; subst start; broken_now|]. intros _ _.
    apply wps_bind_assoc. eapply wps_bind_lift_if; [done|intros; subst start; broken_now|]. rewrite Htip. intros _ [= <-].
    assert (Hready : ∀ a, a ∈ accounts child → a ∈ set → bottomup_ready period epoch tip a start)
      by (intros a Hacc Hin; by eapply iteration_ready).
    eapply wps_mono.
    + apply (accounts_then_wait _ bottomup_wait (bottomup_submitted epoch tip) (bottomup_failed epoch)
        (bottomup_submitted_commits epoch tip) (bottomup_ready period epoch tip) (λ a, repeated a (accounts child)));
        [by intros; eapply bottomup_ready_grew|by intros; apply bottomup_account_ok|done|done|done|done].
    + intros b t' _ _ (Hs & new & -> & Hh). split; [done|]. right. exists h, hp, tip, tip', gw, st, new.
      split_and!; [done|done|]. cbv zeta. fold epoch. rewrite Hdue. by exists set.
    + intros t' _ _ (Hs & new & -> & Hh). split; [done|]. intros r Hr. right.
      exists h, hp, tip, tip', gw, st, new. split_and!; [done|done|]. cbv zeta. fold epoch. rewrite Hdue.
      exists set. auto.
  - assert (Hout : ∀ r new, waited r new → iteration_outcome fuel period t r (new ++ start)).
    { intros r new Hw. right. exists h, hp, tip, tip', gw, st, new. split_and!; [done|done|].
      cbv zeta. fold epoch. by rewrite Hdue. }
    eapply wps_mono; [by apply (wait_ok _ bottomup_wait)| |].
    + intros b t' _ _ [-> Hs]. split; [done|]. by apply (Hout (Done b) [_]).
    + intros t' _ _ (r' & Hr' & -> & Hs). split; [done|]. intros r Hr. apply (Hout r [_]).
      by destruct r; [|exists r'..].
Qed.

Lemma bottomup_iteration_ok fuel period t :
  guarded bottomup_ok t → stopped t = false → period_known period t →
  wps (bottomup_iteration (W:=W) fuel child cc pc period)
    (λ b t', stopped t' = negb b ∧ iteration_outcome fuel period t (Done b) t')
    (iteration_broken fuel period t) t.
Proof.
  intros Hg Hrun Hperiod. unfold bottomup_iteration.
  eapply wps_bind_call; [done|split; [done|by left]|intros [] ?; try done; broken_now|]. intros h Hg1.
  eapply wps_bind_lift_if; [done|intros; broken_now|]. intros e He%epoch_try_from_done. subst e.
  eapply wps_bind_lift_if; [done|intros; broken_now|]. intros tip Htip.
  eapply wps_bind_call; [done| |intros [] ?; try done; broken_now|].
  { intros r. split; [done|]. split; [done|]. exists h. split; [apply last_head_here|done]. }
  intros gw Hg2.
  eapply wps_bind_call; [done|split; [done|by right]|intros [] ?; try done; broken_now|]. intros hp Hg3.
  eapply wps_bind_lift_if; [done|intros; broken_now|]. intros _ _.
  eapply wps_bind_lift_if; [done|intros; broken_now|]. intros tip' Htip'.
  eapply wps_bind_call; [done| |intros [] ?; try done; broken_now|].
  { intros r. split; [done|]. split_and!; [done..|]. exists hp. split; [apply last_head_here|done]. }
  intros st Hg4. by apply (bottomup_branch_ok fuel period h hp tip tip' gw st t).
Qed.

Lemma bottomup_loop_ok fuel period t :
  guarded bottomup_ok t → stopped t = false → period_known period t →
  wps (bottomup_loop (W:=W) fuel child cc pc period) (λ _ t', stopped t' = true) running t.
Proof.
  revert t. induction fuel as [|fuel IH]; intros t Hg Hrun Hperiod; cbn [bottomup_loop].
  { by apply wps_lift. }
  eapply wps_bind.
  { eapply wps_mono; [by apply bottomup_iteration_ok|by intros b t' _ _ HQ; exact HQ|by intros t' _ _ [Hs _]]. }
  intros go t' Hg' Hs' [Hs _]. destruct go; [|by apply wps_ret].
  apply IH; [done|done|]. destruct Hperiod as (st0 & ? & ?). exists st0. eauto.
Qed.

Lemma manage_bottomup_ok fuel :
  wps (manage_bottomup_checkpoints (W:=W) fuel child parent) (λ _ t', stopped t' = true) running [].
Proof.
  unfold manage_bottomup_checkpoints. apply wps_context.
  eapply wps_bind_call; [done|split; [done|by right]|done|]. intros hp Hg1.
  eapply wps_bind_lift; [done|done|]. intros tip Htip.
  eapply wps_bind_call; [done| |done|].
  { intros r. split; [done|]. split_and!; [done..|]. exists hp. split; [apply last_head_here|done]. }
  intros st Hg2. apply bottomup_loop_ok; [done|done|]. by exists st.
Qed.

(** C5 (bottom-up submissions): in any run of the bottom-up manager, whatever the
    nodes answer and whatever the configuration, every call is one that [bottomup_ok]
    allows after the calls before it.  In particular every pushed message goes to the
    parent, to the child's subnet actor, from a configured account that was seen among
    the validators; it carries the checkpoint of the child for an epoch that is one
    period after the last executed one and that the child's head has reached,
    according to states read since the account's last push (or since an earlier
    one, if the configuration names the account more than once), with the
    template's children and messages and the previous checkpoint read just before;
    nothing is pushed before the gateway of the child was seen initialised; the
    manager then waits for the very message it pushed.  It returns without error
    exactly when the stop notification ended a wait, and does nothing after it. *)
Theorem bottomup_submissions_justified fuel (w : W) :
  let p := manage_bottomup_checkpoints fuel child parent (mkRun w []) in
  (∀ new e old, trace p.2 = new ++ e :: old → bottomup_ok old e) ∧
  (p.1 = Done () ↔ stopped (trace p.2) = true).
Proof.
  intros p. destruct (manage_bottomup_ok fuel w) as (Hg & _ & Hpost). fold p in Hg, Hpost. split.
  - intros new e old Ht. by eapply guarded_split in Ht as [? _].
  - destruct p.1 as [[]| | |]; split; try done; congruence.
Qed.

(** C19 (no validator is left out): an iteration of the bottom-up manager, however it
    ends, falls under one of these cases, after any calls that
    the manager may have made before without being told to stop and with the period it
    has read.  It breaks off without a push because a call
    failed or its answer cannot be used.  Or it has read the child's head and
    gateway, the parent's head and the subnet actor; if by these no checkpoint is
    due, it only waits.  If one is due, the configured accounts in the validator set
    are handled one after the other: each either has the checkpoint for the due epoch
    pushed to the parent and committed, or its submission for that epoch failed
    without a commit and the manager waited.  When the iteration ends regularly, all of
    them have been handled; when it is told to stop, those up to the wait that was
    ended; and it breaks off only because of an unusable answer while it handles an
    account, or after more than [fuel] committed checkpoints of one account. *)
Theorem bottomup_iteration_complete fuel period (w : W) t :
  guarded bottomup_ok t → stopped t = false → period_known period t →
  let p := bottomup_iteration fuel child cc pc period (mkRun w t) in
  iteration_outcome fuel period t p.1 (trace p.2) ∧ (p.1 = Done false ↔ stopped (trace p.2) = true).
Proof.
  intros Hg Hs Hp p. destruct (bottomup_iteration_ok fuel period t Hg Hs Hp w) as (_ & _ & Hpost).
  fold p in Hpost. destruct p.1 as [[]| | |]; destruct Hpost as [Hs' Ho]; (split; [by auto|]);
    rewrite Hs'; done.
Qed.
End bottomup.

(** ** A run *)
Module BottomUpDemo.
#[local] Existing Instances Demo.resolver_types Demo.agent_types.
#[local] Existing Instances DemoNode.checkpoints DemoNode.checkpoints_laws DemoNode.client DemoNode.notify.
Import DemoNode.

Definition run := manage_bottomup_checkpoints 5 child parent (mkRun (mkNode 0 0) []).

(** The first account submits the checkpoint that is due and the lagging one,
    then the second submits the one that was due; the third is no validator. *)
Example bottomup_run_pushes :
  pushes (trace run.2) =
    [("t1b", SubnetSubmitCheckpoint); ("t1a", SubnetSubmitCheckpoint); ("t1a", SubnetSubmitCheckpoint)].
Proof. vm_compute. reflexivity. Qed.

(** With an account that is configured twice, the second submission repeats the
    epoch that was due before the first one, although it has been executed. *)
Definition child_twice : Subnet :=
  mkSubnet (Demo.subnet "/root/t01") (Demo.addr "t064") "/root/t01" "http://child" None None
    [Demo.addr "t1a"; Demo.addr "t1a"].

Definition template_epochs (t : list Event) : list ChainEpoch :=
  omap (λ e, match e with EvTemplate _ epoch _ => Some epoch | _ => None end) t.

Example repeated_account_submits_again :
  template_epochs (trace (manage_bottomup_checkpoints 5 child_twice parent (mkRun (mkNode 0 0) [])).2) =
    [10; 20; 10]%Z.
Proof. vm_compute. reflexivity. Qed.

Lemma bottomup_submissions_justified_witness :
  run.1 = Done () ∧ ∀ new e old, trace run.2 = new ++ e :: old → bottomup_ok child parent old e.
Proof.
  destruct (bottomup_submissions_justified child parent 5 (mkNode 0 0)) as [Hok Hdone].
  split; [|exact Hok]. vm_compute. reflexivity.
Defined.

(** The trace after the manager's first two calls. *)
Definition start : list Event :=
  [EvSubnetActor (from_subnet parent) (subnet_id child) (Demo.cid "tip")
     (Done (actor_state (mkNode 0 0))); EvHead (from_subnet parent) (Done chain)].

Lemma start_guarded : guarded (bottomup_ok child parent) start.
Proof.
  split; [|split; [split; [done|by right]|done]].
  split; [done|]. split_and!; [done|done|]. by exists chain.
Qed.

Lemma bottomup_iteration_complete_witness :
  let p := bottomup_iteration (Notify0 := patient) 5 child (from_subnet child) (from_subnet parent)
             10%Z (mkRun (mkNode 0 0) start) in
  is_done p.1 = true ∧ iteration_outcome child parent 5 10%Z start p.1 (trace p.2).
Proof.
  cbv zeta. split; [vm_compute; reflexivity|].
  apply bottomup_iteration_complete; [exact start_guarded|done|by eexists].
Defined.
End BottomUpDemo.
