(* ===== verification/TopDown.v ===== *)
(** * The top-down checkpoint manager

    [src/manager/topdown.rs]: an endless loop, given fuel here, that watches
    the parent's chain and submits the parent's top-down messages to the
    child's gateway, for every configured account that is a validator. *)
From S2P Require Import Prelude Types Records Outcome Json Lotus LotusApi Checkpointing.

Section manager.
Context {W : Type} `{!ResolverTypes} `{!AgentTypes} `{!Checkpoints} `{!LotusClient W} `{!Notify W}.

Notation io := (io W Event).

Definition submit_topdown_checkpoint (epoch : ChainEpoch) (curr_parent_tip_set curr_child_tip_set : Cid)
    (account : Address) (child_subnet : SubnetID) (child_client parent_client : Client) : io () :=
  state ← ipc_read_gateway_state child_client curr_child_tip_set;
  let nonce := applied_topdown_nonce state in
  gateway ← lift (ok_or_fail "invalid address" (address_from_str GATEWAY_ACTOR_ADDRESS));
  submission_tip_set ← get_tipset_by_height parent_client epoch curr_parent_tip_set;
  submission_tip_set ← lift (first_tip_set submission_tip_set);
  top_down_msgs ← ipc_get_topdown_msgs parent_client child_subnet gateway submission_tip_set nonce;
  let topdown_checkpoint := mkTopDown epoch top_down_msgs in
  params ← lift (of_result (cbor_topdown topdown_checkpoint));
  let message := mpool_push_message_new gateway account GatewaySubmitTopDownCheckpoint params in
  mem_push_response ← mpool_push_message child_client message;
  message_cid ← lift (push_response_cid mem_push_response);
  _ ← state_wait_msg child_client message_cid;
  mret ().

(** The inner loop for lagging checkpoints. *)
Fixpoint topdown_lagging (fuel : nat) (child : Subnet) (child_client parent_client : Client)
    (period : ChainEpoch) (account : Address) : io bool :=
  match fuel with
  | O => lift OutOfFuel
  | S fuel =>
      parent_head ← chain_head parent_client;
      curr_epoch ← lift (epoch_try_from (head_height parent_head));
      parent_tip_set ← lift (first_tip_set parent_head);
      child_head ← chain_head child_client;
      child_tip_set ← lift (first_tip_set child_head);
      child_gw_state ← ipc_read_gateway_state child_client child_tip_set;
      let epoch := submission_epoch (top_down_checkpoint_voting child_gw_state) period in
      if (epoch <=? curr_epoch)%Z then
        r ← attempt (submit_topdown_checkpoint epoch parent_tip_set child_tip_set account
                       (subnet_id child) child_client parent_client);
        match r with
        | Err _ => wait_next_iteration CHAIN_HEAD_REQUEST_PERIOD
        | Ok _ => topdown_lagging fuel child child_client parent_client period account
        end
      else mret true
  end.

(** The body of the loop over the accounts, for an account that is a validator. *)
Definition topdown_account (fuel : nat) (child : Subnet) (child_client parent_client : Client)
    (period : ChainEpoch) (epoch : ChainEpoch) (parent_tip_set child_tip_set : Cid)
    (account : Address) : io bool :=
  r ← attempt (submit_topdown_checkpoint epoch parent_tip_set child_tip_set account
                 (subnet_id child) child_client parent_client);
  match r with
  | Err _ => wait_next_iteration CHAIN_HEAD_REQUEST_PERIOD
  | Ok _ => topdown_lagging fuel child child_client parent_client period account
  end.

(** The body of the main loop. *)
Definition topdown_iteration (fuel : nat) (child : Subnet) (child_client parent_client : Client)
    (period : ChainEpoch) : io bool :=
  parent_head ← chain_head parent_client;
  curr_epoch ← lift (epoch_try_from (head_height parent_head));
  parent_tip_set ← lift (first_tip_set parent_head);
  child_head ← chain_head child_client;
  child_tip_set ← lift (first_tip_set child_head);
  child_gw_state ← ipc_read_gateway_state child_client child_tip_set;
  let epoch := submission_epoch (top_down_checkpoint_voting child_gw_state) period in
  go ← (if gw_initialized child_gw_state && (epoch <=? curr_epoch)%Z then
          subnet_actor_state ←
            ipc_read_subnet_actor_state parent_client (subnet_id child) parent_tip_set;
          validator_set ← lift (validators_of subnet_actor_state);
          for_accounts validator_set
            (topdown_account fuel child child_client parent_client period epoch parent_tip_set
               child_tip_set)
            (accounts child)
        else mret true);
  if (go : bool) then wait_next_iteration CHAIN_HEAD_REQUEST_PERIOD else mret false.

Fixpoint topdown_loop (fuel : nat) (child : Subnet) (child_client parent_client : Client)
    (period : ChainEpoch) : io () :=
  match fuel with
  | O => lift OutOfFuel
  | S fuel =>
      go ← topdown_iteration fuel child child_client parent_client period;
      if (go : bool) then topdown_loop fuel child child_client parent_client period else mret ()
  end.

Definition manage_topdown_checkpoints (fuel : nat) (child parent : Subnet) : io () :=
  let child_client := from_subnet child in
  let parent_client := from_subnet parent in
  with_context ("error in manage_topdown_checkpoints() for subnet pair ("
                +:+ subnet_to_string (subnet_id parent) +:+ ", "
                +:+ subnet_to_string (subnet_id child) +:+ ")") (
    child_head ← chain_head child_client;
    child_tip_set ← lift (first_tip_set child_head);
    state ← ipc_read_gateway_state child_client child_tip_set;
    topdown_loop fuel child child_client parent_client (gw_top_down_check_period state)).
End manager.

(** ** What a top-down manager may do *)

Section topdown.
Context {W : Type} `{!ResolverTypes} `{!AgentTypes} `{!Checkpoints} `{!LotusClient W} `{!Notify W}.
Variable child parent : Subnet.

Notation cc := (from_subnet child).
Notation pc := (from_subnet parent).

(** The three reads that decide about a submission, the latest first. *)
Definition due_reads (h h' : ChainHeadResponse) (tip' : Cid) (gw : GatewayState) : list Event :=
  [EvGateway cc tip' (Done gw); EvHead cc (Done h'); EvHead pc (Done h)].

(** The epoch of a submission by [a] is due: it is one period after the last
    executed epoch and was reached by the parent, according to reads since which [a]
    has pushed nothing, unless the configuration names [a] more than once; [tip] and
    [tip'] are the tip sets of the parent and the child in these reads. *)
Definition topdown_due (epoch : ChainEpoch) (tip tip' : Cid) (a : Address) (t : list Event) : Prop :=
  ∃ gw0 since h h' gw before,
    first_gateway t = Some gw0 ∧ t = since ++ due_reads h h' tip' gw ++ before ∧
    (no_pushes a since ∨ repeated a (accounts child)) ∧
    first_tip_set h = Done tip ∧ first_tip_set h' = Done tip' ∧
    epoch = submission_epoch (top_down_checkpoint_voting gw) (gw_top_down_check_period gw0) ∧
    (epoch ≤ head_height h)%Z.

(** A push follows the three reads of a submission: the child's gateway, for
    the nonce; the parent's tip set at the submission epoch; and the messages
    from that nonce on at that tip set. *)
Definition topdown_push_ok (old : list Event) (c : Client) (m : MpoolPushMessage) : Prop :=
  ∃ before epoch gateway gw tip tip' at_epoch stip msgs params,
    address_from_str GATEWAY_ACTOR_ADDRESS = Some gateway ∧
    old = EvTopdown pc (subnet_id child) gateway stip (applied_topdown_nonce gw) (Done msgs)
          :: EvTipset pc epoch tip (Done at_epoch) :: EvGateway cc tip' (Done gw) :: before ∧
    first_tip_set at_epoch = Done stip ∧
    topdown_due epoch tip tip' (msg_from m) before ∧ seen_initialized cc before ∧
    msg_from m ∈ accounts child ∧ seen_validator pc (subnet_id child) (msg_from m) before ∧
    cbor_topdown (mkTopDown epoch msgs) = Ok params ∧
    c = cc ∧
    m = mpool_push_message_new gateway (msg_from m) GatewaySubmitTopDownCheckpoint params.

Definition topdown_ok (old : list Event) (e : Event) : Prop :=
  stopped old = false ∧
  match e with
  | EvPush c m _ => topdown_push_ok old c m
  | EvWaitMsg c cid _ =>
      ∃ m r before, old = EvPush c m (Done r) :: before ∧ push_response_cid r = Done cid
  | EvHead c _ => c = cc ∨ c = pc
  | EvGateway c tip _ => c = cc ∧ seen_tip_set cc tip old
  | EvSubnetActor c s tip _ => c = pc ∧ s = subnet_id child ∧ seen_tip_set pc tip old
  | EvTipset c _ tip _ => c = pc ∧ seen_tip_set pc tip old
  | EvTopdown c s _ _ _ _ => c = pc ∧ s = subnet_id child
  | EvSleep secs _ => secs = CHAIN_HEAD_REQUEST_PERIOD
  | _ => False
  end.

Notation wps := (wps topdown_ok).
Notation running := (λ t, stopped t = false).

Ltac broken_read HE :=
  lazymatch goal with
  | |- _ ?t' =>
      lazymatch type of HE with
      | ∀ new, _ → _ → stopped (new ++ ?t) = false → _ =>
          let t' := eval cbv [due_reads app] in t' in
          let new := calls_since t' t in apply (HE new); [by repeat constructor|unusable_now|done]
      end
  end.

Lemma topdown_wait t r :
  stopped t = false → topdown_ok t (EvSleep CHAIN_HEAD_REQUEST_PERIOD r).
Proof. by split. Qed.

Record topdown_submit_ready (epoch : ChainEpoch) (tip tip' : Cid) (account : Address) (t : list Event) : Prop := {
  tsr_guarded : guarded topdown_ok t;
  tsr_running : stopped t = false;
  tsr_due : topdown_due epoch tip tip' account t;
  tsr_initialized : seen_initialized cc t;
  tsr_account : account ∈ accounts child;
  tsr_validator : seen_validator pc (subnet_id child) account t;
}.

Lemma topdown_due_tips epoch tip tip' a t :
  topdown_due epoch tip tip' a t → seen_tip_set pc tip t ∧ seen_tip_set cc tip' t.
Proof.
  intros (gw0 & since & h & h' & gw & before & _ & -> & _ & Ht & Ht' & _).
  split; [exists h|exists h']; (split; [|done]); unfold due_reads; set_solver.
Qed.

(** The calls of a submission that was committed: the nonce, the tip set at [epoch]
    and the messages were read, and the checkpoint was pushed for [a] and waited
    for. *)
Definition topdown_submitted (epoch : ChainEpoch) (tip tip' : Cid) (a : Address) (sub : list Event) : Prop :=
  ∃ gateway gw at_epoch stip msgs params m resp cid w,
    sub = [EvWaitMsg cc cid (Done w); EvPush cc m (Done resp);
           EvTopdown pc (subnet_id child) gateway stip (applied_topdown_nonce gw) (Done msgs);
           EvTipset pc epoch tip (Done at_epoch); EvGateway cc tip' (Done gw)] ∧
    address_from_str GATEWAY_ACTOR_ADDRESS = Some gateway ∧ first_tip_set at_epoch = Done stip ∧
    cbor_topdown (mkTopDown epoch msgs) = Ok params ∧
    m = mpool_push_message_new gateway a GatewaySubmitTopDownCheckpoint params ∧
    push_response_cid resp = Done cid.

(** The calls of a submission that failed: nothing was committed. *)
Definition topdown_failed (tip' : Cid) (a : Address) (fs : list Event) : Prop :=
  (∃ r rest, fs = rest ++ [EvGateway cc tip' r]) ∧ commits fs = 0%nat.

Lemma topdown_submitted_commits epoch tip tip' a sub :
  topdown_submitted epoch tip tip' a sub → (1 ≤ commits sub)%nat.
Proof.
  intros (? & ? & ? & ? & ? & ? & ? & ? & ? & ? & -> & _). unfold commits.
  rewrite filter_cons_True by done. cbn [length]. lia.
Qed.

(** A submission that broke off after the calls [fs]. *)
Definition topdown_submit_failed (tip' : Cid) (account : Address) (t t' : list Event) : Prop :=
  ∃ fs, t' = fs ++ t ∧ only_pushes account fs ∧ stopped t' = false ∧ topdown_failed tip' account fs.

Lemma topdown_submit_failed_gateway tip' account t r :
  topdown_submit_failed tip' account t (EvGateway cc tip' r :: t).
Proof.
  exists [EvGateway cc tip' r]. split; [done|]. split; [by repeat constructor|]. split; [done|].
  split; [by exists r, []|done].
Qed.

Lemma topdown_submit_failed_cons tip' account t t' e :
  push_by (λ b, b = account) e → is_commit e = false → stopped (e :: t') = false →
  topdown_submit_failed tip' account t t' → topdown_submit_failed tip' account t (e :: t').
Proof.
  intros Hp He Hs (fs & -> & Ho & _ & (r & rest & ->) & Hc). exists (e :: rest ++ [EvGateway cc tip' r]).
  split; [done|]. split; [by constructor|]. split; [done|]. split.
  - by exists r, (e :: rest).
  - unfold commits in *. rewrite filter_cons. by rewrite decide_False by (by rewrite He).
Qed.

#[local] Hint Resolve topdown_submit_failed_gateway topdown_submit_failed_cons : core.
#[local] Hint Extern 1 (is_commit _ = false) => done : core.

Lemma submit_topdown_breaks epoch tip tip' account :
  breaks unusable False (submit_topdown_checkpoint (W:=W) epoch tip tip' account (subnet_id child) cc pc).
Proof.
  unfold submit_topdown_checkpoint.
  apply breaks_call; [by intros []|]. intros gw.
  apply breaks_lift; [by destruct (address_from_str _)|]. intros gateway _.
  apply breaks_call; [by intros []|]. intros at_epoch.
  apply breaks_lift; [|intros stip _].
  { intros Ha. right. cbn. right. left. by destruct (first_tip_set at_epoch). }
  apply breaks_call; [by intros []|]. intros msgs.
  apply breaks_lift; [by destruct (cbor_topdown _)|]. intros params _.
  apply breaks_call; [by intros []|]. intros resp.
  apply breaks_lift; [|intros cid _]. { intros Ha. right. cbn. by destruct (push_response_cid resp). }
  apply breaks_call; [by intros []|]. intros w. apply breaks_ret.
Qed.

Lemma submit_topdown_ok epoch tip tip' account t :
  topdown_submit_ready epoch tip tip' account t →
  wps (submit_topdown_checkpoint (W:=W) epoch tip tip' account (subnet_id child) cc pc)
    (λ _ t', ∃ sub, t' = sub ++ t ∧ only_pushes account sub ∧ stopped t' = false ∧
       topdown_submitted epoch tip tip' account sub)
    (topdown_submit_failed tip' account t) t.
Proof.
  intros [Hg Hrun Hdue Hinit Hacc Hval]. unfold submit_topdown_checkpoint.
  destruct (topdown_due_tips _ _ _ _ _ Hdue) as [Htip Htip'].
  eapply wps_bind_call; [done|by split|by auto|]. intros gw Hg1.
  eapply wps_bind_lift; [done|by auto|]. intros gateway Hgate.
  eapply wps_bind_call; [done| |by auto|].
  { intros r. split; [done|]. split; [done|]. eapply seen_tip_set_suffix; [|done]. by apply suffix_cons_r. }
  intros at_epoch Hg2.
  eapply wps_bind_lift; [done|by auto|]. intros stip Hstip.
  eapply wps_bind_call; [done|by split|by auto 6|]. intros msgs Hg3.
  eapply wps_bind_lift; [done|by auto 6|]. intros params Hparams.
  assert (address_from_str GATEWAY_ACTOR_ADDRESS = Some gateway)
    by (destruct (address_from_str _); [by injection Hgate as ->|done]).
  assert (cbor_topdown (mkTopDown epoch msgs) = Ok params)
    by (destruct (cbor_topdown _); [by injection Hparams as ->|done]).
  eapply wps_bind_call; [done| |by auto 7|].
  { intros r. split; [done|].
    by exists t, epoch, gateway, gw, tip, tip', at_epoch, stip, msgs, params. }
  intros resp Hg4.
  eapply wps_bind_lift; [done|by auto 8|]. intros cid Hcid.
  eapply wps_bind_call; [done|split; [done|by do 3 eexists]| |].
  { intros [] Hr; try done; by auto 9. }
  intros w Hg5. apply wps_ret; [done|].
  eexists [_; _; _; _; _]. split; [done|]. split; [by repeat constructor|]. split; [done|].
  by eexists gateway, gw, at_epoch, stip, msgs, params, _, resp, cid, w.
Qed.

(** What stays true during the loops for one account. *)
Record topdown_standing (period : ChainEpoch) (account : Address) (t : list Event) : Prop := {
  ts_period : ∃ gw0, first_gateway t = Some gw0 ∧ gw_top_down_check_period gw0 = period;
  ts_initialized : seen_initialized cc t;
  ts_account : account ∈ accounts child;
  ts_validator : seen_validator pc (subnet_id child) account t;
}.

Lemma topdown_standing_suffix period account t t' :
  t `suffix_of` t' → topdown_standing period account t → topdown_standing period account t'.
Proof. intros Hs [(gw0 & ? & ?) ? ? ?]. split; eauto. Qed.

Definition topdown_period_known (period : ChainEpoch) (t : list Event) : Prop :=
  ∃ gw0, first_gateway t = Some gw0 ∧ gw_top_down_check_period gw0 = period.

Lemma topdown_due_after_reads period a since t h h' tip tip' gw :
  topdown_period_known period t → no_pushes a since →
  first_tip_set h = Done tip → first_tip_set h' = Done tip' →
  (submission_epoch (top_down_checkpoint_voting gw) period ≤ head_height h)%Z →
  topdown_due (submission_epoch (top_down_checkpoint_voting gw) period) tip tip' a
    (since ++ due_reads h h' tip' gw ++ t).
Proof.
  intros (gw0 & Hgw0 & <-) Hn Htip Htip' Hle.
  exists gw0, since, h, h', gw, t. split_and!; try done; [|by left].
  eapply first_gateway_suffix; [|done]. rewrite app_assoc. by eexists.
Qed.

(** The reads themselves are allowed; [E] must hold where they break off. *)
Lemma due_reads_ok {A} (f : ChainEpoch → Cid → Cid → GatewayState → io W Event A) Q (E : list Event → Prop) t :
  guarded topdown_ok t → stopped t = false →
  (∀ new, Forall (push_by (λ _, False)) new → Exists unusable new → stopped (new ++ t) = false → E (new ++ t)) →
  (∀ h tip h' tip' gw, first_tip_set h = Done tip → first_tip_set h' = Done tip' →
     guarded topdown_ok (due_reads h h' tip' gw ++ t) →
     wps (f (head_height h) tip tip' gw) Q E (due_reads h h' tip' gw ++ t)) →
  wps (parent_head ← chain_head pc;
       curr_epoch ← lift (epoch_try_from (head_height parent_head));
       parent_tip_set ← lift (first_tip_set parent_head);
       child_head ← chain_head cc;
       child_tip_set ← lift (first_tip_set child_head);
       child_gw_state ← ipc_read_gateway_state cc child_tip_set;
       f curr_epoch parent_tip_set child_tip_set child_gw_state) Q E t.
Proof.
  intros Hg Hrun HE Hf.
  eapply wps_bind_call; [done|split; [done|by right]|intros [] ?; try done; broken_read HE|]. intros h Hg1.
  eapply wps_bind_lift_if; [done|intros; broken_read HE|]. intros e ->%epoch_try_from_done.
  eapply wps_bind_lift_if; [done|intros; broken_read HE|]. intros tip Htip.
  eapply wps_bind_call; [done|split; [done|by left]|intros [] ?; try done; broken_read HE|]. intros h' Hg2.
  eapply wps_bind_lift_if; [done|intros; broken_read HE|]. intros tip' Htip'.
  eapply wps_bind_call; [done| |intros [] ?; try done; broken_read HE|by intros gw Hg3; apply Hf].
  intros r. split; [done|]. split; [done|]. exists h'. split; [apply list_elem_of_here|done].
Qed.

Lemma topdown_lagging_ok fuel period account t :
  guarded topdown_ok t → stopped t = false → topdown_standing period account t →
  wps (topdown_lagging (W:=W) fuel child cc pc period account)
    (λ b t', grew account t t' ∧ stopped t' = negb b) (aborted fuel account t) t.
Proof.
  revert t. induction fuel as [|fuel IH]; intros t Hg Hrun Hready; cbn [topdown_lagging].
  { apply wps_lift; [done| |done]. exists []. split_and!; [done|constructor|done|right; cbn; lia]. }
  apply (due_reads_ok (λ curr_epoch tip tip' gw, if (_ <=? curr_epoch)%Z then _ else _)); [done|done| |].
  { intros new Hn Hu Hs. exists new. split_and!; [done| |done|by left].
    eapply Forall_impl; [exact Hn|]. by intros []. }
  intros h tip h' tip' gw Htip Htip' Hg'.
  assert (Hgrew : grew account t (due_reads h h' tip' gw ++ t))
    by (eexists; split; [done|by repeat constructor]).
  case_match eqn:Hle; [apply Z.leb_le in Hle|by apply wps_ret].
  assert (Hready' : topdown_standing period account (due_reads h h' tip' gw ++ t))
    by (eapply topdown_standing_suffix; [by eexists|exact Hready]).
  set (epoch := submission_epoch _ period) in *.
  eapply wps_mono; [apply (submit_then_ok _ topdown_wait _ (topdown_failed tip')
    (topdown_submitted_commits epoch tip tip') fuel account)| |].
  - apply submit_topdown_breaks.
  - apply submit_topdown_ok. destruct Hready', Hready. split; try done.
    by apply (topdown_due_after_reads period account []); [|constructor|..].
  - intros t' Hg'' Hrun' Hs. apply IH; [done|done|]. by eapply topdown_standing_suffix.
  - intros b t' _ _ (new & -> & Ho & Hs & _). split; [|done]. eapply grew_trans; [done|by eexists].
  - intros t' _ _ Hab. by eapply aborted_grew.
Qed.

(** What the loop over the accounts relies on. *)
Definition topdown_ready (period epoch : ChainEpoch) (tip tip' : Cid) (a : Address) (t : list Event) : Prop :=
  topdown_standing period a t ∧ topdown_due epoch tip tip' a t.

Lemma topdown_ready_grew period epoch tip tip' a b t t' :
  (b = a → repeated a (accounts child)) → grew b t t' → topdown_ready period epoch tip tip' a t →
  topdown_ready period epoch tip tip' a t'.
Proof.
  intros Hab (new & -> & Ho) [Hr Hd]. split.
  { eapply topdown_standing_suffix; [by eexists|done]. }
  destruct Hd as (gw0 & since & h & h' & gw & before & Hf & -> & Hn & Hrest).
  exists gw0, (new ++ since), h, h', gw, before. split_and!; try apply Hrest.
  - eapply first_gateway_suffix; [|done]. by eexists.
  - by rewrite app_assoc.
  - destruct (decide (b = a)) as [->|Hne]; [right; by apply Hab|]. destruct Hn as [Hn|Hn]; [left|by right].
    apply Forall_app. split; [|done]. by eapply only_no_pushes.
Qed.

Lemma topdown_account_ok fuel period epoch tip tip' a t :
  guarded topdown_ok t → stopped t = false → topdown_ready period epoch tip tip' a t →
  wps (topdown_account (W:=W) fuel child cc pc period epoch tip tip' a)
    (account_done (topdown_submitted epoch tip tip') (topdown_failed tip') a t) (aborted (S fuel) a t) t.
Proof.
  intros Hg Hrun [Hready Hdue].
  apply (submit_then_ok _ topdown_wait _ _ (topdown_submitted_commits epoch tip tip')).
  - apply submit_topdown_breaks.
  - apply submit_topdown_ok. destruct Hready. by split.
  - intros t' Hg' Hrun' Hs. apply topdown_lagging_ok; [done|done|]. by eapply topdown_standing_suffix.
Qed.

(** An iteration after the trace [t] that ends with [r] and the trace [t']. *)
Definition topdown_iteration_outcome (fuel : nat) (period : ChainEpoch) (t : list Event) (r : outcome bool)
    (t' : list Event) : Prop :=
  (is_done r = false ∧ ∃ reads, t' = reads ++ t ∧ Forall (push_by (λ _, False)) reads ∧ Exists unusable reads) ∨
  (∃ h h' tip tip' gw new,
    t' = new ++ due_reads h h' tip' gw ++ t ∧ first_tip_set h = Done tip ∧ first_tip_set h' = Done tip' ∧
    let epoch := submission_epoch (top_down_checkpoint_voting gw) period in
    if gw_initialized gw && (epoch <=? head_height h)%Z then
      ∃ st set rest, new = rest ++ [EvSubnetActor pc (subnet_id child) tip (Done st)] ∧
        validators_of st = Done set ∧
        accounts_handled (topdown_submitted epoch tip tip') (topdown_failed tip') fuel
          (filter (λ a, a ∈ set) (accounts child)) r rest
    else waited r new).

(** What an iteration leaves behind when it breaks off. *)
Definition topdown_iteration_broken (fuel : nat) (period : ChainEpoch) (t t' : list Event) : Prop :=
  stopped t' = false ∧ ∀ r, is_done r = false → topdown_iteration_outcome fuel period t r t'.

Lemma topdown_broken_reads fuel period t reads :
  Forall (push_by (λ _, False)) reads → Exists unusable reads → stopped (reads ++ t) = false →
  topdown_iteration_broken fuel period t (reads ++ t).
Proof. intros Hp Hu Hs. split; [done|]. intros r Hr. left. split; [done|]. by exists reads. Qed.

(** The conditional part of an iteration and the wait, after its reads. *)
Lemma topdown_branch_ok fuel period h h' tip tip' gw t :
  let epoch := submission_epoch (top_down_checkpoint_voting gw) period in
  let start := due_reads h h' tip' gw ++ t in
  guarded topdown_ok start → topdown_period_known period t →
  first_tip_set h = Done tip → first_tip_set h' = Done tip' →
  wps (go ← (if gw_initialized gw && (epoch <=? head_height h)%Z then
         subnet_actor_state ← ipc_read_subnet_actor_state pc (subnet_id child) tip;
         validator_set ← lift (validators_of subnet_actor_state);
         for_accounts validator_set (topdown_account (W:=W) fuel child cc pc period epoch tip tip')
           (accounts child)
       else mret true);
       if (go : bool) then wait_next_iteration CHAIN_HEAD_REQUEST_PERIOD else mret false)
    (λ b t', stopped t' = negb b ∧ topdown_iteration_outcome fuel period t (Done b) t')
    (topdown_iteration_broken fuel period t) start.
Proof.
  intros epoch start Hg Hperiod Htip Htip'.
  destruct (gw_initialized gw && (epoch <=? head_height h)%Z) eqn:Hdue.
  2: { assert (Hout : ∀ r new, waited r new → topdown_iteration_outcome fuel period t r (new ++ start)).
       { intros r new Hw. right. exists h, h', tip, tip', gw, new. split_and!; [done..|].
         cbv zeta. fold epoch. by rewrite Hdue. }
       eapply wps_mono; [by apply (wait_ok _ topdown_wait)| |].
       - intros b t' _ _ [-> Hs]. split; [done|]. by apply (Hout (Done b) [_]).
       - intros t' _ _ (r' & Hr' & -> & Hs). split; [done|]. intros r Hr. apply (Hout r [_]).
         by destruct r; [|exists r'..]. }
  pose proof Hdue as [Hinit Hle%Z.leb_le]%andb_true_iff.
  apply wps_bind_assoc. eapply wps_bind_call; [done| |intros [] ?; try done;
    subst start; broken_read (topdown_broken_reads fuel period t)|].
  { intros r. split; [done|]. split_and!; [done..|]. exists h. split; [|done].
    subst start. unfold due_reads. set_solver. }
  intros st Hg'. apply wps_bind_assoc. eapply wps_bind_lift_if; [done|intros; subst start;
    broken_read (topdown_broken_reads fuel period t)|]. intros set Hset.
  assert (Hout : ∀ r new, accounts_handled (topdown_submitted epoch tip tip') (topdown_failed tip') fuel
      (filter (λ a, a ∈ set) (accounts child)) r new →
    topdown_iteration_outcome fuel period t r (new ++ EvSubnetActor pc (subnet_id child) tip (Done st) :: start)).
  { intros r new Hh. right.
    exists h, h', tip, tip', gw, (new ++ [EvSubnetActor pc (subnet_id child) tip (Done st)]).
    split_and!; [by rewrite <-app_assoc|done|done|]. cbv zeta. fold epoch. rewrite Hdue. by exists st, set, new. }
  eapply wps_mono.
  - apply (accounts_then_wait _ topdown_wait (topdown_submitted epoch tip tip') (topdown_failed tip')
      (topdown_submitted_commits epoch tip tip') (topdown_ready period epoch tip tip')
      (λ a, repeated a (accounts child)));
      [by intros; eapply topdown_ready_grew|by intros; apply topdown_account_ok|done|done|done|].
    intros a Hacc Hin. split; [split|].
    + destruct Hperiod as (gw0 & ? & ?). exists gw0. split; [|done].
      eapply first_gateway_suffix; [|done]. subst start. rewrite app_comm_cons. by eexists.
    + exists tip', gw. split; [|done]. subst start. unfold due_reads. set_solver.
    + done.
    + eapply validators_of_seen; [done|done|apply list_elem_of_here].
    + by apply (topdown_due_after_reads period a [_]); [|repeat constructor|..].
  - intros b t' _ _ (Hs & new & -> & Hh). split; [done|]. by apply Hout.
  - intros t' _ _ (Hs & new & -> & Hh). split; [done|]. intros r Hr. by apply Hout, Hh.
Qed.

Lemma topdown_iteration_ok fuel period t :
  guarded topdown_ok t → stopped t = false → topdown_period_known period t →
  wps (topdown_iteration (W:=W) fuel child cc pc period)
    (λ b t', stopped t' = negb b ∧ topdown_iteration_outcome fuel period t (Done b) t')
    (topdown_iteration_broken fuel period t) t.
Proof.
  intros Hg Hrun Hperiod. unfold topdown_iteration.
  apply (due_reads_ok (λ curr_epoch tip tip' gw, go ← (if _ && (_ <=? curr_epoch)%Z then _ else _); _));
    [done|done|by apply topdown_broken_reads|].
  intros h tip h' tip' gw Htip Htip' Hg'. by apply topdown_branch_ok.
Qed.

Lemma topdown_loop_ok fuel period t :
  guarded topdown_ok t → stopped t = false → topdown_period_known period t →
  wps (topdown_loop (W:=W) fuel child cc pc period) (λ _ t', stopped t' = true) running t.
Proof.
  revert t. induction fuel as [|fuel IH]; intros t Hg Hrun Hperiod; cbn [topdown_loop].
  { by apply wps_lift. }
  eapply wps_bind.
  { eapply wps_mono; [by apply topdown_iteration_ok|by intros b t' _ _ HQ; exact HQ|by intros t' _ _ [Hs _]]. }
  intros go t' Hg' Hs' [Hs _]. destruct go; [|by apply wps_ret].
  apply IH; [done|done|]. destruct Hperiod as (st0 & ? & ?). exists st0. eauto.
Qed.

Lemma manage_topdown_ok fuel :
  wps (manage_topdown_checkpoints (W:=W) fuel child parent) (λ _ t', stopped t' = true) running [].
Proof.
  unfold manage_topdown_checkpoints. apply wps_context.
  eapply wps_bind_call; [done|split; [done|by left]|done|]. intros h Hg1.
  eapply wps_bind_lift; [done|done|]. intros tip Htip.
  eapply wps_bind_call; [done| |done|].
  { intros r. split; [done|]. split; [done|]. exists h. split; [apply list_elem_of_here|done]. }
  intros gw Hg2. apply topdown_loop_ok; [done|done|]. by exists gw.
Qed.

(** C6 (top-down submissions): in any run of the top-down manager, whatever the
    nodes answer and whatever the configuration, every call is one that [topdown_ok]
    allows after the calls before it.  In particular every pushed message goes to the
    gateway on the child, from a configured account that was seen among the validators;
    it carries the checkpoint for an epoch that is one period after the last executed
    one and that the parent's head has reached, according to states read since the
    account's last push (or since an earlier one, if the configuration names the
    account more than once); its messages are those that the parent answered for
    the tip set at that very epoch, from the nonce that the child's gateway had applied
    on; nothing is pushed before the gateway was seen initialised; the manager then
    waits for the very message it pushed.  It returns without error exactly when the
    stop notification ended a wait, and does nothing after it. *)
Theorem topdown_submissions_justified fuel (w : W) :
  let p := manage_topdown_checkpoints fuel child parent (mkRun w []) in
  (∀ new e old, trace p.2 = new ++ e :: old → topdown_ok old e) ∧
  (p.1 = Done () ↔ stopped (trace p.2) = true).
Proof.
  intros p. destruct (manage_topdown_ok fuel w) as (Hg & _ & Hpost). fold p in Hg, Hpost. split.
  - intros new e old Ht. by eapply guarded_split in Ht as [? _].
  - destruct p.1 as [[]| | |]; split; try done; congruence.
Qed.

(** C20 (no validator misses a top-down checkpoint): an iteration of the top-down
    manager, however it ends, falls under one of these cases, after any calls that
    the manager may have made before without being told to stop and with the period it
    has read.  It breaks off without a
    push because a call failed or its answer cannot be used.  Or it has read the heads
    of the parent and the child and the child's gateway; if by these no checkpoint is
    due, it only waits.  If one is due, it reads the subnet actor at the very tip set of
    the parent, and the configured accounts in the validator set are handled one after
    the other: each either has the checkpoint for the due epoch, with the messages from
    the applied nonce on at that epoch's tip set, pushed to the child and committed, or
    its submission failed without a commit and the manager waited.  When the iteration
    ends regularly, all of them have been handled; when it is told to stop, those up to
    the wait that was ended; and it breaks off only because of an unusable answer while
    it handles an account, or after more than [fuel] committed checkpoints of one
    account. *)
Theorem topdown_iteration_complete fuel period (w : W) t :
  guarded topdown_ok t → stopped t = false → topdown_period_known period t →
  let p := topdown_iteration fuel child cc pc period (mkRun w t) in
  topdown_iteration_outcome fuel period t p.1 (trace p.2) ∧ (p.1 = Done false ↔ stopped (trace p.2) = true).
Proof.
  intros Hg Hs Hp p. destruct (topdown_iteration_ok fuel period t Hg Hs Hp w) as (_ & _ & Hpost).
  fold p in Hpost. destruct p.1 as [[]| | |]; destruct Hpost as [Hs' Ho]; (split; [by auto|]);
    rewrite Hs'; done.
Qed.
End topdown.

(** ** A run *)
Module TopDownDemo.
#[local] Existing Instances Demo.resolver_types Demo.agent_types.
#[local] Existing Instances DemoNode.checkpoints DemoNode.client DemoNode.notify.
Import DemoNode.

Definition run := manage_topdown_checkpoints 5 child parent (mkRun (mkNode 0 0) []).

Example topdown_run_pushes :
  pushes (trace run.2) =
    [("t1b", GatewaySubmitTopDownCheckpoint); ("t1a", GatewaySubmitTopDownCheckpoint);
     ("t1a", GatewaySubmitTopDownCheckpoint)].
Proof. vm_compute. reflexivity. Qed.

Lemma topdown_submissions_justified_witness :
  run.1 = Done () ∧ ∀ new e old, trace run.2 = new ++ e :: old → topdown_ok child parent old e.
Proof.
  destruct (topdown_submissions_justified child parent 5 (mkNode 0 0)) as [Hok Hdone].
  split; [|exact Hok]. vm_compute. reflexivity.
Defined.

(** The trace after the manager's first two calls. *)
Definition topdown_start : list Event :=
  [EvGateway (from_subnet child) (Demo.cid "tip") (Done (gateway_state (mkNode 0 0)));
   EvHead (from_subnet child) (Done chain)].

Lemma topdown_start_guarded : guarded (topdown_ok child parent) topdown_start.
Proof.
  split; [|split; [split; [done|by left]|done]].
  split; [done|]. split; [done|]. exists chain. split; [apply list_elem_of_here|done].
Qed.

Lemma topdown_iteration_complete_witness :
  let p := topdown_iteration (Notify0 := patient) 5 child (from_subnet child) (from_subnet parent)
             10%Z (mkRun (mkNode 0 0) topdown_start) in
  is_done p.1 = true ∧ topdown_iteration_outcome child parent 5 10%Z topdown_start p.1 (trace p.2).
Proof.
  cbv zeta. split; [vm_compute; reflexivity|].
  apply topdown_iteration_complete; [exact topdown_start_guarded|done|by eexists].
Defined.
End TopDownDemo.
