(* ===== verification/Submissions.v ===== *)
(** * The checkpoints that the nodes receive

    The managers of [BottomUp.v] and [TopDown.v] on top of the client of
    [RpcClient.v]: what they submit, as the bodies that [Posts.v] records. *)
From S2P Require Import Prelude Types Records Outcome Json JsonText Lotus LotusApi RpcClient Checkpointing Posts BottomUp TopDown.

#[export] Instance wire_notify {W} `{!Notify W} : Notify (wire W) := {|
  sleep_or_notified := λ secs w,
    let '(b, w') := sleep_or_notified secs (wire_world w) in (b, mkWire w' (posts w)) |}.

Section submissions.
Context {W : Type} `{!ResolverTypes} `{!AgentTypes} `{!SerdeJson} `{!Http W} `{!Codecs} `{!HashIter string}.
Context `{!Checkpoints} `{!Notify W}.

#[local] Existing Instance LotusJsonRPCClient.

(** ** The managers keep the relation between posts and calls *)

Lemma kept_context {A} msg (m : io (wire W) Event A) : kept m → kept (with_context msg m).
Proof. intros Hm s Hs. specialize (Hm s Hs). unfold with_context. by destruct (m s) as [[] s']. Qed.

Lemma kept_wait secs : kept (wait_next_iteration (W:=wire W) secs).
Proof.
  apply kept_call; [done|]. intros w. cbn. by destruct (sleep_or_notified secs (wire_world w)).
Qed.

Lemma kept_accounts set (handle : Address → io (wire W) Event bool) l :
  (∀ a, kept (handle a)) → kept (for_accounts set handle l).
Proof.
  intros Hh. induction l as [|a l IH]; cbn [for_accounts]; [apply kept_ret|].
  case_decide; [|done]. apply kept_bind; [done|]. intros []; [done|apply kept_ret].
Qed.

Ltac kept_step := repeat first [apply kept_wait|apply kept_accounts; intros ?|progress solve_kept].

Lemma submit_checkpoint_kept tip epoch a child cc pc :
  kept (submit_checkpoint (W:=wire W) tip epoch a child cc pc).
Proof. unfold submit_checkpoint. kept_step. Qed.

Lemma bottomup_lagging_kept fuel child cc pc period tip a :
  kept (bottomup_lagging (W:=wire W) fuel child cc pc period tip a).
Proof.
  induction fuel as [|fuel IH]; cbn [bottomup_lagging]; [apply kept_lift|].
  repeat first [apply submit_checkpoint_kept|apply IH|progress kept_step].
Qed.

Lemma manage_bottomup_kept fuel child parent :
  kept (manage_bottomup_checkpoints (W:=wire W) fuel child parent).
Proof.
  apply kept_context. kept_step. generalize (sa_bottom_up_check_period a1). intros period. clear.
  induction fuel as [|fuel IH]; cbn [bottomup_loop]; [apply kept_lift|].
  unfold bottomup_iteration, bottomup_account.
  repeat first [apply submit_checkpoint_kept|apply bottomup_lagging_kept|apply IH|progress kept_step].
Qed.

Lemma submit_topdown_kept epoch ptip ctip a s cc pc :
  kept (submit_topdown_checkpoint (W:=wire W) epoch ptip ctip a s cc pc).
Proof. unfold submit_topdown_checkpoint. kept_step. Qed.

Lemma topdown_lagging_kept fuel child cc pc period a :
  kept (topdown_lagging (W:=wire W) fuel child cc pc period a).
Proof.
  induction fuel as [|fuel IH]; cbn [topdown_lagging]; [apply kept_lift|].
  repeat first [apply submit_topdown_kept|apply IH|progress kept_step].
Qed.

Lemma manage_topdown_kept fuel child parent :
  kept (manage_topdown_checkpoints (W:=wire W) fuel child parent).
Proof.
  apply kept_context. kept_step. generalize (gw_top_down_check_period a1). intros period. clear.
  induction fuel as [|fuel IH]; cbn [topdown_loop]; [apply kept_lift|].
  unfold topdown_iteration, topdown_account.
  repeat first [apply submit_topdown_kept|apply topdown_lagging_kept|apply IH|progress kept_step].
Qed.

(** ** What arrives *)

Context `{!AgentTypesLaws} `{!MethodNums} `{!CheckpointsLaws}.

(** A posted body against the recorded push. *)
Definition posted (post : Client * Json) (e : Event) : Prop :=
  match e with
  | EvPush c m _ => post.1 = c ∧ body_message post.2 = Ok (plain_message m)
  | _ => False
  end.

Definition plain (e : Event) : Prop :=
  match e with
  | EvPush _ m _ => ∃ to from method params, m = mpool_push_message_new to from method params
  | _ => True
  end.

Lemma events_posted t :
  Forall plain t → Forall2 posted (omap event_body t) (filter (λ e, is_push e = true) t).
Proof.
  induction 1 as [|e t He _ IH]; [constructor|].
  destruct e; try exact IH. destruct He as (to & from & method & params & ->).
  destruct (push_body_read 0%Z to from method params c) as (b & Hb & Hread).
  rewrite filter_cons_True by done. cbn [omap list_omap event_body].
  change (push_body c (mpool_push_message_new to from method params) = Some (c, b)) in Hb.
  rewrite Hb. by constructor.
Qed.

(** Every allowed run, once its pushes are known to be plain. *)
Lemma run_posted (ok : list Event → Event → Prop) (s : run_state (wire W) Event) :
  linked s → guarded ok (trace s) → (∀ old e, ok old e → plain e) →
  Forall2 posted (pushed (posts (world s))) (filter (λ e, is_push e = true) (trace s)) ∧
  ∀ cl body, (cl, body) ∈ pushed (posts (world s)) →
    ∃ m r new old, trace s = new ++ EvPush cl m r :: old ∧ ok old (EvPush cl m r) ∧
      body_message body = Ok (plain_message m).
Proof.
  intros Hl Hg Hok. assert (Hall : Forall2 posted (pushed (posts (world s))) (filter (λ e, is_push e = true) (trace s))).
  { rewrite Hl. apply events_posted. clear -Hg Hok. induction (trace s) as [|e t IH]; [done|].
    destruct Hg as [He Hg]. constructor; [by eapply Hok|by apply IH]. }
  split; [done|]. intros cl body Hin.
  apply list_elem_of_lookup in Hin as [i Hi].
  destruct (Forall2_lookup_l _ _ _ _ _ Hall Hi) as (e & [Hp He]%list_elem_of_lookup_2%list_elem_of_filter & Hpost).
  destruct e; try done. destruct Hpost as [<- Hread].
  apply list_elem_of_split in He as (new & old & Ht). destruct (guarded_split _ _ _ _ _ Hg Ht) as [He _].
  by exists m, r, new, old.
Qed.

Variable child parent : Subnet.

(** C9 (checkpoints on the wire): whatever the nodes answer, the bodies that push a message
    correspond one to one, in order, to the submissions of the two managers of a pair;
    each is posted to the URL and with the token of the parent, for bottom-up
    checkpoints, or of the child, for top-down ones; and the node reads from it
    exactly the submission that was justified by what had been read before: the actor,
    the account, no value, the method and the encoded checkpoint, with all gas fields
    and the nonce left open. *)
Theorem submissions_on_the_wire fuel (w : W) :
  let up := (manage_bottomup_checkpoints fuel child parent (mkRun (mkWire w []) [])).2 in
  let down := (manage_topdown_checkpoints fuel child parent (mkRun (mkWire w []) [])).2 in
  (Forall2 posted (pushed (posts (world up))) (filter (λ e, is_push e = true) (trace up)) ∧
   ∀ cl body, (cl, body) ∈ pushed (posts (world up)) →
     cl = from_subnet parent ∧
     ∃ m r new old, trace up = new ++ EvPush cl m r :: old ∧ bottomup_push_ok child parent old cl m ∧
       body_message body = Ok (plain_message m)) ∧
  (Forall2 posted (pushed (posts (world down))) (filter (λ e, is_push e = true) (trace down)) ∧
   ∀ cl body, (cl, body) ∈ pushed (posts (world down)) →
     cl = from_subnet child ∧
     ∃ m r new old, trace down = new ++ EvPush cl m r :: old ∧ topdown_push_ok child parent old cl m ∧
       body_message body = Ok (plain_message m)).
Proof.
  intros up down. split.
  - destruct (manage_bottomup_ok child parent fuel (mkWire w [])) as (Hg & _ & _).
    destruct (run_posted (bottomup_ok child parent) up) as [Hall Hin]; [by apply manage_bottomup_kept|done| |].
    { intros old e [_ He]. destruct e; try done. destruct He as (? & ? & ? & ? & ? & ? & ? & ? & Hp).
      unfold plain. do 4 eexists. by apply Hp. }
    split; [done|]. intros cl body (m & r & new & old & Ht & [_ Hok] & Hread)%Hin.
    split; [|by exists m, r, new, old]. by destruct Hok as (? & ? & ? & ? & ? & ? & ? & ? & Hp); apply Hp.
  - destruct (manage_topdown_ok child parent fuel (mkWire w [])) as (Hg & _ & _).
    destruct (run_posted (topdown_ok child parent) down) as [Hall Hin]; [by apply manage_topdown_kept|done| |].
    { intros old e [_ He]. destruct e; try done. destruct He as (? & ? & ? & ? & ? & ? & ? & ? & ? & ? & Hp).
      unfold plain. do 4 eexists. by apply Hp. }
    split; [done|]. intros cl body (m & r & new & old & Ht & [_ Hok] & Hread)%Hin.
    split; [|by exists m, r, new, old]. by destruct Hok as (? & ? & ? & ? & ? & ? & ? & ? & ? & ? & Hp); apply Hp.
Qed.
End submissions.

(** ** A pair of nodes that speak JSON

    Both chains are at height 25, the period is 10; every submission is executed at
    once, and the first wait is ended by the stop notification. *)
Module SubmissionsDemo.
#[local] Existing Instances Demo.resolver_types Demo.agent_types Demo.agent_types_laws.
#[local] Existing Instances DemoNode.checkpoints DemoNode.checkpoints_laws.
#[local] Existing Instances TextDemo.serde_json TextDemo.printer.
Import DemoNode.

#[export] Instance codecs : Codecs := {|
  base64_decode := λ _, Some []; cbor_de_checkpoint := λ _, Some (template 10%Z);
  cbor_de_cross_msg := λ _, None |}.

#[export] Instance method_nums : MethodNums.
Proof. by split. Qed.

#[export] Instance strings_iter : HashIter string := canonical_iter _.

#[export] Instance notify_once : Notify node := {| sleep_or_notified := λ _ w, (false, w) |}.

Definition json_tip : Json := JObj [("/", JStr "btip")].

Definition json_voting (executed : Z) : Json :=
  JObj [("GenesisEpoch", JNum 0); ("LastVotingExecuted", JNum executed)].

Definition json_validator (a : string) : Json :=
  JObj [("addr", JStr a); ("net_addr", JStr ""); ("weight", JStr "1")].

Definition json_push : Json :=
  JObj [("Message", JObj [("To", JStr "t064"); ("From", JStr "t1a"); ("Value", JStr "0"); ("Method", JNum 2);
          ("Params", JStr ""); ("Nonce", JNum 0); ("GasLimit", JNum 0); ("GasFeeCap", JStr "0");
          ("GasPremium", JStr "0"); ("Version", JNum 0); ("CID", JObj [("/", JStr "bmessage")])]);
        ("CID", JObj [("/", JStr "bmessage")])].

Definition json_answer (method : string) (w : node) : Json :=
  if bool_decide (method = Methods.CHAIN_HEAD) then
    JObj [("Cids", JArr [json_tip]); ("Blocks", JArr []); ("Height", JNum 25)]
  else if bool_decide (method = Methods.GET_TIPSET_BY_HEIGHT) then
    JObj [("Cids", JArr [json_tip]); ("Blocks", JArr []); ("Height", JNum 10)]
  else if bool_decide (method = Methods.IPC_READ_SUBNET_ACTOR_STATE) then
    JObj [("BottomUpCheckPeriod", JNum 10);
          ("ValidatorSet", JObj [("validators", JArr [json_validator "t1a"; json_validator "t1b"]);
                                 ("configuration_number", JNum 1)]);
          ("MinValidators", JNum 1); ("BottomUpCheckpointVoting", json_voting (executed_bottomup w))]
  else if bool_decide (method = Methods.IPC_READ_GATEWAY_STATE) then
    JObj [("BottomUpCheckPeriod", JNum 10); ("TopDownCheckPeriod", JNum 10); ("AppliedTopdownNonce", JNum 7);
          ("TopDownCheckpointVoting", json_voting (executed_topdown w)); ("Initialized", JBool true)]
  else if bool_decide (method = Methods.MPOOL_PUSH_MESSAGE) then json_push
  else if bool_decide (method = Methods.STATE_WAIT_MSG) then
    JObj [("Message", json_tip); ("Receipt", JObj [("ExitCode", JNum 0); ("GasUsed", JNum 0)]);
          ("TipSet", JArr []); ("Height", JNum 25)]
  else if bool_decide (method = Methods.IPC_GET_CHECKPOINT_TEMPLATE) then JStr ""
  else JNull.

Definition request_name (body : Json) : string :=
  match body with
  | JObj fields => match json_get "method" fields with Some (JStr m) => m | _ => EmptyString end
  | _ => EmptyString
  end.

(** The parent receives bottom-up checkpoints, the child top-down ones. *)
#[export] Instance node_http : Http node := {|
  http_post := λ c body w,
    let reply := JObj [("id", JNum 1); ("jsonrpc", JStr "2.0"); ("result", json_answer (request_name body) w)] in
    (Ok (json_to_string reply),
     if is_push_body body then
       if bool_decide (client_url c = "http://parent") then mkNode (executed_bottomup w + 10) (executed_topdown w)
       else mkNode (executed_bottomup w) (executed_topdown w + 10)
     else w) |}.

Definition up : run_state (wire node) Event :=
  (manage_bottomup_checkpoints (LotusClient0 := LotusJsonRPCClient) 4 child parent
     (mkRun (mkWire (mkNode 0 0) []) [])).2.

Definition senders (l : list (Client * Json)) : list (string * result string string) :=
  (λ p, (client_url p.1, m ← body_message p.2; Ok (sent_from m : string))) <$> l.

Example up_posts :
  senders (pushed (posts (world up))) = [("http://parent", Ok "t1b"); ("http://parent", Ok "t1a"); ("http://parent", Ok "t1a")].
Proof. vm_compute. reflexivity. Qed.

Lemma submissions_on_the_wire_witness :
  length (pushed (posts (world up))) = 3%nat ∧
  ∀ cl body, (cl, body) ∈ pushed (posts (world up)) →
    cl = from_subnet parent ∧
    ∃ m r new old, trace up = new ++ EvPush cl m r :: old ∧ bottomup_push_ok child parent old cl m ∧
      body_message body = Ok (plain_message m).
Proof.
  split; [by vm_compute|].
  exact (proj2 (proj1 (submissions_on_the_wire child parent 4 (mkNode 0 0)))).
Defined.
End SubmissionsDemo.
