(* ===== verification/Subsystem.v ===== *)
(** * The checkpointing subsystem

    [src/manager/checkpoint.rs].  The subsystem reads the configuration, spawns
    two managers for every pair of a child with accounts and its parent, and
    waits for a shutdown request or a change of the configuration; then it
    notifies the managers, waits until they have ended, and returns or starts
    over with the latest configuration.

    The tasks run concurrently: [step] interleaves them with the subsystem and
    with updates of the configuration.  A manager is [Working] (between two
    waits, as modelled in [BottomUp.v] and [TopDown.v]), [Waiting] in
    [wait_next_iteration], or has [Ended].  [Notify::notify_waiters] reaches
    only the tasks that are waiting at that moment. *)
From S2P Require Import Prelude Types Records Outcome Json Lotus LotusApi Checkpointing.

(** [config.subnets]. *)
Notation Subnets := (gmap SubnetID Subnet).

Section subsystem.
Context `{!ResolverTypes} `{!AgentTypes} `{!HashIter SubnetID}.


(** The second filter of [subnets_to_manage]. *)
Definition parent_known (m : Subnets) (s : Subnet) : bool :=
  match subnet_parent (subnet_id s) with
  | Some p => bool_decide (is_Some (m !! p))
  | None => false
  end.

Definition has_accounts (s : Subnet) : bool := match accounts s with [] => false | _ => true end.

(** [(s.clone(), subnets_by_id[&s.id.parent().unwrap()].clone())]. *)
Definition with_parent (m : Subnets) (s : Subnet) : outcome (Subnet * Subnet) :=
  p ← unwrap (subnet_parent (subnet_id s));
  parent ← unwrap (m !! p);
  Done (s, parent).

Definition subnets_to_manage (m : Subnets) : outcome (list (Subnet * Subnet)) :=
  traverse (with_parent m)
    (filter (λ s, parent_known m s = true) (filter (λ s, has_accounts s = true) (map_iter m).*2)).

Lemma with_parent_known m s : parent_known m s = true → ∃ r, with_parent m s = Done r.
Proof.
  unfold parent_known, with_parent. destruct (subnet_parent (subnet_id s)) as [p|]; [|done].
  intros [parent Hp]%bool_decide_eq_true. cbn. rewrite Hp. cbn. by eexists.
Qed.

Lemma with_parent_spec m s c p :
  with_parent m s = Done (c, p) ↔
  s = c ∧ ∃ pid, subnet_parent (subnet_id c) = Some pid ∧ m !! pid = Some p.
Proof.
  unfold with_parent. destruct (subnet_parent (subnet_id s)) as [pid|] eqn:Hs; cbn.
  - destruct (m !! pid) as [p'|] eqn:Hp; cbn; split.
    + intros [= -> ->]. eauto.
    + intros [-> (? & ? & ?)]. congruence.
    + done.
    + intros [-> (? & ? & ?)]. congruence.
  - split; [done|]. intros [-> (? & ? & ?)]. congruence.
Qed.

Lemma traverse_total {A B} (f : A → outcome B) l :
  Forall (λ x, ∃ y, f x = Done y) l → ∃ ys, traverse f l = Done ys.
Proof.
  induction 1 as [|x l [y Hy] _ [ys Hys]]; cbn; [by eexists|]. rewrite Hy; cbn. rewrite Hys. by eexists.
Qed.

Lemma elem_of_values (m : Subnets) (s : Subnet) : s ∈ (map_iter m).*2 ↔ ∃ id, m !! id = Some s.
Proof.
  rewrite list_elem_of_fmap. split.
  - intros ([id s'] & -> & Hin). exists id. by apply elem_of_map_iter in Hin.
  - intros [id Hs]. exists (id, s). split; [done|]. by apply elem_of_map_iter.
Qed.

Lemma subnets_to_manage_total m : ∃ l, subnets_to_manage m = Done l.
Proof.
  apply traverse_total, Forall_forall. intros s [Hk _]%list_elem_of_filter. by apply with_parent_known.
Qed.

Lemma subnets_to_manage_elem m l c p :
  subnets_to_manage m = Done l →
  (c, p) ∈ l ↔ (∃ id, m !! id = Some c) ∧ accounts c ≠ [] ∧
    ∃ pid, subnet_parent (subnet_id c) = Some pid ∧ m !! pid = Some p.
Proof.
  intros Hl%traverse_done. split.
  - intros [i Hi]%list_elem_of_lookup. apply (Forall2_lookup_r _ _ _ _ _ Hl) in Hi as (s & Hs & Hw).
    apply with_parent_spec in Hw as [-> Hp]. apply list_elem_of_lookup_2 in Hs.
    apply list_elem_of_filter in Hs as [_ [Ha Hv]%list_elem_of_filter].
    apply elem_of_values in Hv. split_and!; [done| |done]. unfold has_accounts in Ha. by destruct (accounts c).
  - intros (Hv & Ha & Hp).
    assert (Hin : c ∈ filter (λ s, parent_known m s = true)
                       (filter (λ s, has_accounts s = true) (map_iter m).*2)).
    { apply list_elem_of_filter. split.
      - unfold parent_known. destruct Hp as (pid & -> & Hp). apply bool_decide_eq_true. by eexists.
      - apply list_elem_of_filter. split; [unfold has_accounts; by destruct (accounts c)|].
        by apply elem_of_values. }
    apply list_elem_of_lookup in Hin as [i Hi].
    apply (Forall2_lookup_l _ _ _ _ _ Hl) in Hi as (r & Hr & Hw).
    apply list_elem_of_lookup. exists i. rewrite Hr. f_equal.
    assert (with_parent m c = Done (c, p)) by (by apply with_parent_spec). congruence.
Qed.

(** A configuration maps every id to the subnet with that id, as
    [deserialize_subnets] builds it. *)
Definition wf_subnets (m : Subnets) : Prop := ∀ id s, m !! id = Some s → subnet_id s = id.

Lemma subnets_to_manage_nodup m l :
  wf_subnets m → subnets_to_manage m = Done l → NoDup ((λ p, subnet_id p.1) <$> l).
Proof.
  intros Hwf Hl%traverse_done. set (ss := filter _ _) in Hl.
  assert (Heq : (λ p, subnet_id p.1) <$> l = subnet_id <$> ss).
  { induction Hl as [|s [c p] ss' l' Hw _ IH]; [done|]. cbn. f_equal; [|done].
    by apply with_parent_spec in Hw as [-> _]. }
  rewrite Heq. subst ss. clear Hl Heq.
  assert (Hkeys : subnet_id <$> (map_iter m).*2 = (map_iter m).*1).
  { assert (Hall : ∀ kv, kv ∈ map_iter m → subnet_id kv.2 = kv.1)
      by (intros [k s] Hin%elem_of_map_iter; by apply Hwf).
    induction (map_iter m) as [|kv kvs IH]; [done|]. cbn. f_equal; [apply Hall; set_solver|].
    apply IH. set_solver. }
  pose proof (NoDup_map_iter_fst m) as Hnd. rewrite <-Hkeys in Hnd.
  eapply sublist_NoDup; [exact Hnd|]. apply fmap_sublist.
  etrans; [apply sublist_filter|apply sublist_filter].
Qed.

(** ** The subsystem and its tasks *)

Inductive Direction := BottomUp | TopDown.

Inductive TaskState := Working | Waiting | Ended (r : outcome ()).

Record Task := mkTask {
  task_pair : Subnet * Subnet;
  task_direction : Direction;
  task_state : TaskState;
}.

Definition task_key (t : Task) : Subnet * Subnet * Direction := (task_pair t, task_direction t).

Definition live (t : Task) : Prop := match task_state t with Ended _ => False | _ => True end.

Definition set_task_state (st : TaskState) (t : Task) : Task :=
  mkTask (task_pair t) (task_direction t) st.

(** [Stopping b]: the managers were notified, [b] is [is_shutdown]. *)
Inductive Phase := Watching | Stopping (is_shutdown : bool) | Returned (r : outcome ()).

Record State := mkState {
  st_config : Subnets;
  st_loaded : Subnets;
  st_tasks : list Task;
  st_phase : Phase;
}.

(** What the [select!] of [run] waits for. *)
Inductive Signal := Shutdown | ConfigChanged | ConfigClosed.

Definition is_shutdown (s : Signal) : bool :=
  match s with
  | Shutdown | ConfigClosed => true
  | ConfigChanged => false
  end.

Fixpoint spawn_managers (pairs : list (Subnet * Subnet)) : list Task :=
  match pairs with
  | [] => []
  | p :: pairs => mkTask p BottomUp Working :: mkTask p TopDown Working :: spawn_managers pairs
  end.

(** The start of an iteration of [run]'s loop. *)
Definition load (config : Subnets) : outcome State :=
  pairs ← subnets_to_manage config;
  Done (mkState config config (spawn_managers pairs) Watching).

(** [Notify::notify_waiters]: a waiting manager returns, a working one is not
    reached. *)
Definition notify_waiters (tasks : list Task) : list Task :=
  (λ t, match task_state t with Waiting => set_task_state (Ended (Done ())) t | _ => t end) <$> tasks.

Definition panicked (t : Task) : bool := match task_state t with Ended (Panic _) => true | _ => false end.
Definition ended (t : Task) : bool := match task_state t with Ended _ => true | _ => false end.

(** The result of [manage_subnets_task], once it has one: it panics at the first
    panicked manager, logs errors, and ends when all managers have. *)
Definition join (tasks : list Task) : option (outcome ()) :=
  if existsb panicked tasks then Some (Fail "Panic in manage_subnet")
  else if forallb ended tasks then Some (Done ())
  else None.

Definition on_signal (sig : Signal) (s : State) : State :=
  mkState (st_config s) (st_loaded s) (notify_waiters (st_tasks s)) (Stopping (is_shutdown sig)).

(** What follows [manage_subnets_task.await?]. *)
Definition on_joined (shutdown : bool) (r : outcome ()) (s : State) : outcome State :=
  match r with
  | Done () =>
      if shutdown then Done (mkState (st_config s) (st_loaded s) (st_tasks s) (Returned (Done ())))
      else load (st_config s)
  | r => Done (mkState (st_config s) (st_loaded s) (st_tasks s) (Returned r))
  end.

(** One manager's progress; only a notification makes it return without error. *)
Inductive task_step : TaskState → TaskState → Prop :=
  | task_waits : task_step Working Waiting
  | task_wakes : task_step Waiting Working
  | task_fails r : r ≠ Done () → task_step Working (Ended r).

Inductive step (s : State) : State → Prop :=
  | step_config c :
      wf_subnets c → step s (mkState c (st_loaded s) (st_tasks s) (st_phase s))
  | step_task i t st' :
      st_tasks s !! i = Some t → task_step (task_state t) st' →
      step s (mkState (st_config s) (st_loaded s)
                (<[i := set_task_state st' t]> (st_tasks s)) (st_phase s))
  | step_signal sig : st_phase s = Watching → step s (on_signal sig s)
  | step_joined shutdown r s' :
      st_phase s = Stopping shutdown → join (st_tasks s) = Some r →
      on_joined shutdown r s = Done s' → step s s'.

(** ** One generation of managers at a time *)

Definition manager_keys (pairs : list (Subnet * Subnet)) : list (Subnet * Subnet * Direction) :=
  task_key <$> spawn_managers pairs.

Record inv (s : State) : Prop := {
  inv_config : wf_subnets (st_config s);
  inv_loaded : wf_subnets (st_loaded s);
  inv_tasks : ∃ pairs, subnets_to_manage (st_loaded s) = Done pairs ∧
    task_key <$> st_tasks s = manager_keys pairs;
}.

Lemma load_inv config s : wf_subnets config → load config = Done s → inv s.
Proof.
  unfold load. intros Hwf. destruct (subnets_to_manage config) as [pairs| | |] eqn:Hp; cbn; try done.
  intros [= <-]. split; [done|done|]. by exists pairs.
Qed.

Lemma load_done config s :
  load config = Done s → st_loaded s = config ∧ st_config s = config ∧ st_phase s = Watching.
Proof. unfold load. destruct (subnets_to_manage config); cbn; try done. by intros [= <-]. Qed.

Lemma notify_waiters_keys tasks : task_key <$> notify_waiters tasks = task_key <$> tasks.
Proof.
  unfold notify_waiters. rewrite <-list_fmap_compose. apply list_fmap_ext.
  intros i t _. cbn. by destruct (task_state t).
Qed.

Lemma insert_keys (tasks : list Task) (i : nat) t st' :
  tasks !! i = Some t → task_key <$> <[i := set_task_state st' t]> tasks = task_key <$> tasks.
Proof.
  intros Hi. rewrite list_fmap_insert. apply list_insert_id. by rewrite list_lookup_fmap, Hi.
Qed.

(** No manager has returned as one that was told to stop. *)
Definition unended (s : State) : Prop := Forall (λ t, task_state t ≠ Ended (Done ())) (st_tasks s).

Lemma load_unended config s : load config = Done s → unended s.
Proof.
  unfold load. destruct (subnets_to_manage config) as [pairs| | |]; cbn; try done. intros [= <-].
  unfold unended. cbn. induction pairs as [|p pairs IH]; [constructor|]. by repeat constructor.
Qed.

Lemma task_unended (s : State) i t st' config loaded phase :
  unended s → st_tasks s !! i = Some t → task_step (task_state t) st' →
  unended (mkState config loaded (<[i := set_task_state st' t]> (st_tasks s)) phase).
Proof. intros Hu Hi Hts. apply Forall_insert; [done|]. cbn. destruct Hts; congruence. Qed.

Lemma step_inv s s' : inv s → step s s' → inv s'.
Proof.
  intros [Hc Hl (pairs & Hp & Ht)] Hstep. destruct Hstep as [c Hwf|i t st' Hi _|sig _|b r s' _ _ Hj].
  - split; [done|done|by exists pairs].
  - split; [done|done|]. exists pairs. split; [done|]. cbn. by rewrite insert_keys.
  - split; [done|done|]. exists pairs. split; [done|]. cbn. by rewrite notify_waiters_keys.
  - assert (Hsame : ∀ ph, inv (mkState (st_config s) (st_loaded s) (st_tasks s) ph))
      by (intros ph; split; [done|done|by exists pairs]).
    destruct r as [[]|e|p|]; [destruct b|..]; cbn in Hj; try (injection Hj as <-; apply Hsame).
    by apply (load_inv (st_config s)).
Qed.

Lemma reachable_inv s s' : inv s → rtc step s s' → inv s'.
Proof. intros Hs Hr. induction Hr; [done|]. eauto using step_inv. Qed.

(** Managers of one generation have different subnets or directions. *)
Definition manager_id (k : Subnet * Subnet * Direction) : SubnetID * Direction := (subnet_id k.1.1, k.2).

Lemma manager_ids_elem pairs id d :
  (id, d) ∈ manager_id <$> manager_keys pairs → id ∈ (λ p, subnet_id p.1) <$> pairs.
Proof.
  induction pairs as [|p pairs IH]; cbn; [set_solver|].
  intros [[= -> _]|[[= -> _]|Hin]%elem_of_cons]%elem_of_cons; [left..|right; by apply IH].
Qed.

Lemma manager_ids_nodup pairs :
  NoDup ((λ p, subnet_id p.1) <$> pairs) → NoDup (manager_id <$> manager_keys pairs).
Proof.
  induction pairs as [|p pairs IH]; cbn; [constructor|]. intros [Hp Hnd]%NoDup_cons.
  constructor; [intros [Heq|Hin]%elem_of_cons|constructor]; [done| | |by apply IH];
    (contradict Hp; by eapply manager_ids_elem).
Qed.

Lemma join_done tasks r : join tasks = Some (Done r) → Forall (λ t, ended t = true) tasks.
Proof.
  unfold join. destruct (existsb panicked tasks); [done|].
  destruct (forallb ended tasks) eqn:Hall; [|done]. intros _.
  rewrite forallb_forall in Hall. apply Forall_forall. intros t Ht. apply Hall. by apply list_elem_of_In.
Qed.

Lemma live_not_ended t : live t → ended t = false.
Proof. unfold live, ended. by destruct (task_state t). Qed.

Lemma live_kept s s' i t :
  step s s' → st_tasks s !! i = Some t → live t →
  ∃ t', st_tasks s' !! i = Some t' ∧ task_key t' = task_key t.
Proof.
  intros Hstep Hi Hlive. destruct Hstep as [c _|j t' st' Hj _|sig _|b r s' _ Hr Hj].
  - by exists t.
  - cbn. destruct (decide (i = j)) as [->|Hne].
    + exists (set_task_state st' t'). simplify_eq. split; [|done].
      apply list_lookup_insert_eq. by eapply lookup_lt_Some.
    + exists t. by rewrite list_lookup_insert_ne.
  - cbn. unfold notify_waiters. rewrite list_lookup_fmap, Hi. cbn. eexists; split; [done|].
    by destruct (task_state t).
  - destruct r as [[]|e|p|]; [|cbn in Hj; simplify_eq; by exists t..].
    apply join_done in Hr. pose proof (proj1 (Forall_lookup _ _) Hr i t Hi) as Hended.
    change (ended t = true) in Hended. by rewrite live_not_ended in Hended.
Qed.

(** C26 (managed subnets): [subnets_to_manage] never panics; it returns exactly the
    pairs of a configured subnet with at least one account and its parent, if the
    parent is configured, and each child once. *)
Theorem subnets_to_manage_exact m :
  ∃ l, subnets_to_manage m = Done l ∧
    (∀ c p, (c, p) ∈ l ↔ (∃ id, m !! id = Some c) ∧ accounts c ≠ [] ∧
       ∃ pid, subnet_parent (subnet_id c) = Some pid ∧ m !! pid = Some p) ∧
    (wf_subnets m → NoDup ((λ p, subnet_id p.1) <$> l)).
Proof.
  destruct (subnets_to_manage_total m) as [l Hl]. exists l. split_and!; [done| |].
  - intros c p. by apply subnets_to_manage_elem.
  - intros Hwf. by eapply subnets_to_manage_nodup.
Qed.

(** C18 (one generation of managers): at any moment after the subsystem has loaded a
    configuration, under any interleaving of tasks, signals and updates, its tasks
    are the two managers of each pair managed by the loaded configuration, no two of
    them for the same child and direction; and no step drops a manager that is still
    running, so that a reload starts new managers only when all old ones have
    ended. *)
Theorem managers_exclusive config s0 s :
  wf_subnets config → load config = Done s0 → rtc step s0 s →
  (∃ pairs, subnets_to_manage (st_loaded s) = Done pairs ∧
     task_key <$> st_tasks s = manager_keys pairs) ∧
  NoDup (manager_id <$> (task_key <$> st_tasks s)) ∧
  (∀ s' i t, step s s' → st_tasks s !! i = Some t → live t →
     ∃ t', st_tasks s' !! i = Some t' ∧ task_key t' = task_key t).
Proof.
  intros Hwf Hload Hr. assert (Hinv : inv s) by (eapply reachable_inv; [by apply (load_inv config)|done]).
  destruct Hinv as [_ Hwf' (pairs & Hp & Ht)]. split_and!.
  - by exists pairs.
  - rewrite Ht. apply manager_ids_nodup. by eapply subnets_to_manage_nodup.
  - intros s' i t. apply live_kept.
Qed.

(** ** A lost notification *)

(** Manager [i] of the subsystem that waits for its managers: it was not reached by a
    notification. *)
Definition unreached (b : bool) (i : nat) (key : Subnet * Subnet * Direction) (s : State) : Prop :=
  st_phase s = Stopping b ∧
  ∃ t, st_tasks s !! i = Some t ∧ task_key t = key ∧ task_state t ≠ Ended (Done ()).

(** An error has ended that manager, or a manager has panicked. *)
Definition crashed (b : bool) (i : nat) (s : State) : Prop :=
  st_phase s = Stopping b ∧
  ((∃ t r, st_tasks s !! i = Some t ∧ task_state t = Ended r ∧ r ≠ Done ()) ∨
   ∃ j t, st_tasks s !! j = Some t ∧ panicked t = true).

Lemma join_crashed s b i key :
  unreached b i key s → is_Some (join (st_tasks s)) → crashed b i s.
Proof.
  intros (Hph & t & Hi & _ & Ht) [r Hj]. split; [done|]. unfold join in Hj.
  destruct (existsb panicked (st_tasks s)) eqn:Hp.
  - right. apply existsb_exists in Hp as (t' & Hin & Hp).
    apply list_elem_of_In, list_elem_of_lookup in Hin as [j Hin]. by exists j, t'.
  - left. destruct (forallb ended (st_tasks s)) eqn:Hall; [|done]. rewrite forallb_forall in Hall.
    specialize (Hall t (proj1 (list_elem_of_In _ _) (list_elem_of_lookup_2 _ _ _ Hi))).
    unfold ended in Hall. destruct (task_state t) as [| |r'] eqn:Hst; [done..|].
    exists t, r'. split_and!; [done|done|]. by intros ->.
Qed.

Lemma unreached_step s s' b i key :
  unreached b i key s → step s s' → unreached b i key s' ∨ crashed b i s.
Proof.
  intros Hu Hstep. pose proof Hu as (Hph & t & Hi & Hk & Ht).
  destruct Hstep as [c _|j t' st' Hj Hts|sig Hw|b' r s' _ Hr _].
  - left. split; [done|]. by exists t.
  - left. split; [done|]. cbn. destruct (decide (i = j)) as [->|Hne].
    + exists (set_task_state st' t'). simplify_eq. split_and!; [|done|].
      * apply list_lookup_insert_eq. by eapply lookup_lt_Some.
      * cbn. destruct Hts; congruence.
    + exists t. by rewrite list_lookup_insert_ne.
  - congruence.
  - right. eapply join_crashed; [done|]. by rewrite Hr.
Qed.

Lemma on_signal_unreached sig s i t :
  st_tasks s !! i = Some t → task_state t = Working →
  unreached (is_shutdown sig) i (task_key t) (on_signal sig s).
Proof.
  intros Hi Hw. split; [done|]. exists t. cbn. unfold notify_waiters.
  rewrite list_lookup_fmap, Hi. cbn. by rewrite Hw.
Qed.

(** Without a working manager the notification has stopped them all. *)
Lemma join_notified tasks :
  Forall (λ t, task_state t ≠ Working) tasks → existsb panicked tasks = false →
  join (notify_waiters tasks) = Some (Done ()).
Proof.
  intros Hw Hp. unfold join.
  assert (existsb panicked (notify_waiters tasks) = false ∧ forallb ended (notify_waiters tasks) = true)
    as [-> ->]; [|done].
  induction Hw as [|t tasks Ht _ IH]; [done|]. cbn in Hp. apply orb_false_iff in Hp as [Hp1 Hp2].
  unfold notify_waiters in IH |- *. rewrite fmap_cons. cbn [existsb forallb].
  destruct (IH Hp2) as [-> ->]. unfold panicked, ended in *.
  destruct (task_state t) as [| |r] eqn:Hst; cbn; rewrite ?Hst; [done|done|]. by rewrite Hp1.
Qed.

(** C27 (stop notifications): the subsystem is told to shut down or to reload.  If every
    manager is then waiting or has ended, without a panic, the next step may be the
    return or the load of the latest configuration.  A manager that is working at
    that moment misses the notification, which reaches waiting tasks only and is not
    repeated: under every interleaving that follows the subsystem keeps stopping and
    that manager never returns as one that was told to, however often it waits
    again; the only way out is through a state in which that very manager was ended
    by an error of its own, or some manager has panicked. *)
Theorem stop_notification_lost sig s :
  (Forall (λ t, task_state t ≠ Working) (st_tasks s) → existsb panicked (st_tasks s) = false →
   ∃ s', step (on_signal sig s) s' ∧
     if is_shutdown sig then st_phase s' = Returned (Done ()) else load (st_config s) = Done s') ∧
  (∀ i t s', st_tasks s !! i = Some t → task_state t = Working → rtc step (on_signal sig s) s' →
   unreached (is_shutdown sig) i (task_key t) s' ∨
   ∃ s1, rtc step (on_signal sig s) s1 ∧ rtc step s1 s' ∧ crashed (is_shutdown sig) i s1).
Proof.
  split.
  - intros Hw Hp. pose proof (join_notified _ Hw Hp) as Hj.
    destruct (subnets_to_manage_total (st_config s)) as [pairs Hpairs]. destruct (is_shutdown sig) eqn:Hsig.
    + eexists. split; [by eapply (step_joined _ true); [cbn; by rewrite Hsig|exact Hj|]|done].
    + unfold load. rewrite Hpairs. eexists. split; [|done].
      eapply (step_joined _ false); [cbn; by rewrite Hsig|exact Hj|]. cbn. unfold load. by rewrite Hpairs.
  - intros i t s' Hi Hw Hr. pose proof (on_signal_unreached sig s i t Hi Hw) as Hu. clear Hi Hw. revert Hu.
    induction Hr as [x|x y z Hxy Hyz IH]; [by left|]. intros Hu.
    destruct (unreached_step _ _ _ _ _ Hu Hxy) as [Hu'|Hc].
    + destruct (IH Hu') as [|(s1 & H1 & H2 & Hc)]; [by left|right].
      exists s1. split; [by eapply rtc_l|done].
    + right. exists x. split; [done|]. split; [by eapply rtc_l|done].
Qed.
End subsystem.

(** ** A configuration with one managed subnet *)
Module SubsystemDemo.
#[local] Existing Instances Demo.resolver_types Demo.agent_types.
Import DemoNode.

Definition iter : HashIter (@SubnetID Demo.resolver_types) := canonical_iter _.
#[local] Existing Instance iter.

Definition config : Subnets :=
  <[subnet_id child := child]> (<[subnet_id parent := parent]> ∅).

Lemma config_wf : wf_subnets config.
Proof.
  intros id s. unfold config. rewrite !lookup_insert_Some, lookup_empty.
  by intros [[<- <-]|[_ [[<- <-]|[_ [=]]]]].
Qed.

Definition loaded : State :=
  match load config with Done s => s | _ => mkState ∅ ∅ [] Watching end.

Lemma load_config : load config = Done loaded.
Proof. unfold loaded, load. by destruct (subnets_to_manage_total config) as [l ->]. Qed.

Lemma subnets_to_manage_exact_witness :
  ∃ l, subnets_to_manage config = Done l ∧ (child, parent) ∈ l ∧
    NoDup ((λ p, subnet_id p.1) <$> l).
Proof.
  destruct (subnets_to_manage_exact config) as (l & Hl & Hin & Hnd). exists l.
  split_and!; [done| |apply Hnd, config_wf]. apply Hin. split_and!; [|done|].
  - exists (subnet_id child). unfold config. apply lookup_insert_eq.
  - exists (subnet_id parent). split; [done|]. unfold config.
    rewrite lookup_insert_ne by done. apply lookup_insert_eq.
Defined.

Lemma managers_exclusive_witness :
  NoDup (manager_id <$> (task_key <$> st_tasks loaded)).
Proof. by destruct (managers_exclusive config loaded loaded config_wf load_config (rtc_refl _ _)) as (_ & ? & _). Defined.

(** The manager of [child] is working when the configuration changes; later it
    waits. *)
Definition busy : State := mkState config config [mkTask (child, parent) BottomUp Working] Watching.

Definition later : State :=
  mkState config config [mkTask (child, parent) BottomUp Waiting] (Stopping false).

Lemma busy_waits : step (on_signal ConfigChanged busy) later.
Proof.
  by apply (step_task (on_signal ConfigChanged busy) 0 (mkTask (child, parent) BottomUp Working) Waiting);
    [|constructor].
Qed.

(** The first half with [later]'s manager, which is waiting, the second with [busy]'s. *)
Lemma stop_notification_lost_witness :
  (∃ s', step (on_signal ConfigChanged later) s' ∧ st_phase s' = Watching) ∧
  unreached false 0 (child, parent, BottomUp) later.
Proof.
  split.
  - destruct (proj1 (stop_notification_lost ConfigChanged later)) as (s' & Hs & Hl);
      [by repeat constructor|done|]. exists s'. split; [done|]. by apply load_done in Hl as (_ & _ & ?).
  - destruct (proj2 (stop_notification_lost ConfigChanged busy) 0
      (mkTask (child, parent) BottomUp Working) later) as [Hu|(s1 & H1 & H2 & Hc)];
      [done|done|apply rtc_once, busy_waits|exact Hu|].
    split; [done|]. by eexists.
Defined.
End SubsystemDemo.
