(* ===== verification/SubnetManager.v ===== *)
(** * The subnet manager

    [src/manager/lotus.rs] and the trait of [src/manager/subnet.rs]: the
    operations with which the agent's commands act on subnets.  Each operation
    that changes something pushes one message to the node it is connected to,
    after checking that the node belongs to the right network, and waits for
    the message to be committed. *)
From S2P Require Import Prelude Types Records Outcome Json Lotus LotusApi Checkpointing.

(** Parameter types of the actors' crates and their CBOR encoding. *)
Class ManagerTypes `{AgentTypes} := {
  ConstructParams : Type;
  construct_parent : ConstructParams → SubnetID;
  cbor_construct : ConstructParams → result string bytes;
  (** [InitExecParams { code_cid, constructor_params }]. *)
  cbor_init_exec : Cid → bytes → result string bytes;
  (** [JoinParams { validator_net_addr }]. *)
  cbor_join : string → result string bytes;
  cbor_subnet_id : SubnetID → result string bytes;
  (** [PropagateParams { postbox_cid }]. *)
  cbor_propagate : Cid → result string bytes;
  (** [WhitelistPropagatorParams { postbox_cid, to_add }]. *)
  cbor_whitelist : Cid → list Address → result string bytes;
  (** [InitExecReturn]: its [id_address], decoded and by default. *)
  base64_decode_return : string → option bytes;
  cbor_de_init_return : bytes → option Address;
  init_return_default : Address;
  INIT_ACTOR_ADDR : Address;
  MANIFEST_ID : string;
}.

Section manager.
Context {W : Type} `{!ResolverTypes} `{!AgentTypes} `{!ManagerTypes} `{!LotusClient W}.

Notation io := (io W Event).

(** [LotusSubnetManager]. *)
Record LotusSubnetManager := mkLotusSubnetManager { lotus_client : Client }.

(** [LotusSubnetManager::from_subnet]. *)
Definition manager_from_subnet (s : Subnet) : LotusSubnetManager :=
  mkLotusSubnetManager (from_subnet s).

Variable self : LotusSubnetManager.

Definition mpool_push_and_wait (message : MpoolPushMessage) : io StateWaitMsgResponse :=
  mem_push_response ← mpool_push_message (lotus_client self) message;
  message_cid ← lift (push_response_cid mem_push_response);
  state_wait_msg (lotus_client self) message_cid.

Definition is_network_match (network : SubnetID) : io bool :=
  network_name ← state_network_name (lotus_client self);
  mret (bool_decide (subnet_to_string network = network_name)).

Definition get_subnet_actor_code_cid : io Cid :=
  network_version ← state_network_version (lotus_client self) [];
  cid_map ← state_actor_code_cids (lotus_client self) network_version;
  lift (ok_or_fail "actor cid not found" (cid_map !! MANIFEST_ID)).

Definition WRONG_PARENT : string :=
  "subnet actor being deployed in the wrong parent network, parent network names do not match".

Definition create_subnet (from : Address) (params : ConstructParams) : io Address :=
  matches ← is_network_match (construct_parent params);
  if negb matches then lift (Fail WRONG_PARENT) else
  code_cid ← get_subnet_actor_code_cid;
  constructor_params ← lift (of_result (cbor_construct params));
  init_params ← lift (of_result (cbor_init_exec code_cid constructor_params));
  let message := mpool_push_message_new INIT_ACTOR_ADDR from InitExec init_params in
  state_wait_response ← mpool_push_and_wait message;
  lift (parse_result_into base64_decode_return cbor_de_init_return init_return_default
          (wait_receipt state_wait_response)).

Definition join_subnet (subnet : SubnetID) (from : Address) (collateral : TokenAmount)
    (validator_net_addr : string) : io () :=
  parent ← lift (ok_or_fail "cannot join root" (subnet_parent subnet));
  matches ← is_network_match parent;
  if negb matches then lift (Fail WRONG_PARENT) else
  params ← lift (of_result (cbor_join validator_net_addr));
  let message := mpool_push_message_new (subnet_actor subnet) from SubnetJoin params in
  let message := set_msg_value collateral message in
  _ ← mpool_push_and_wait message;
  mret ().

Definition leave_subnet (subnet : SubnetID) (from : Address) : io () :=
  parent ← lift (ok_or_fail "cannot leave root" (subnet_parent subnet));
  matches ← is_network_match parent;
  if negb matches then lift (Fail WRONG_PARENT) else
  _ ← mpool_push_and_wait (mpool_push_message_new (subnet_actor subnet) from SubnetLeave []);
  mret ().

Definition kill_subnet (subnet : SubnetID) (from : Address) : io () :=
  parent ← lift (ok_or_fail "cannot kill root" (subnet_parent subnet));
  matches ← is_network_match parent;
  if negb matches then lift (Fail WRONG_PARENT) else
  _ ← mpool_push_and_wait (mpool_push_message_new (subnet_actor subnet) from SubnetKill []);
  mret ().

Definition list_child_subnets (gateway : Address) : io (gmap SubnetID SubnetInfo) :=
  subnets ← ipc_list_child_subnets (lotus_client self) gateway;
  mret (foldl (λ (m : gmap SubnetID SubnetInfo) s, <[si_id s := s]> m) ∅ subnets).

Definition fund (subnet : SubnetID) (gateway from : Address) (amount : TokenAmount) : io () :=
  parent ← lift (ok_or_fail "cannot fund root" (subnet_parent subnet));
  matches ← is_network_match parent;
  if negb matches then lift (Fail "subnet actor being funded not matching current network") else
  fund_params ← lift (of_result (cbor_subnet_id subnet));
  let message := mpool_push_message_new gateway from GatewayFund fund_params in
  let message := set_msg_value amount message in
  _ ← mpool_push_and_wait message;
  mret ().

Definition release (subnet : SubnetID) (gateway from : Address) (amount : TokenAmount) : io () :=
  matches ← is_network_match subnet;
  if negb matches then lift (Fail "subnet actor being released not matching current network") else
  let message := mpool_push_message_new gateway from GatewayRelease [] in
  let message := set_msg_value amount message in
  _ ← mpool_push_and_wait message;
  mret ().

Definition propagate (subnet : SubnetID) (gateway from : Address) (postbox_msg_cid : Cid) : io () :=
  matches ← is_network_match subnet;
  if negb matches then lift (Fail "propagation not targeting the correct network") else
  params ← lift (of_result (cbor_propagate postbox_msg_cid));
  let message := mpool_push_message_new gateway from GatewayPropagate params in
  _ ← mpool_push_and_wait message;
  mret ().

Definition set_validator_net_addr (subnet : SubnetID) (from : Address) (validator_net_addr : string) : io () :=
  parent ← lift (ok_or_fail "cannot fund root" (subnet_parent subnet));
  matches ← is_network_match parent;
  if negb matches then
    lift (Fail "set validator net addr not targeting the correct parent network") else
  params ← lift (of_result (cbor_join validator_net_addr));
  let message := mpool_push_message_new (subnet_actor subnet) from SubnetSetValidatorNetAddr params in
  _ ← mpool_push_and_wait message;
  mret ().

Definition whitelist_propagator (subnet : SubnetID) (gateway : Address) (postbox_msg_cid : Cid)
    (from : Address) (to_add : list Address) : io () :=
  matches ← is_network_match subnet;
  if negb matches then lift (Fail "whitelist not targeting the correct network") else
  params ← lift (of_result (cbor_whitelist postbox_msg_cid to_add));
  let message := mpool_push_message_new gateway from GatewayWhiteListPropagator params in
  _ ← mpool_push_and_wait message;
  mret ().

Definition send_value (from to : Address) (amount : TokenAmount) : io () :=
  let message := mpool_push_message_new to from SendValue [] in
  let message := set_msg_value amount message in
  _ ← mpool_push_and_wait message;
  mret ().

Definition manager_wallet_new (key_type : WalletKeyType) : io Address :=
  addr_str ← wallet_new (lotus_client self) key_type;
  lift (ok_or_fail "cannot get address from string output" (address_from_str addr_str)).

Definition manager_wallet_list : io (list Address) :=
  raws ← wallet_list (lotus_client self);
  lift (traverse (λ raw, ok_or_fail ("invalid addr: " +:+ raw) (address_from_str raw)) raws).

Definition manager_wallet_balance (address : Address) : io TokenAmount :=
  wallet_balance (lotus_client self) address.

Definition list_checkpoints (s : SubnetID) (from_epoch to_epoch : ChainEpoch) : io (list BottomUpCheckpoint) :=
  ipc_list_checkpoints (lotus_client self) s from_epoch to_epoch.

Definition last_topdown_executed : io ChainEpoch :=
  head ← chain_head (lotus_client self);
  tip_set ← lift (first_tip_set head);
  gw_state ← ipc_read_gateway_state (lotus_client self) tip_set;
  mret (last_voting_executed (top_down_checkpoint_voting gw_state)).

(** ** What an operation is to do *)

(** The operations that change something on chain. *)
Inductive Op :=
  | OpCreate (from : Address) (params : ConstructParams)
  | OpJoin (subnet : SubnetID) (from : Address) (collateral : TokenAmount) (net_addr : string)
  | OpLeave (subnet : SubnetID) (from : Address)
  | OpKill (subnet : SubnetID) (from : Address)
  | OpFund (subnet : SubnetID) (gateway from : Address) (amount : TokenAmount)
  | OpRelease (subnet : SubnetID) (gateway from : Address) (amount : TokenAmount)
  | OpPropagate (subnet : SubnetID) (gateway from : Address) (cid : Cid)
  | OpSetNetAddr (subnet : SubnetID) (from : Address) (net_addr : string)
  | OpWhitelist (subnet : SubnetID) (gateway : Address) (cid : Cid) (from : Address) (to_add : list Address)
  | OpSend (from to : Address) (amount : TokenAmount).

Definition ignore {A} (m : io A) : io () := _ ← m; mret ().

Definition run_op (op : Op) : io () :=
  match op with
  | OpCreate from params => ignore (create_subnet from params)
  | OpJoin s from v a => join_subnet s from v a
  | OpLeave s from => leave_subnet s from
  | OpKill s from => kill_subnet s from
  | OpFund s g from v => fund s g from v
  | OpRelease s g from v => release s g from v
  | OpPropagate s g from c => propagate s g from c
  | OpSetNetAddr s from a => set_validator_net_addr s from a
  | OpWhitelist s g c from l => whitelist_propagator s g c from l
  | OpSend from to v => send_value from to v
  end.

(** The network the node must belong to: the parent's for operations on the
    subnet actor and for funding, the subnet's own for release, propagation and
    whitelisting.  Any network for a plain transfer: [send_value] does not ask the
    node for its network. *)
Definition right_network (op : Op) (name : string) : Prop :=
  match op with
  | OpCreate _ params => name = subnet_to_string (construct_parent params)
  | OpJoin s _ _ _ | OpLeave s _ | OpKill s _ | OpFund s _ _ _ | OpSetNetAddr s _ _ =>
      ∃ p, subnet_parent s = Some p ∧ name = subnet_to_string p
  | OpRelease s _ _ _ | OpPropagate s _ _ _ | OpWhitelist s _ _ _ _ => name = subnet_to_string s
  | OpSend _ _ _ => True
  end.

(** The message an operation is to send, given the code CIDs the node reported. *)
Definition right_message (op : Op) (codes : option (gmap string Cid)) (m : MpoolPushMessage) : Prop :=
  let sends to from method value params :=
    m = set_msg_value value (mpool_push_message_new to from method params) in
  match op with
  | OpCreate from ps =>
      ∃ cids code ctor params, codes = Some cids ∧ cids !! MANIFEST_ID = Some code ∧
        cbor_construct ps = Ok ctor ∧ cbor_init_exec code ctor = Ok params ∧
        sends INIT_ACTOR_ADDR from InitExec 0%Z params
  | OpJoin s from v a =>
      ∃ params, cbor_join a = Ok params ∧ sends (subnet_actor s) from SubnetJoin v params
  | OpLeave s from => sends (subnet_actor s) from SubnetLeave 0%Z []
  | OpKill s from => sends (subnet_actor s) from SubnetKill 0%Z []
  | OpFund s g from v => ∃ params, cbor_subnet_id s = Ok params ∧ sends g from GatewayFund v params
  | OpRelease s g from v => sends g from GatewayRelease v []
  | OpPropagate s g from c =>
      ∃ params, cbor_propagate c = Ok params ∧ sends g from GatewayPropagate 0%Z params
  | OpSetNetAddr s from a =>
      ∃ params, cbor_join a = Ok params ∧ sends (subnet_actor s) from SubnetSetValidatorNetAddr 0%Z params
  | OpWhitelist s g c from l =>
      ∃ params, cbor_whitelist c l = Ok params ∧ sends g from GatewayWhiteListPropagator 0%Z params
  | OpSend from to v => sends to from SendValue v []
  end.

Fixpoint reported_codes (t : list Event) : option (gmap string Cid) :=
  match t with
  | EvActorCodes _ _ (Done cids) :: _ => Some cids
  | _ :: t => reported_codes t
  | [] => None
  end.

Fixpoint reported_name (t : list Event) : option string :=
  match t with
  | EvNetworkName _ (Done n) :: _ => Some n
  | _ :: t => reported_name t
  | [] => None
  end.

Definition op_ok (op : Op) (old : list Event) (e : Event) : Prop :=
  match e with
  | EvPush c m _ =>
      c = lotus_client self ∧ Forall (λ e, is_push e = false) old ∧
      right_network op (default EmptyString (reported_name old)) ∧
      right_message op (reported_codes old) m
  | EvWaitMsg c cid _ =>
      c = lotus_client self ∧
      ∃ m r before, old = EvPush c m (Done r) :: before ∧ push_response_cid r = Done cid
  | EvNetworkName c _ => c = lotus_client self ∧ old = []
  | EvNetworkVersion c ts _ => c = lotus_client self ∧ ts = []
  | EvActorCodes c _ _ => c = lotus_client self
  | _ => False
  end.

(** The message was pushed and committed. *)
Definition committed (t : list Event) : Prop :=
  ∃ m r cid w before,
    t = EvWaitMsg (lotus_client self) cid (Done w) :: EvPush (lotus_client self) m (Done r) :: before.

(** After a failure the message was not committed, except that the result of a
    committed creation may be one that cannot be read. *)
Definition is_create (op : Op) : bool := match op with OpCreate _ _ => true | _ => false end.

Definition uncommitted (op : Op) (t : list Event) : Prop := is_create op = false → ¬ committed t.

Lemma no_push_uncommitted op t : Forall (λ e, is_push e = false) t → uncommitted op t.
Proof. intros Ht _ (m & r & cid & w & before & ->). by inversion Ht as [|? ? _ Hp]; inversion Hp. Qed.

(** The last event shows it. *)
Ltac not_committed := by intros; intros _ (? & ? & ? & ? & ? & ?); simplify_eq.

Lemma push_and_wait_ok op m t :
  guarded (op_ok op) t → Forall (λ e, is_push e = false) t →
  right_network op (default EmptyString (reported_name t)) → right_message op (reported_codes t) m →
  wps (op_ok op) (mpool_push_and_wait m) (λ _ t', committed t') (uncommitted op) t.
Proof.
  intros Hg Hp Hn Hm. unfold mpool_push_and_wait.
  eapply wps_bind_call; [done|done|not_committed|]. intros r Hg1.
  eapply wps_bind_lift; [done|not_committed|]. intros cid Hcid.
  apply wps_call; [done|by intros; split; [|do 3 eexists]|not_committed|]. intros w. by do 5 eexists.
Qed.

(** The common beginning: the network check. *)
Lemma network_match_ok op {A} network e (f : io A) Q :
  (∀ n, guarded (op_ok op) [EvNetworkName (lotus_client self) (Done (subnet_to_string network))] →
     n = subnet_to_string network →
     wps (op_ok op) f Q (uncommitted op) [EvNetworkName (lotus_client self) (Done n)]) →
  wps (op_ok op) (matches ← is_network_match network; if negb matches then lift (Fail e) else f)
    Q (uncommitted op) [].
Proof.
  intros Hf. unfold is_network_match.
  eapply (wps_bind _ _ _ (λ b t', ∃ n, t' = [EvNetworkName (lotus_client self) (Done n)] ∧
    b = bool_decide (subnet_to_string network = n))).
  - eapply wps_bind_call; [done|done|not_committed|]. intros n Hg. apply wps_ret; [done|]. by exists n.
  - intros b t' Hg _ (n & -> & ->). case_bool_decide as Hn; cbn [negb]; [|by apply wps_lift; [|not_committed|]].
    subst n. by apply Hf.
Qed.

Lemma push_then_unit op m t :
  guarded (op_ok op) t → Forall (λ e, is_push e = false) t →
  right_network op (default EmptyString (reported_name t)) → right_message op (reported_codes t) m →
  wps (op_ok op) (_ ← mpool_push_and_wait m; mret ()) (λ _ t', committed t') (uncommitted op) t.
Proof.
  intros Hg Hp Hn Hm. eapply wps_bind; [by apply push_and_wait_ok|].
  intros a t' Hg' _ Hc. by apply wps_ret.
Qed.

Lemma ok_or_fail_done {A} e (o : option A) a : ok_or_fail e o = Done a → o = Some a.
Proof. destruct o; [by intros [= ->]|done]. Qed.

Lemma of_result_done {A} (r : result string A) a : of_result r = Done a → r = Ok a.
Proof. destruct r; [by intros [= ->]|done]. Qed.

(** Parameters are serialised, then the message is pushed. *)
Lemma serialize_push_ok op (r : result string bytes) (msg : bytes → MpoolPushMessage) t :
  guarded (op_ok op) t → Forall (λ e, is_push e = false) t →
  right_network op (default EmptyString (reported_name t)) →
  (∀ params, r = Ok params → right_message op (reported_codes t) (msg params)) →
  wps (op_ok op) (params ← lift (of_result r); _ ← mpool_push_and_wait (msg params); mret ())
    (λ _ t', committed t') (uncommitted op) t.
Proof.
  intros Hg Hp Hn Hm. eapply wps_bind_lift; [done|by apply no_push_uncommitted|]. intros params Hr%of_result_done.
  apply push_then_unit; auto.
Qed.

(** The check for operations that go to the subnet's parent. *)
Lemma parent_match_ok op s e e' (f : io ()) :
  (∀ p, subnet_parent s = Some p →
     guarded (op_ok op) [EvNetworkName (lotus_client self) (Done (subnet_to_string p))] →
     wps (op_ok op) f (λ _ t', committed t') (uncommitted op)
       [EvNetworkName (lotus_client self) (Done (subnet_to_string p))]) →
  wps (op_ok op)
    (parent ← lift (ok_or_fail e (subnet_parent s)); matches ← is_network_match parent;
     if negb matches then lift (Fail e') else f) (λ _ t', committed t') (uncommitted op) [].
Proof.
  intros Hf. eapply wps_bind_lift; [done|not_committed|]. intros p Hp%ok_or_fail_done.
  apply network_match_ok. intros n Hg ->. by apply Hf.
Qed.

Lemma create_ok from params :
  wps (op_ok (OpCreate from params)) (create_subnet from params) (λ _ t', committed t')
    (uncommitted (OpCreate from params)) [].
Proof.
  unfold create_subnet. apply network_match_ok. intros n Hg ->.
  eapply (wps_bind _ _ _ (λ code t', ∃ cids v, cids !! MANIFEST_ID = Some code ∧
    t' = [EvActorCodes (lotus_client self) v (Done cids);
          EvNetworkVersion (lotus_client self) [] (Done v);
          EvNetworkName (lotus_client self) (Done (subnet_to_string (construct_parent params)))])).
  { unfold get_subnet_actor_code_cid.
    eapply wps_bind_call; [done|done|done|]. intros v Hg1.
    eapply wps_bind_call; [done|done|done|]. intros cids Hg2.
    apply wps_lift; [done|done|]. intros code Hc%ok_or_fail_done. by exists cids, v. }
  intros code t' Hg' _ (cids & v & Hc & ->).
  eapply wps_bind_lift; [done|done|]. intros ctor Hctor%of_result_done.
  eapply wps_bind_lift; [done|done|]. intros init Hinit%of_result_done.
  eapply wps_bind; [apply push_and_wait_ok; [done|by repeat constructor|done|]|].
  - by exists cids, code, ctor, init.
  - intros w t' Hg'' _ Hcom. by apply wps_lift.
Qed.

Lemma run_op_ok op : wps (op_ok op) (run_op op) (λ _ t', committed t') (uncommitted op) [].
Proof.
  destruct op; cbn [run_op].
  - eapply wps_bind; [apply create_ok|]. intros a t' Hg _ Hc. by apply wps_ret.
  - apply parent_match_ok. intros p Hp Hg.
    apply serialize_push_ok; [done|by repeat constructor|by exists p|]. intros ps Hr. by exists ps.
  - apply parent_match_ok. intros p Hp Hg. apply push_then_unit; [done|by repeat constructor|by exists p|done].
  - apply parent_match_ok. intros p Hp Hg. apply push_then_unit; [done|by repeat constructor|by exists p|done].
  - apply parent_match_ok. intros p Hp Hg.
    apply serialize_push_ok; [done|by repeat constructor|by exists p|]. intros ps Hr. by exists ps.
  - apply network_match_ok. intros n Hg ->. by apply push_then_unit; [|repeat constructor|..].
  - apply network_match_ok. intros n Hg ->.
    apply serialize_push_ok; [done|by repeat constructor|done|]. intros ps Hr. by exists ps.
  - apply parent_match_ok. intros p Hp Hg.
    apply serialize_push_ok; [done|by repeat constructor|by exists p|]. intros ps Hr. by exists ps.
  - apply network_match_ok. intros n Hg ->.
    apply serialize_push_ok; [done|by repeat constructor|done|]. intros ps Hr. by exists ps.
  - by apply push_then_unit.
Qed.

(** C15 (subnet operations): whatever the node answers, an operation pushes at most
    one message, to the node of the manager, and only if the node has reported the
    name of the right network: the parent of the subnet for the operations on the
    subnet actor and for funding, the subnet itself for release, propagation and
    whitelisting; only [send_value] pushes without asking for the network.  The message has the receiver, sender, method, value and parameters
    that the operation asks for; the next call waits for that very message; and the
    operation succeeds only if the message was accepted and committed.  Every
    operation but the creation succeeds exactly then: the exit code with which the
    committed message was executed does not count. *)
Theorem operations_on_right_network op (w : W) :
  let p := run_op op (mkRun w []) in
  (∀ new e old, trace p.2 = new ++ e :: old → op_ok op old e) ∧
  (p.1 = Done () → committed (trace p.2)) ∧
  (is_create op = false → committed (trace p.2) → p.1 = Done ()).
Proof.
  intros p. destruct (run_op_ok op w) as (Hg & _ & Hpost). fold p in Hg, Hpost. split_and!.
  - intros new e old Ht. by eapply guarded_split in Ht as [? _].
  - intros Hd. by rewrite Hd in Hpost.
  - intros Hop Hc. destruct p.1 as [[]| | |]; [done|by destruct (Hpost Hop)..].
Qed.
End manager.

(** ** Runs on a simulated node of the network [/root] *)
Module ManagerDemo.
#[local] Existing Instances Demo.resolver_types Demo.agent_types DemoNode.client.
Import DemoNode.

#[export] Instance manager_types : ManagerTypes := {|
  ConstructParams := @SubnetID Demo.resolver_types;
  construct_parent := λ s, s;
  cbor_construct := λ _, Ok [];
  cbor_init_exec := λ _ _, Ok [];
  cbor_join := λ _, Ok [];
  cbor_subnet_id := λ _, Ok [];
  cbor_propagate := λ _, Ok [];
  cbor_whitelist := λ _ _, Ok [];
  base64_decode_return := λ _, None;
  cbor_de_init_return := λ _, None;
  init_return_default := Demo.addr "t00";
  INIT_ACTOR_ADDR := Demo.addr "t01";
  MANIFEST_ID := "ipc_subnet_actor";
|}.

Definition manager : LotusSubnetManager := manager_from_subnet parent.

Definition demo_op (op : Op) : outcome () * list (string * Method) :=
  let p := run_op manager op (mkRun (mkNode 0 0) []) in (p.1, pushes (trace p.2)).

Example funds_child :
  demo_op (OpFund (subnet_id child) (Demo.addr "t064") (Demo.addr "t1a") 9%Z) =
    (Done (), [("t1a", GatewayFund)]).
Proof. vm_compute. reflexivity. Qed.

(** The node is not on the child's network. *)
Example release_refused :
  demo_op (OpRelease (subnet_id child) (Demo.addr "t064") (Demo.addr "t1a") 9%Z) =
    (Fail "subnet actor being released not matching current network", []).
Proof. vm_compute. reflexivity. Qed.

Example creates_in_root :
  demo_op (OpCreate (Demo.addr "t1a") (subnet_id parent)) = (Done (), [("t1a", InitExec)]).
Proof. vm_compute. reflexivity. Qed.
End ManagerDemo.
