(* ===== verification/Config.v ===== *)
(** * The configuration

    [src/config]: reading the TOML file into a [Config], and the
    [ReloadableConfig] that the subsystems share, with the broadcast channel
    that tells them about a new configuration.

    The file system, the TOML parser and the parsers of URLs and socket
    addresses are interfaces; a parsed document is the tree of values that the
    decoders of [Json.v] read.  [reload] is a program over the shared object and
    the world, each of its steps a change of its own.  The broadcast channel is
    [tokio]'s, as its documentation describes it: every receiver has its own
    position in a buffer, of 8 messages here, and a receiver that falls behind
    loses the oldest ones and is told so by an error. *)
From S2P Require Import Prelude Types Records Outcome Json Toml Lotus LotusApi Subsystem.

(** [toml::from_str], [Url::from_str] and [SocketAddr::from_str]; a URL and an
    address are kept as their text. *)
Class ConfigParsers := {
  toml_from_str : string → result string Json;
  url_from_str : string → option string;
  socket_addr_from_str : string → option string;
}.

(** [toml] follows the TOML specification on the documents that [toml_read] reads. *)
Class TomlLaws `{ConfigParsers} := {
  toml_reads : ∀ s j, toml_read s = Some j → toml_from_str s = Ok j;
}.

Class FileSystem (W : Type) := { read_to_string : string → W → result string string * W }.

Definition JSON_RPC_VERSION : string := "2.0".
Definition JSON_RPC_ENDPOINT : string := "json_rpc".

(** [DEFAULT_CONFIG_TEMPLATE]; [setting k v] is a line [k = "v"]. *)
Definition quote : string := String "034" EmptyString.
Definition newline : string := String "010" EmptyString.
Definition setting (k v : string) : string := k +:+ " = " +:+ quote +:+ v +:+ quote +:+ newline.

Definition DEFAULT_CONFIG_TEMPLATE : string :=
  newline
  +:+ "[server]" +:+ newline
  +:+ setting "json_rpc_address" "127.0.0.1:3030"
  +:+ newline
  +:+ "[[subnets]]" +:+ newline
  +:+ setting "id" "/root"
  +:+ setting "gateway_addr" "t064"
  +:+ setting "network_name" "root"
  +:+ setting "jsonrpc_api_http" "http://127.0.0.1:1234/rpc/v1"
  +:+ setting "jsonrpc_api_ws" "wss://example.org/rpc/v0"
  +:+ setting "auth_token" "YOUR TOKEN"
  +:+ "accounts = [" +:+ quote +:+ "t01" +:+ quote +:+ "]" +:+ newline
  +:+ newline
  +:+ "[[subnets]]" +:+ newline
  +:+ setting "id" "/root/t01"
  +:+ setting "gateway_addr" "t064"
  +:+ setting "network_name" "child"
  +:+ setting "jsonrpc_api_http" "http://127.0.0.1:1250/rpc/v1"
  +:+ setting "auth_token" "YOUR TOKEN"
  +:+ "accounts = [" +:+ quote +:+ "t01" +:+ quote +:+ "]" +:+ newline.

Module json_rpc_methods.
Definition CREATE_SUBNET : string := "ipc_createSubnet".
Definition JOIN_SUBNET : string := "ipc_joinSubnet".
Definition LEAVE_SUBNET : string := "ipc_leaveSubnet".
Definition KILL_SUBNET : string := "ipc_killSubnet".
Definition FUND : string := "ipc_fund".
Definition RELEASE : string := "ipc_release".
Definition PROPAGATE : string := "ipc_propagate".
Definition WHITELIST_PROPAGATOR : string := "ipc_whitelistPropagator".
Definition LIST_CHILD_SUBNETS : string := "ipc_listChildSubnets".
Definition RELOAD_CONFIG : string := "ipc_reloadConfig".
Definition QUERY_VALIDATOR_SET : string := "ipc_queryValidatorSet".
Definition SET_VALIDATOR_NET_ADDR : string := "ipc_setValidatorNetAddr".
Definition SEND_VALUE : string := "ipc_sendValue".
Definition WALLET_NEW : string := "ipc_walletNew".
Definition WALLET_LIST : string := "ipc_walletList".
Definition LIST_BOTTOMUP_CHECKPOINTS : string := "ipc_listBottomUpCheckpoints".
Definition LAST_TOPDOWN_EXECUTED : string := "ipc_lastTopDownCheckpointExecuted".
End json_rpc_methods.

(** [Server] and [Config]. *)
Record Server := mkServer { json_rpc_address : string }.

Record Config `{AgentTypes} := mkConfig { server : Server; subnets : Subnets }.
Arguments mkConfig {_ _} _ _.

Section config.
Context {W : Type} `{!ResolverTypes} `{!AgentTypes} `{!ConfigParsers} `{!FileSystem W}.

(** ** Deserialization *)

Definition deserialize_subnet_id : decoder SubnetID := λ j,
  s ← de_string j; ok_or "invalid subnet id" (subnet_from_str s).

(** The configuration has its own copy of [deserialize_address_from_str]. *)
Definition deserialize_config_address : decoder Address := λ j,
  s ← de_string j; ok_or "invalid address" (address_from_str s).

Definition deserialize_accounts : decoder (list Address) := λ j,
  raw ← de_vec de_string j; collect (λ s, ok_or "invalid address" (address_from_str s)) raw.

Definition de_url : decoder string := λ j,
  s ← de_string j; ok_or "invalid url" (url_from_str s).

Definition de_subnet : decoder Subnet := λ j,
  fs ← de_struct ["id"; "gateway_addr"; "network_name"; "jsonrpc_api_http"; "jsonrpc_api_ws";
                  "auth_token"; "accounts"] j;
  match fs with
  | [id; gateway; name; http; ws; token; accounts] =>
      id ← required deserialize_subnet_id id;
      gateway ← required deserialize_config_address gateway;
      name ← required de_string name;
      http ← required de_url http;
      ws ← optional de_url ws;
      token ← optional de_string token;
      accounts ← match accounts with Some j => deserialize_accounts j | None => Ok [] end;
      Ok (mkSubnet id gateway name http ws token accounts)
  | _ => Err "invalid length"
  end.

Definition insert_subnets (l : list Subnet) : Subnets :=
  foldl (λ (m : Subnets) s, <[subnet_id s := s]> m) ∅ l.

Definition deserialize_subnets_from_vec : decoder Subnets := λ j,
  subnets ← de_vec de_subnet j; Ok (insert_subnets subnets).

Definition de_server : decoder Server := λ j,
  fs ← de_struct ["json_rpc_address"] j;
  match fs with
  | [a] =>
      a ← required (λ j, s ← de_string j; ok_or "invalid socket address" (socket_addr_from_str s)) a;
      Ok (mkServer a)
  | _ => Err "invalid length"
  end.

Definition de_config : decoder Config := λ j,
  fs ← de_struct ["server"; "subnets"] j;
  match fs with
  | [server; subnets] =>
      server ← required de_server server;
      subnets ← match subnets with Some j => deserialize_subnets_from_vec j | None => Ok ∅ end;
      Ok (mkConfig server subnets)
  | _ => Err "invalid length"
  end.

Definition from_toml_str (s : string) : result string Config :=
  j ← toml_from_str s; de_config j.

(** [Config::from_file] and [from_file_async]. *)
Definition from_file (path : string) : act W Config := λ w,
  let '(contents, w) := read_to_string path w in
  (of_result (s ← contents; from_toml_str s), w).

(** ** The broadcast channel *)

Definition CHANNEL_CAPACITY : nat := 8.

(** A receiver: its unread messages, and whether it has lost some. *)
Record Receiver := mkReceiver { unread : nat; lagged : bool }.

Inductive RecvError := Lagged | Closed.

Definition send_one (r : Receiver) : Receiver :=
  if (unread r <? CHANNEL_CAPACITY)%nat then mkReceiver (S (unread r)) (lagged r)
  else mkReceiver (unread r) true.

(** [Receiver::recv]; None while there is nothing to receive. *)
Definition recv (r : Receiver) : option (result RecvError () * Receiver) :=
  if lagged r then Some (Err Lagged, mkReceiver (unread r) false)
  else match unread r with
       | S n => Some (Ok (), mkReceiver n false)
       | O => None
       end.

(** ** The reloadable configuration *)

Record ReloadableConfig := mkReloadable {
  rc_path : string;
  rc_config : Config;
  rc_receivers : list Receiver;
}.

(** [ReloadableConfig::new]; it keeps one receiver of its own. *)
Definition reloadable_new (path : string) : act W ReloadableConfig :=
  config ← from_file path;
  mret (mkReloadable path config [mkReceiver 0 false]).

Definition get_config (c : ReloadableConfig) : Config := rc_config c.

Definition set_path (path : string) (c : ReloadableConfig) : ReloadableConfig :=
  mkReloadable path (rc_config c) (rc_receivers c).

(** [*r = Arc::new(new_config)] and [broadcast_tx.send(())]. *)
Definition write_config (new_config : Config) (c : ReloadableConfig) : ReloadableConfig :=
  mkReloadable (rc_path c) new_config (rc_receivers c).

Definition broadcast (c : ReloadableConfig) : ReloadableConfig :=
  mkReloadable (rc_path c) (rc_config c) (send_one <$> rc_receivers c).

(** [reload] works on the shared object and the world: what it has changed when a
    step of it fails stays changed. *)
Definition on_shared {A} (a : act W A) : act (ReloadableConfig * W) A := λ s,
  let '(r, w) := a s.2 in (r, (s.1, w)).

Definition update (f : ReloadableConfig → ReloadableConfig) : act (ReloadableConfig * W) () := λ s,
  (Done (), (f s.1, s.2)).

Definition current_path : act (ReloadableConfig * W) string := λ s, (Done (rc_path s.1), s).

Definition reload : act (ReloadableConfig * W) () :=
  path ← current_path;
  new_config ← on_shared (from_file path);
  update (write_config new_config);;
  update broadcast.

(** The part of [reload] after the file was read, which holds the lock. *)
Definition install (new_config : Config) (c : ReloadableConfig) : ReloadableConfig :=
  broadcast (write_config new_config c).

(** [new_subscriber]: the receiver's index, and it starts with nothing to read. *)
Definition new_subscriber (c : ReloadableConfig) : nat * ReloadableConfig :=
  (length (rc_receivers c),
   mkReloadable (rc_path c) (rc_config c) (rc_receivers c ++ [mkReceiver 0 false])).

(** What the checkpointing subsystem makes of a received message. *)
Definition on_recv (r : result RecvError ()) : Signal :=
  match r with Ok _ => ConfigChanged | Err _ => ConfigClosed end.

(** ** Properties *)

Lemma insert_subnets_lookup l id s :
  insert_subnets l !! id = Some s → subnet_id s = id ∧ s ∈ l.
Proof.
  induction l as [|s' l IH] using rev_ind; [done|].
  unfold insert_subnets in *. rewrite foldl_app. cbn.
  intros [[<- <-]|[_ Hs]]%lookup_insert_Some; [set_solver|].
  apply IH in Hs as [? ?]. set_solver.
Qed.

Lemma insert_subnets_last l s : insert_subnets (l ++ [s]) !! subnet_id s = Some s.
Proof. unfold insert_subnets. rewrite foldl_app. apply lookup_insert_eq. Qed.

Lemma insert_subnets_dom l s : s ∈ l → is_Some (insert_subnets l !! subnet_id s).
Proof.
  induction l as [|s' l IH] using rev_ind; [set_solver|]. intros [Hs|Hs]%elem_of_app.
  - unfold insert_subnets. rewrite foldl_app. cbn.
    destruct (decide (subnet_id s' = subnet_id s)) as [->|Hne].
    + rewrite lookup_insert_eq. by eexists.
    + rewrite lookup_insert_ne by done. by apply IH.
  - apply list_elem_of_singleton in Hs as ->. rewrite insert_subnets_last. by eexists.
Qed.

Lemma insert_subnets_wf l : wf_subnets (insert_subnets l).
Proof. intros id s Hs. by apply insert_subnets_lookup in Hs as [? _]. Qed.

Lemma de_config_wf j c : de_config j = Ok c → wf_subnets (subnets c).
Proof.
  unfold de_config. destruct (de_struct _ j) as [fs|]; cbn; [|done].
  destruct fs as [|srv [|subs [|]]]; cbn; try done.
  destruct (required de_server srv) as [srv'|]; cbn; [|done].
  destruct subs as [subs|]; cbn.
  - unfold deserialize_subnets_from_vec. destruct (de_vec de_subnet subs); cbn; [|done].
    intros [= <-]. apply insert_subnets_wf.
  - intros [= <-] id s. cbn. by rewrite lookup_empty.
Qed.

Lemma from_file_wf path w c w' : from_file path w = (Done c, w') → wf_subnets (subnets c).
Proof.
  unfold from_file. destruct (read_to_string path w) as [[s|e] w1]; cbn; [|done].
  unfold from_toml_str. destruct (toml_from_str s) as [j|]; cbn; [|done].
  destruct (de_config j) as [c'|] eqn:Hc; cbn; [|done]. intros [= <- _]. by eapply de_config_wf.
Qed.

(** What [reload] does, by what the file at the current path holds. *)
Lemma reload_spec c w :
  reload (c, w) =
    let '(contents, w') := read_to_string (rc_path c) w in
    match s ← contents; from_toml_str s with
    | Ok new_config => (Done (), (install new_config c, w'))
    | Err e => (Fail e, (c, w'))
    end.
Proof.
  unfold reload, mbind, act_bind, current_path, on_shared, from_file. cbn.
  destruct (read_to_string (rc_path c) w) as [[s|e] w']; cbn; [|done].
  by destruct (from_toml_str s) as [c'|e].
Qed.

Lemma reload_wf c w r c' w' :
  wf_subnets (subnets (get_config c)) → reload (c, w) = (r, (c', w')) → wf_subnets (subnets (get_config c')).
Proof.
  intros Hwf. rewrite reload_spec. destruct (read_to_string (rc_path c) w) as [[s|e] w1]; cbn;
    [|by intros [= _ <- _]].
  unfold from_toml_str. destruct (toml_from_str s) as [j|]; cbn; [|by intros [= _ <- _]].
  destruct (de_config j) eqn:Hj; intros [= _ <- _]; [by eapply de_config_wf|done].
Qed.

(** *** Uses of the shared configuration

    The calls of its users in some order, and, between them, what others do to the
    files. *)
Inductive config_call :=
  | CallSetPath (path : string)
  | CallReload
  | CallSubscribe
  | FilesChange (w : W).

(** The result is that of [reload], the only call that can fail. *)
Definition run_call (call : config_call) (s : ReloadableConfig * W) : outcome () * (ReloadableConfig * W) :=
  match call with
  | CallSetPath path => update (set_path path) s
  | CallReload => reload s
  | CallSubscribe => update (λ c, (new_subscriber c).2) s
  | FilesChange w => (Done (), (s.1, w))
  end.

Fixpoint run_calls (calls : list config_call) (s : ReloadableConfig * W) :
    list (outcome ()) * (ReloadableConfig * W) :=
  match calls with
  | [] => ([], s)
  | call :: calls =>
      let '(r, s) := run_call call s in
      let '(rs, s) := run_calls calls s in
      (r :: rs, s)
  end.

(** What a reader of the files sees: at each reload, the configuration that the file
    at the latest path holds, or why there is none. *)
Fixpoint file_history (calls : list config_call) (path : string) (w : W) : list (result string Config) :=
  match calls with
  | [] => []
  | CallSetPath path :: calls => file_history calls path w
  | CallReload :: calls =>
      let '(contents, w) := read_to_string path w in
      (s ← contents; from_toml_str s) :: file_history calls path w
  | CallSubscribe :: calls => file_history calls path w
  | FilesChange w :: calls => file_history calls path w
  end.

Definition valid (l : list (result string Config)) : list Config :=
  omap (λ r, match r with Ok c => Some c | Err _ => None end) l.

(** The results of the reloads among the calls. *)
Fixpoint reload_results (calls : list config_call) (rs : list (outcome ())) : list (outcome ()) :=
  match calls, rs with
  | CallReload :: calls, r :: rs => r :: reload_results calls rs
  | _ :: calls, _ :: rs => reload_results calls rs
  | _, _ => []
  end.

Lemma last_default_cons {A} (x d : A) l : default d (last (x :: l)) = default x (last l).
Proof. rewrite last_cons. by destruct (last l). Qed.

(** C28 (reloading the configuration): users of the shared configuration set its path,
    reload it and subscribe to it in any order, while the files change in any way.
    Then [get_config] returns the last valid configuration that a reload found in
    the file at the path of that moment, or the first one if none did, with every
    subnet under its own id; a reload succeeds exactly if it found one, and
    otherwise returns the error of the file; and every receiver has been sent one
    message for each successful reload since it subscribed and none for a failed
    one. *)
Theorem reload_all_or_nothing calls c w :
  let history := file_history calls (rc_path c) w in
  let '(rs, (c', _)) := run_calls calls (c, w) in
  get_config c' = default (get_config c) (last (valid history)) ∧
  (wf_subnets (subnets (get_config c)) → wf_subnets (subnets (get_config c'))) ∧
  reload_results calls rs = (λ r, _ ← of_result r; Done ()) <$> history ∧
  ∀ i rx, rc_receivers c !! i = Some rx →
    rc_receivers c' !! i = Some (Nat.iter (length (valid history)) send_one rx).
Proof.
  revert c w. induction calls as [|call calls IH]; intros c w; [done|].
  destruct call as [path| | |w1]; cbn [run_calls run_call].
  - specialize (IH (set_path path c) w). cbn in *. by destruct (run_calls calls _) as [rs [c' w']].
  - pose proof (reload_wf c w) as Hwf. rewrite reload_spec in Hwf |- *. cbn [file_history].
    destruct (read_to_string (rc_path c) w) as [contents w1].
    destruct (s ← contents; from_toml_str s) as [new_config|e].
    + specialize (IH (install new_config c) w1). destruct (run_calls calls _) as [rs [c' w']].
      destruct IH as (Hget & Hwf' & Hres & Hrx). cbn [valid omap list_omap] in *.
      split; [by rewrite last_default_cons|]. split; [intros Hc; by eapply Hwf', Hwf|].
      split; [by cbn; rewrite Hres|]. intros i rx Hi. cbn [length]. rewrite Nat.iter_succ_r.
      apply Hrx. cbn. by rewrite list_lookup_fmap, Hi.
    + specialize (IH c w1). destruct (run_calls calls _) as [rs [c' w']].
      destruct IH as (Hget & Hwf' & Hres & Hrx). split; [done|]. split; [done|].
      split; [by cbn; rewrite Hres|done].
  - specialize (IH (new_subscriber c).2 w). cbn in *. destruct (run_calls calls _) as [rs [c' w']].
    destruct IH as (Hget & Hwf' & Hres & Hrx). split_and!; [done..|]. intros i rx Hi.
    apply Hrx. by apply lookup_app_l_Some.
  - specialize (IH c w1). cbn in *. by destruct (run_calls calls _) as [rs [c' w']].
Qed.

(** The receiver after [n] messages. *)
Lemma send_iter n r :
  lagged r = false → (unread r ≤ CHANNEL_CAPACITY)%nat →
  Nat.iter n send_one r =
    if (unread r + n <=? CHANNEL_CAPACITY)%nat then mkReceiver (unread r + n) false
    else mkReceiver CHANNEL_CAPACITY true.
Proof.
  intros Hl Hu. induction n as [|n IH].
  - cbn. rewrite Nat.add_0_r. rewrite (proj2 (Nat.leb_le _ _) Hu). destruct r; cbn in *; by subst.
  - rewrite Nat.iter_succ, IH. unfold send_one, CHANNEL_CAPACITY in *.
    destruct (Nat.leb_spec (unread r + n) 8), (Nat.leb_spec (unread r + S n) 8); cbn -[Nat.ltb]; try lia.
    + destruct (Nat.ltb_spec (unread r + n) 8); [|lia]. by rewrite Nat.add_succ_r.
    + destruct (Nat.ltb_spec (unread r + n) 8); [lia|]. f_equal. lia.
    + done.
Qed.

(** C36 (reloads seen by the checkpointing subsystem): a subscriber that has read all
    messages sees nothing without a reload, and a configuration change after up to
    8 reloads.  After more than 8 reloads that it had no time to receive, the
    channel answers with an error although it is open, which the checkpointing
    subsystem takes for its end: it shuts down. *)
Theorem reloads_received n :
  let r := recv (Nat.iter n send_one (mkReceiver 0 false)) in
  match n with
  | O => r = None
  | _ => ∃ m r', r = Some (m, r') ∧
      on_recv m = (if (n <=? 8)%nat then ConfigChanged else ConfigClosed) ∧
      is_shutdown (on_recv m) = negb (n <=? 8)%nat
  end.
Proof.
  intros r. subst r. rewrite send_iter by (cbn; unfold CHANNEL_CAPACITY; lia).
  destruct n as [|n]; [done|]. cbn [unread]. change (0 + S n)%nat with (S n).
  unfold CHANNEL_CAPACITY. destruct (S n <=? 8)%nat; do 2 eexists; by split.
Qed.
End config.
