(* ===== verification/Server.v ===== *)
(** * The JSON-RPC server and its handlers

    [src/server] and [src/serialization/checkpoint.rs]: requests are decoded,
    routed by method to a handler, and answered with a result or an error that
    carries the id of the request.  A handler finds the configured subnet whose
    node it has to talk to, builds the parameters and calls the subnet manager.

    [warp] is third-party: [serve] models the filter that the sources compose
    from it.  The configuration is read once, when a handler looks up its
    connection, so the handlers take it as an argument. *)
From S2P Require Import Prelude Types Records Outcome Json Lotus LotusApi Checkpointing Subsystem SubnetManager Config.

(** ** Codecs and constructors of other crates *)
Class ServerTypes `{ManagerTypes} := {
  (** [ConstructParams] with consensus [Mir] and no genesis: parent, name,
      gateway id, minimal stake, minimal number of validators, periods. *)
  construct_params : SubnetID → string → Z → TokenAmount → Z → Z → Z → ConstructParams;
  (** [Address::id]. *)
  address_id : Address → result string Z;
  (** [Deserialize for Cid], [Display for TokenAmount] and [Serialize for TokenAmount]. *)
  de_cid : decoder Cid;
  token_to_string : TokenAmount → string;
  token_to_json : TokenAmount → Json;
  status_to_json : Status → Json;
  base64_encode : bytes → string;
  tcid_to_string : TCid → string;
  ipc_address_to_string : IPCAddress → option string;
}.

Class ServerTypesLaws `{ServerTypes} := {
  construct_params_parent : ∀ p name gw stake min bu td,
    construct_parent (construct_params p name gw stake min bu td) = p;
}.

(** [TokenAmount::from_whole]. *)
Definition from_whole (n : Z) : TokenAmount := (n * 10 ^ 18)%Z.

(** ** Request parameters *)

Record CreateSubnetParams := mkCreateParams {
  cr_from : option string; cr_parent : string; cr_name : string; cr_min_validator_stake : Z;
  cr_min_validators : Z; cr_bottomup_check_period : Z; cr_topdown_check_period : Z }.
Record JoinSubnetParams := mkJoinParams {
  jn_subnet : string; jn_from : option string; jn_collateral : Z; jn_validator_net_addr : string }.
Record LeaveSubnetParams := mkLeaveParams { lv_subnet : string; lv_from : option string }.
Record KillSubnetParams := mkKillParams { kl_subnet : string; kl_from : option string }.
Record FundParams := mkFundParams { fd_subnet : string; fd_from : option string; fd_amount : Z }.
Record ReleaseParams := mkReleaseParams { rl_subnet : string; rl_from : option string; rl_amount : Z }.
Record PropagateParams `{ResolverTypes} := mkPropagateParams {
  pp_subnet : string; pp_from : option string; pp_postbox_msg_cid : Cid }.
Record SetValidatorNetAddrParams := mkNetAddrParams {
  na_subnet : string; na_from : option string; na_validator_net_addr : string }.
Record WhitelistPropagatorParams `{ResolverTypes} := mkWhitelistParams {
  wl_subnet : string; wl_from : option string; wl_postbox_msg_cid : Cid; wl_to_add : list string }.
Record SendValueParams := mkSendParams {
  sd_subnet : string; sd_from : option string; sd_to : string; sd_amount : Z }.
Record WalletNewParams := mkWalletNewParams { wn_subnet : string; wn_key_type : string }.
Record WalletListParams := mkWalletListParams { wls_subnet : string }.
Record ListSubnetsParams := mkListSubnetsParams { ls_gateway_address : string; ls_subnet_id : string }.
Record ListBottomUpCheckpointsParams := mkListCheckpointsParams {
  lc_subnet_id : string; lc_from_epoch : Z; lc_to_epoch : Z }.
Record LastTopDownExecParams := mkTopDownExecParams { te_subnet_id : string }.
Record QueryValidatorSetParams := mkQueryValidatorsParams { qv_subnet : string }.
Record ReloadConfigParams := mkReloadParams { rp_path : option string }.
Arguments mkPropagateParams {_} _ _ _.
Arguments mkWhitelistParams {_} _ _ _ _.

(** A decoded request: the method's name determines the parameters. *)
Inductive Request `{ResolverTypes} :=
  | CreateSubnet (p : CreateSubnetParams)
  | JoinSubnet (p : JoinSubnetParams)
  | LeaveSubnet (p : LeaveSubnetParams)
  | KillSubnet (p : KillSubnetParams)
  | Fund (p : FundParams)
  | Release (p : ReleaseParams)
  | Propagate (p : PropagateParams)
  | SetValidatorNetAddr (p : SetValidatorNetAddrParams)
  | WhitelistPropagator (p : WhitelistPropagatorParams)
  | SendValueReq (p : SendValueParams)
  | WalletNew (p : WalletNewParams)
  | WalletList (p : WalletListParams)
  | ListChildSubnets (p : ListSubnetsParams)
  | ListBottomUpCheckpoints (p : ListBottomUpCheckpointsParams)
  | LastTopDownExecuted (p : LastTopDownExecParams)
  | QueryValidatorSet (p : QueryValidatorSetParams)
  | ReloadConfig (p : ReloadConfigParams).

Section server.
Context {W : Type} `{!ResolverTypes} `{!AgentTypes} `{!ManagerTypes} `{!ServerTypes}.
Context `{!LotusClient W} `{!HashIter SubnetID}.

Notation io := (io W Event).

(** ** Decoding the parameters *)

Definition de_leave : decoder LeaveSubnetParams := λ j,
  fs ← de_struct ["subnet"; "from"] j;
  match fs with
  | [s; f] => s ← required de_string s; f ← optional de_string f; Ok (mkLeaveParams s f)
  | _ => Err "invalid length"
  end.

Definition de_kill : decoder KillSubnetParams := λ j,
  fs ← de_struct ["subnet"; "from"] j;
  match fs with
  | [s; f] => s ← required de_string s; f ← optional de_string f; Ok (mkKillParams s f)
  | _ => Err "invalid length"
  end.

Definition de_create : decoder CreateSubnetParams := λ j,
  fs ← de_struct ["from"; "parent"; "name"; "min_validator_stake"; "min_validators";
                  "bottomup_check_period"; "topdown_check_period"] j;
  match fs with
  | [from; parent; name; stake; min; bu; td] =>
      from ← optional de_string from;
      parent ← required de_string parent;
      name ← required de_string name;
      stake ← required de_u64 stake;
      min ← required de_u64 min;
      bu ← required de_i64 bu;
      td ← required de_i64 td;
      Ok (mkCreateParams from parent name stake min bu td)
  | _ => Err "invalid length"
  end.

Definition de_join : decoder JoinSubnetParams := λ j,
  fs ← de_struct ["subnet"; "from"; "collateral"; "validator_net_addr"] j;
  match fs with
  | [s; f; c; a] =>
      s ← required de_string s;
      f ← optional de_string f;
      c ← required de_u64 c;
      a ← required de_string a;
      Ok (mkJoinParams s f c a)
  | _ => Err "invalid length"
  end.

Definition de_fund : decoder FundParams := λ j,
  fs ← de_struct ["subnet"; "from"; "amount"] j;
  match fs with
  | [s; f; a] =>
      s ← required de_string s; f ← optional de_string f; a ← required de_u64 a;
      Ok (mkFundParams s f a)
  | _ => Err "invalid length"
  end.

Definition de_release : decoder ReleaseParams := λ j,
  fs ← de_struct ["subnet"; "from"; "amount"] j;
  match fs with
  | [s; f; a] =>
      s ← required de_string s; f ← optional de_string f; a ← required de_u64 a;
      Ok (mkReleaseParams s f a)
  | _ => Err "invalid length"
  end.

Definition de_propagate : decoder PropagateParams := λ j,
  fs ← de_struct ["subnet"; "from"; "postbox_msg_cid"] j;
  match fs with
  | [s; f; c] =>
      s ← required de_string s; f ← optional de_string f; c ← required de_cid c;
      Ok (mkPropagateParams s f c)
  | _ => Err "invalid length"
  end.

Definition de_net_addr : decoder SetValidatorNetAddrParams := λ j,
  fs ← de_struct ["subnet"; "from"; "validator_net_addr"] j;
  match fs with
  | [s; f; a] =>
      s ← required de_string s; f ← optional de_string f; a ← required de_string a;
      Ok (mkNetAddrParams s f a)
  | _ => Err "invalid length"
  end.

Definition de_whitelist : decoder WhitelistPropagatorParams := λ j,
  fs ← de_struct ["subnet"; "from"; "postbox_msg_cid"; "to_add"] j;
  match fs with
  | [s; f; c; l] =>
      s ← required de_string s;
      f ← optional de_string f;
      c ← required de_cid c;
      l ← required (de_vec de_string) l;
      Ok (mkWhitelistParams s f c l)
  | _ => Err "invalid length"
  end.

Definition de_send : decoder SendValueParams := λ j,
  fs ← de_struct ["subnet"; "from"; "to"; "amount"] j;
  match fs with
  | [s; f; t; a] =>
      s ← required de_string s;
      f ← optional de_string f;
      t ← required de_string t;
      a ← required de_u64 a;
      Ok (mkSendParams s f t a)
  | _ => Err "invalid length"
  end.

Definition de_wallet_new : decoder WalletNewParams := λ j,
  fs ← de_struct ["subnet"; "key_type"] j;
  match fs with
  | [s; k] => s ← required de_string s; k ← required de_string k; Ok (mkWalletNewParams s k)
  | _ => Err "invalid length"
  end.

Definition de_wallet_list : decoder WalletListParams := λ j,
  fs ← de_struct ["subnet"] j;
  match fs with
  | [s] => s ← required de_string s; Ok (mkWalletListParams s)
  | _ => Err "invalid length"
  end.

Definition de_list_subnets : decoder ListSubnetsParams := λ j,
  fs ← de_struct ["gateway_address"; "subnet_id"] j;
  match fs with
  | [g; s] => g ← required de_string g; s ← required de_string s; Ok (mkListSubnetsParams g s)
  | _ => Err "invalid length"
  end.

Definition de_list_checkpoints : decoder ListBottomUpCheckpointsParams := λ j,
  fs ← de_struct ["subnet_id"; "from_epoch"; "to_epoch"] j;
  match fs with
  | [s; f; t] =>
      s ← required de_string s; f ← required de_i64 f; t ← required de_i64 t;
      Ok (mkListCheckpointsParams s f t)
  | _ => Err "invalid length"
  end.

Definition de_topdown_executed : decoder LastTopDownExecParams := λ j,
  fs ← de_struct ["subnet_id"] j;
  match fs with
  | [s] => s ← required de_string s; Ok (mkTopDownExecParams s)
  | _ => Err "invalid length"
  end.

Definition de_query_validators : decoder QueryValidatorSetParams := λ j,
  fs ← de_struct ["subnet"] j;
  match fs with
  | [s] => s ← required de_string s; Ok (mkQueryValidatorsParams s)
  | _ => Err "invalid length"
  end.

Definition de_reload : decoder ReloadConfigParams := λ j,
  fs ← de_struct ["path"] j;
  match fs with
  | [p] => p ← optional de_string p; Ok (mkReloadParams p)
  | _ => Err "invalid length"
  end.

(** The map of [Handlers::new], and the decoding of [HandlerWrapper::handle]. *)
Definition method_table : list (string * decoder Request) := [
  (json_rpc_methods.RELOAD_CONFIG, λ j, ReloadConfig <$> de_reload j);
  (json_rpc_methods.CREATE_SUBNET, λ j, CreateSubnet <$> de_create j);
  (json_rpc_methods.LEAVE_SUBNET, λ j, LeaveSubnet <$> de_leave j);
  (json_rpc_methods.KILL_SUBNET, λ j, KillSubnet <$> de_kill j);
  (json_rpc_methods.JOIN_SUBNET, λ j, JoinSubnet <$> de_join j);
  (json_rpc_methods.FUND, λ j, Fund <$> de_fund j);
  (json_rpc_methods.RELEASE, λ j, Release <$> de_release j);
  (json_rpc_methods.PROPAGATE, λ j, Propagate <$> de_propagate j);
  (json_rpc_methods.WHITELIST_PROPAGATOR, λ j, WhitelistPropagator <$> de_whitelist j);
  (json_rpc_methods.SEND_VALUE, λ j, SendValueReq <$> de_send j);
  (json_rpc_methods.WALLET_NEW, λ j, WalletNew <$> de_wallet_new j);
  (json_rpc_methods.WALLET_LIST, λ j, WalletList <$> de_wallet_list j);
  (json_rpc_methods.SET_VALIDATOR_NET_ADDR, λ j, SetValidatorNetAddr <$> de_net_addr j);
  (json_rpc_methods.LIST_CHILD_SUBNETS, λ j, ListChildSubnets <$> de_list_subnets j);
  (json_rpc_methods.LIST_BOTTOMUP_CHECKPOINTS, λ j, ListBottomUpCheckpoints <$> de_list_checkpoints j);
  (json_rpc_methods.LAST_TOPDOWN_EXECUTED, λ j, LastTopDownExecuted <$> de_topdown_executed j);
  (json_rpc_methods.QUERY_VALIDATOR_SET, λ j, QueryValidatorSet <$> de_query_validators j)].

Fixpoint find_method (method : string) (table : list (string * decoder Request)) : option (decoder Request) :=
  match table with
  | [] => None
  | (m, d) :: table => if String.eqb m method then Some d else find_method method table
  end.

Definition parse_request (method : string) (params : Json) : result string Request :=
  match find_method method method_table with
  | Some d => d params
  | None => Err "method not supported"
  end.

(** ** Connections *)

(** [Connection] with its [subnet()] and [manager()]. *)
Record Connection := mkConnection { subnet_of : Subnet; manager_of : LotusSubnetManager }.

(** [SubnetManagerPool::get]: the configured subnet and a manager for its node. *)
Definition pool_get (config : Config) (id : SubnetID) : option Connection :=
  match subnets config !! id with
  | Some subnet => Some (mkConnection subnet (manager_from_subnet subnet))
  | None => None
  end.

Definition check_subnet (s : Subnet) : outcome () :=
  match auth_token s with
  | None => Fail "Internal server error"
  | Some _ => Done ()
  end.

Definition parse_from (s : Subnet) (from : option string) : outcome Address :=
  match from with
  | Some a => ok_or_fail "invalid address" (address_from_str a)
  | None => ok_or_fail "Internal server error" (head (accounts s))
  end.

Definition parse_subnet (s : string) : outcome SubnetID :=
  ok_or_fail "invalid subnet id" (subnet_from_str s).

Definition parse_address (s : string) : outcome Address :=
  ok_or_fail "invalid address" (address_from_str s).

(** ** Handlers *)

Definition handle_create (config : Config) (r : CreateSubnetParams) : io Json :=
  parent ← lift (parse_subnet (cr_parent r));
  conn ← lift (ok_or_fail "target parent subnet not found" (pool_get config parent));
  _ ← lift (check_subnet (subnet_of conn));
  gateway_id ← lift (of_result (address_id (gateway_addr (subnet_of conn))));
  let params :=
    construct_params parent (cr_name r) gateway_id (from_whole (cr_min_validator_stake r))
      (cr_min_validators r) (cr_bottomup_check_period r) (cr_topdown_check_period r) in
  from ← lift (parse_from (subnet_of conn) (cr_from r));
  addr ← create_subnet (manager_of conn) from params;
  mret (JObj [("address", JStr (address_to_string addr))]).

Definition handle_join (config : Config) (r : JoinSubnetParams) : io Json :=
  subnet ← lift (parse_subnet (jn_subnet r));
  parent ← lift (ok_or_fail "no parent found" (subnet_parent subnet));
  conn ← lift (ok_or_fail "target parent subnet not found" (pool_get config parent));
  let collateral := from_whole (jn_collateral r) in
  _ ← lift (check_subnet (subnet_of conn));
  from ← lift (parse_from (subnet_of conn) (jn_from r));
  _ ← join_subnet (manager_of conn) subnet from collateral (jn_validator_net_addr r);
  mret JNull.

Definition handle_leave (config : Config) (r : LeaveSubnetParams) : io Json :=
  subnet ← lift (parse_subnet (lv_subnet r));
  parent ← lift (ok_or_fail "no parent found" (subnet_parent subnet));
  conn ← lift (ok_or_fail "target parent subnet not found" (pool_get config parent));
  _ ← lift (check_subnet (subnet_of conn));
  from ← lift (parse_from (subnet_of conn) (lv_from r));
  _ ← leave_subnet (manager_of conn) subnet from;
  mret JNull.

Definition handle_kill (config : Config) (r : KillSubnetParams) : io Json :=
  subnet ← lift (parse_subnet (kl_subnet r));
  parent ← lift (ok_or_fail "no parent found" (subnet_parent subnet));
  conn ← lift (ok_or_fail "target parent subnet not found" (pool_get config parent));
  _ ← lift (check_subnet (subnet_of conn));
  from ← lift (parse_from (subnet_of conn) (kl_from r));
  _ ← kill_subnet (manager_of conn) subnet from;
  mret JNull.

Definition handle_fund (config : Config) (r : FundParams) : io Json :=
  subnet ← lift (parse_subnet (fd_subnet r));
  parent ← lift (ok_or_fail "no parent found" (subnet_parent subnet));
  conn ← lift (ok_or_fail "target parent subnet not found" (pool_get config parent));
  _ ← lift (check_subnet (subnet_of conn));
  from ← lift (parse_from (subnet_of conn) (fd_from r));
  let amount := from_whole (fd_amount r) in
  _ ← fund (manager_of conn) subnet (gateway_addr (subnet_of conn)) from amount;
  mret JNull.

Definition handle_release (config : Config) (r : ReleaseParams) : io Json :=
  subnet ← lift (parse_subnet (rl_subnet r));
  conn ← lift (ok_or_fail "target subnet not found" (pool_get config subnet));
  _ ← lift (check_subnet (subnet_of conn));
  let amount := from_whole (rl_amount r) in
  from ← lift (parse_from (subnet_of conn) (rl_from r));
  _ ← release (manager_of conn) subnet (gateway_addr (subnet_of conn)) from amount;
  mret JNull.

Definition handle_propagate (config : Config) (r : PropagateParams) : io Json :=
  subnet ← lift (parse_subnet (pp_subnet r));
  conn ← lift (ok_or_fail "target subnet not found" (pool_get config subnet));
  _ ← lift (check_subnet (subnet_of conn));
  from ← lift (parse_from (subnet_of conn) (pp_from r));
  subnet ← lift (parse_subnet (pp_subnet r));
  _ ← propagate (manager_of conn) subnet (gateway_addr (subnet_of conn)) from (pp_postbox_msg_cid r);
  mret JNull.

Definition handle_net_addr (config : Config) (r : SetValidatorNetAddrParams) : io Json :=
  subnet ← lift (parse_subnet (na_subnet r));
  parent ← lift (ok_or_fail "no parent found" (subnet_parent subnet));
  conn ← lift (ok_or_fail "target parent subnet not found" (pool_get config parent));
  _ ← lift (check_subnet (subnet_of conn));
  from ← lift (parse_from (subnet_of conn) (na_from r));
  _ ← set_validator_net_addr (manager_of conn) subnet from (na_validator_net_addr r);
  mret JNull.

Definition handle_whitelist (config : Config) (r : WhitelistPropagatorParams) : io Json :=
  subnet ← lift (parse_subnet (wl_subnet r));
  conn ← lift (ok_or_fail "target subnet not found" (pool_get config subnet));
  _ ← lift (check_subnet (subnet_of conn));
  to_add ← lift (traverse parse_address (wl_to_add r));
  from ← lift (parse_from (subnet_of conn) (wl_from r));
  _ ← whitelist_propagator (manager_of conn) subnet (gateway_addr (subnet_of conn)) (wl_postbox_msg_cid r) from to_add;
  mret JNull.

Definition handle_send (config : Config) (r : SendValueParams) : io Json :=
  subnet ← lift (parse_subnet (sd_subnet r));
  conn ← lift (ok_or_fail "target parent subnet not found" (pool_get config subnet));
  let amount := from_whole (sd_amount r) in
  _ ← lift (check_subnet (subnet_of conn));
  from ← lift (parse_from (subnet_of conn) (sd_from r));
  to ← lift (parse_address (sd_to r));
  _ ← send_value (manager_of conn) from to amount;
  mret JNull.

Definition handle_wallet_new (config : Config) (r : WalletNewParams) : io Json :=
  subnet ← lift (parse_subnet (wn_subnet r));
  conn ← lift (ok_or_fail "target subnet not found" (pool_get config subnet));
  key_type ← lift (ok_or_fail "Matching variant not found" (wallet_key_from_str (wn_key_type r)));
  address ← manager_wallet_new (manager_of conn) key_type;
  mret (JObj [("address", JStr (address_to_string address))]).

(** [join_all] of the balances; they are read in the order of the addresses, and
    all of them even if one fails. *)
Fixpoint wallet_balances (m : LotusSubnetManager) (addrs : list Address) :
    io (list (result string (TokenAmount * Address))) :=
  match addrs with
  | [] => mret []
  | a :: addrs =>
      b ← attempt (manager_wallet_balance m a);
      rest ← wallet_balances m addrs;
      mret (((λ v, (v, a)) <$> b) :: rest)
  end.

(** A [HashMap<String, _>] as JSON. *)
Definition json_of_map (m : gmap string Json) : Json := JObj (map_to_list m).

Definition handle_wallet_list (config : Config) (r : WalletListParams) : io Json :=
  subnet ← lift (parse_subnet (wls_subnet r));
  conn ← lift (ok_or_fail "target subnet not found" (pool_get config subnet));
  addresses ← manager_wallet_list (manager_of conn);
  rs ← wallet_balances (manager_of conn) addresses;
  balances ← lift (of_result (collect (λ r, r) rs));
  mret (json_of_map
    (foldl (λ (m : gmap string Json) ba,
       <[address_to_string ba.2 := JStr (token_to_string ba.1)]> m) ∅ balances)).

(** [lotus/message/serialize.rs]. *)
Definition serialize_subnet_id_to_str (id : SubnetID) : Json := JStr (subnet_to_string id).
Definition serialize_token_amount_to_atto (v : TokenAmount) : Json := JStr (bigint_to_string v).

(** [Serialize for SubnetInfo]. *)
Definition subnet_info_to_json (i : SubnetInfo) : Json :=
  JObj [("id", serialize_subnet_id_to_str (si_id i));
        ("stake", serialize_token_amount_to_atto (si_stake i));
        ("circ_supply", serialize_token_amount_to_atto (si_circ_supply i));
        ("status", status_to_json (si_status i))].

Definition handle_list_subnets (config : Config) (r : ListSubnetsParams) : io Json :=
  subnet ← lift (parse_subnet (ls_subnet_id r));
  conn ← lift (ok_or_fail "target parent subnet not found" (pool_get config subnet));
  _ ← lift (check_subnet (subnet_of conn));
  gateway ← lift (parse_address (ls_gateway_address r));
  subnet_map ← list_child_subnets (manager_of conn) gateway;
  mret (json_of_map
    (list_to_map (reverse ((λ kv, (subnet_to_string kv.1, subnet_info_to_json kv.2)) <$> map_iter subnet_map)))).

(** *** Printing checkpoints *)

(** [to_u64().unwrap_or_default()] of an amount. *)
Definition atto_u64_or_default (v : TokenAmount) : Z :=
  if (0 <=? v)%Z && (v <=? u64_max)%Z then v else 0%Z.

Definition cross_msg_to_json (c : CrossMsg) : outcome Json :=
  let m := cross_msg c in
  from ← unwrap (ipc_address_to_string (sm_from m));
  to ← unwrap (ipc_address_to_string (sm_to m));
  Done (JObj [("from", JStr from); ("to", JStr to); ("method", JNum (sm_method m));
              ("params", JStr (base64_encode (sm_params m)));
              ("value", JNum (atto_u64_or_default (sm_value m)));
              ("nonce", JNum (sm_nonce m))]).

(** An amount that does not fit in u64 is printed as 0. *)
Lemma large_value_printed_zero c j :
  (u64_max < sm_value (cross_msg c))%Z → cross_msg_to_json c = Done j →
  ∃ fields, j = JObj fields ∧ json_get "value" fields = Some (JNum 0).
Proof.
  intros Hv. unfold cross_msg_to_json, atto_u64_or_default.
  rewrite (proj2 (Z.leb_gt _ _) Hv), andb_false_r.
  destruct (ipc_address_to_string (sm_from (cross_msg c))); cbn; [|done].
  destruct (ipc_address_to_string (sm_to (cross_msg c))); cbn; [|done].
  intros [= <-]. by eexists.
Qed.

Definition batch_to_json (b : BatchCrossMsgs) : outcome Json :=
  msgs ← match batch_cross_msgs b with
         | Some l => traverse cross_msg_to_json l
         | None => Done []
         end;
  Done (JObj [("fee", token_to_json (batch_fee b)); ("cross_msgs", JArr msgs)]).

Definition child_check_to_json (c : ChildCheck) : Json :=
  JObj [("source", JStr (subnet_to_string (cc_source c)));
        ("checks", JArr ((λ t, JStr (tcid_to_string t)) <$> cc_checks c))].

Definition check_data_to_json (d : CheckData) : outcome Json :=
  cross_msgs ← batch_to_json (cd_cross_msgs d);
  Done (JObj [("source", JStr (subnet_to_string (cd_source d)));
              ("proof", JStr (base64_encode (cd_proof d)));
              ("epoch", JNum (cd_epoch d));
              ("prev_check", JStr (tcid_to_string (cd_prev_check d)));
              ("children", JArr (child_check_to_json <$> cd_children d));
              ("cross_msgs", cross_msgs)]).

Definition checkpoint_to_json (cp : BottomUpCheckpoint) : outcome Json :=
  data ← check_data_to_json (bu_data cp);
  Done (JObj [("data", data); ("sig", JStr (base64_encode (bu_sig cp)))]).

Definition handle_list_checkpoints (config : Config) (r : ListBottomUpCheckpointsParams) : io Json :=
  child ← lift (parse_subnet (lc_subnet_id r));
  parent ← lift (ok_or_fail "subnet id does not have a parent" (subnet_parent child));
  conn ← lift (ok_or_fail "target parent subnet not found" (pool_get config parent));
  _ ← lift (check_subnet (subnet_of conn));
  checkpoints ← list_checkpoints (manager_of conn) child (lc_from_epoch r) (lc_to_epoch r);
  js ← lift (traverse checkpoint_to_json checkpoints);
  mret (JArr js).

Definition handle_topdown_executed (config : Config) (r : LastTopDownExecParams) : io Json :=
  child ← lift (parse_subnet (te_subnet_id r));
  conn ← lift (ok_or_fail "target subnet not found" (pool_get config child));
  _ ← lift (check_subnet (subnet_of conn));
  epoch ← last_topdown_executed (manager_of conn);
  mret (JNum epoch).

Definition validator_to_json (v : Validator) : Json :=
  JObj [("addr", JStr (v_addr v)); ("net_addr", JStr (v_net_addr v)); ("weight", JStr (v_weight v))].

Definition validator_set_to_json (s : ValidatorSet) : Json :=
  JObj [("validators", match validators s with
                       | Some l => JArr (validator_to_json <$> l)
                       | None => JNull
                       end);
        ("configuration_number", JNum (configuration_number s))].

Record QueryValidatorSetResponse := mkQueryResponse {
  qr_validator_set : ValidatorSet; qr_min_validators : Z; qr_genesis_epoch : Z }.

Definition query_response_to_json (r : QueryValidatorSetResponse) : Json :=
  JObj [("validator_set", validator_set_to_json (qr_validator_set r));
        ("min_validators", JNum (qr_min_validators r));
        ("genesis_epoch", JNum (qr_genesis_epoch r))].

Definition handle_query_validators (config : Config) (r : QueryValidatorSetParams) : io Json :=
  subnet ← lift (parse_subnet (qv_subnet r));
  parent ← lift (ok_or_fail "cannot get for root" (subnet_parent subnet));
  conf ← lift (ok_or_fail "target parent subnet not found" (subnets config !! parent));
  let lotus := from_subnet conf in
  parent_head ← chain_head lotus;
  tip_set ← lift (first_tip_set parent_head);
  response ← ipc_read_subnet_actor_state lotus subnet tip_set;
  genesis_epoch ← ipc_get_genesis_epoch_for_subnet lotus subnet (gateway_addr conf);
  mret (query_response_to_json
    (mkQueryResponse (sa_validator_set response) (min_validators response) genesis_epoch)).

(** All handlers but the one that reloads the configuration. *)
Definition handle_with (config : Config) (r : Request) : io Json :=
  match r with
  | CreateSubnet p => handle_create config p
  | JoinSubnet p => handle_join config p
  | LeaveSubnet p => handle_leave config p
  | KillSubnet p => handle_kill config p
  | Fund p => handle_fund config p
  | Release p => handle_release config p
  | Propagate p => handle_propagate config p
  | SetValidatorNetAddr p => handle_net_addr config p
  | WhitelistPropagator p => handle_whitelist config p
  | SendValueReq p => handle_send config p
  | WalletNew p => handle_wallet_new config p
  | WalletList p => handle_wallet_list config p
  | ListChildSubnets p => handle_list_subnets config p
  | ListBottomUpCheckpoints p => handle_list_checkpoints config p
  | LastTopDownExecuted p => handle_topdown_executed config p
  | QueryValidatorSet p => handle_query_validators config p
  | ReloadConfig _ => mret JNull
  end.

(** ** The server *)

Context `{!ConfigParsers} `{!FileSystem W} `{!SerdeJson}.

Record ServerState := mkServerState {
  sv_config : ReloadableConfig;
  sv_run : run_state W Event;
}.

(** [ReloadConfigHandler::handle]. *)
Definition handle_reload (p : ReloadConfigParams) : act ServerState Json := λ s,
  let c := match rp_path p with Some path => set_path path (sv_config s) | None => sv_config s end in
  let '(r, (c, w)) := reload (c, world (sv_run s)) in
  (_ ← r; Done JNull, mkServerState c (mkRun w (trace (sv_run s)))).

(** The handler of a decoded request, on the configuration of this moment. *)
Definition run_request (r : Request) : act ServerState Json := λ s,
  match r with
  | ReloadConfig p => handle_reload p s
  | r =>
      let '(j, run) := handle_with (get_config (sv_config s)) r (sv_run s) in
      (j, mkServerState (sv_config s) run)
  end.

(** [Handlers::handle]. *)
Definition handle (method : string) (params : Json) : act ServerState Json :=
  match parse_request method params with
  | Err e => lift (Fail e)
  | Ok r => run_request r
  end.

(** [JSONRPCRequest]. *)
Record JSONRPCRequest := mkJSONRPCRequest {
  req_id : Z; req_jsonrpc : string; req_method : string; req_params : Json }.

Definition de_json_rpc_request : decoder JSONRPCRequest := λ j,
  fs ← de_struct ["id"; "jsonrpc"; "method"; "params"] j;
  match fs with
  | [id; jsonrpc; method; params] =>
      id ← required de_u64 id;
      jsonrpc ← required de_string jsonrpc;
      method ← required de_string method;
      params ← required de_value params;
      Ok (mkJSONRPCRequest id jsonrpc method params)
  | _ => Err "invalid length"
  end.

Definition to_json_rpc_request (body : string) : option JSONRPCRequest :=
  match j ← json_from_str body; de_json_rpc_request j with
  | Ok r => Some r
  | Err _ => None
  end.

Definition INVALID_REQUEST_CODE : Z := -32600.

(** [JSONRPCResultResponse::new], [JSONRPCErrorResponse::new] and
    [::invalid_request], as JSON. *)
Definition result_response (id : Z) (result : Json) : Json :=
  JObj [("id", JNum id); ("jsonrpc", JStr JSON_RPC_VERSION); ("result", result)].

Definition error_response (id code : Z) (message : string) : Json :=
  JObj [("id", JNum id); ("jsonrpc", JStr JSON_RPC_VERSION);
        ("error", JObj [("code", JNum code); ("message", JStr message); ("data", JNull)])].

Definition invalid_request (id : Z) : Json :=
  error_response id INVALID_REQUEST_CODE "Invalid Request".

Inductive Reply :=
  | ReplyJson (j : Json)
  | ReplyStatus (status : Z) (text : string).

(** [handle_request]; the handlers' errors become replies, their panics do not. *)
Definition handle_request {S} (handlers : string → Json → act S Json) (r : JSONRPCRequest) :
    act S Reply :=
  if negb (bool_decide (req_jsonrpc r = JSON_RPC_VERSION)) then
    mret (ReplyJson (invalid_request (req_id r)))
  else
    response ← attempt (handlers (req_method r) (req_params r));
    mret (ReplyJson
      match response with
      | Ok j => result_response (req_id r) j
      | Err e => error_response (req_id r) (-1) e
      end).

(** Why [warp] rejects a request, and [handle_rejection]. *)
Inductive Rejection := NotFound | InvalidParameter | MethodNotAllowed.

Definition handle_rejection (r : Rejection) : Reply :=
  match r with
  | NotFound => ReplyStatus 404 "NOT_FOUND"
  | InvalidParameter => ReplyStatus 400 "BAD_REQUEST"
  | MethodNotAllowed => ReplyStatus 500 "INTERNAL_SERVER_ERROR"
  end.

(** [json_rpc_filter]: the HTTP method, the first segment of the path, and the
    body, in this order; a request is then passed to the handlers. *)
Definition json_rpc_filter_with {S} (handlers : string → Json → act S Json)
    (is_post : bool) (path : string) (body : string) : act S Reply :=
  if negb is_post then mret (handle_rejection MethodNotAllowed)
  else if negb (bool_decide (path = JSON_RPC_ENDPOINT)) then mret (handle_rejection NotFound)
  else match to_json_rpc_request body with
       | None => mret (handle_rejection InvalidParameter)
       | Some r => handle_request handlers r
       end.

Definition json_rpc_filter : bool → string → string → act ServerState Reply :=
  json_rpc_filter_with handle.

(** ** Replies *)

(** A request that is not a POST on the endpoint or whose
    body is not a JSON-RPC request is refused with a status; one with another
    version, an unknown method or parameters that do not decode is answered with an
    error under its id; none of these runs a handler or changes anything.  Any
    other request runs the handler of its method, and its result, or its error, is
    returned under the request's id; only a panic of the handler leaves it without a
    reply. *)
Theorem replies_carry_id is_post path body s :
  match (if is_post && bool_decide (path = JSON_RPC_ENDPOINT) then to_json_rpc_request body else None) with
  | None => ∃ status text, json_rpc_filter is_post path body s = (Done (ReplyStatus status text), s)
  | Some r =>
      if negb (bool_decide (req_jsonrpc r = "2.0")) then
        json_rpc_filter is_post path body s =
          (Done (ReplyJson (error_response (req_id r) (-32600) "Invalid Request")), s)
      else
        match parse_request (req_method r) (req_params r) with
        | Err e => json_rpc_filter is_post path body s =
            (Done (ReplyJson (error_response (req_id r) (-1) e)), s)
        | Ok _ =>
            let '(res, s') := handle (req_method r) (req_params r) s in
            match res with
            | Done j => json_rpc_filter is_post path body s =
                (Done (ReplyJson (result_response (req_id r) j)), s')
            | Fail e => json_rpc_filter is_post path body s =
                (Done (ReplyJson (error_response (req_id r) (-1) e)), s')
            | Panic p => json_rpc_filter is_post path body s = (Panic p, s')
            | OutOfFuel => json_rpc_filter is_post path body s = (OutOfFuel, s')
            end
        end
  end.
Proof.
  unfold json_rpc_filter, json_rpc_filter_with. destruct is_post; cbn [andb negb]; [|by do 2 eexists].
  case_bool_decide as Hpath; cbn [negb]; [|by do 2 eexists].
  destruct (to_json_rpc_request body) as [r|]; [|by do 2 eexists].
  unfold handle_request, JSON_RPC_VERSION. case_bool_decide as Hv; cbn [negb]; [|done].
  unfold mbind, act_bind, attempt.
  destruct (parse_request (req_method r) (req_params r)) as [req|e] eqn:Hp.
  - by destruct (handle (req_method r) (req_params r) s) as [[] s'].
  - unfold handle. by rewrite Hp.
Qed.

(** ** What a request may push *)

Inductive sender (s : Subnet) : option string → Address → Prop :=
  | sender_given str a : address_from_str str = Some a → sender s (Some str) a
  | sender_default a rest : accounts s = a :: rest → sender s None a.

(** [asks config r sub op]: the request asks for [op] on the node configured for
    [sub].  Operations on the subnet actor and funding go to the configured
    parent, the others to the subnet itself; amounts are given in whole tokens. *)
Inductive asks (config : Config) : Request → Subnet → Op → Prop :=
  | asks_create p parent sub gw a :
      subnet_from_str (cr_parent p) = Some parent → subnets config !! parent = Some sub →
      address_id (gateway_addr sub) = Ok gw → sender sub (cr_from p) a →
      asks config (CreateSubnet p) sub
        (OpCreate a (construct_params parent (cr_name p) gw (from_whole (cr_min_validator_stake p))
           (cr_min_validators p) (cr_bottomup_check_period p) (cr_topdown_check_period p)))
  | asks_join p s parent sub a :
      subnet_from_str (jn_subnet p) = Some s → subnet_parent s = Some parent →
      subnets config !! parent = Some sub → sender sub (jn_from p) a →
      asks config (JoinSubnet p) sub (OpJoin s a (from_whole (jn_collateral p)) (jn_validator_net_addr p))
  | asks_leave p s parent sub a :
      subnet_from_str (lv_subnet p) = Some s → subnet_parent s = Some parent →
      subnets config !! parent = Some sub → sender sub (lv_from p) a →
      asks config (LeaveSubnet p) sub (OpLeave s a)
  | asks_kill p s parent sub a :
      subnet_from_str (kl_subnet p) = Some s → subnet_parent s = Some parent →
      subnets config !! parent = Some sub → sender sub (kl_from p) a →
      asks config (KillSubnet p) sub (OpKill s a)
  | asks_fund p s parent sub a :
      subnet_from_str (fd_subnet p) = Some s → subnet_parent s = Some parent →
      subnets config !! parent = Some sub → sender sub (fd_from p) a →
      asks config (Fund p) sub (OpFund s (gateway_addr sub) a (from_whole (fd_amount p)))
  | asks_net_addr p s parent sub a :
      subnet_from_str (na_subnet p) = Some s → subnet_parent s = Some parent →
      subnets config !! parent = Some sub → sender sub (na_from p) a →
      asks config (SetValidatorNetAddr p) sub (OpSetNetAddr s a (na_validator_net_addr p))
  | asks_release p s sub a :
      subnet_from_str (rl_subnet p) = Some s → subnets config !! s = Some sub →
      sender sub (rl_from p) a →
      asks config (Release p) sub (OpRelease s (gateway_addr sub) a (from_whole (rl_amount p)))
  | asks_propagate p s sub a :
      subnet_from_str (pp_subnet p) = Some s → subnets config !! s = Some sub →
      sender sub (pp_from p) a →
      asks config (Propagate p) sub (OpPropagate s (gateway_addr sub) a (pp_postbox_msg_cid p))
  | asks_whitelist p s sub a l :
      subnet_from_str (wl_subnet p) = Some s → subnets config !! s = Some sub →
      sender sub (wl_from p) a →
      Forall2 (λ str b, address_from_str str = Some b) (wl_to_add p) l →
      asks config (WhitelistPropagator p) sub
        (OpWhitelist s (gateway_addr sub) (wl_postbox_msg_cid p) a l)
  | asks_send p s sub a b :
      subnet_from_str (sd_subnet p) = Some s → subnets config !! s = Some sub →
      sender sub (sd_from p) a → address_from_str (sd_to p) = Some b →
      asks config (SendValueReq p) sub (OpSend a b (from_whole (sd_amount p))).

Definition request_ok (config : Config) (r : Request) (old : list Event) (e : Event) : Prop :=
  is_push e = true →
  ∃ sub op, asks config r sub op ∧ is_Some (auth_token sub) ∧
    op_ok (manager_from_subnet sub) op old e.

Notation wpr config r := (wps (request_ok config r)).

Lemma pool_get_done config id e conn :
  ok_or_fail e (pool_get config id) = Done conn →
  subnets config !! id = Some (subnet_of conn) ∧ manager_of conn = manager_from_subnet (subnet_of conn).
Proof.
  unfold pool_get. intros Hc%ok_or_fail_done. destruct (subnets config !! id); [|done].
  by injection Hc as <-.
Qed.

Lemma check_subnet_done s u : check_subnet s = Done u → is_Some (auth_token s).
Proof. unfold check_subnet. destruct (auth_token s); [by eexists|done]. Qed.

Lemma parse_from_done s from a : parse_from s from = Done a → sender s from a.
Proof.
  unfold parse_from. destruct from as [str|]; intros Ha%ok_or_fail_done; [by constructor|].
  destruct (accounts s) as [|b l] eqn:Hl; [done|]. injection Ha as ->. by econstructor.
Qed.

(** An operation that the request asks for, on the connection's manager. *)
Lemma operation_ok {A} config r sub op (m : io A) (f : A → io Json) :
  asks config r sub op → is_Some (auth_token sub) →
  wps (op_ok (manager_from_subnet sub) op) m (λ _ _, True) (λ _, True) [] →
  (∀ a, ∃ j, f a = mret j) →
  wpr config r (m ≫= f) (λ _ _, True) (λ _, True) [].
Proof.
  intros Hasks Hauth Hm Hf. eapply (wps_bind _ _ _ (λ _ _, True)).
  - eapply wps_guard_mono; [|exact Hm]. intros old e Hok _. by exists sub, op.
  - intros a t' Hg _ _. destruct (Hf a) as [j ->]. by apply wps_ret.
Qed.

Lemma run_op_safe self op : wps (op_ok self op) (run_op self op) (λ _ _, True) (λ _, True) ([] : list Event).
Proof. eapply wps_mono; [apply run_op_ok|done|done]. Qed.

Lemma parse_addresses_done l as' :
  traverse parse_address l = Done as' → Forall2 (λ str b, address_from_str str = Some b) l as'.
Proof.
  intros Hl%traverse_done. eapply Forall2_impl; [exact Hl|].
  intros str b Hb. by apply ok_or_fail_done in Hb.
Qed.

(** The pure part of a handler, with what its success means. *)
Ltac pure_steps :=
  repeat (eapply wps_bind_lift; [done|done|]; intros ? ?);
  repeat match goal with
    | H : parse_subnet _ = Done _ |- _ => apply ok_or_fail_done in H
    | H : parse_address _ = Done _ |- _ => apply ok_or_fail_done in H
    | H : ok_or_fail _ (subnet_parent _) = Done _ |- _ => apply ok_or_fail_done in H
    | H : ok_or_fail _ (pool_get _ _) = Done _ |- _ => apply pool_get_done in H as [? ->]
    | H : check_subnet _ = Done _ |- _ => apply check_subnet_done in H
    | H : parse_from _ _ = Done _ |- _ => apply parse_from_done in H
    | H : traverse parse_address _ = Done _ |- _ => apply parse_addresses_done in H
    | H : of_result _ = Done _ |- _ => apply of_result_done in H
    end.

Ltac operation :=
  eapply operation_ok; [econstructor; eassumption|eassumption|apply run_op_safe|intros; by eexists].

(** Calls that push nothing. *)
Ltac read_steps :=
  repeat first
    [ eapply wps_bind_lift; [done|done|]; intros ? ?
    | eapply wps_bind_call; [done|by intros|done|]; intros ? ? ].

Lemma wallet_balances_ok config r m addrs t :
  guarded (request_ok config r) t →
  wpr config r (wallet_balances m addrs) (λ _ _, True) (λ _, True) t.
Proof.
  revert t. induction addrs as [|a addrs IH]; intros t Hg; cbn [wallet_balances]; [by apply wps_ret|].
  eapply (wps_bind _ _ _ (λ _ _, True)).
  - by eapply (wps_attempt _ _ _ _ (λ _, True)); [apply wps_call; [|by intros|..]|..].
  - intros b t' Hg' _ _. eapply wps_bind; [by apply IH|]. intros. by apply wps_ret.
Qed.

Lemma readers_ok config r :
  match r with
  | WalletNew _ | WalletList _ | ListChildSubnets _ | ListBottomUpCheckpoints _
  | LastTopDownExecuted _ | QueryValidatorSet _ | ReloadConfig _ =>
      wpr config r (handle_with config r) (λ _ _, True) (λ _, True) []
  | _ => True
  end.
Proof.
  destruct r; try done; cbn [handle_with].
  - unfold handle_wallet_new. pure_steps. eapply (wps_bind _ _ _ (λ _ _, True)).
    + unfold manager_wallet_new. read_steps. by apply wps_lift.
    + intros. by apply wps_ret.
  - unfold handle_wallet_list. pure_steps. eapply (wps_bind _ _ _ (λ _ _, True)).
    + unfold manager_wallet_list. read_steps. by apply wps_lift.
    + intros addrs t' Hg _ _. eapply wps_bind; [by apply wallet_balances_ok|].
      intros rs t'' Hg' _ _. read_steps. by apply wps_ret.
  - unfold handle_list_subnets. pure_steps. eapply (wps_bind _ _ _ (λ _ _, True)).
    + unfold list_child_subnets. read_steps. by apply wps_ret.
    + intros. by apply wps_ret.
  - unfold handle_list_checkpoints, list_checkpoints. pure_steps. read_steps. by apply wps_ret.
  - unfold handle_topdown_executed. pure_steps. eapply (wps_bind _ _ _ (λ _ _, True)).
    + unfold last_topdown_executed. read_steps. by apply wps_ret.
    + intros. by apply wps_ret.
  - unfold handle_query_validators. read_steps. by apply wps_ret.
Qed.

Lemma handle_with_ok config r : wpr config r (handle_with config r) (λ _ _, True) (λ _, True) [].
Proof.
  pose proof (readers_ok config r) as Hread. destruct r; try exact Hread; clear Hread; cbn [handle_with].
  - unfold handle_create. pure_steps.
    eapply operation_ok; [econstructor; eassumption|eassumption| |intros; by eexists].
    eapply wps_mono; [apply create_ok|done|done].
  - unfold handle_join. pure_steps. operation.
  - unfold handle_leave. pure_steps. operation.
  - unfold handle_kill. pure_steps. operation.
  - unfold handle_fund. pure_steps. operation.
  - unfold handle_release. pure_steps. operation.
  - unfold handle_propagate. pure_steps. simplify_eq. operation.
  - unfold handle_net_addr. pure_steps. operation.
  - unfold handle_whitelist. pure_steps. operation.
  - unfold handle_send. pure_steps. operation.
Qed.

(** C16 (what a request may cause): whatever the nodes answer, every message that is
    pushed while the server handles a request is one that the request asks for:
    it goes to the node configured for the subnet that the request names, or for its
    parent, and only if that subnet is configured with a token; it is sent by the
    account given in the request, or else by the first configured account; its
    amount is the requested number of whole tokens in atto; it is pushed after the
    node has reported the right network (a plain transfer without that check), and
    nothing was pushed before.  Requests that only read push nothing. *)
Theorem requests_push_what_they_ask config r (w : W) new e old :
  trace (handle_with config r (mkRun w [])).2 = new ++ e :: old → is_push e = true →
  ∃ sub op, asks config r sub op ∧ is_Some (auth_token sub) ∧
    op_ok (manager_from_subnet sub) op old e.
Proof.
  intros Ht Hp. destruct (handle_with_ok config r w) as (Hg & _ & _).
  eapply guarded_split in Hg as [Hok _]; [|exact Ht]. by apply Hok.
Qed.
End server.

(** ** A request on simulated nodes *)
Module ServerDemo.
#[local] Existing Instances Demo.resolver_types Demo.agent_types DemoNode.client ManagerDemo.manager_types.
Import DemoNode.

Definition iter : HashIter (@SubnetID Demo.resolver_types) := canonical_iter _.
#[local] Existing Instance iter.

#[export] Instance server_types : ServerTypes := {|
  construct_params := λ p _ _ _ _ _ _, p;
  address_id := λ _, Ok 64%Z;
  de_cid := λ j, Demo.cid <$> de_string j;
  token_to_string := Demo.print_z;
  token_to_json := λ v, JStr (Demo.print_z v);
  status_to_json := λ _, JNum 1;
  base64_encode := λ _, "";
  tcid_to_string := λ s, s;
  ipc_address_to_string := Some;
|}.

Definition root : Subnet :=
  mkSubnet (Demo.subnet "/root") (Demo.addr "t064") "/root" "http://parent" None (Some "token")
    [Demo.addr "t1a"].

Definition config : Config := mkConfig (mkServer "127.0.0.1:3030") (<[subnet_id root := root]> ∅).

Definition request : Request := Fund (mkFundParams "/root/t01" None 3%Z).

Definition handled := handle_with config request (mkRun (mkNode 0 0) []).

Example fund_parsed :
  parse_request "ipc_fund" (JObj [("subnet", JStr "/root/t01"); ("amount", JNum 3)]) = Ok request.
Proof. reflexivity. Qed.

(** The message from the first configured account, three tokens in atto. *)
Definition message : MpoolPushMessage :=
  set_msg_value 3000000000000000000%Z
    (mpool_push_message_new (Demo.addr "t064") (Demo.addr "t1a") GatewayFund []).

Lemma handled_trace :
  trace handled.2 =
    [EvWaitMsg (from_subnet root) (Demo.cid "message") (Done (mkStateWait tip receipt [] 0))]
    ++ EvPush (from_subnet root) message (Done response)
    :: [EvNetworkName (from_subnet root) (Done "/root")].
Proof. vm_compute. reflexivity. Qed.

Lemma requests_push_what_they_ask_witness :
  ∃ sub op, asks config request sub op ∧ is_Some (auth_token sub) ∧
    op_ok (manager_from_subnet sub) op [EvNetworkName (from_subnet root) (Done "/root")]
      (EvPush (from_subnet root) message (Done response)).
Proof. by eapply (requests_push_what_they_ask config request (mkNode 0 0)); [exact handled_trace|]. Defined.
End ServerDemo.
