(* ===== verification/Handlers.v ===== *)
(** * The handlers as objects that share one configuration

    [src/server/mod.rs], [src/server/handlers/mod.rs] and the constructors of
    the handlers: every method has a handler object; most hold the same
    [Arc<SubnetManagerPool>], which holds an [Arc<ReloadableConfig>], and two
    hold that [Arc<ReloadableConfig>] themselves.  [Handlers] maps method names
    to boxed handlers.

    An [Arc] is an address in a store of configurations, so the sharing is
    explicit.  The theorem is that dispatching through the boxes is the direct
    dispatch of [Server.handle] on the configuration the address points to: no
    method shadows another, and a reload through one handler is what all the
    others see. *)
From S2P Require Import Prelude Types Records Outcome Json JsonText Lotus LotusApi Checkpointing Subsystem SubnetManager Config Server.

(** [Arc<ReloadableConfig>]. *)
Definition Arc : Type := nat.

Section handlers.
Context {W : Type} `{!ResolverTypes} `{!AgentTypes} `{!ManagerTypes} `{!ServerTypes}.
Context `{!LotusClient W} `{!HashIter SubnetID}.
Context `{!ConfigParsers} `{!FileSystem W} `{!SerdeJson}.

(** The configurations behind the [Arc]s, the world and the calls made so far. *)
Record Store := mkStore {
  st_configs : gmap Arc ReloadableConfig;
  st_run : run_state W Event;
}.

(** Dereferencing an [Arc]; one that points nowhere cannot be built in Rust. *)
Definition deref (a : Arc) : act Store ReloadableConfig := λ s,
  match st_configs s !! a with
  | Some c => (Done c, s)
  | None => (Panic "dangling reference", s)
  end.

(** [self.config.get_config()]. *)
Definition arc_get_config (a : Arc) : act Store Config :=
  c ← deref a; mret (get_config c).

(** A run of the subnet manager, which leaves the configurations alone. *)
Definition in_world {A} (m : io W Event A) : act Store A := λ s,
  let '(r, run) := m (st_run s) in (r, mkStore (st_configs s) run).

(** ** The pool *)

Record SubnetManagerPool := mkPool { pool_config : Arc }.

Definition from_reload_config (reload_config : Arc) : SubnetManagerPool := mkPool reload_config.

(** ** The handler objects *)

Record ReloadConfigHandler := mkReloadConfigHandler { reload_config : Arc }.
Record CreateSubnetHandler := mkCreateSubnetHandler { create_pool : SubnetManagerPool }.
Record LeaveSubnetHandler := mkLeaveSubnetHandler { leave_pool : SubnetManagerPool }.
Record KillSubnetHandler := mkKillSubnetHandler { kill_pool : SubnetManagerPool }.
Record JoinSubnetHandler := mkJoinSubnetHandler { join_pool : SubnetManagerPool }.
Record FundHandler := mkFundHandler { fund_pool : SubnetManagerPool }.
Record ReleaseHandler := mkReleaseHandler { release_pool : SubnetManagerPool }.
Record PropagateHandler := mkPropagateHandler { propagate_pool : SubnetManagerPool }.
Record WhitelistPropagatorHandler := mkWhitelistPropagatorHandler { whitelist_pool : SubnetManagerPool }.
Record SendValueHandler := mkSendValueHandler { send_value_pool : SubnetManagerPool }.
Record WalletNewHandler := mkWalletNewHandler { wallet_new_pool : SubnetManagerPool }.
Record WalletListHandler := mkWalletListHandler { wallet_list_pool : SubnetManagerPool }.
Record SetValidatorNetAddrHandler := mkSetValidatorNetAddrHandler { net_addr_pool : SubnetManagerPool }.
Record ListSubnetsHandler := mkListSubnetsHandler { list_subnets_pool : SubnetManagerPool }.
Record ListBottomUpCheckpointsHandler := mkListBottomUpCheckpointsHandler {
  list_checkpoints_pool : SubnetManagerPool }.
Record LastTopDownExecHandler := mkLastTopDownExecHandler { topdown_pool : SubnetManagerPool }.
Record QueryValidatorSetHandler := mkQueryValidatorSetHandler { validators_config : Arc }.

(** ** [trait JsonRPCRequestHandler]

    The request type with its decoder, and the handler's method together with
    the serialisation of its response. *)
Class JsonRPCRequestHandler (H : Type) := {
  HandlerRequest : Type;
  request_from_value : decoder HandlerRequest;
  handler_handle : H → HandlerRequest → act Store Json;
}.

(** A handler's body on the configuration behind an [Arc], or behind its pool. *)
Definition reading {P} (f : Config → P → io W Event Json) (a : Arc) (p : P) : act Store Json :=
  config ← arc_get_config a; in_world (f config p).

Definition with_pool {P} (f : Config → P → io W Event Json) (pool : SubnetManagerPool) :
    P → act Store Json :=
  reading f (pool_config pool).

(** A handler's body that changes the configuration behind an [Arc]. *)
Definition with_config {A} (a : Arc) (m : act ServerState A) : act Store A :=
  c ← deref a;
  (λ s,
    let '(r, sv) := m (mkServerState c (st_run s)) in
    (r, mkStore (<[a := sv_config sv]> (st_configs s)) (sv_run sv))) : act Store A.

#[export] Instance ReloadConfigHandler_handler : JsonRPCRequestHandler ReloadConfigHandler := {|
  request_from_value := de_reload;
  handler_handle h p := with_config (reload_config h) (handle_reload p);
|}.
#[export] Instance CreateSubnetHandler_handler : JsonRPCRequestHandler CreateSubnetHandler := {|
  request_from_value := de_create;
  handler_handle h := with_pool handle_create (create_pool h);
|}.
#[export] Instance LeaveSubnetHandler_handler : JsonRPCRequestHandler LeaveSubnetHandler := {|
  request_from_value := de_leave;
  handler_handle h := with_pool handle_leave (leave_pool h);
|}.
#[export] Instance KillSubnetHandler_handler : JsonRPCRequestHandler KillSubnetHandler := {|
  request_from_value := de_kill;
  handler_handle h := with_pool handle_kill (kill_pool h);
|}.
#[export] Instance JoinSubnetHandler_handler : JsonRPCRequestHandler JoinSubnetHandler := {|
  request_from_value := de_join;
  handler_handle h := with_pool handle_join (join_pool h);
|}.
#[export] Instance FundHandler_handler : JsonRPCRequestHandler FundHandler := {|
  request_from_value := de_fund;
  handler_handle h := with_pool handle_fund (fund_pool h);
|}.
#[export] Instance ReleaseHandler_handler : JsonRPCRequestHandler ReleaseHandler := {|
  request_from_value := de_release;
  handler_handle h := with_pool handle_release (release_pool h);
|}.
#[export] Instance PropagateHandler_handler : JsonRPCRequestHandler PropagateHandler := {|
  request_from_value := de_propagate;
  handler_handle h := with_pool handle_propagate (propagate_pool h);
|}.
#[export] Instance WhitelistPropagatorHandler_handler :
  JsonRPCRequestHandler WhitelistPropagatorHandler := {|
  request_from_value := de_whitelist;
  handler_handle h := with_pool handle_whitelist (whitelist_pool h);
|}.
#[export] Instance SendValueHandler_handler : JsonRPCRequestHandler SendValueHandler := {|
  request_from_value := de_send;
  handler_handle h := with_pool handle_send (send_value_pool h);
|}.
#[export] Instance WalletNewHandler_handler : JsonRPCRequestHandler WalletNewHandler := {|
  request_from_value := de_wallet_new;
  handler_handle h := with_pool handle_wallet_new (wallet_new_pool h);
|}.
#[export] Instance WalletListHandler_handler : JsonRPCRequestHandler WalletListHandler := {|
  request_from_value := de_wallet_list;
  handler_handle h := with_pool handle_wallet_list (wallet_list_pool h);
|}.
#[export] Instance SetValidatorNetAddrHandler_handler :
  JsonRPCRequestHandler SetValidatorNetAddrHandler := {|
  request_from_value := de_net_addr;
  handler_handle h := with_pool handle_net_addr (net_addr_pool h);
|}.
#[export] Instance ListSubnetsHandler_handler : JsonRPCRequestHandler ListSubnetsHandler := {|
  request_from_value := de_list_subnets;
  handler_handle h := with_pool handle_list_subnets (list_subnets_pool h);
|}.
#[export] Instance ListBottomUpCheckpointsHandler_handler :
  JsonRPCRequestHandler ListBottomUpCheckpointsHandler := {|
  request_from_value := de_list_checkpoints;
  handler_handle h := with_pool handle_list_checkpoints (list_checkpoints_pool h);
|}.
#[export] Instance LastTopDownExecHandler_handler : JsonRPCRequestHandler LastTopDownExecHandler := {|
  request_from_value := de_topdown_executed;
  handler_handle h := with_pool handle_topdown_executed (topdown_pool h);
|}.
#[export] Instance QueryValidatorSetHandler_handler :
  JsonRPCRequestHandler QueryValidatorSetHandler := {|
  request_from_value := de_query_validators;
  handler_handle h := reading handle_query_validators (validators_config h);
|}.

(** ** The boxes *)

(** [Box<dyn HandlerWrapper>] made from a handler of some type. *)
Record HandlerWrapper := Box {
  boxed_type : Type;
  boxed_handler : JsonRPCRequestHandler boxed_type;
  boxed : boxed_type;
}.
Arguments Box {_ _} _.

(** The blanket [impl HandlerWrapper for H]. *)
Definition wrapper_handle (w : HandlerWrapper) (params : Json) : act Store Json :=
  p ← lift (of_result (@request_from_value _ (boxed_handler w) params));
  @handler_handle _ (boxed_handler w) (boxed w) p.

(** [HashMap<Method, Box<dyn HandlerWrapper>>]. *)
Definition Handlers : Type := gmap string HandlerWrapper.

Definition empty_handlers : Handlers := ∅.

Definition handlers_new (config : Arc) : Handlers :=
  let handlers : gmap string HandlerWrapper := ∅ in
  let handlers := <[json_rpc_methods.RELOAD_CONFIG := Box (mkReloadConfigHandler config)]> handlers in
  let pool := from_reload_config config in
  let handlers := <[json_rpc_methods.CREATE_SUBNET := Box (mkCreateSubnetHandler pool)]> handlers in
  let handlers := <[json_rpc_methods.LEAVE_SUBNET := Box (mkLeaveSubnetHandler pool)]> handlers in
  let handlers := <[json_rpc_methods.KILL_SUBNET := Box (mkKillSubnetHandler pool)]> handlers in
  let handlers := <[json_rpc_methods.JOIN_SUBNET := Box (mkJoinSubnetHandler pool)]> handlers in
  let handlers := <[json_rpc_methods.FUND := Box (mkFundHandler pool)]> handlers in
  let handlers := <[json_rpc_methods.RELEASE := Box (mkReleaseHandler pool)]> handlers in
  let handlers := <[json_rpc_methods.PROPAGATE := Box (mkPropagateHandler pool)]> handlers in
  let handlers := <[json_rpc_methods.WHITELIST_PROPAGATOR :=
    Box (mkWhitelistPropagatorHandler pool)]> handlers in
  let handlers := <[json_rpc_methods.SEND_VALUE := Box (mkSendValueHandler pool)]> handlers in
  let handlers := <[json_rpc_methods.WALLET_NEW := Box (mkWalletNewHandler pool)]> handlers in
  let handlers := <[json_rpc_methods.WALLET_LIST := Box (mkWalletListHandler pool)]> handlers in
  let handlers := <[json_rpc_methods.SET_VALIDATOR_NET_ADDR :=
    Box (mkSetValidatorNetAddrHandler pool)]> handlers in
  let handlers := <[json_rpc_methods.LIST_CHILD_SUBNETS := Box (mkListSubnetsHandler pool)]> handlers in
  let handlers := <[json_rpc_methods.LIST_BOTTOMUP_CHECKPOINTS :=
    Box (mkListBottomUpCheckpointsHandler pool)]> handlers in
  let handlers := <[json_rpc_methods.LAST_TOPDOWN_EXECUTED :=
    Box (mkLastTopDownExecHandler pool)]> handlers in
  let handlers := <[json_rpc_methods.QUERY_VALIDATOR_SET :=
    Box (mkQueryValidatorSetHandler config)]> handlers in
  handlers.

Definition handlers_handle (handlers : Handlers) (method : string) (params : Json) : act Store Json :=
  match (handlers : gmap string HandlerWrapper) !! method with
  | Some wrapper => wrapper_handle wrapper params
  | None => lift (Fail "method not supported")
  end.

(** [JsonRPCServer] and the filter its [run] serves. *)
Record JsonRPCServer := mkJsonRPCServer { server_config : Arc }.

Definition server_filter (server : JsonRPCServer) : bool → string → string → act Store Reply :=
  json_rpc_filter_with (handlers_handle (handlers_new (server_config server))).

(** ** Dispatch *)

(** The store in which the [Arc] points to the server's configuration. *)
Definition as_store (a : Arc) (configs : gmap Arc ReloadableConfig) (sv : ServerState) : Store :=
  mkStore (<[a := sv_config sv]> configs) (sv_run sv).

Lemma with_config_run {A} a configs (m : act ServerState A) sv :
  with_config a m (as_store a configs sv) =
    let '(r, sv') := m sv in (r, as_store a configs sv').
Proof.
  unfold with_config, as_store, mbind, act_bind, deref. cbn [st_configs st_run].
  rewrite lookup_insert_eq. destruct sv as [c run]. cbn [sv_config sv_run].
  destruct (m _) as [r sv']. cbn [st_configs]. by rewrite insert_insert_eq.
Qed.

Lemma reading_run {P} a configs (f : Config → P → io W Event Json) p sv :
  reading f a p (as_store a configs sv) =
    let '(j, run) := f (get_config (sv_config sv)) p (sv_run sv) in
    (j, as_store a configs (mkServerState (sv_config sv) run)).
Proof.
  unfold reading, arc_get_config, in_world, as_store, mbind, act_bind, deref.
  cbn [st_configs st_run]. rewrite lookup_insert_eq. cbn [mret act_ret].
  cbn [st_configs st_run sv_config sv_run]. by destruct (f _ _ _) as [j run].
Qed.

(** What a box does with parameters that decode, and with others. *)
Lemma wrapper_handle_run {T : Type} `{!JsonRPCRequestHandler T} (h : T) params s :
  wrapper_handle (Box h) params s =
    match request_from_value params with
    | Ok p => handler_handle h p s
    | Err e => (Fail e, s)
    end.
Proof.
  unfold wrapper_handle, mbind, act_bind, lift. cbn. by destruct (request_from_value params).
Qed.

(** The direct dispatch of a method that only reads the configuration. *)
Lemma handle_reading {P} (C : P → Request) (de : decoder P) f a configs method params sv :
  find_method method method_table = Some (λ j, C <$> de j) →
  (∀ p s, run_request (C p) s =
     let '(j, run) := f (get_config (sv_config s)) p (sv_run s) in
     (j, mkServerState (sv_config s) run)) →
  match de params with
  | Ok p => reading f a p (as_store a configs sv)
  | Err e => (Fail e, as_store a configs sv)
  end = let '(r, sv') := handle method params sv in (r, as_store a configs sv').
Proof.
  intros Hm Hrun. unfold handle, parse_request. rewrite Hm.
  destruct (de params) as [p|e]; cbn; [|done].
  rewrite Hrun, reading_run. by destruct (f _ _ _).
Qed.

Lemma handle_reloading a configs params sv :
  match de_reload params with
  | Ok p => with_config a (handle_reload p) (as_store a configs sv)
  | Err e => (Fail e, as_store a configs sv)
  end = let '(r, sv') := handle json_rpc_methods.RELOAD_CONFIG params sv in
        (r, as_store a configs sv').
Proof.
  unfold handle, parse_request. cbn. destruct (de_reload params) as [p|e]; cbn; [|done].
  by rewrite with_config_run.
Qed.

Lemma find_method_none method :
  Forall (λ k, k ≠ method) (fst <$> method_table) → find_method method method_table = None.
Proof.
  generalize method_table. induction l as [|[k d] l IH]; [done|]. cbn.
  intros [Hk Hl]%Forall_cons. destruct (String.eqb_spec k method); [done|auto].
Qed.

(** The boxes of [handlers_new] dispatch like [handle]. *)
Lemma handlers_handle_run a configs method params sv :
  handlers_handle (handlers_new a) method params (as_store a configs sv) =
    let '(r, sv') := handle method params sv in (r, as_store a configs sv').
Proof.
  unfold handlers_handle, handlers_new. cbv zeta.
  repeat (rewrite lookup_insert; destruct (decide _) as [<-|?];
    [rewrite wrapper_handle_run;
     first [apply handle_reloading | by eapply handle_reading]|]).
  rewrite lookup_empty. unfold handle, parse_request.
  rewrite find_method_none; [done|]. by repeat constructor.
Qed.

(** ** Serving requests *)

(** The HTTP method, the path and the body of each request, one request after
    the other. *)
Fixpoint serve {S} (filter : bool → string → string → act S Reply)
    (requests : list (bool * string * string)) (s : S) : list (outcome Reply) * S :=
  match requests with
  | [] => ([], s)
  | (is_post, path, body) :: requests =>
      let '(r, s) := filter is_post path body s in
      let '(rs, s) := serve filter requests s in
      (r :: rs, s)
  end.

(** Dispatchers that correspond make filters that correspond. *)
Lemma json_rpc_filter_sim {S T} (emb : T → S) (f : string → Json → act S Json)
    (g : string → Json → act T Json) is_post path body t :
  (∀ method params t, f method params (emb t) =
     let '(r, t') := g method params t in (r, emb t')) →
  json_rpc_filter_with f is_post path body (emb t) =
    let '(r, t') := json_rpc_filter_with g is_post path body t in (r, emb t').
Proof.
  intros Hfg. unfold json_rpc_filter_with. destruct is_post; [|done]. cbn [negb].
  destruct (negb _); [done|]. destruct (to_json_rpc_request body) as [r|]; [|done].
  unfold handle_request. destruct (negb _); [done|].
  unfold mbind, act_bind, attempt. rewrite Hfg.
  by destruct (g (req_method r) (req_params r) t) as [[] t'].
Qed.

(** C13 (handlers share one configuration): a server whose seventeen boxed
    handlers hold clones of one [Arc] answers every sequence of HTTP requests
    like direct dispatch on a single configuration: each method reaches its own
    handler, a reload through one of them is what the others see, and
    configurations behind other [Arc]s are untouched. *)
Theorem boxed_handlers_refine a configs sv requests :
  serve (server_filter (mkJsonRPCServer a)) requests (as_store a configs sv) =
    let '(replies, sv') := serve json_rpc_filter requests sv in
    (replies, as_store a configs sv').
Proof.
  revert sv. induction requests as [|[[is_post path] body] requests IH]; intros sv; [done|].
  cbn [serve]. unfold server_filter at 1, json_rpc_filter at 1.
  rewrite (json_rpc_filter_sim (as_store a configs) _ handle); [|intros; apply handlers_handle_run].
  destruct (json_rpc_filter_with handle is_post path body sv) as [r sv'].
  rewrite IH. by destruct (serve json_rpc_filter requests sv').
Qed.

(** ** The tests of the filter, with no handlers *)

Context `{!JsonPrinter}.

Definition get_empty_filter : bool → string → string → act Store Reply :=
  json_rpc_filter_with (handlers_handle empty_handlers).

Definition status_of (r : outcome Reply) : option Z :=
  match r with Done (ReplyStatus status _) => Some status | _ => None end.

(** [warp::test::request().json(&())] sends the JSON of the unit value. *)
Definition test_json_rpc_filter_cannot_parse_param (s : Store) : bool :=
  bool_decide (status_of (value_of
    (get_empty_filter true JSON_RPC_ENDPOINT (json_to_string JNull) s)) = Some 400%Z).

Definition test_json_rpc_filter_not_found (s : Store) : bool :=
  bool_decide (status_of (value_of
    (get_empty_filter true "random" (json_to_string JNull) s)) = Some 404%Z).

(** [Deserialize for JSONRPCResultResponse<()>]: the id and the version. *)
Definition de_result_response : decoder (Z * string) := λ j,
  fs ← de_struct ["id"; "jsonrpc"; "result"] j;
  match fs with
  | [id; jsonrpc; result] =>
      id ← required de_u64 id;
      jsonrpc ← required de_string jsonrpc;
      _ ← required de_unit result;
      Ok (id, jsonrpc)
  | _ => Err "invalid length"
  end.

(** The test that the sources ignore: a request for a method without handler. *)
Definition test_json_rpc_filter_works (s : Store) : outcome bool :=
  let req := JObj [("id", JNum 0); ("jsonrpc", JStr JSON_RPC_VERSION);
                   ("method", JStr "foo"); ("params", JNull)] in
  r ← value_of (get_empty_filter true JSON_RPC_ENDPOINT (json_to_string req) s);
  let body := match r with ReplyJson j => json_to_string j | ReplyStatus _ text => text end in
  match j ← json_from_str body; de_result_response j with
  | Ok (id, jsonrpc) =>
      Done (bool_decide (id = 0%Z) && bool_decide (jsonrpc = JSON_RPC_VERSION))
  | Err e => Panic e
  end.

Context `{!JsonTextLaws}.

(** The two tests that run pass; the ignored one would panic, since the reply
    has an error instead of a result. *)
Lemma filter_tests s :
  test_json_rpc_filter_cannot_parse_param s = true ∧
  test_json_rpc_filter_not_found s = true ∧
  test_json_rpc_filter_works s = Panic "missing field".
Proof.
  split_and!.
  - unfold test_json_rpc_filter_cannot_parse_param, get_empty_filter, json_rpc_filter_with.
    cbn [negb]. rewrite (bool_decide_eq_true_2 (JSON_RPC_ENDPOINT = _)) by done.
    unfold to_json_rpc_request. cbn [negb].
    destruct (json_print_parse JNull) as (j & -> & He); [done|].
    by inversion He.
  - by apply bool_decide_eq_true_2.
  - unfold test_json_rpc_filter_works, get_empty_filter, json_rpc_filter_with. cbv zeta.
    set (req := JObj _). cbn [negb].
    rewrite (bool_decide_eq_true_2 (JSON_RPC_ENDPOINT = _)) by done. cbn [negb].
    destruct (json_print_parse req) as (j & Hj & He); [done|].
    destruct (de_struct_equiv ["id"; "jsonrpc"; "method"; "params"] _ _ _ He eq_refl)
      as (fs & Hs & Hf). struct_fields Hf.
    assert (∃ params, to_json_rpc_request (json_to_string req) =
      Some (mkJSONRPCRequest 0 JSON_RPC_VERSION "foo" params)) as [params ->].
    { eexists. unfold to_json_rpc_request. rewrite Hj. cbn [mbind result_bind].
      unfold de_json_rpc_request. by rewrite Hs. }
    set (e := error_response 0 (-1) "method not supported").
    change (value_of (handle_request _ _ s)) with (Done (ReplyJson e)). cbn [mbind outcome_bind].
    destruct (json_print_parse e) as (j' & -> & He'); [done|].
    destruct (de_struct_equiv ["id"; "jsonrpc"; "result"] _ _ _ He' eq_refl)
      as (fs' & Hs' & Hf'). struct_fields Hf'.
    cbn [mbind result_bind]. unfold de_result_response. by rewrite Hs'.
Qed.
End handlers.
