(* ===== verification/Requests.v ===== *)
(** * Requests as JSON

    The parameter structs of [src/server/handlers] derive [Serialize] and
    [Deserialize]: clients print them, the server reads them.  This file has the
    encoders and shows that they are inverse to the server's decoders of
    [Server.v], for texts as well as for values, and that whatever the server
    decodes is typed: its integers are in the range of their Rust types. *)
From S2P Require Import Prelude Types Records Outcome Json JsonText Lotus LotusApi Checkpointing Subsystem SubnetManager Config Server.

(** [Serialize for Cid]; it is the inverse of [Deserialize for Cid]. *)
Class CidSerialize `{ServerTypes} := { cid_to_json : Cid → Json }.

Class CidSerializeLaws `{CidSerialize} := {
  cid_json_roundtrip : ∀ c, de_cid (cid_to_json c) = Ok c;
  cid_to_json_wf : ∀ c, json_wf (cid_to_json c) = true;
  de_cid_robust :: Robust (=) de_cid;
}.

Section requests.
Context `{!ResolverTypes} `{!AgentTypes} `{!ManagerTypes} `{!ServerTypes} `{!CidSerialize}.

(** ** Encoders *)

Definition json_of_option (o : option string) : Json :=
  match o with Some s => JStr s | None => JNull end.

Definition create_to_json (p : CreateSubnetParams) : Json :=
  JObj [("from", json_of_option (cr_from p)); ("parent", JStr (cr_parent p)); ("name", JStr (cr_name p));
        ("min_validator_stake", JNum (cr_min_validator_stake p));
        ("min_validators", JNum (cr_min_validators p));
        ("bottomup_check_period", JNum (cr_bottomup_check_period p));
        ("topdown_check_period", JNum (cr_topdown_check_period p))].

Definition join_to_json (p : JoinSubnetParams) : Json :=
  JObj [("subnet", JStr (jn_subnet p)); ("from", json_of_option (jn_from p));
        ("collateral", JNum (jn_collateral p));
        ("validator_net_addr", JStr (jn_validator_net_addr p))].

Definition leave_to_json (p : LeaveSubnetParams) : Json :=
  JObj [("subnet", JStr (lv_subnet p)); ("from", json_of_option (lv_from p))].

Definition kill_to_json (p : KillSubnetParams) : Json :=
  JObj [("subnet", JStr (kl_subnet p)); ("from", json_of_option (kl_from p))].

Definition fund_to_json (p : FundParams) : Json :=
  JObj [("subnet", JStr (fd_subnet p)); ("from", json_of_option (fd_from p)); ("amount", JNum (fd_amount p))].

Definition release_to_json (p : ReleaseParams) : Json :=
  JObj [("subnet", JStr (rl_subnet p)); ("from", json_of_option (rl_from p)); ("amount", JNum (rl_amount p))].

Definition propagate_to_json (p : PropagateParams) : Json :=
  JObj [("subnet", JStr (pp_subnet p)); ("from", json_of_option (pp_from p));
        ("postbox_msg_cid", cid_to_json (pp_postbox_msg_cid p))].

Definition net_addr_to_json (p : SetValidatorNetAddrParams) : Json :=
  JObj [("subnet", JStr (na_subnet p)); ("from", json_of_option (na_from p));
        ("validator_net_addr", JStr (na_validator_net_addr p))].

Definition whitelist_to_json (p : WhitelistPropagatorParams) : Json :=
  JObj [("subnet", JStr (wl_subnet p)); ("from", json_of_option (wl_from p));
        ("postbox_msg_cid", cid_to_json (wl_postbox_msg_cid p)); ("to_add", JArr (JStr <$> wl_to_add p))].

Definition send_to_json (p : SendValueParams) : Json :=
  JObj [("subnet", JStr (sd_subnet p)); ("from", json_of_option (sd_from p)); ("to", JStr (sd_to p));
        ("amount", JNum (sd_amount p))].

Definition wallet_new_to_json (p : WalletNewParams) : Json :=
  JObj [("subnet", JStr (wn_subnet p)); ("key_type", JStr (wn_key_type p))].

Definition wallet_list_to_json (p : WalletListParams) : Json := JObj [("subnet", JStr (wls_subnet p))].

Definition list_subnets_to_json (p : ListSubnetsParams) : Json :=
  JObj [("gateway_address", JStr (ls_gateway_address p)); ("subnet_id", JStr (ls_subnet_id p))].

Definition list_checkpoints_to_json (p : ListBottomUpCheckpointsParams) : Json :=
  JObj [("subnet_id", JStr (lc_subnet_id p)); ("from_epoch", JNum (lc_from_epoch p));
        ("to_epoch", JNum (lc_to_epoch p))].

Definition topdown_executed_to_json (p : LastTopDownExecParams) : Json :=
  JObj [("subnet_id", JStr (te_subnet_id p))].

Definition query_validators_to_json (p : QueryValidatorSetParams) : Json :=
  JObj [("subnet", JStr (qv_subnet p))].

Definition reload_to_json (p : ReloadConfigParams) : Json := JObj [("path", json_of_option (rp_path p))].

(** The method and the parameters of a request. *)
Definition request_method (r : Request) : string :=
  match r with
  | CreateSubnet _ => json_rpc_methods.CREATE_SUBNET
  | JoinSubnet _ => json_rpc_methods.JOIN_SUBNET
  | LeaveSubnet _ => json_rpc_methods.LEAVE_SUBNET
  | KillSubnet _ => json_rpc_methods.KILL_SUBNET
  | Fund _ => json_rpc_methods.FUND
  | Release _ => json_rpc_methods.RELEASE
  | Propagate _ => json_rpc_methods.PROPAGATE
  | SetValidatorNetAddr _ => json_rpc_methods.SET_VALIDATOR_NET_ADDR
  | WhitelistPropagator _ => json_rpc_methods.WHITELIST_PROPAGATOR
  | SendValueReq _ => json_rpc_methods.SEND_VALUE
  | WalletNew _ => json_rpc_methods.WALLET_NEW
  | WalletList _ => json_rpc_methods.WALLET_LIST
  | ListChildSubnets _ => json_rpc_methods.LIST_CHILD_SUBNETS
  | ListBottomUpCheckpoints _ => json_rpc_methods.LIST_BOTTOMUP_CHECKPOINTS
  | LastTopDownExecuted _ => json_rpc_methods.LAST_TOPDOWN_EXECUTED
  | QueryValidatorSet _ => json_rpc_methods.QUERY_VALIDATOR_SET
  | ReloadConfig _ => json_rpc_methods.RELOAD_CONFIG
  end.

Definition request_params (r : Request) : Json :=
  match r with
  | CreateSubnet p => create_to_json p
  | JoinSubnet p => join_to_json p
  | LeaveSubnet p => leave_to_json p
  | KillSubnet p => kill_to_json p
  | Fund p => fund_to_json p
  | Release p => release_to_json p
  | Propagate p => propagate_to_json p
  | SetValidatorNetAddr p => net_addr_to_json p
  | WhitelistPropagator p => whitelist_to_json p
  | SendValueReq p => send_to_json p
  | WalletNew p => wallet_new_to_json p
  | WalletList p => wallet_list_to_json p
  | ListChildSubnets p => list_subnets_to_json p
  | ListBottomUpCheckpoints p => list_checkpoints_to_json p
  | LastTopDownExecuted p => topdown_executed_to_json p
  | QueryValidatorSet p => query_validators_to_json p
  | ReloadConfig p => reload_to_json p
  end.

(** The integers of a request are in the range of their types, u64 or i64. *)
Definition request_typed (r : Request) : Prop :=
  match r with
  | CreateSubnet p =>
      in_u64 (cr_min_validator_stake p) ∧ in_u64 (cr_min_validators p) ∧
      in_i64 (cr_bottomup_check_period p) ∧ in_i64 (cr_topdown_check_period p)
  | JoinSubnet p => in_u64 (jn_collateral p)
  | Fund p => in_u64 (fd_amount p)
  | Release p => in_u64 (rl_amount p)
  | SendValueReq p => in_u64 (sd_amount p)
  | ListBottomUpCheckpoints p => in_i64 (lc_from_epoch p) ∧ in_i64 (lc_to_epoch p)
  | _ => True
  end.

(** ** Decoders are typed *)

Lemma de_int_ok lo hi j n : de_int lo hi j = Ok n → (lo ≤ n ≤ hi)%Z.
Proof.
  destruct j; try done. cbn. case_match eqn:Hb; [|done].
  intros [= <-]. apply andb_prop in Hb as [?%Z.leb_le ?%Z.leb_le]. lia.
Qed.

Lemma required_u64 o n : required de_u64 o = Ok n → in_u64 n.
Proof. destruct o; [apply de_int_ok|done]. Qed.

Lemma required_i64 o n : required de_i64 o = Ok n → in_i64 n.
Proof. destruct o; [apply de_int_ok|done]. Qed.

Lemma de_u64_in n : in_u64 n → de_u64 (JNum n) = Ok n.
Proof. apply de_int_in. Qed.

Lemma de_i64_in n : in_i64 n → de_i64 (JNum n) = Ok n.
Proof. apply de_int_in. Qed.

Lemma optional_string o : optional de_string (Some (json_of_option o)) = Ok o.
Proof. by destruct o. Qed.

Lemma de_strings l : collect de_string (JStr <$> l) = Ok l.
Proof. induction l as [|s l IH]; cbn; [done|]. by rewrite IH. Qed.

(** One field after the other, keeping what is known of the integers. *)
Ltac typed_fields :=
  repeat match goal with
    | |- context [mbind _ (required de_u64 ?o)] => let E := fresh "E" in
        destruct (required de_u64 o) eqn:E; cbn; [apply required_u64 in E|done]
    | |- context [mbind _ (required de_i64 ?o)] => let E := fresh "E" in
        destruct (required de_i64 o) eqn:E; cbn; [apply required_i64 in E|done]
    | |- context [mbind _ (?f ?o)] => destruct (f o); cbn; [|done]
    end.

Ltac typed_struct d :=
  let fs := fresh "fs" in
  unfold d; match goal with |- context [de_struct ?ns ?j] => destruct (de_struct ns j) as [fs|] end;
  cbn; [|done]; repeat (destruct fs as [|? fs]; try done); typed_fields; by intros [= <-].

Lemma de_create_typed j p : de_create j = Ok p → request_typed (CreateSubnet p).
Proof. typed_struct de_create. Qed.
Lemma de_join_typed j p : de_join j = Ok p → request_typed (JoinSubnet p).
Proof. typed_struct de_join. Qed.
Lemma de_fund_typed j p : de_fund j = Ok p → request_typed (Fund p).
Proof. typed_struct de_fund. Qed.
Lemma de_release_typed j p : de_release j = Ok p → request_typed (Release p).
Proof. typed_struct de_release. Qed.
Lemma de_send_typed j p : de_send j = Ok p → request_typed (SendValueReq p).
Proof. typed_struct de_send. Qed.
Lemma de_list_checkpoints_typed j p :
  de_list_checkpoints j = Ok p → request_typed (ListBottomUpCheckpoints p).
Proof. typed_struct de_list_checkpoints. Qed.

#[local] Hint Resolve de_create_typed de_join_typed de_fund_typed de_release_typed de_send_typed
  de_list_checkpoints_typed : core.

(** The entry of a method decodes typed requests of that method. *)
Definition typed_entry (e : string * decoder Request) : Prop :=
  ∀ params r, e.2 params = Ok r → request_typed r ∧ request_method r = e.1.

Lemma typed_entry_intro {A} method (c : A → Request) (d : decoder A) :
  (∀ p, request_method (c p) = method) → (∀ j p, d j = Ok p → request_typed (c p)) →
  typed_entry (method, λ j, c <$> d j).
Proof.
  intros Hm Ht params r. cbn. destruct (d params) eqn:Hd; cbn; [|done]. intros [= <-]. eauto.
Qed.

Lemma method_table_typed : Forall typed_entry method_table.
Proof.
  unfold method_table.
  repeat (apply Forall_cons_2; [apply typed_entry_intro; [done|by eauto]|]). apply Forall_nil_2.
Qed.

Lemma find_method_typed method table d :
  Forall typed_entry table → find_method method table = Some d → typed_entry (method, d).
Proof.
  induction 1 as [|[m d'] table Hd _ IH]; cbn; [done|].
  destruct (String.eqb_spec m method) as [->|_]; [by intros [= <-]|done].
Qed.

(** C29 (typed requests): whatever method and parameters the server accepts, the request it
    runs is the one of that method, and each of its integers is in the range of its
    type: amounts, stakes and validator counts in u64, epochs and periods in i64. *)
Theorem parse_request_typed method params r :
  parse_request method params = Ok r → request_typed r ∧ request_method r = method.
Proof.
  unfold parse_request. destruct (find_method method method_table) as [d|] eqn:Hd; [|done].
  by apply (find_method_typed _ _ _ method_table_typed Hd).
Qed.

(** ** Round trip *)

Context `{!CidSerializeLaws}.

#[export] Instance de_create_robust : Robust (=) de_create.
Proof. unfold de_create. robust_struct. Qed.
#[export] Instance de_join_robust : Robust (=) de_join.
Proof. unfold de_join. robust_struct. Qed.
#[export] Instance de_leave_robust : Robust (=) de_leave.
Proof. unfold de_leave. robust_struct. Qed.
#[export] Instance de_kill_robust : Robust (=) de_kill.
Proof. unfold de_kill. robust_struct. Qed.
#[export] Instance de_fund_robust : Robust (=) de_fund.
Proof. unfold de_fund. robust_struct. Qed.
#[export] Instance de_release_robust : Robust (=) de_release.
Proof. unfold de_release. robust_struct. Qed.
#[export] Instance de_propagate_robust : Robust (=) de_propagate.
Proof. unfold de_propagate. robust_struct. Qed.
#[export] Instance de_net_addr_robust : Robust (=) de_net_addr.
Proof. unfold de_net_addr. robust_struct. Qed.
#[export] Instance de_whitelist_robust : Robust (=) de_whitelist.
Proof. unfold de_whitelist. robust_struct. Qed.
#[export] Instance de_send_robust : Robust (=) de_send.
Proof. unfold de_send. robust_struct. Qed.
#[export] Instance de_wallet_new_robust : Robust (=) de_wallet_new.
Proof. unfold de_wallet_new. robust_struct. Qed.
#[export] Instance de_wallet_list_robust : Robust (=) de_wallet_list.
Proof. unfold de_wallet_list. robust_struct. Qed.
#[export] Instance de_list_subnets_robust : Robust (=) de_list_subnets.
Proof. unfold de_list_subnets. robust_struct. Qed.
#[export] Instance de_list_checkpoints_robust : Robust (=) de_list_checkpoints.
Proof. unfold de_list_checkpoints. robust_struct. Qed.
#[export] Instance de_topdown_executed_robust : Robust (=) de_topdown_executed.
Proof. unfold de_topdown_executed. robust_struct. Qed.
#[export] Instance de_query_validators_robust : Robust (=) de_query_validators.
Proof. unfold de_query_validators. robust_struct. Qed.
#[export] Instance de_reload_robust : Robust (=) de_reload.
Proof. unfold de_reload. robust_struct. Qed.

#[export] Instance fmap_robust {A B} (f : A → B) (d : decoder A) `{!Robust (=) d} :
  Robust (=) (λ j, f <$> d j).
Proof.
  intros j j' b Hj. destruct (d j) as [a|] eqn:Ha; cbn; [|done]. intros [= <-].
  rewrite (robust_eq d j j' a) by done. by eexists.
Qed.

(** The decoder of a request's method. *)
Lemma parse_request_robust r j j' :
  json_equiv j j' → parse_request (request_method r) j = Ok r → parse_request (request_method r) j' = Ok r.
Proof.
  intros Hj. destruct r; unfold parse_request; cbn -[mbind];
    match goal with |- ?c <$> ?d j = _ → _ => exact (robust_eq (λ j, c <$> d j) j j' _ Hj) end.
Qed.

Ltac typed_ints :=
  repeat match goal with
    | H : _ ∧ _ |- _ => destruct H
    | H : in_u64 _ |- _ => apply de_u64_in in H
    | H : in_i64 _ |- _ => apply de_i64_in in H
    end.

Lemma parse_request_params r :
  request_typed r → parse_request (request_method r) (request_params r) = Ok r.
Proof.
  intros Hr. destruct r as [p|p|p|p|p|p|p|p|p|p|p|p|p|p|p|p|p]; destruct p; cbn in Hr; typed_ints;
    unfold parse_request; cbn -[de_u64 de_i64 optional];
    rewrite ?optional_string; cbn -[de_u64 de_i64];
    repeat match goal with H : _ = Ok _ |- _ => rewrite H; cbn -[de_u64 de_i64]; clear H end;
    rewrite ?cid_json_roundtrip; cbn; rewrite ?de_strings; cbn; rewrite ?optional_string; done.
Qed.

Lemma json_of_option_wf o : json_wf (json_of_option o) = true.
Proof. by destruct o. Qed.

Lemma in_u64_wf n : in_u64 n → json_wf (JNum n) = true.
Proof.
  unfold in_u64, json_wf, i64_min. intros ?. apply andb_true_intro. split; apply Z.leb_le; lia.
Qed.

Lemma in_i64_wf n : in_i64 n → json_wf (JNum n) = true.
Proof.
  unfold in_i64, json_wf, i64_max, u64_max. intros ?. apply andb_true_intro. split; apply Z.leb_le; lia.
Qed.

Lemma strings_wf l : forallb json_wf (JStr <$> l) = true.
Proof. by induction l. Qed.

Lemma request_params_wf r : request_typed r → json_wf (request_params r) = true.
Proof.
  intros Hr. destruct r as [p|p|p|p|p|p|p|p|p|p|p|p|p|p|p|p|p]; destruct p; cbn in Hr;
    repeat match goal with
    | H : _ ∧ _ |- _ => destruct H
    | H : in_u64 _ |- _ => apply in_u64_wf in H; cbn in H
    | H : in_i64 _ |- _ => apply in_i64_wf in H; cbn in H
    end; cbn -[bool_decide fmap]; rewrite ?json_of_option_wf, ?cid_to_json_wf, ?strings_wf;
    repeat match goal with H : _ = true |- _ => rewrite H; clear H end; reflexivity.
Qed.
End requests.

(** ** A request read from JSON *)
Module RequestsDemo.
#[local] Existing Instances Demo.resolver_types Demo.agent_types ManagerDemo.manager_types ServerDemo.server_types.

Lemma parse_request_typed_witness :
  request_typed ServerDemo.request ∧ request_method ServerDemo.request = "ipc_fund".
Proof.
  apply (parse_request_typed "ipc_fund" (JObj [("subnet", JStr "/root/t01"); ("amount", JNum 3)])).
  exact ServerDemo.fund_parsed.
Defined.
End RequestsDemo.
