(* ===== verification/Cli.v ===== *)
(** * The command line

    [src/cli] and [src/main.rs].  A command turns its arguments into the
    parameters of one request, finds the URL of the agent, sends the request with
    the JSON-RPC client of [Json.v] and logs the answer; [config init] writes
    the template of the configuration, [daemon] runs the agent.

    [clap] parses the arguments: a command here is what it has parsed.  The
    environment, the file system and the run of the daemon's subsystems are
    interfaces ([Daemon.v] models the latter).  The trace of a run holds what was
    logged, the latest first. *)
From S2P Require Import Prelude Types Records Outcome Json JsonText Toml Lotus LotusApi Checkpointing Subsystem SubnetManager Config Server Requests.

(** [std::env::var]. *)
Class Environment := { env_var : string → option string }.

(** [std::fs::create_dir_all], [File::create] and [Write::write_all] on a created file. *)
Class FileWriter (W : Type) := {
  create_dir_all : string → W → result string () * W;
  file_create : string → W → result string () * W;
  write_all : string → string → W → result string () * W;
}.

(** [Toplevel] with the two subsystems of the agent. *)
Class Toplevel (W : Type) `{AgentTypes} := { run_toplevel : ReloadableConfig → act W () }.

(** [Network::from_u8] of [fvm_shared], and the derived [Debug] of a command. *)
Class Networks := { Network : Type; network_from_u8 : Z → option Network }.

(** ** Arguments *)

Record GlobalArguments := mkGlobal { ga_config_path : option string }.

Record CreateSubnetArgs := mkCreateArgs {
  ca_url : option string; ca_from : option string; ca_parent : string; ca_name : string;
  ca_min_validator_stake : Z; ca_min_validators : Z; ca_bottomup_check_period : Z;
  ca_topdown_check_period : Z }.
Record JoinSubnetArgs := mkJoinArgs {
  ja_url : option string; ja_from : option string; ja_subnet : string; ja_collateral : Z;
  ja_validator_net_addr : string }.
Record LeaveSubnetArgs := mkLeaveArgs { la_url : option string; la_from : option string; la_subnet : string }.
Record KillSubnetArgs := mkKillArgs { ka_url : option string; ka_from : option string; ka_subnet : string }.
Record ListSubnetsArgs := mkListSubnetsArgs {
  lsa_url : option string; lsa_gateway_address : string; lsa_subnet : string }.
Record SendValueArgs := mkSendArgs {
  sa_url : option string; sa_from : option string; sa_to : string; sa_subnet : string; sa_amount : Z }.
Record SetValidatorNetAddrArgs := mkNetAddrArgs {
  naa_url : option string; naa_from : option string; naa_subnet : string; naa_validator_net_addr : string }.
Record FundArgs := mkFundArgs {
  fa_url : option string; fa_from : option string; fa_subnet : string; fa_amount : Z }.
Record ReleaseArgs := mkReleaseArgs {
  ra_url : option string; ra_from : option string; ra_subnet : string; ra_amount : Z }.
Record PropagateArgs `{ResolverTypes} := mkPropagateArgs {
  pa_url : option string; pa_from : option string; pa_subnet : string; pa_postbox_msg_cid : Cid }.
Record WhitelistPropagatorArgs `{ResolverTypes} := mkWhitelistArgs {
  wa_url : option string; wa_from : option string; wa_subnet : string; wa_postbox_msg_cid : Cid;
  wa_to_add : list string }.
Record ListBottomUpCheckpointsArgs := mkListCheckpointsArgs {
  lca_url : option string; lca_subnet : string; lca_from_epoch : Z; lca_to_epoch : Z }.
Record LastTopDownExecArgs := mkLastTopDownArgs { lta_url : option string; lta_subnet : string }.
Record WalletNewArgs := mkWalletNewArgs { wna_url : option string; wna_subnet : string; wna_key_type : string }.
Record WalletListArgs := mkWalletListArgs { wla_url : option string; wla_subnet : string }.
Record ReloadConfigArgs := mkReloadArgs { rca_path : option string; rca_url : option string }.
Arguments mkPropagateArgs {_} _ _ _ _.
Arguments mkWhitelistArgs {_} _ _ _ _ _.

Module SubnetCommands.
Inductive SubnetCommandsArgs :=
  | Create (a : CreateSubnetArgs)
  | List (a : ListSubnetsArgs)
  | Join (a : JoinSubnetArgs)
  | Leave (a : LeaveSubnetArgs)
  | Kill (a : KillSubnetArgs)
  | SendValue (a : SendValueArgs)
  | SetValidatorNetAddr (a : SetValidatorNetAddrArgs).
End SubnetCommands.

Module CrossMsgCommands.
Inductive CrossMsgsCommandsArgs `{ResolverTypes} :=
  | Fund (a : FundArgs)
  | Release (a : ReleaseArgs)
  | Propagate (a : PropagateArgs)
  | WhitelistPropagator (a : WhitelistPropagatorArgs).
End CrossMsgCommands.

Module CheckpointCommands.
Inductive CheckpointCommandsArgs :=
  | ListBottomup (a : ListBottomUpCheckpointsArgs)
  | LastTopdown (a : LastTopDownExecArgs).
End CheckpointCommands.

Module WalletCommands.
Inductive WalletCommandsArgs :=
  | New (a : WalletNewArgs)
  | List (a : WalletListArgs).
End WalletCommands.

Module ConfigCommands.
Inductive ConfigCommandsArgs :=
  | Reload (a : ReloadConfigArgs)
  | Init.
End ConfigCommands.

(** [Commands] of [cli/commands/mod.rs]. *)
Inductive Command `{ResolverTypes} :=
  | CmdDaemon
  | CmdConfig (c : ConfigCommands.ConfigCommandsArgs)
  | CmdSubnet (c : SubnetCommands.SubnetCommandsArgs)
  | CmdWallet (c : WalletCommands.WalletCommandsArgs)
  | CmdCrossMsg (c : CrossMsgCommands.CrossMsgsCommandsArgs)
  | CmdCheckpoint (c : CheckpointCommands.CheckpointCommandsArgs).

(** What the commands log at the info level, with the arguments of the messages. *)
Inductive Log `{AgentTypes} :=
  | LogCreated (parent address : string)
  | LogSubnet (id : string) (status : Z) (stake supply : TokenAmount)
  | LogJoined (subnet : string)
  | LogLeft (subnet : string)
  | LogKilled (subnet : string)
  | LogSent (subnet : string)
  | LogNetAddr (addr subnet : string)
  | LogFunded (subnet : string)
  | LogReleased (subnet : string)
  | LogPropagated (subnet : string)
  | LogWhitelisted (subnet : string)
  | LogCheckpoint (epoch prev_check cross_msgs children : Json)
  | LogLastTopDown (epoch : Json)
  | LogWallets (subnet : string) (wallets : gmap string string)
  | LogWalletCreated (address subnet : string)
  | LogReloaded
  | LogConfigWritten (path : string).

Definition DEFAULT_CONFIG_PATH : string := ".ipc-agent/config.toml".

(** ** Paths *)

(** The components of a path, as [Path::components] gives them: repeated and
    trailing separators do not count, nor do [.]s but the first. *)
Fixpoint split_path (s acc : string) : list string :=
  match s with
  | EmptyString => [acc]
  | String "/" s => acc :: split_path s EmptyString
  | String c s => split_path s (acc +:+ String c EmptyString)
  end.

Definition path_components (s : string) : bool * list string :=
  let parts := split_path s EmptyString in
  let is_abs := match s with String "/" _ => true | _ => false end in
  let dot_first := match parts with "." :: _ => ["."] | _ => [] end in
  (is_abs, dot_first ++ filter (λ c, c ≠ "" ∧ c ≠ ".") parts).

Fixpoint join_path (l : list string) : string :=
  match l with
  | [] => EmptyString
  | [c] => c
  | c :: l => c +:+ "/" +:+ join_path l
  end.

(** [Path::parent]: none for the root and the empty path. *)
Definition path_parent (s : string) : option string :=
  let '(is_abs, cs) := path_components s in
  match rev cs with
  | [] => None
  | _ :: cs => Some ((if is_abs : bool then "/" else "") +:+ join_path (rev cs))
  end.

Example parents :
  path_parent "/home/u/.ipc-agent/config.toml" = Some "/home/u/.ipc-agent" ∧
  path_parent "config.toml" = Some "" ∧ path_parent "a//b/" = Some "a" ∧ path_parent "/" = None.
Proof. by vm_compute. Qed.

(** ** Numbers of the standard library *)

Fixpoint parse_digits (s : string) (n : Z) : option Z :=
  match s with
  | EmptyString => Some n
  | String c s =>
      let d := (Z.of_N (N_of_ascii c) - 48)%Z in
      if (0 <=? d)%Z && (d <=? 9)%Z then parse_digits s (10 * n + d)%Z else None
  end.

(** [u8::from_str]. *)
Definition parse_u8 (s : string) : option Z :=
  let digits := match s with String "+" s => s | _ => s end in
  match digits with
  | EmptyString => None
  | _ => n ← parse_digits digits 0; if (n <=? 255)%Z then Some n else None
  end.

Example parse_u8_examples :
  parse_u8 "1" = Some 1%Z ∧ parse_u8 "+7" = Some 7%Z ∧ parse_u8 "256" = None ∧ parse_u8 "" = None ∧
  parse_u8 "-1" = None.
Proof. by vm_compute. Qed.

(** A successful action, step by step. *)
Lemma act_bind_done {S A B} (m : act S A) (f : A → act S B) s b s' :
  (m ≫= f) s = (Done b, s') → ∃ a s1, m s = (Done a, s1) ∧ f a s1 = (Done b, s').
Proof. unfold mbind, act_bind. destruct (m s) as [[a|e|p|] s1]; try done. eauto. Qed.

Definition de_i32 : decoder Z := de_int (- 2 ^ 31) (2 ^ 31 - 1).

Section cli.
Context {W : Type} `{!ResolverTypes} `{!AgentTypes} `{!ManagerTypes} `{!ServerTypes} `{!CidSerialize}.
Context `{!ConfigParsers} `{!FileSystem W} `{!FileWriter W} `{!Environment} `{!Toplevel W} `{!Networks}.
Context `{!SerdeJson} `{!Http W} `{!HashIter string}.
Context (debug_command : Command → string).

Notation cli := (io W Log).

(** An action on the world, and [log::info!]. *)
Definition on_world {A} (m : act W A) : cli A := λ s,
  let '(r, w) := m (world s) in (r, mkRun w (trace s)).

Definition info (l : Log) : cli () := λ s, (Done (), mkRun (world s) (l :: trace s)).

Definition config_path (g : GlobalArguments) : outcome string :=
  match ga_config_path g with
  | Some p => Done p
  | None =>
      match env_var "HOME" with
      | Some home => Done (home +:+ "/" +:+ DEFAULT_CONFIG_PATH)
      | None => Panic "cannot get home"
      end
  end.

Definition global_config (g : GlobalArguments) : act W Config :=
  path ← lift (config_path g); from_file path.

Definition get_ipc_agent_url (ipc_agent_url : option string) (g : GlobalArguments) : act W string :=
  match ipc_agent_url with
  | Some url => lift (ok_or_fail "invalid url" (url_from_str url))
  | None =>
      config ← global_config g;
      lift (ok_or_fail "invalid url"
        (url_from_str ("http://" +:+ json_rpc_address (server config) +:+ "/json_rpc")))
  end.

(** [JsonRpcClientImpl::new(url, None)] and a request with it. *)
Definition ask {T} (d : decoder T) (url : string) (method : string) (params : Json) : cli T :=
  on_world (request d (mkClient url None) method params).

(** ** Subnet commands *)

(** [CreateSubnetResponse] and [WalletNewResponse]. *)
Definition de_address_response : decoder string := λ j,
  fs ← de_struct ["address"] j;
  match fs with
  | [a] => required de_string a
  | _ => Err "invalid length"
  end.

Definition create (g : GlobalArguments) (a : CreateSubnetArgs) : cli string :=
  url ← on_world (get_ipc_agent_url (ca_url a) g);
  let params := mkCreateParams (ca_from a) (ca_parent a) (ca_name a) (ca_min_validator_stake a)
    (ca_min_validators a) (ca_bottomup_check_period a) (ca_topdown_check_period a) in
  ask de_address_response url json_rpc_methods.CREATE_SUBNET (create_to_json params).

Definition handle_create_cmd (g : GlobalArguments) (a : CreateSubnetArgs) : cli () :=
  address ← create g a;
  info (LogCreated (ca_parent a) address).

Definition handle_join_cmd (g : GlobalArguments) (a : JoinSubnetArgs) : cli () :=
  url ← on_world (get_ipc_agent_url (ja_url a) g);
  let params := mkJoinParams (ja_subnet a) (ja_from a) (ja_collateral a) (ja_validator_net_addr a) in
  _ ← ask de_unit url json_rpc_methods.JOIN_SUBNET (join_to_json params);
  info (LogJoined (ja_subnet a)).

Definition handle_leave_cmd (g : GlobalArguments) (a : LeaveSubnetArgs) : cli () :=
  url ← on_world (get_ipc_agent_url (la_url a) g);
  let params := mkLeaveParams (la_subnet a) (la_from a) in
  _ ← ask de_unit url json_rpc_methods.LEAVE_SUBNET (leave_to_json params);
  info (LogLeft (la_subnet a)).

Definition handle_kill_cmd (g : GlobalArguments) (a : KillSubnetArgs) : cli () :=
  url ← on_world (get_ipc_agent_url (ka_url a) g);
  let params := mkKillParams (ka_subnet a) (ka_from a) in
  _ ← ask de_unit url json_rpc_methods.KILL_SUBNET (kill_to_json params);
  info (LogKilled (ka_subnet a)).

Definition handle_send_cmd (g : GlobalArguments) (a : SendValueArgs) : cli () :=
  url ← on_world (get_ipc_agent_url (sa_url a) g);
  let params := mkSendParams (sa_subnet a) (sa_from a) (sa_to a) (sa_amount a) in
  _ ← ask de_unit url json_rpc_methods.SEND_VALUE (send_to_json params);
  info (LogSent (sa_subnet a)).

Definition handle_net_addr_cmd (g : GlobalArguments) (a : SetValidatorNetAddrArgs) : cli () :=
  url ← on_world (get_ipc_agent_url (naa_url a) g);
  let params := mkNetAddrParams (naa_subnet a) (naa_from a) (naa_validator_net_addr a) in
  _ ← ask de_unit url json_rpc_methods.SET_VALIDATOR_NET_ADDR (net_addr_to_json params);
  info (LogNetAddr (naa_validator_net_addr a) (naa_subnet a)).

(** [SubnetInfoWrapper]. *)
Record SubnetInfoWrapper := mkInfoWrapper {
  siw_id : string; siw_stake : string; siw_circ_supply : string; siw_status : Z }.

Definition de_info_wrapper : decoder SubnetInfoWrapper := λ j,
  fs ← de_struct ["id"; "stake"; "circ_supply"; "status"] j;
  match fs with
  | [id; stake; supply; status] =>
      id ← required de_string id;
      stake ← required de_string stake;
      supply ← required de_string supply;
      status ← required de_i32 status;
      Ok (mkInfoWrapper id stake supply status)
  | _ => Err "invalid length"
  end.

(** The loop over the subnets; amounts that are not numbers are a panic. *)
Fixpoint print_subnets (l : list (string * SubnetInfoWrapper)) : cli () :=
  match l with
  | [] => mret ()
  | (_, s) :: l =>
      stake ← lift (unwrap (bigint_from_str (siw_stake s)));
      supply ← lift (unwrap (bigint_from_str (siw_circ_supply s)));
      _ ← info (LogSubnet (siw_id s) (siw_status s) stake supply);
      print_subnets l
  end.

Definition handle_list_subnets_cmd (g : GlobalArguments) (a : ListSubnetsArgs) : cli () :=
  url ← on_world (get_ipc_agent_url (lsa_url a) g);
  let params := mkListSubnetsParams (lsa_gateway_address a) (lsa_subnet a) in
  subnets ← ask (de_map de_info_wrapper) url json_rpc_methods.LIST_CHILD_SUBNETS (list_subnets_to_json params);
  print_subnets (map_iter subnets).

Definition handle_subnet_cmd (g : GlobalArguments) (c : SubnetCommands.SubnetCommandsArgs) : cli () :=
  match c with
  | SubnetCommands.Create a => handle_create_cmd g a
  | SubnetCommands.List a => handle_list_subnets_cmd g a
  | SubnetCommands.Join a => handle_join_cmd g a
  | SubnetCommands.Leave a => handle_leave_cmd g a
  | SubnetCommands.Kill a => handle_kill_cmd g a
  | SubnetCommands.SendValue a => handle_send_cmd g a
  | SubnetCommands.SetValidatorNetAddr a => handle_net_addr_cmd g a
  end.

(** ** Cross-net messages *)

Definition handle_fund_cmd (g : GlobalArguments) (a : FundArgs) : cli () :=
  url ← on_world (get_ipc_agent_url (fa_url a) g);
  let params := mkFundParams (fa_subnet a) (fa_from a) (fa_amount a) in
  _ ← ask de_unit url json_rpc_methods.FUND (fund_to_json params);
  info (LogFunded (fa_subnet a)).

Definition handle_release_cmd (g : GlobalArguments) (a : ReleaseArgs) : cli () :=
  url ← on_world (get_ipc_agent_url (ra_url a) g);
  let params := mkReleaseParams (ra_subnet a) (ra_from a) (ra_amount a) in
  _ ← ask de_unit url json_rpc_methods.RELEASE (release_to_json params);
  info (LogReleased (ra_subnet a)).

Definition handle_propagate_cmd (g : GlobalArguments) (a : PropagateArgs) : cli () :=
  url ← on_world (get_ipc_agent_url (pa_url a) g);
  let params := mkPropagateParams (pa_subnet a) (pa_from a) (pa_postbox_msg_cid a) in
  _ ← ask de_unit url json_rpc_methods.PROPAGATE (propagate_to_json params);
  info (LogPropagated (pa_subnet a)).

Definition handle_whitelist_cmd (g : GlobalArguments) (a : WhitelistPropagatorArgs) : cli () :=
  url ← on_world (get_ipc_agent_url (wa_url a) g);
  let params := mkWhitelistParams (wa_subnet a) (wa_from a) (wa_postbox_msg_cid a) (wa_to_add a) in
  _ ← ask de_unit url json_rpc_methods.WHITELIST_PROPAGATOR (whitelist_to_json params);
  info (LogWhitelisted (wa_subnet a)).

Definition handle_crossmsg_cmd (g : GlobalArguments) (c : CrossMsgCommands.CrossMsgsCommandsArgs) : cli () :=
  match c with
  | CrossMsgCommands.Fund a => handle_fund_cmd g a
  | CrossMsgCommands.Release a => handle_release_cmd g a
  | CrossMsgCommands.Propagate a => handle_propagate_cmd g a
  | CrossMsgCommands.WhitelistPropagator a => handle_whitelist_cmd g a
  end.

(** ** Checkpoints *)

(** [Index<&str> for Value]: null for an absent field or another kind of value. *)
Definition json_index (k : string) (j : Json) : Json :=
  match j with
  | JObj fields => default JNull (json_get k fields)
  | _ => JNull
  end.

Definition as_array (j : Json) : option (list Json) :=
  match j with JArr l => Some l | _ => None end.

Fixpoint print_checkpoints (l : list Json) : cli () :=
  match l with
  | [] => mret ()
  | c :: l =>
      let c := json_index "data" c in
      _ ← info (LogCheckpoint (json_index "epoch" c) (json_index "prev_check" c)
                  (json_index "cross_msgs" c) (json_index "children" c));
      print_checkpoints l
  end.

Definition handle_list_checkpoints_cmd (g : GlobalArguments) (a : ListBottomUpCheckpointsArgs) : cli () :=
  url ← on_world (get_ipc_agent_url (lca_url a) g);
  let params := mkListCheckpointsParams (lca_subnet a) (lca_from_epoch a) (lca_to_epoch a) in
  checkpoints ← ask de_value url json_rpc_methods.LIST_BOTTOMUP_CHECKPOINTS (list_checkpoints_to_json params);
  l ← lift (unwrap (as_array checkpoints));
  print_checkpoints l.

Definition handle_last_topdown_cmd (g : GlobalArguments) (a : LastTopDownExecArgs) : cli () :=
  url ← on_world (get_ipc_agent_url (lta_url a) g);
  let params := mkTopDownExecParams (lta_subnet a) in
  epoch ← ask de_value url json_rpc_methods.LAST_TOPDOWN_EXECUTED (topdown_executed_to_json params);
  info (LogLastTopDown epoch).

Definition handle_checkpoint_cmd (g : GlobalArguments) (c : CheckpointCommands.CheckpointCommandsArgs) : cli () :=
  match c with
  | CheckpointCommands.ListBottomup a => handle_list_checkpoints_cmd g a
  | CheckpointCommands.LastTopdown a => handle_last_topdown_cmd g a
  end.

(** ** Wallets *)

Definition handle_wallet_new_cmd (g : GlobalArguments) (a : WalletNewArgs) : cli () :=
  url ← on_world (get_ipc_agent_url (wna_url a) g);
  let params := mkWalletNewParams (wna_subnet a) (wna_key_type a) in
  addr ← ask de_address_response url json_rpc_methods.WALLET_NEW (wallet_new_to_json params);
  info (LogWalletCreated addr (wna_subnet a)).

Definition handle_wallet_list_cmd (g : GlobalArguments) (a : WalletListArgs) : cli () :=
  url ← on_world (get_ipc_agent_url (wla_url a) g);
  let params := mkWalletListParams (wla_subnet a) in
  addrs ← ask (de_map de_string) url json_rpc_methods.WALLET_LIST (wallet_list_to_json params);
  info (LogWallets (wla_subnet a) addrs).

Definition handle_wallet_cmd (g : GlobalArguments) (c : WalletCommands.WalletCommandsArgs) : cli () :=
  match c with
  | WalletCommands.New a => handle_wallet_new_cmd g a
  | WalletCommands.List a => handle_wallet_list_cmd g a
  end.

(** ** Configuration and daemon *)

Definition handle_reload_cmd (g : GlobalArguments) (a : ReloadConfigArgs) : cli () :=
  let params := mkReloadParams (rca_path a) in
  url ← on_world (get_ipc_agent_url (rca_url a) g);
  _ ← ask de_unit url json_rpc_methods.RELOAD_CONFIG (reload_to_json params);
  info LogReloaded.

(** A file operation with [?]. *)
Definition fs {A} (op : W → result string A * W) : cli A :=
  on_world (λ w, let '(r, w) := op w in (of_result r, w)).

Definition handle_init_cmd (g : GlobalArguments) : cli () :=
  path ← lift (config_path g);
  _ ← match path_parent path with
      | Some parent => fs (create_dir_all parent)
      | None => mret ()
      end;
  _ ← fs (file_create path);
  _ ← fs (write_all path DEFAULT_CONFIG_TEMPLATE);
  info (LogConfigWritten path).

Definition handle_config_cmd (g : GlobalArguments) (c : ConfigCommands.ConfigCommandsArgs) : cli () :=
  match c with
  | ConfigCommands.Reload a => handle_reload_cmd g a
  | ConfigCommands.Init => handle_init_cmd g
  end.

(** [LaunchDaemon::handle]. *)
Definition handle_daemon_cmd (g : GlobalArguments) : cli () :=
  path ← lift (config_path g);
  config ← on_world (reloadable_new path);
  on_world (run_toplevel config).

(** ** [cli] and [main] *)

Definition run_cli (g : GlobalArguments) (c : Command) : cli () :=
  with_context ("error processing command " +:+ debug_command c)
    match c with
    | CmdDaemon => handle_daemon_cmd g
    | CmdConfig c => handle_config_cmd g c
    | CmdSubnet c => handle_subnet_cmd g c
    | CmdCrossMsg c => handle_crossmsg_cmd g c
    | CmdWallet c => handle_wallet_cmd g c
    | CmdCheckpoint c => handle_checkpoint_cmd g c
    end.

Definition select_network : outcome Network :=
  raw ← unwrap (parse_u8 (default "1" (env_var "LOTUS_NETWORK")));
  unwrap (network_from_u8 raw).

(** The network that addresses are printed for, and the exit status. *)
Definition main (g : GlobalArguments) (c : Command) : cli (Network * Z) :=
  network ← lift select_network;
  r ← attempt (run_cli g c);
  mret (network, match r with Ok _ => 0%Z | Err _ => 1%Z end).

(** ** The template is a configuration *)

(** What was written can be read. *)
Class FileLaws := {
  read_written : ∀ path text (w : W) w1 w2,
    file_create path w = (Ok (), w1) → write_all path text w1 = (Ok (), w2) →
    (read_to_string path w2).1 = Ok text;
}.

(** The document in the template: what the reader makes of its text. *)
Definition template_tree : Json :=
  JObj [
    ("server", JObj [("json_rpc_address", JStr "127.0.0.1:3030")]);
    ("subnets", JArr [
      JObj [("id", JStr "/root"); ("gateway_addr", JStr "t064"); ("network_name", JStr "root");
            ("jsonrpc_api_http", JStr "http://127.0.0.1:1234/rpc/v1");
            ("jsonrpc_api_ws", JStr "wss://example.org/rpc/v0"); ("auth_token", JStr "YOUR TOKEN");
            ("accounts", JArr [JStr "t01"])];
      JObj [("id", JStr "/root/t01"); ("gateway_addr", JStr "t064"); ("network_name", JStr "child");
            ("jsonrpc_api_http", JStr "http://127.0.0.1:1250/rpc/v1");
            ("auth_token", JStr "YOUR TOKEN"); ("accounts", JArr [JStr "t01"])]])].

Lemma template_read : toml_read DEFAULT_CONFIG_TEMPLATE = Some template_tree.
Proof. vm_compute. reflexivity. Qed.

(** The parsers of addresses, URLs and subnet ids accept the literals in the template. *)
Class TemplateLaws := {
  template_root : SubnetID;
  template_child : SubnetID;
  template_gateway : Address;
  template_account : Address;
  template_address : socket_addr_from_str "127.0.0.1:3030" = Some "127.0.0.1:3030";
  template_urls : Forall (λ u, is_Some (url_from_str u))
    ["http://127.0.0.1:1234/rpc/v1"; "wss://example.org/rpc/v0"; "http://127.0.0.1:1250/rpc/v1"];
  template_root_id : subnet_from_str "/root" = Some template_root;
  template_child_id : subnet_from_str "/root/t01" = Some template_child;
  template_root_parent : subnet_parent template_root = None;
  template_child_parent : subnet_parent template_child = Some template_root;
  template_t064 : address_from_str "t064" = Some template_gateway;
  template_t01 : address_from_str "t01" = Some template_account;
}.

Context `{!FileLaws} `{!TomlLaws} `{!TemplateLaws} `{!HashIter SubnetID}.

Lemma template_config :
  ∃ c root child, from_toml_str DEFAULT_CONFIG_TEMPLATE = Ok c ∧
    json_rpc_address (server c) = "127.0.0.1:3030" ∧ subnets c = insert_subnets [root; child] ∧
    subnet_id root = template_root ∧ subnet_id child = template_child ∧
    accounts child = [template_account].
Proof.
  pose proof template_urls as Hurls.
  apply Forall_cons in Hurls as [[u1 Hu1] [[u2 Hu2] [[u3 Hu3] _]%Forall_cons]%Forall_cons].
  exists (mkConfig (mkServer "127.0.0.1:3030") (insert_subnets
    [mkSubnet template_root template_gateway "root" u1 (Some u2) (Some "YOUR TOKEN") [template_account];
     mkSubnet template_child template_gateway "child" u3 None (Some "YOUR TOKEN") [template_account]])).
  do 2 eexists. split; [|by split_and!].
  unfold from_toml_str. rewrite (toml_reads _ _ template_read). cbn [mbind result_bind].
  unfold de_config, de_server, deserialize_subnets_from_vec, de_subnet, de_url, deserialize_subnet_id,
    deserialize_address_from_str, deserialize_accounts.
  cbn -[insert_subnets]. rewrite template_address. cbn -[insert_subnets].
  rewrite template_root_id, template_child_id, !template_t064. cbn -[insert_subnets].
  rewrite Hu1, Hu2, Hu3. cbn -[insert_subnets]. by rewrite !template_t01.
Qed.

(** A list without duplicates and with one possible element. *)
Lemma singleton_by_key {A B} (f : A → B) (l : list A) x :
  NoDup (f <$> l) → x ∈ l → (∀ y, y ∈ l → y = x) → l = [x].
Proof.
  destruct l as [|y [|z l]]; intros Hnd Hx Hall; [set_solver|by rewrite (Hall y) by set_solver|].
  rewrite (Hall y), (Hall z) in Hnd by set_solver. cbn in Hnd. apply NoDup_cons in Hnd as [Hno _]. set_solver.
Qed.

Lemma root_not_child : template_root ≠ template_child.
Proof. intros Heq. pose proof template_root_parent as Hr. rewrite Heq, template_child_parent in Hr. done. Qed.

Lemma init_written g s s' :
  handle_init_cmd g s = (Done (), s') →
  ∃ path, config_path g = Done path ∧ (read_to_string path (world s')).1 = Ok DEFAULT_CONFIG_TEMPLATE.
Proof.
  unfold handle_init_cmd. intros (path & s0 & Hp & Hrest)%act_bind_done.
  injection Hp as Hp <-. apply act_bind_done in Hrest as ([] & s1 & _ & Hrest).
  apply act_bind_done in Hrest as ([] & s2 & Hc & Hrest). apply act_bind_done in Hrest as ([] & s3 & Hw & Hlog).
  injection Hlog as <-. exists path. split; [done|].
  unfold fs, on_world in Hc, Hw.
  destruct (file_create path (world s1)) as [rc wc] eqn:Hcreate.
  destruct rc as [[]|]; [|done]. injection Hc as <-. cbn in Hw.
  destruct (write_all path DEFAULT_CONFIG_TEMPLATE wc) as [rw ww] eqn:Hwrite.
  destruct rw as [[]|]; [|done]. injection Hw as <-. cbn. by eapply read_written.
Qed.

(** C30 (initial configuration): after a successful [config init] the file holds a valid
    configuration: the daemon started with the same arguments listens on
    127.0.0.1:3030, knows the subnets /root and /root/t01, and manages exactly the
    checkpoints between /root/t01 and its parent /root.  The text of the template is
    read by [toml_read], with which the TOML parser agrees; the parsers of socket
    addresses, URLs, subnet ids and addresses, which are other crates' code, accept
    the literals in it. *)
Theorem init_config_loads g s s' :
  handle_init_cmd g s = (Done (), s') →
  ∃ path c root child, config_path g = Done path ∧ (from_file path (world s')).1 = Done c ∧
    json_rpc_address (server c) = "127.0.0.1:3030" ∧
    subnets c !! template_root = Some root ∧ subnets c !! template_child = Some child ∧
    (∀ id, is_Some (subnets c !! id) → id = template_root ∨ id = template_child) ∧
    subnets_to_manage (subnets c) = Done [(child, root)].
Proof.
  intros (path & Hpath & Hread)%init_written.
  destruct template_config as (c & root & child & Hc & Haddr & Hsub & Hroot & Hchild & Hacc).
  exists path, c, root, child. rewrite Hsub.
  assert (Hlc : insert_subnets [root; child] !! template_child = Some child).
  { rewrite <-Hchild. by apply (insert_subnets_last [root]). }
  assert (Hlr : insert_subnets [root; child] !! template_root = Some root).
  { cbn. rewrite lookup_insert_ne by (rewrite Hchild; apply not_eq_sym, root_not_child).
    rewrite <-Hroot. apply lookup_insert_eq. }
  split_and!; [done| |done|done|done| |].
  - unfold from_file. destruct (read_to_string path (world s')) as [r w]. cbn in Hread. subst r. cbn. by rewrite Hc.
  - intros id [x Hx]. destruct (insert_subnets_lookup _ _ _ Hx) as [<- [-> | ->%list_elem_of_singleton]%elem_of_cons];
      rewrite ?Hroot, ?Hchild; auto.
  - destruct (subnets_to_manage_total (insert_subnets [root; child])) as [l Hl]. rewrite Hl. f_equal.
    eapply (singleton_by_key (λ p, subnet_id p.1));
      [by eapply subnets_to_manage_nodup; [apply insert_subnets_wf|]|..].
    + apply (subnets_to_manage_elem _ _ _ _ Hl). rewrite Hacc, Hchild, template_child_parent.
      by split_and!; [eexists| |eexists].
    + intros [x p] Hin. apply (subnets_to_manage_elem _ _ _ _ Hl) in Hin as ((id & Hx) & _ & pid & Hpid & Hp).
      destruct (insert_subnets_lookup _ _ _ Hx) as [_ [-> | ->%list_elem_of_singleton]%elem_of_cons].
      * by rewrite Hroot, template_root_parent in Hpid.
      * rewrite Hchild, template_child_parent in Hpid. injection Hpid as <-. congruence.
Qed.
End cli.

(** ** Writing and reading the template *)
Module CliDemo.
#[local] Existing Instances Demo.resolver_types Demo.agent_types.

Definition disk : Type := list (string * string).

Fixpoint read_file (path : string) (d : disk) : result string string :=
  match d with
  | [] => Err "not found"
  | (p, text) :: d => if String.eqb p path then Ok text else read_file path d
  end.

#[export] Instance files : FileSystem disk := {| read_to_string := λ path d, (read_file path d, d) |}.

#[export] Instance writer : FileWriter disk := {|
  create_dir_all := λ _ d, (Ok (), d);
  file_create := λ path d, (Ok (), (path, EmptyString) :: d);
  write_all := λ path text d, (Ok (), (path, text) :: d) |}.

#[export] Instance file_laws : FileLaws.
Proof. split. intros path text w w1 w2 _ [= <-]. cbn. by rewrite String.eqb_refl. Qed.

#[export] Instance parsers : ConfigParsers := {|
  toml_from_str := λ s, match toml_read s with Some j => Ok j | None => Err "not a table" end;
  url_from_str := Some;
  socket_addr_from_str := Some |}.

#[export] Instance toml_laws : TomlLaws.
Proof. split. intros s j Hj. cbn. by rewrite Hj. Qed.

#[export] Instance template_laws : TemplateLaws.
Proof.
  refine {| template_root := Demo.subnet "/root"; template_child := Demo.subnet "/root/t01";
            template_gateway := Demo.addr "t064"; template_account := Demo.addr "t01" |}; try done.
  by repeat constructor.
Defined.

(** The child of the configuration in [src/config/tests.rs], whose account is given
    twice, is read and decoded with both copies. *)
Definition test_document : string :=
  "[[subnets]]" +:+ newline
  +:+ setting "id" "/root/t0100"
  +:+ setting "network_name" "child"
  +:+ setting "gateway_addr" "t064"
  +:+ setting "jsonrpc_api_http" "https://example.org/rpc/v0"
  +:+ setting "auth_token" "CHILD_AUTH_TOKEN"
  +:+ "accounts = [" +:+ quote +:+ "t0100" +:+ quote +:+ ", " +:+ quote +:+ "t0100" +:+ quote +:+ "]" +:+ newline.

Example repeated_account_loads :
  match toml_read test_document with
  | Some (JObj [(_, JArr [child])]) =>
      match de_subnet child with
      | Ok s => bool_decide (accounts s = [Demo.addr "t0100"; Demo.addr "t0100"])
      | Err _ => false
      end
  | _ => false
  end = true.
Proof. vm_compute. reflexivity. Qed.

#[export] Instance environment : Environment := {|
  env_var := λ k, if String.eqb k "HOME" then Some "/home/agent" else None |}.

Definition iter : HashIter (@SubnetID Demo.resolver_types) := canonical_iter _.
#[local] Existing Instance iter.

Definition initialised := handle_init_cmd (W := disk) (mkGlobal None) (mkRun [] []).

Lemma init_done : initialised = (Done (), initialised.2).
Proof. vm_compute. reflexivity. Qed.

Lemma init_config_loads_witness :
  ∃ path c root child,
    (from_file path (world initialised.2)).1 = Done c ∧
    json_rpc_address (server c) = "127.0.0.1:3030" ∧ subnets_to_manage (subnets c) = Done [(child, root)].
Proof.
  destruct (init_config_loads (W := disk) (mkGlobal None) (mkRun [] []) initialised.2 init_done)
    as (path & c & root & child & _ & Hf & Ha & _ & _ & _ & Hs).
  by exists path, c, root, child.
Defined.
End CliDemo.
