(* ===== verification/Agent.v ===== *)
(** * Commands executed by the agent

    The command line of [Cli.v] and the server of [Server.v] are put together:
    the HTTP requests of a command reach the agent that listens on the command's
    URL, as the text of the request's body, and the text of the reply is what the
    command reads.  The abstract specification of a command is [run_request]: the
    handler of the request that the arguments describe, applied to the agent's
    state, with no encoding in between. *)
From S2P Require Import Prelude Types Records Outcome Json JsonText Lotus LotusApi Checkpointing Subsystem SubnetManager Config Server Requests Cli.

(** [Serialize for Status] of the gateway's crate: a number of type i32. *)
Class StatusLaws `{ServerTypes} := {
  status_json : ∀ s, ∃ n, status_to_json s = JNum n ∧ (- 2 ^ 31 ≤ n ≤ 2 ^ 31 - 1)%Z;
}.

Section agent.
Context {W : Type} `{!ResolverTypes} `{!AgentTypes} `{!ManagerTypes} `{!ServerTypes} `{!CidSerialize}.
Context `{!LotusClient W} `{!HashIter SubnetID} `{!ConfigParsers} `{!FileSystem W}.
Context `{!SerdeJson} `{!JsonPrinter}.

Notation state := (@ServerState W _ _).

(** ** The agent as an HTTP server *)

Definition agent_url (address : string) : string := "http://" +:+ address +:+ "/" +:+ JSON_RPC_ENDPOINT.

Definition reply_text (r : Reply) : string :=
  match r with
  | ReplyJson j => json_to_string j
  | ReplyStatus _ text => text
  end.

Definition agent_post (address : string) (c : Client) (body : Json) (s : state) :
    result string string * state :=
  if bool_decide (client_url c = agent_url address) then
    match json_rpc_filter true JSON_RPC_ENDPOINT (json_to_string body) s with
    | (Done r, s') => (Ok (reply_text r), s')
    | (_, s') => (Err "connection closed before message completed", s')
    end
  else (Err "error sending request", s).

(** ** What a command asks for *)

(** The URL given and the request, for the commands that send one. *)
Definition command_request (c : Command) : option (option string * Request) :=
  match c with
  | CmdDaemon | CmdConfig ConfigCommands.Init => None
  | CmdConfig (ConfigCommands.Reload a) => Some (rca_url a, ReloadConfig (mkReloadParams (rca_path a)))
  | CmdSubnet (SubnetCommands.Create a) =>
      Some (ca_url a, CreateSubnet (mkCreateParams (ca_from a) (ca_parent a) (ca_name a)
        (ca_min_validator_stake a) (ca_min_validators a) (ca_bottomup_check_period a)
        (ca_topdown_check_period a)))
  | CmdSubnet (SubnetCommands.List a) =>
      Some (lsa_url a, ListChildSubnets (mkListSubnetsParams (lsa_gateway_address a) (lsa_subnet a)))
  | CmdSubnet (SubnetCommands.Join a) =>
      Some (ja_url a, JoinSubnet (mkJoinParams (ja_subnet a) (ja_from a) (ja_collateral a) (ja_validator_net_addr a)))
  | CmdSubnet (SubnetCommands.Leave a) => Some (la_url a, LeaveSubnet (mkLeaveParams (la_subnet a) (la_from a)))
  | CmdSubnet (SubnetCommands.Kill a) => Some (ka_url a, KillSubnet (mkKillParams (ka_subnet a) (ka_from a)))
  | CmdSubnet (SubnetCommands.SendValue a) =>
      Some (sa_url a, SendValueReq (mkSendParams (sa_subnet a) (sa_from a) (sa_to a) (sa_amount a)))
  | CmdSubnet (SubnetCommands.SetValidatorNetAddr a) =>
      Some (naa_url a, SetValidatorNetAddr (mkNetAddrParams (naa_subnet a) (naa_from a) (naa_validator_net_addr a)))
  | CmdCrossMsg (CrossMsgCommands.Fund a) =>
      Some (fa_url a, Fund (mkFundParams (fa_subnet a) (fa_from a) (fa_amount a)))
  | CmdCrossMsg (CrossMsgCommands.Release a) =>
      Some (ra_url a, Release (mkReleaseParams (ra_subnet a) (ra_from a) (ra_amount a)))
  | CmdCrossMsg (CrossMsgCommands.Propagate a) =>
      Some (pa_url a, Propagate (mkPropagateParams (pa_subnet a) (pa_from a) (pa_postbox_msg_cid a)))
  | CmdCrossMsg (CrossMsgCommands.WhitelistPropagator a) =>
      Some (wa_url a, WhitelistPropagator (mkWhitelistParams (wa_subnet a) (wa_from a) (wa_postbox_msg_cid a) (wa_to_add a)))
  | CmdCheckpoint (CheckpointCommands.ListBottomup a) =>
      Some (lca_url a, ListBottomUpCheckpoints (mkListCheckpointsParams (lca_subnet a) (lca_from_epoch a) (lca_to_epoch a)))
  | CmdCheckpoint (CheckpointCommands.LastTopdown a) =>
      Some (lta_url a, LastTopDownExecuted (mkTopDownExecParams (lta_subnet a)))
  | CmdWallet (WalletCommands.New a) => Some (wna_url a, WalletNew (mkWalletNewParams (wna_subnet a) (wna_key_type a)))
  | CmdWallet (WalletCommands.List a) => Some (wla_url a, WalletList (mkWalletListParams (wla_subnet a)))
  end.

(** ** Answers of the handlers *)

Definition answers_unit (r : Request) : bool :=
  match r with
  | JoinSubnet _ | LeaveSubnet _ | KillSubnet _ | Fund _ | Release _ | Propagate _
  | SetValidatorNetAddr _ | WhitelistPropagator _ | SendValueReq _ | ReloadConfig _ => true
  | _ => false
  end.

(** The shape of the answer to each request. *)
Inductive answer : Request → Json → Prop :=
  | answer_unit r : answers_unit r = true → answer r JNull
  | answer_create p a : answer (CreateSubnet p) (JObj [("address", JStr (address_to_string a))])
  | answer_wallet_new p a : answer (WalletNew p) (JObj [("address", JStr (address_to_string a))])
  | answer_wallet_list p (m : gmap string string) : answer (WalletList p) (json_of_map (JStr <$> m))
  | answer_subnets p (m : gmap string SubnetInfo) :
      answer (ListChildSubnets p) (json_of_map (subnet_info_to_json <$> m))
  | answer_checkpoints p l : answer (ListBottomUpCheckpoints p) (JArr l)
  | answer_topdown p e : answer (LastTopDownExecuted p) (JNum e)
  | answer_validators p fields : answer (QueryValidatorSet p) (JObj fields).

Ltac done_steps :=
  repeat match goal with
    | H : (_ ≫= _) _ = (Done _, _) |- _ => apply act_bind_done in H as (? & ? & ? & H)
    | H : mret _ _ = (Done _, _) |- _ => injection H as <- <-
    end.

Lemma wallet_map_strings (l : list (TokenAmount * Address)) (m : gmap string string) :
  foldl (λ (m : gmap string Json) ba, <[address_to_string ba.2 := JStr (token_to_string ba.1)]> m) (JStr <$> m) l
  = JStr <$> foldl (λ (m : gmap string string) ba, <[address_to_string ba.2 := token_to_string ba.1]> m) m l.
Proof.
  revert m. induction l as [|ba l IH]; intros m; [done|]. cbn. rewrite <-IH. by rewrite fmap_insert.
Qed.

Lemma subnet_map_json (l : list (SubnetID * SubnetInfo)) :
  (list_to_map (reverse ((λ kv, (subnet_to_string kv.1, subnet_info_to_json kv.2)) <$> l)) : gmap string Json)
  = subnet_info_to_json <$> (list_to_map (reverse (prod_map subnet_to_string id <$> l)) : gmap string SubnetInfo).
Proof. rewrite <-list_to_map_fmap, <-!fmap_reverse, <-!list_fmap_compose. done. Qed.

Lemma handle_with_answer config r s j s' :
  (∀ p, r ≠ ReloadConfig p) → handle_with config r s = (Done j, s') → answer r j.
Proof.
  intros Hr. destruct r; cbn [handle_with]; try by destruct (Hr p).
  all: unfold handle_create, handle_join, handle_leave, handle_kill, handle_fund, handle_release,
    handle_propagate, handle_net_addr, handle_whitelist, handle_send, handle_wallet_new,
    handle_wallet_list, handle_list_subnets, handle_list_checkpoints, handle_topdown_executed,
    handle_query_validators; intros Hdone; done_steps; try by constructor.
  - rewrite <-(fmap_empty JStr), wallet_map_strings. constructor.
  - rewrite subnet_map_json. constructor.
Qed.

Lemma run_request_answer r (s : state) j s' : run_request r s = (Done j, s') → answer r j.
Proof.
  assert ((∃ p, r = ReloadConfig p) ∨ ∀ p, r ≠ ReloadConfig p) as [[p ->]|Hr]
    by (destruct r; eauto).
  - unfold run_request, handle_reload. destruct (reload _) as [[] [c w]]; cbn; try done.
    intros [= <- _]. by constructor.
  - intros Hj. apply (handle_with_answer (get_config (sv_config s)) r (sv_run s) j (sv_run s') Hr).
    destruct r; try (by destruct (Hr p)); unfold run_request in Hj;
      destruct (handle_with _ _ (sv_run s)) as [j0 run]; by injection Hj as -> <-.
Qed.

(** ** Requests and replies as text *)

Context `{!CidSerializeLaws} `{!JsonTextLaws}.

Definition request_body (r : Request) : Json :=
  JObj [("jsonrpc", JStr DEFAULT_JSON_RPC_VERSION); ("id", JNum DEFAULT_JSON_RPC_ID);
        ("method", JStr (request_method r)); ("params", request_params r)].

Lemma build_request r : build_jsonrpc_request (request_method r) (request_params r) = Ok (request_body r).
Proof. by destruct r. Qed.

Lemma request_parsed r :
  request_typed r →
  ∃ params, to_json_rpc_request (json_to_string (request_body r)) =
    Some (mkJSONRPCRequest 1 "2.0" (request_method r) params) ∧
    parse_request (request_method r) params = Ok r.
Proof.
  intros Hr. destruct (json_print_parse (request_body r)) as (j & Hj & He).
  { unfold request_body. cbn -[request_params]. by rewrite (request_params_wf r Hr). }
  destruct (de_struct_equiv ["id"; "jsonrpc"; "method"; "params"] _ _ _ He eq_refl) as (fs & Hs & Hf).
  struct_fields Hf.
  match goal with H : json_equiv (request_params r) ?x |- _ => exists x end.
  unfold to_json_rpc_request. rewrite Hj. cbn. unfold de_json_rpc_request. rewrite Hs. cbn.
  split; [done|]. by eapply parse_request_robust; [|apply parse_request_params].
Qed.

Lemma agent_post_request address r (s : state) :
  request_typed r →
  agent_post address (mkClient (agent_url address) None) (request_body r) s =
  match run_request r s with
  | (Done j, s') => (Ok (json_to_string (result_response 1 j)), s')
  | (Fail e, s') => (Ok (json_to_string (error_response 1 (-1) e)), s')
  | (_, s') => (Err "connection closed before message completed", s')
  end.
Proof.
  intros Hr. unfold agent_post. rewrite bool_decide_eq_true_2 by done.
  destruct (request_parsed r Hr) as (params & Hp & Hparse). unfold json_rpc_filter, json_rpc_filter_with.
  rewrite bool_decide_eq_true_2 by done. cbn [negb]. rewrite Hp.
  unfold handle_request. cbn [req_jsonrpc req_method req_params req_id].
  rewrite bool_decide_eq_true_2 by done. cbn [negb]. unfold mbind, act_bind, attempt, handle.
  rewrite Hparse. by destruct (run_request r s) as [[] s'].
Qed.

Lemma read_result {T} R (d : decoder T) `{!Robust R d} j a :
  json_wf j = true → d j = Ok a →
  ∃ a', read_response d (json_to_string (result_response 1 j)) = Done a' ∧ R a a'.
Proof.
  intros Hwf Ha. destruct (json_print_parse (result_response 1 j)) as (j' & Hj' & He).
  { cbn -[bool_decide]. by rewrite Hwf. }
  destruct (de_struct_equiv ["id"; "jsonrpc"; "result"; "error"] _ _ _ He eq_refl) as (fs & Hs & Hf).
  struct_fields Hf. unfold read_response, response_into_result, de_response. rewrite Hj'. cbn [mbind result_bind].
  rewrite Hs. cbn -[de_option bool_decide].
  match goal with H : json_equiv j ?x |- _ => destruct (robust j x a H Ha) as (a' & Hx & HR);
    assert (de_option d x = Ok (Some a') ∨ x = JNull) as [Hd | Hd] by (destruct x; cbn in *; rewrite ?Hx; auto) end.
  - rewrite Hd. cbn -[bool_decide]. rewrite !bool_decide_eq_true_2 by done. cbn. eauto.
  - subst. cbn -[bool_decide]. rewrite !bool_decide_eq_true_2 by done. cbn. rewrite Hx. cbn. eauto.
Qed.

Lemma read_error {T} (d : decoder T) e :
  ∃ e', read_response d (json_to_string (error_response 1 (-1) e)) = Fail e'.
Proof.
  destruct (json_print_parse (error_response 1 (-1) e)) as (j' & Hj' & He); [done|].
  destruct (de_struct_equiv ["id"; "jsonrpc"; "result"; "error"] _ _ _ He eq_refl) as (fs & Hs & Hf).
  struct_fields Hf. unfold read_response, response_into_result, de_response. rewrite Hj'. cbn [mbind result_bind].
  rewrite Hs. cbn -[bool_decide].
  match goal with H : json_equiv (JObj _) ?x |- _ => inversion_clear H end.
  cbn -[bool_decide]. rewrite !bool_decide_eq_true_2 by done. cbn. eauto.
Qed.
(** ** What a successful command logs *)

Context `{!AgentTypesLaws} `{!StatusLaws}.

Definition status_num (s : Status) : Z := match status_to_json s with JNum n => n | _ => 0%Z end.

Definition subnet_log (i : SubnetInfo) : Log :=
  LogSubnet (subnet_to_string (si_id i)) (status_num (si_status i)) (si_stake i) (si_circ_supply i).

(** A checkpoint's log has the four fields of its data, up to the order of fields. *)
Definition checkpoint_log (c : Json) (l : Log) : Prop :=
  ∃ epoch prev_check cross_msgs children,
    l = LogCheckpoint epoch prev_check cross_msgs children ∧
    json_equiv (json_index "epoch" (json_index "data" c)) epoch ∧
    json_equiv (json_index "prev_check" (json_index "data" c)) prev_check ∧
    json_equiv (json_index "cross_msgs" (json_index "data" c)) cross_msgs ∧
    json_equiv (json_index "children" (json_index "data" c)) children.

(** The logs of a command whose request was answered with [j], the latest first. *)
Definition shown (c : Command) (j : Json) (logs : list Log) : Prop :=
  match c with
  | CmdSubnet (SubnetCommands.Create a) =>
      ∃ addr, j = JObj [("address", JStr addr)] ∧ logs = [LogCreated (ca_parent a) addr]
  | CmdSubnet (SubnetCommands.List _) =>
      ∃ m : gmap string SubnetInfo, j = json_of_map (subnet_info_to_json <$> m) ∧
        logs ≡ₚ (λ kv, subnet_log kv.2) <$> map_to_list m
  | CmdSubnet (SubnetCommands.Join a) => logs = [LogJoined (ja_subnet a)]
  | CmdSubnet (SubnetCommands.Leave a) => logs = [LogLeft (la_subnet a)]
  | CmdSubnet (SubnetCommands.Kill a) => logs = [LogKilled (ka_subnet a)]
  | CmdSubnet (SubnetCommands.SendValue a) => logs = [LogSent (sa_subnet a)]
  | CmdSubnet (SubnetCommands.SetValidatorNetAddr a) =>
      logs = [LogNetAddr (naa_validator_net_addr a) (naa_subnet a)]
  | CmdCrossMsg (CrossMsgCommands.Fund a) => logs = [LogFunded (fa_subnet a)]
  | CmdCrossMsg (CrossMsgCommands.Release a) => logs = [LogReleased (ra_subnet a)]
  | CmdCrossMsg (CrossMsgCommands.Propagate a) => logs = [LogPropagated (pa_subnet a)]
  | CmdCrossMsg (CrossMsgCommands.WhitelistPropagator a) => logs = [LogWhitelisted (wa_subnet a)]
  | CmdCheckpoint (CheckpointCommands.ListBottomup _) =>
      ∃ l, j = JArr l ∧ Forall2 checkpoint_log l (reverse logs)
  | CmdCheckpoint (CheckpointCommands.LastTopdown _) =>
      ∃ j', json_equiv j j' ∧ logs = [LogLastTopDown j']
  | CmdWallet (WalletCommands.New a) =>
      ∃ addr, j = JObj [("address", JStr addr)] ∧ logs = [LogWalletCreated addr (wna_subnet a)]
  | CmdWallet (WalletCommands.List a) =>
      ∃ m : gmap string string, j = json_of_map (JStr <$> m) ∧ logs = [LogWallets (wla_subnet a) m]
  | CmdConfig (ConfigCommands.Reload _) => logs = [LogReloaded]
  | CmdConfig ConfigCommands.Init | CmdDaemon => False
  end.

(** ** Answers can be printed and decoded *)

(** The answers that hold numbers of the nodes: those numbers fit their types. *)
Definition answer_in_range (r : Request) (j : Json) : Prop :=
  match r with
  | ListBottomUpCheckpoints _ | LastTopDownExecuted _ | QueryValidatorSet _ => json_wf j = true
  | _ => True
  end.

Lemma status_num_json s :
  status_to_json s = JNum (status_num s) ∧ (- 2 ^ 31 ≤ status_num s ≤ 2 ^ 31 - 1)%Z.
Proof. unfold status_num. by destruct (status_json s) as (n & -> & Hn). Qed.

Lemma json_of_map_wf {A} (f : A → Json) (m : gmap string A) :
  (∀ a, json_wf (f a) = true) → json_wf (json_of_map (f <$> m)) = true.
Proof.
  intros Hf. cbn. apply andb_true_intro. split.
  - apply bool_decide_eq_true. apply NoDup_fst_map_to_list.
  - apply forallb_forall. intros [k v] Hin%list_elem_of_In%elem_of_map_to_list.
    apply lookup_fmap_Some in Hin as (a & <- & _). apply Hf.
Qed.

Lemma subnet_info_wf i : json_wf (subnet_info_to_json i) = true.
Proof.
  cbn -[bool_decide]. destruct (status_num_json (si_status i)) as [-> Hn]. cbn -[bool_decide Z.leb].
  rewrite (proj2 (Z.leb_le _ _)), (proj2 (Z.leb_le _ _)); [done|unfold i64_min, u64_max; lia..].
Qed.

Lemma answer_wf r j : answer r j → answer_in_range r j → json_wf j = true.
Proof.
  destruct 1; try done; intros _.
  - by apply json_of_map_wf.
  - apply json_of_map_wf, subnet_info_wf.
Qed.

Lemma collect_fmap {A B C E} (f : B → result E C) (g : A → B) (h : A → C) l :
  (∀ x, f (g x) = Ok (h x)) → collect f (g <$> l) = Ok (h <$> l).
Proof. intros Hf. induction l as [|x l IH]; cbn; [done|]. rewrite Hf. cbn. by rewrite IH. Qed.

Lemma de_map_json {A B} (d : decoder B) (f : A → Json) (g : A → B) (m : gmap string A) :
  (∀ a, d (f a) = Ok (g a)) → de_map d (json_of_map (f <$> m)) = Ok (g <$> m).
Proof.
  intros Hd. cbn. rewrite map_to_list_fmap.
  rewrite (collect_fmap _ _ (prod_map id g)) by (intros [k a]; cbn; by rewrite Hd).
  cbn. f_equal. rewrite <-(list_to_map_to_list (g <$> m)), map_to_list_fmap.
  apply list_to_map_proper; [|apply reverse_Permutation].
  rewrite fmap_reverse, reverse_Permutation, <-list_fmap_compose. apply NoDup_fst_map_to_list.
Qed.

#[export] Instance de_i32_robust : Robust (=) de_i32 := de_int_robust _ _.

#[export] Instance de_info_wrapper_robust : Robust (=) de_info_wrapper.
Proof. unfold de_info_wrapper. robust_struct. Qed.

#[export] Instance de_address_response_robust : Robust (=) de_address_response.
Proof.
  intros j j' a Hj. unfold de_address_response. destruct (de_struct ["address"] j) as [fs|] eqn:Hs; [|done].
  destruct (de_struct_equiv _ _ _ _ Hj Hs) as (fs' & -> & Hf). cbn.
  destruct Hf as [|o o' ? ? Ho [|]]; try done. by apply (required_robust (=) de_string).
Qed.

Definition wrap_info (i : SubnetInfo) : SubnetInfoWrapper :=
  mkInfoWrapper (subnet_to_string (si_id i)) (bigint_to_string (si_stake i))
    (bigint_to_string (si_circ_supply i)) (status_num (si_status i)).

Lemma de_info_wrapper_json i : de_info_wrapper (subnet_info_to_json i) = Ok (wrap_info i).
Proof.
  unfold de_info_wrapper, subnet_info_to_json. cbn -[de_i32].
  destruct (status_num_json (si_status i)) as [-> Hn]. unfold de_i32. by rewrite de_int_in.
Qed.

(** ** Commands refine handlers *)

Context `{!FileSystem state} `{!FileWriter state} `{!Environment} `{!Toplevel state} `{!Networks}.
Context `{!HashIter string} (debug_command : Command → string) (address : string).

#[local] Instance agent_http : Http state := {| http_post := agent_post address |}.

Notation cli := (io state Log).

Lemma ask_answered {T} R (d : decoder T) `{!Robust R d} r (s : state) (t : list Log) :
  request_typed r →
  match run_request r s with
  | (Done j, s') => ∀ a, json_wf j = true → d j = Ok a →
      ∃ a', ask d (agent_url address) (request_method r) (request_params r) (mkRun s t) =
        (Done a', mkRun s' t) ∧ R a a'
  | (_, s') => ∃ e, ask d (agent_url address) (request_method r) (request_params r) (mkRun s t) =
      (Fail e, mkRun s' t)
  end.
Proof.
  intros Hr. unfold ask, on_world, request. rewrite build_request. cbn [http_post agent_http world].
  rewrite agent_post_request by done.
  destruct (run_request r s) as [[j|e|p|] s']; cbn [trace]; [|destruct (read_error d e) as [e' ->]|..]; eauto.
  intros a Hwf Ha. destruct (read_result R d j a Hwf Ha) as (a' & -> & HR). eauto.
Qed.

(** The result of a command against that of the handler. *)
Definition refines (c : Command) (r : Request) (res : outcome Json * state) (t : list Log)
    (m : outcome () * run_state state Log) : Prop :=
  match res with
  | (Done j, s') => answer_in_range r j → ∃ logs, m = (Done (), mkRun s' (logs ++ t)) ∧ shown c j logs
  | (_, s') => ∃ e, m = (Fail e, mkRun s' t)
  end.

(** A command: find the URL, ask, decode with [d], and go on with [rest]. *)
Definition asking {T} (u : option string) (g : GlobalArguments) (r : Request) (d : decoder T)
    (rest : T → cli ()) : cli () :=
  url ← on_world (get_ipc_agent_url u g);
  x ← ask d url (request_method r) (request_params r);
  rest x.

Lemma asking_refines {T} R (d : decoder T) `{!Robust R d} c u r g (rest : T → cli ()) (s s1 : state) t :
  request_typed r → get_ipc_agent_url u g s = (Done (agent_url address), s1) →
  (∀ j s', answer r j → ∃ a, d j = Ok a ∧ ∀ a', R a a' →
     ∃ logs, rest a' (mkRun s' t) = (Done (), mkRun s' (logs ++ t)) ∧ shown c j logs) →
  refines c r (run_request r s1) t (asking u g r d rest (mkRun s t)).
Proof.
  intros Hr Hu Hd. unfold asking, mbind, act_bind. unfold on_world at 1. cbn [world trace]. rewrite Hu.
  pose proof (ask_answered R d r s1 t Hr) as Hask. unfold refines.
  destruct (run_request r s1) as [[j|e|p|] s'] eqn:Hrun; [|by destruct Hask as [e' ->]; eauto..].
  intros Hrange. pose proof (run_request_answer _ _ _ _ Hrun) as Hj. destruct (Hd j s' Hj) as (a & Ha & Hrest).
  destruct (Hask a (answer_wf r j Hj Hrange) Ha) as (a' & -> & HR). by apply Hrest.
Qed.

Lemma unit_refines c u r g log (s s1 : state) t :
  answers_unit r = true → request_typed r → get_ipc_agent_url u g s = (Done (agent_url address), s1) →
  shown c JNull [log] →
  refines c r (run_request r s1) t (asking u g r de_unit (λ _, info log) (mkRun s t)).
Proof.
  intros Hunit Hr Hu Hs. eapply (asking_refines (=)); [apply _|done..|].
  intros j s' Hj. assert (j = JNull) as -> by (by destruct Hj). exists (). split; [done|].
  intros a' _. by exists [log].
Qed.

Lemma print_subnets_logs (l : list (string * SubnetInfo)) (s : state) t :
  print_subnets (prod_map id wrap_info <$> l) (mkRun s t) =
  (Done (), mkRun s (reverse ((λ kv, subnet_log kv.2) <$> l) ++ t)).
Proof.
  revert t. induction l as [|[k i] l IH]; intros t; [done|].
  rewrite !fmap_cons, reverse_cons, <-app_assoc. cbn [prod_map print_subnets wrap_info siw_stake siw_circ_supply].
  unfold mbind, act_bind, lift. rewrite !bigint_str_roundtrip. cbn -[reverse fmap]. apply IH.
Qed.

Lemma json_index_equiv k j j' : json_equiv j j' → json_equiv (json_index k j) (json_index k j').
Proof.
  intros Hj. pose proof Hj as He. destruct Hj as [| | | | | |fs hs gs Hnd Hf Hp]; cbn; try constructor.
  pose proof (json_get_equiv fs gs k He) as Ho. destruct Ho; cbn; [done|constructor].
Qed.

Lemma print_checkpoints_logs l l' (s : state) t :
  Forall2 json_equiv l l' →
  ∃ logs, print_checkpoints l' (mkRun s t) = (Done (), mkRun s (logs ++ t)) ∧
    Forall2 checkpoint_log l (reverse logs).
Proof.
  intros Hl. revert t. induction Hl as [|c c' l l' Hc _ IH]; intros t; [by exists []|].
  cbn [print_checkpoints]. set (log := LogCheckpoint _ _ _ _).
  destruct (IH (log :: t)) as (logs & Hrun & Hf). exists (logs ++ [log]). split.
  - unfold mbind, act_bind, info. cbn. rewrite Hrun. by rewrite <-app_assoc.
  - rewrite reverse_app. cbn. constructor; [|done].
    do 4 eexists. split; [reflexivity|]. split_and!; by do 2 apply json_index_equiv.
Qed.

Lemma list_subnets_refines u a g (s s1 : state) t :
  let r := ListChildSubnets (mkListSubnetsParams (lsa_gateway_address a) (lsa_subnet a)) in
  get_ipc_agent_url u g s = (Done (agent_url address), s1) →
  refines (CmdSubnet (SubnetCommands.List a)) r (run_request r s1) t
    (asking u g r (de_map de_info_wrapper) (λ m, print_subnets (map_iter m)) (mkRun s t)).
Proof.
  intros r Hu. eapply (asking_refines (=)); [apply _|done..|]. intros j s' Hj.
  inversion Hj as [| | | |? m| | |]; subst; [done|]. exists (wrap_info <$> m).
  split; [apply de_map_json, de_info_wrapper_json|]. intros ? <-.
  assert (∃ l, map_iter (wrap_info <$> m) = prod_map id wrap_info <$> l ∧ l ≡ₚ map_to_list m) as (l & -> & Hl).
  { destruct (Permutation_map_inv (prod_map id wrap_info) (map_to_list m) (l1 := map_iter (wrap_info <$> m))) as (l & -> & Hl).
    - rewrite map_iter_perm. by rewrite map_to_list_fmap.
    - by exists l. }
  rewrite print_subnets_logs. eexists; split; [done|]. exists m. split; [done|].
  by rewrite reverse_Permutation, Hl.
Qed.

Lemma list_checkpoints_refines u a g (s s1 : state) t :
  let r := ListBottomUpCheckpoints (mkListCheckpointsParams (lca_subnet a) (lca_from_epoch a) (lca_to_epoch a)) in
  request_typed r → get_ipc_agent_url u g s = (Done (agent_url address), s1) →
  refines (CmdCheckpoint (CheckpointCommands.ListBottomup a)) r (run_request r s1) t
    (asking u g r de_value (λ j, l ← lift (unwrap (as_array j)); print_checkpoints l) (mkRun s t)).
Proof.
  intros r Hr Hu. eapply (asking_refines json_equiv); [apply _|done..|]. intros j s' Hj.
  inversion Hj as [| | | | |? l| |]; subst; [done|]. exists (JArr l). split; [done|].
  intros j' Hj'. inversion Hj' as [| | | | |? l' Hl|]; subst.
  destruct (print_checkpoints_logs l l' s' t Hl) as (logs & Hrun & Hlogs).
  exists logs. split; [done|]. by exists l.
Qed.

Lemma address_refines c u r g (log : string → Log) (s s1 : state) t :
  request_typed r → get_ipc_agent_url u g s = (Done (agent_url address), s1) →
  (∀ j, answer r j → ∃ a, j = JObj [("address", JStr a)]) →
  (∀ a, shown c (JObj [("address", JStr a)]) [log a]) →
  refines c r (run_request r s1) t (asking u g r de_address_response (λ a, info (log a)) (mkRun s t)).
Proof.
  intros Hr Hu Hj Hs. eapply (asking_refines (=)); [apply _|done..|]. intros j s' Ha.
  destruct (Hj j Ha) as [a ->]. exists a. split; [done|]. intros ? <-. by exists [log a].
Qed.

(** [CreateSubnet::handle] calls [create] first. *)
Lemma create_asking g a s :
  handle_create_cmd g a s =
  asking (ca_url a) g
    (CreateSubnet (mkCreateParams (ca_from a) (ca_parent a) (ca_name a) (ca_min_validator_stake a)
       (ca_min_validators a) (ca_bottomup_check_period a) (ca_topdown_check_period a)))
    de_address_response (λ x, info (LogCreated (ca_parent a) x)) s.
Proof.
  unfold handle_create_cmd, create, asking, mbind, act_bind.
  by destruct (on_world (get_ipc_agent_url (ca_url a) g) s) as [[] ?].
Qed.

Lemma wallet_list_refines u a g (s s1 : state) t :
  let r := WalletList (mkWalletListParams (wla_subnet a)) in
  get_ipc_agent_url u g s = (Done (agent_url address), s1) →
  refines (CmdWallet (WalletCommands.List a)) r (run_request r s1) t
    (asking u g r (de_map de_string) (λ m, info (LogWallets (wla_subnet a) m)) (mkRun s t)).
Proof.
  intros r Hu. eapply (asking_refines (=)); [apply _|done..|]. intros j s' Hj.
  inversion Hj as [| | |? m| | | |]; subst; [done|]. exists (id <$> m).
  split; [by apply de_map_json|]. rewrite map_fmap_id. intros ? <-. eexists [_]. split; [done|]. by exists m.
Qed.

Lemma last_topdown_refines u a g (s s1 : state) t :
  let r := LastTopDownExecuted (mkTopDownExecParams (lta_subnet a)) in
  get_ipc_agent_url u g s = (Done (agent_url address), s1) →
  refines (CmdCheckpoint (CheckpointCommands.LastTopdown a)) r (run_request r s1) t
    (asking u g r de_value (λ e, info (LogLastTopDown e)) (mkRun s t)).
Proof.
  intros r Hu. eapply (asking_refines json_equiv); [apply _|done..|]. intros j s' Hj.
  exists j. split; [done|]. intros j' Hj'. eexists [_]. split; [done|]. by exists j'.
Qed.

Lemma with_context_refines c r res t ctx (m : cli ()) s :
  refines c r res t (m s) → refines c r res t (with_context ctx m s).
Proof.
  unfold refines, with_context. destruct res as [[j|e|p|] s']; [|by intros [e' ->]; eauto..].
  intros Hm Hrange. destruct (Hm Hrange) as (logs & -> & Hs). eauto.
Qed.

Lemma command_refines g c u r (s s1 : state) t :
  command_request c = Some (u, r) → request_typed r →
  get_ipc_agent_url u g s = (Done (agent_url address), s1) →
  refines c r (run_request r s1) t (run_cli debug_command g c (mkRun s t)).
Proof.
  intros Hc Hr Hu. apply with_context_refines.
  destruct c as [|c|c|c|c|c]; [done|destruct c as [a|]|destruct c as [a|a|a|a|a|a|a]|destruct c as [a|a]
    |destruct c as [a|a|a|a]|destruct c as [a|a]]; try discriminate Hc;
    injection Hc as <- <-; try (by apply unit_refines).
  - cbn [handle_subnet_cmd]. rewrite create_asking.
    apply address_refines; [done..| |by eexists]. intros j Hj. inversion Hj; subst; [done|by eexists].
  - by apply list_subnets_refines.
  - apply (address_refines _ (wna_url a) (WalletNew (mkWalletNewParams (wna_subnet a) (wna_key_type a))) g
      (λ x, LogWalletCreated x (wna_subnet a)) s s1 t); [done..| |by eexists].
    intros j Hj. inversion Hj; subst; [done|by eexists].
  - by apply wallet_list_refines.
  - by apply list_checkpoints_refines.
  - by apply last_topdown_refines.
Qed.

(** C7 (commands do what they say): a command that talks to the agent has the effect of the
    handler of the request that its arguments describe, applied to the agent's
    state: encoding, transport, routing, decoding and the reply change nothing.  If
    the handler succeeds, the command succeeds and logs what was answered: the new
    address, every child subnet with its status and amounts, every checkpoint, the
    balances (provided the numbers a node reported fit their types).  If the
    handler fails or panics, the command fails and logs nothing; it does not
    panic. *)
Theorem commands_refine_handlers g c u r (s s1 : state) t :
  command_request c = Some (u, r) → request_typed r →
  get_ipc_agent_url u g s = (Done (agent_url address), s1) →
  refines c r (run_request r s1) t (run_cli debug_command g c (mkRun s t)).
Proof. apply command_refines. Qed.

(** The agent's state after a command is the one after the handler, whatever the
    command makes of the answer. *)
Definition logs_only {T} (rest : T → cli ()) : Prop := ∀ x s, world (rest x s).2 = world s.

Lemma asking_world {T} (d : decoder T) u r g (rest : T → cli ()) (s s1 : state) t :
  request_typed r → get_ipc_agent_url u g s = (Done (agent_url address), s1) → logs_only rest →
  world (asking u g r d rest (mkRun s t)).2 = (run_request r s1).2.
Proof.
  intros Hr Hu Hrest. unfold asking, mbind, act_bind. unfold on_world at 1. cbn [world trace]. rewrite Hu.
  unfold ask, on_world, request. rewrite build_request. cbn [http_post agent_http world].
  rewrite agent_post_request by done.
  destruct (run_request r s1) as [[j|e|p|] s']; cbn [trace];
    try (destruct (read_response d _)); cbn; try done; apply Hrest.
Qed.

Lemma info_only {T} (f : T → Log) : logs_only (λ x, info (f x)).
Proof. done. Qed.

Lemma print_subnets_only : logs_only print_subnets.
Proof.
  intros l. induction l as [|[k i] l IH]; intros s; [done|]. cbn [print_subnets].
  unfold mbind, act_bind, lift. destruct (bigint_from_str (siw_stake i)); cbn; [|done].
  destruct (bigint_from_str (siw_circ_supply i)); cbn; [|done]. by rewrite IH.
Qed.

Lemma print_checkpoints_only : logs_only print_checkpoints.
Proof.
  intros l. induction l as [|c l IH]; intros s; [done|]. cbn [print_checkpoints].
  unfold mbind, act_bind, info. by rewrite IH.
Qed.

Lemma with_context_world ctx (m : cli ()) s : world (with_context ctx m s).2 = world (m s).2.
Proof. unfold with_context. by destruct (m s) as [[] ?]. Qed.

(** Every command that sends a request is a URL lookup, the request and some logs. *)
Definition is_asking (u : option string) (g : GlobalArguments) (r : Request) (m : cli ()) : Prop :=
  ∃ (T : Type) (d : decoder T) (rest : T → cli ()),
    (∀ s, m s = asking u g r d rest s) ∧ logs_only rest.

Lemma command_asks g c u r :
  command_request c = Some (u, r) →
  is_asking u g r
    match c with
    | CmdDaemon => handle_daemon_cmd g
    | CmdConfig c => handle_config_cmd g c
    | CmdSubnet c => handle_subnet_cmd g c
    | CmdCrossMsg c => handle_crossmsg_cmd g c
    | CmdWallet c => handle_wallet_cmd g c
    | CmdCheckpoint c => handle_checkpoint_cmd g c
    end.
Proof.
  intros Hc. destruct c as [|c|c|c|c|c]; [done|destruct c as [a|]|destruct c as [a|a|a|a|a|a|a]
    |destruct c as [a|a]|destruct c as [a|a|a|a]|destruct c as [a|a]]; try discriminate Hc; injection Hc as <- <-;
    try (by eexists _, de_unit, (λ _, info _); split; [intros; reflexivity|]).
  - eexists _, de_address_response, _. split; [intros s; apply create_asking|done].
  - eexists _, (de_map de_info_wrapper), (λ m, print_subnets (map_iter m)). split; [done|].
    intros m s. apply print_subnets_only.
  - by eexists _, de_address_response, (λ x, info (LogWalletCreated x (wna_subnet a))).
  - by eexists _, (de_map de_string), (λ x, info (LogWallets (wla_subnet a) x)).
  - eexists _, de_value, (λ j, l ← lift (unwrap (as_array j)); print_checkpoints l). split; [done|].
    intros [] st; try done. apply print_checkpoints_only.
  - by eexists _, de_value, (λ x, info (LogLastTopDown x)).
Qed.

Lemma command_world g c u r (s s1 : state) t :
  command_request c = Some (u, r) → request_typed r →
  get_ipc_agent_url u g s = (Done (agent_url address), s1) →
  world (run_cli debug_command g c (mkRun s t)).2 = (run_request r s1).2.
Proof.
  intros Hc Hr Hu. unfold run_cli. rewrite with_context_world.
  destruct (command_asks g c u r Hc) as (T & d & rest & -> & Hrest). by apply asking_world.
Qed.

End agent.

(** ** A command on simulated nodes *)
Module AgentDemo.
#[local] Existing Instances Demo.resolver_types Demo.agent_types Demo.agent_types_laws DemoNode.client.
#[local] Existing Instances ManagerDemo.manager_types ServerDemo.server_types ServerDemo.iter.
#[local] Existing Instances TextDemo.serde_json TextDemo.printer TextDemo.text_laws.
Import DemoNode.

#[export] Instance cid_serialize : CidSerialize := {| cid_to_json := λ c, JStr (c : string) |}.

#[export] Instance cid_serialize_laws : CidSerializeLaws.
Proof.
  split; [done|done|]. intros j j' a Hj. destruct Hj; try done. eauto.
Qed.

#[export] Instance status_laws : StatusLaws.
Proof. split. intros s. exists 1%Z. split; [done|lia]. Qed.

#[export] Instance parsers : ConfigParsers := {|
  toml_from_str := λ _, Err "not a table";
  url_from_str := Some;
  socket_addr_from_str := Some |}.

#[export] Instance no_files {W} : FileSystem W := {| read_to_string := λ _ w, (Err "not found", w) |}.
#[export] Instance no_writes {W} : FileWriter W := {|
  create_dir_all := λ _ w, (Err "read-only", w);
  file_create := λ _ w, (Err "read-only", w);
  write_all := λ _ _ w, (Err "read-only", w) |}.
#[export] Instance no_toplevel {W} : Toplevel W := {| run_toplevel := λ _ w, (Done (), w) |}.
#[export] Instance no_environment : Environment := {| env_var := λ _, None |}.
#[export] Instance networks : Networks := {| Network := bool; network_from_u8 := λ n, Some (Z.eqb n 0) |}.
#[export] Instance strings_iter : HashIter string := canonical_iter _.

Definition address : string := "127.0.0.1:3030".

Definition agent : @ServerState node _ _ :=
  mkServerState (mkReloadable "config.toml" ServerDemo.config []) (mkRun (mkNode 0 0) []).

(** [ipc crossmsg fund --subnet /root/t01 3], and an unknown parent. *)
Definition fund (subnet : string) : Command :=
  CmdCrossMsg (CrossMsgCommands.Fund (mkFundArgs (Some (agent_url address)) None subnet 3%Z)).

Definition fund_request (subnet : string) : Request := Fund (mkFundParams subnet None 3%Z).

Definition debug (c : Command) : string := "Fund".

#[local] Existing Instance agent_http.

Definition handled : outcome Json * @ServerState node _ _ := run_request (fund_request "/root/t01") agent.

Lemma handled_done : handled.1 = Done JNull.
Proof. vm_compute. reflexivity. Qed.

Lemma refused : run_request (fund_request "/other/t01") agent = (Fail "target parent subnet not found", agent).
Proof. vm_compute. reflexivity. Qed.

(** The command succeeds and logs that the subnet was funded; with an unknown
    subnet it fails. *)
Lemma commands_refine_handlers_witness :
  run_cli (Http0 := agent_http address) debug (mkGlobal None) (fund "/root/t01") (mkRun agent []) =
    (Done (), mkRun handled.2 [LogFunded "/root/t01"]) ∧
  ∃ e, run_cli (Http0 := agent_http address) debug (mkGlobal None) (fund "/other/t01") (mkRun agent []) =
    (Fail e, mkRun agent []).
Proof.
  split.
  - pose proof (commands_refine_handlers debug address (mkGlobal None) (fund "/root/t01") _
      (fund_request "/root/t01") agent agent [] eq_refl ltac:(by vm_compute) eq_refl) as Hr.
    change (run_request (fund_request "/root/t01") agent) with handled in Hr. revert Hr.
    pose proof handled_done as Hd. destruct handled as [res s']. cbn in Hd. subst res.
    intros Hr. destruct (Hr I) as (logs & -> & ->). done.
  - pose proof (commands_refine_handlers debug address (mkGlobal None) (fund "/other/t01") _
      (fund_request "/other/t01") agent agent [] eq_refl ltac:(by vm_compute) eq_refl) as Hr.
    rewrite refused in Hr. exact Hr.
Defined.
End AgentDemo.
