(* ===== verification/Wire.v ===== *)
(** * What the nodes receive

    The server of [Server.v] on top of the client of [RpcClient.v]: the calls of the
    subnet managers become bodies posted to the nodes' URLs, which [Posts.v]
    records.  Together with [Agent.v] this gives what a command of the command line
    can cause on the network. *)
From S2P Require Import Prelude Types Records Outcome Json JsonText Lotus LotusApi RpcClient Checkpointing Posts Subsystem SubnetManager Config Server Requests Cli Agent.

#[export] Instance wire_files {W} `{!FileSystem W} : FileSystem (wire W) := {|
  read_to_string := λ p w,
    let '(r, w') := read_to_string p (wire_world w) in (r, mkWire w' (posts w)) |}.

Section wire.
Context {W : Type} `{!ResolverTypes} `{!AgentTypes} `{!SerdeJson} `{!Http W} `{!Codecs} `{!HashIter string}.

#[local] Existing Instance LotusJsonRPCClient.

(** ** Handlers *)

Context `{!ManagerTypes} `{!ServerTypes} `{!HashIter SubnetID}.

Lemma push_and_wait_kept self m : kept (mpool_push_and_wait self m).
Proof. unfold mpool_push_and_wait. solve_kept. Qed.

Lemma network_match_kept self n : kept (is_network_match self n).
Proof. unfold is_network_match. solve_kept. Qed.

Lemma code_cid_kept self : kept (get_subnet_actor_code_cid self).
Proof. unfold get_subnet_actor_code_cid. solve_kept. Qed.

Lemma run_op_kept self op : kept (run_op self op).
Proof.
  destruct op; cbn [run_op]; unfold ignore, create_subnet, join_subnet, leave_subnet, kill_subnet, fund, release,
    propagate, set_validator_net_addr, whitelist_propagator, send_value;
    repeat first [apply push_and_wait_kept|apply network_match_kept|apply code_cid_kept|solve_kept].
Qed.

Lemma create_kept self from params : kept (create_subnet self from params).
Proof.
  unfold create_subnet.
  repeat first [apply push_and_wait_kept|apply network_match_kept|apply code_cid_kept|solve_kept].
Qed.

Lemma wallet_balances_kept m addrs : kept (wallet_balances m addrs).
Proof.
  induction addrs as [|a addrs IH]; cbn [wallet_balances]; [apply kept_ret|].
  apply kept_bind; [|intros b; apply kept_bind; [done|intros; apply kept_ret]].
  unfold manager_wallet_balance. solve_kept.
Qed.

Ltac kept_op := lazymatch goal with
  | |- kept (join_subnet ?c ?s ?f ?v ?a) => apply (run_op_kept c (OpJoin s f v a))
  | |- kept (leave_subnet ?c ?s ?f) => apply (run_op_kept c (OpLeave s f))
  | |- kept (kill_subnet ?c ?s ?f) => apply (run_op_kept c (OpKill s f))
  | |- kept (fund ?c ?s ?g ?f ?v) => apply (run_op_kept c (OpFund s g f v))
  | |- kept (release ?c ?s ?g ?f ?v) => apply (run_op_kept c (OpRelease s g f v))
  | |- kept (propagate ?c ?s ?g ?f ?i) => apply (run_op_kept c (OpPropagate s g f i))
  | |- kept (set_validator_net_addr ?c ?s ?f ?a) => apply (run_op_kept c (OpSetNetAddr s f a))
  | |- kept (whitelist_propagator ?c ?s ?g ?i ?f ?l) => apply (run_op_kept c (OpWhitelist s g i f l))
  | |- kept (send_value ?c ?f ?t ?v) => apply (run_op_kept c (OpSend f t v))
  | |- kept (create_subnet _ _ _) => apply create_kept
  | |- kept (wallet_balances _ _) => apply wallet_balances_kept
  end.

Lemma handle_with_kept config r : kept (handle_with config r).
Proof.
  destruct r; cbn [handle_with];
    unfold handle_create, handle_join, handle_leave, handle_kill, handle_fund, handle_release,
    handle_propagate, handle_net_addr, handle_whitelist, handle_send, handle_wallet_new,
    handle_wallet_list, handle_list_subnets, handle_list_checkpoints, handle_topdown_executed,
    handle_query_validators, manager_wallet_new, manager_wallet_list, list_child_subnets, list_checkpoints,
    last_topdown_executed; repeat first [kept_op|progress solve_kept].
Qed.

(** ** The message that a node reads *)

Context `{!AgentTypesLaws} `{!MethodNums}.

Lemma right_message_read op codes m c cl b :
  right_message op codes m → push_body c m = Some (cl, b) → cl = c ∧ body_message b = Ok (plain_message m).
Proof.
  intros Hm Hb.
  assert (∃ v to from method params, m = set_msg_value v (mpool_push_message_new to from method params))
    as (v & to & from & method & params & ->)
    by (destruct op; cbn in Hm; naive_solver).
  destruct (push_body_read v to from method params c) as (b' & Hb' & Hread). by simplify_eq.
Qed.

Lemma push_event_bodies config r t :
  guarded (request_ok config r) t → (length (omap event_body t) ≤ 1)%nat.
Proof.
  induction t as [|e t IH]; cbn; [lia|]. intros [He Ht]. specialize (IH Ht).
  destruct (event_body e) as [b|] eqn:Hb; [|done]. destruct e; try done.
  destruct (He eq_refl) as (sub & op & _ & _ & _ & Hold & _).
  assert (omap event_body t = []) as ->; [|cbn; lia].
  clear -Hold. induction Hold as [|e t He _ IH]; [done|]. cbn. by destruct e.
Qed.

(** The requests that a push on the wire may come from. *)
Definition push_justified (config : Config) (r : Request) (t : list Event) (cl : Client) (body : Json) : Prop :=
  ∃ sub op m res old new,
    t = new ++ EvPush cl m res :: old ∧ asks config r sub op ∧ is_Some (auth_token sub) ∧
    cl = from_subnet sub ∧ right_network op (default EmptyString (reported_name old)) ∧
    right_message op (reported_codes old) m ∧ body_message body = Ok (plain_message m).

Lemma handler_posts config r (w : W) :
  let s := (handle_with config r (mkRun (mkWire w []) [])).2 in
  (length (pushed (posts (world s))) ≤ 1)%nat ∧
  ∀ cl body, (cl, body) ∈ pushed (posts (world s)) → push_justified config r (trace s) cl body.
Proof.
  intros s. assert (Hl : linked s) by (by apply handle_with_kept).
  destruct (handle_with_ok config r (mkWire w [])) as (Hg & _ & _). fold s in Hg. split.
  - rewrite Hl. by eapply push_event_bodies.
  - intros cl body. rewrite Hl. intros (e & He & Hb)%list_elem_of_omap. apply list_elem_of_split in He as (new & old & Ht).
    destruct (guarded_split _ _ _ _ _ Hg Ht) as [Hok _]. destruct e as [c m res| | | | | | | | | | | | | | | | | |]; try done.
    destruct (Hok eq_refl) as (sub & op & Hasks & Hauth & -> & _ & Hnet & Hm).
    destruct (right_message_read op _ m _ cl body Hm Hb) as [-> Hread].
    exists sub, op, m, res, old, new. by rewrite Ht.
Qed.

Context `{!CidSerialize} `{!CidSerializeLaws} `{!JsonPrinter} `{!JsonTextLaws} `{!ConfigParsers} `{!FileSystem W}.

Notation state := (@ServerState (wire W) _ _).

Context `{!FileSystem state} `{!FileWriter state} `{!Environment} `{!Toplevel state} `{!Networks}.
Context (debug_command : Command → string) (address : string).

Lemma run_request_posts r (s : state) w :
  sv_run s = mkRun (mkWire w []) [] →
  let run := sv_run (run_request r s).2 in
  (length (pushed (posts (world run))) ≤ 1)%nat ∧
  ∀ cl body, (cl, body) ∈ pushed (posts (world run)) →
    push_justified (get_config (sv_config s)) r (trace run) cl body.
Proof.
  intros Hs. assert ((∃ p, r = ReloadConfig p) ∨ ∀ p, r ≠ ReloadConfig p) as [[p ->]|Hr] by (destruct r; eauto).
  - intros run. assert (pushed (posts (world run)) = []) as ->; [|split; [cbn; lia|set_solver]].
    subst run. unfold run_request, handle_reload. rewrite reload_spec, Hs. cbn.
    destruct (read_to_string _ w) as [r' w']. cbn. by destruct (s ← r'; from_toml_str s).
  - assert (sv_run (run_request r s).2 = (handle_with (get_config (sv_config s)) r (mkRun (mkWire w []) [])).2) as ->.
    { rewrite <-Hs. destruct r; try (by destruct (Hr p)); unfold run_request; by destruct (handle_with _ _ _). }
    apply handler_posts.
Qed.

(** C8 (commands on the wire): whatever the nodes answer, while the agent executes a
    command at most one message is posted to a node's pool, and if one is, the command
    asks for it: it is posted to the URL and with the token of the configured subnet
    that the command names, or of its parent; the node reads from the body the
    receiver, the sender, the amount in atto, the method and the parameters of the
    operation, with all gas fields and the nonce left open; and the same node had
    reported the right network before, except for a plain transfer, which [send_value]
    makes without asking. *)
Theorem commands_on_the_wire g c u r (s s1 : state) w t :
  command_request c = Some (u, r) → request_typed r →
  get_ipc_agent_url u g s = (Done (agent_url address), s1) → sv_run s1 = mkRun (mkWire w []) [] →
  let run := sv_run (world (run_cli (Http0 := agent_http address) debug_command g c (mkRun s t)).2) in
  (length (pushed (posts (world run))) ≤ 1)%nat ∧
  ∀ cl body, (cl, body) ∈ pushed (posts (world run)) →
    push_justified (get_config (sv_config s1)) r (trace run) cl body.
Proof.
  intros Hc Hr Hu Hs1 run. subst run. rewrite (command_world debug_command address g c u r s s1 t) by done.
  by apply (run_request_posts r s1 w).
Qed.
End wire.

(** ** A node that knows its name *)
Module WireDemo.
#[local] Existing Instances Demo.resolver_types Demo.agent_types Demo.agent_types_laws.
#[local] Existing Instances ManagerDemo.manager_types ServerDemo.server_types ServerDemo.iter.
#[local] Existing Instances TextDemo.serde_json TextDemo.printer TextDemo.text_laws.
#[local] Existing Instances AgentDemo.cid_serialize AgentDemo.cid_serialize_laws AgentDemo.parsers
  AgentDemo.no_files AgentDemo.no_writes AgentDemo.no_toplevel AgentDemo.no_environment
  AgentDemo.networks AgentDemo.strings_iter.

#[export] Instance codecs : Codecs := {|
  base64_decode := λ _, None; cbor_de_checkpoint := λ _, None; cbor_de_cross_msg := λ _, None |}.

#[export] Instance method_nums : MethodNums.
Proof. by split. Qed.

(** It answers every request with the name of the root network. *)
Definition node_http : Http () := {|
  http_post := λ _ _ w, (Ok (json_to_string (result_response 1 (JStr "/root"))), w) |}.
#[local] Existing Instance node_http.

Definition agent : @ServerState (wire ()) _ _ :=
  mkServerState (mkReloadable "config.toml" ServerDemo.config []) (mkRun (mkWire () []) []).

Definition final : run_state (wire ()) Event :=
  sv_run (run_request (AgentDemo.fund_request "/root/t01") agent).2.

Lemma one_push : length (pushed (posts (world final))) = 1.
Proof. vm_compute. reflexivity. Qed.

Definition after : run_state (wire ()) Event :=
  sv_run (world (run_cli (Http0 := agent_http AgentDemo.address) AgentDemo.debug (mkGlobal None)
    (AgentDemo.fund "/root/t01") (mkRun agent [])).2).

Lemma after_final : after = final.
Proof.
  unfold after, final. by rewrite (command_world AgentDemo.debug AgentDemo.address _ _ _
    (AgentDemo.fund_request "/root/t01") _ agent) by (by vm_compute).
Qed.

Lemma commands_on_the_wire_witness :
  ∃ cl body, pushed (posts (world after)) = [(cl, body)] ∧
    push_justified ServerDemo.config (AgentDemo.fund_request "/root/t01") (trace after) cl body.
Proof.
  assert (Hj : ∀ cl body, (cl, body) ∈ pushed (posts (world after)) →
    push_justified ServerDemo.config (AgentDemo.fund_request "/root/t01") (trace after) cl body).
  { unfold after. apply (commands_on_the_wire AgentDemo.debug AgentDemo.address (mkGlobal None)
      (AgentDemo.fund "/root/t01") _ (AgentDemo.fund_request "/root/t01") agent agent () [] eq_refl
      ltac:(by vm_compute) eq_refl eq_refl). }
  pose proof one_push as Hone. rewrite <-after_final in Hone.
  destruct (pushed (posts (world after))) as [|[cl body] [|]]; try done.
  exists cl, body. split; [done|]. apply Hj. by left.
Defined.
End WireDemo.
