(* ===== verification/Daemon.v ===== *)
(** * The daemon

    [src/cli/commands/daemon.rs]: the agent runs the JSON-RPC server and the
    checkpointing subsystem at the same time, on one shared [ReloadableConfig].
    [daemon_step] interleaves the requests to the server, the reloads they cause,
    the notifications in the channel of the subsystem, its tasks, and the
    shutdown.  A request is one step, but reloads may also overlap: reading the file
    and installing what was read are steps of their own.

    [tokio_graceful_shutdown] may request the shutdown at any time (a signal, or
    the failure of a subsystem).  How [warp] listens and stops
    ([JsonRPCServer::run]) is not modelled: requests may come at any time. *)
From S2P Require Import Prelude Types Records Outcome Json JsonText Toml Lotus LotusApi Checkpointing Subsystem SubnetManager Config Server Requests Cli.

(** An invariant of a step relation holds along its runs. *)
Lemma rtc_invariant {A} (R : relation A) (P : A → Prop) x y :
  P x → (∀ a b, P a → R a b → P b) → rtc R x y → P y.
Proof. intros Hx HR Hr. induction Hr; eauto. Qed.

Section daemon.
Context {W : Type} `{!ResolverTypes} `{!AgentTypes} `{!ManagerTypes} `{!ServerTypes}.
Context `{!LotusClient W} `{!HashIter SubnetID} `{!ConfigParsers} `{!FileSystem W} `{!SerdeJson}.

Notation server_state := (@ServerState W _ _).

Record Daemon := mkDaemon {
  d_server : server_state;
  d_sub : State;
  d_rx : nat;
  d_shutdown : bool;
  d_pending : list Config;
}.

Definition current (d : Daemon) : Subnets := subnets (get_config (sv_config (d_server d))).

(** Both subsystems started: the checkpointing subsystem has subscribed and loaded
    the configuration. *)
Definition daemon_start (sv : server_state) : outcome Daemon :=
  let '(rx, c) := new_subscriber (sv_config sv) in
  sub ← load (subnets (get_config c));
  Done (mkDaemon (mkServerState c (sv_run sv)) sub rx false []).

Definition set_config (c : Subnets) (s : State) : State :=
  mkState c (st_loaded s) (st_tasks s) (st_phase s).

Definition with_server (sv : server_state) (d : Daemon) : Daemon :=
  mkDaemon sv (set_config (subnets (get_config (sv_config sv))) (d_sub d)) (d_rx d)
    (d_shutdown d) (d_pending d).

Definition with_sub (sub : State) (d : Daemon) : Daemon :=
  mkDaemon (d_server d) sub (d_rx d) (d_shutdown d) (d_pending d).

Definition with_pending (l : list Config) (d : Daemon) : Daemon :=
  mkDaemon (d_server d) (d_sub d) (d_rx d) (d_shutdown d) l.

Definition set_reloadable (c : ReloadableConfig) (s : server_state) : server_state :=
  mkServerState c (sv_run s).

Definition set_receiver (i : nat) (rx : Receiver) (c : ReloadableConfig) : ReloadableConfig :=
  mkReloadable (rc_path c) (rc_config c) (<[i := rx]> (rc_receivers c)).

Inductive daemon_step (d : Daemon) : Daemon → Prop :=
  | daemon_request is_post path body r sv' :
      json_rpc_filter is_post path body (d_server d) = (r, sv') →
      daemon_step d (with_server sv' d)
  | daemon_set_path path :
      daemon_step d (with_server (set_reloadable (set_path path (sv_config (d_server d))) (d_server d)) d)
  | daemon_reload_read path c w w' :
      from_file path (w : W) = (Done c, w') → daemon_step d (with_pending (d_pending d ++ [c]) d)
  | daemon_reload_install i c :
      d_pending d !! i = Some c →
      daemon_step d (with_pending (delete i (d_pending d))
        (with_server (set_reloadable (install c (sv_config (d_server d))) (d_server d)) d))
  | daemon_task i t st' :
      st_tasks (d_sub d) !! i = Some t → task_step (task_state t) st' →
      daemon_step d (with_sub
        (mkState (st_config (d_sub d)) (st_loaded (d_sub d))
           (<[i := set_task_state st' t]> (st_tasks (d_sub d))) (st_phase (d_sub d))) d)
  | daemon_recv rx m rx' :
      st_phase (d_sub d) = Watching → rc_receivers (sv_config (d_server d)) !! d_rx d = Some rx →
      recv rx = Some (m, rx') →
      daemon_step d (with_sub (on_signal (on_recv m) (d_sub d))
        (with_server (set_reloadable (set_receiver (d_rx d) rx' (sv_config (d_server d))) (d_server d)) d))
  | daemon_stop :
      st_phase (d_sub d) = Watching → d_shutdown d = true →
      daemon_step d (with_sub (on_signal Shutdown (d_sub d)) d)
  | daemon_joined b r s' :
      st_phase (d_sub d) = Stopping b → join (st_tasks (d_sub d)) = Some r →
      on_joined b r (d_sub d) = Done s' → daemon_step d (with_sub s' d)
  | daemon_shutdown :
      daemon_step d (mkDaemon (d_server d) (d_sub d) (d_rx d) true (d_pending d)).

(** ** What a request does to the configuration *)

Inductive config_change (c c' : ReloadableConfig) : Prop :=
  | config_kept :
      rc_config c' = rc_config c → rc_receivers c' = rc_receivers c → config_change c c'
  | config_reloaded :
      wf_subnets (subnets (rc_config c')) → rc_receivers c' = send_one <$> rc_receivers c → config_change c c'.

Lemma reload_change c (w : W) r c' w' : reload (c, w) = (r, (c', w')) → config_change c c'.
Proof.
  rewrite reload_spec. destruct (read_to_string (rc_path c) w) as [contents w1] eqn:Hw.
  destruct (s ← contents; from_toml_str s) as [c0|e] eqn:Hc; intros [= <- <- <-]; [|by constructor 1].
  constructor 2; [|done]. apply (from_file_wf (rc_path c) w _ w1). unfold from_file. by rewrite Hw, Hc.
Qed.

Lemma run_request_change r (s : server_state) :
  config_change (sv_config s) (sv_config (run_request r s).2).
Proof.
  destruct r; unfold run_request; try (destruct (handle_with _ _ _); by constructor 1).
  unfold handle_reload. destruct (reload _) as [r [c' w']] eqn:Hr. apply reload_change in Hr.
  cbn. by destruct (rp_path p); destruct Hr; [constructor 1|constructor 2|constructor 1|constructor 2].
Qed.

Lemma filter_change is_post path body (s : server_state) :
  config_change (sv_config s) (sv_config (json_rpc_filter is_post path body s).2).
Proof.
  unfold json_rpc_filter, json_rpc_filter_with. destruct is_post; cbn [negb]; [|by constructor 1].
  case_bool_decide; cbn [negb]; [|by constructor 1].
  destruct (to_json_rpc_request body) as [r|]; [|by constructor 1]. unfold handle_request.
  destruct (negb _); [by constructor 1|]. unfold mbind, act_bind, attempt, handle.
  destruct (parse_request (req_method r) (req_params r)) as [q|]; [|by constructor 1].
  pose proof (run_request_change q s) as Hc. by destruct (run_request q s) as [[] s'].
Qed.

Lemma recv_after_send rx : is_Some (recv (send_one rx)).
Proof.
  unfold send_one, recv. destruct (unread rx <? CHANNEL_CAPACITY)%nat; cbn; [|by eexists].
  destruct (lagged rx); by eexists.
Qed.

(** ** No reload is lost *)

Record daemon_inv (d : Daemon) : Prop := {
  dinv_sub : inv (d_sub d);
  dinv_config : st_config (d_sub d) = current d;
  dinv_pending : Forall (λ c, wf_subnets (subnets c)) (d_pending d);
  dinv_tasks : st_phase (d_sub d) = Watching → unended (d_sub d);
  dinv_rx : ∃ rx, rc_receivers (sv_config (d_server d)) !! d_rx d = Some rx ∧
    (st_phase (d_sub d) = Watching → recv rx = None → st_loaded (d_sub d) = current d);
}.

(** The daemon always starts. *)
Lemma daemon_start_done sv :
  ∃ d, daemon_start sv = Done d ∧ st_phase (d_sub d) = Watching ∧
    st_loaded (d_sub d) = subnets (get_config (sv_config sv)) ∧ d_pending d = [].
Proof.
  unfold daemon_start, load. cbn.
  destruct (subnets_to_manage_total (subnets (get_config (sv_config sv)))) as [l Hl].
  unfold get_config in Hl |- *. cbn. rewrite Hl. cbn. by eexists.
Qed.

Lemma daemon_start_inv sv d :
  wf_subnets (subnets (get_config (sv_config sv))) → daemon_start sv = Done d → daemon_inv d.
Proof.
  intros Hwf. unfold daemon_start. cbn. destruct (load _) as [sub| | |] eqn:Hl; cbn; try done.
  intros [= <-]. destruct (load_done _ _ Hl) as (Hld & Hcf & _). split; cbn; [by eapply load_inv|done|constructor|intros _; by eapply load_unended|].
  exists (mkReceiver 0 false). split; [|done]. by rewrite lookup_app_r, Nat.sub_diag.
Qed.

(** A change of the configuration leaves a message to receive. *)
Lemma config_change_inv d sv' :
  daemon_inv d → config_change (sv_config (d_server d)) (sv_config sv') → daemon_inv (with_server sv' d).
Proof.
  intros [Hsub Hcf Hp Ht (rx & Hrx & Hw)] Hc.
  assert (Hwf : wf_subnets (subnets (get_config (sv_config sv')))).
  { destruct Hc as [Hcf' _|Hwf' _]; [|done]. unfold get_config. rewrite Hcf'.
    change (wf_subnets (current d)). rewrite <-Hcf. apply Hsub. }
  split; cbn; [|done|done|done|].
  - by apply (step_inv (d_sub d)), step_config.
  - destruct Hc as [Hcf' Hr|_ Hr].
    + exists rx. rewrite Hr. split; [done|]. intros Hph Hn. unfold current. cbn. unfold get_config.
      rewrite Hcf'. by apply Hw.
    + exists (send_one rx). rewrite Hr, list_lookup_fmap, Hrx. split; [done|]. intros _ Hn.
      destruct (recv_after_send rx) as [m Hm]. by rewrite Hm in Hn.
Qed.

Lemma with_sub_inv d s' :
  daemon_inv d → inv s' → st_config s' = current d →
  (st_phase s' = Watching → unended s') →
  (st_phase s' = Watching → st_phase (d_sub d) = Watching ∧ st_loaded s' = st_loaded (d_sub d) ∨
    st_loaded s' = current d) →
  daemon_inv (with_sub s' d).
Proof.
  intros [Hsub Hcf Hp _ (rx & Hrx & Hw)] Hs' Hc' Hu Hph. split; cbn; [done|done|done|done|].
  exists rx. split; [done|]. intros Hph' Hn. destruct (Hph Hph') as [[Hold ->]|Hl]; [by apply Hw|done].
Qed.

Lemma with_pending_inv d l :
  daemon_inv d → Forall (λ c, wf_subnets (subnets c)) l → daemon_inv (with_pending l d).
Proof. by intros [? ? ? ? ?]. Qed.

Lemma receive_inv d rx m rx' :
  daemon_inv d → rc_receivers (sv_config (d_server d)) !! d_rx d = Some rx →
  daemon_inv (with_sub (on_signal (on_recv m) (d_sub d))
    (with_server (set_reloadable (set_receiver (d_rx d) rx' (sv_config (d_server d))) (d_server d)) d)).
Proof.
  intros [Hsub Hcf Hp _ _] Hrx. split; cbn; [|done|done|done|].
  - destruct Hsub as [Hwc Hwl Ht]. split; cbn; [done|done|]. by rewrite notify_waiters_keys.
  - exists rx'. split; [|done]. apply list_lookup_insert_eq. by eapply lookup_lt_Some.
Qed.

Lemma daemon_step_inv d d' : daemon_inv d → daemon_step d d' → daemon_inv d'.
Proof.
  intros Hd Hstep. pose proof Hd as [Hsub Hcf Hp Hu (rx & Hrx & Hw)].
  destruct Hstep as [ip path body r sv' Hf|path|path c w w' Hf|i c Hi|i t st' Hi Ht|rx0 m rx' Hph Hrx' Hm
    |Hph _|b r s' Hph Hj Hs'|].
  - apply config_change_inv; [done|]. pose proof (filter_change ip path body (d_server d)) as Hc. by rewrite Hf in Hc.
  - apply config_change_inv; [done|by constructor 1].
  - apply with_pending_inv; [done|]. apply Forall_app. split; [done|]. constructor; [by eapply from_file_wf|constructor].
  - apply with_pending_inv; [|by apply Forall_delete]. apply config_change_inv; [done|]. constructor 2; [|done].
    by apply (Forall_lookup_1 _ _ _ _ Hp Hi).
  - apply with_sub_inv; [done| |done| |by left]; [by eapply step_inv; [|by eapply step_task]|].
    intros Hph. by eapply task_unended; [apply Hu| |].
  - by eapply receive_inv.
  - apply with_sub_inv; [done| |done|done|done]. by apply (step_inv (d_sub d)), step_signal.
  - apply with_sub_inv; [done|by eapply step_inv; [|eapply step_joined]|..];
      (destruct r as [[]|e|p|]; [destruct b|..]); cbn in Hs'; try (by injection Hs' as <-).
    + apply load_done in Hs' as (_ & -> & _). done.
    + intros _. by eapply load_unended.
    + intros _. right. apply load_done in Hs' as (-> & _ & _). done.
  - by split; [..|exists rx].
Qed.

(** Only the end of the managers leads from stopping to watching. *)
Lemma restart_loads d d' b :
  st_config (d_sub d) = current d → st_phase (d_sub d) = Stopping b → daemon_step d d' →
  st_phase (d_sub d') = Watching →
  b = false ∧ load (current d) = Done (d_sub d') ∧ current d' = current d.
Proof.
  intros Hcf Hph Hstep. destruct Hstep as [ip path body r sv' Hf|path|path c w w' Hf|i c Hi|i t st' Hi Ht
    |rx0 m rx' Hph' Hrx' Hm|Hph' _|b' r s' Hph' Hj Hs'|]; cbn; try congruence.
  assert (b' = b) as -> by congruence. intros Hw.
  destruct r as [[]|e|p|]; [destruct b|..]; cbn in Hs'; try (by injection Hs' as <-).
  rewrite <-Hcf at 1. done.
Qed.

(** C10 (the managed subnets follow the configuration): however requests, overlapping
    reloads, notifications, tasks and the shutdown interleave, whenever the
    checkpointing subsystem is watching (that is, not waiting for managers that it has
    told to stop) and has no notification left to receive, its tasks are those
    started for the current configuration, two for each managed pair and no two
    alike; each of them runs or was ended by an error.  A reload is never lost:
    until the watching subsystem has taken it into account there is a notification to
    receive, and when it gets back from stopping its managers to watching it
    has loaded the configuration of that moment. *)
Theorem reloads_not_lost sv d0 d :
  wf_subnets (subnets (get_config (sv_config sv))) → daemon_start sv = Done d0 → rtc daemon_step d0 d →
  ∃ rx, rc_receivers (sv_config (d_server d)) !! d_rx d = Some rx ∧
    (st_phase (d_sub d) = Watching → recv rx = None →
     ∃ pairs, subnets_to_manage (current d) = Done pairs ∧
       task_key <$> st_tasks (d_sub d) = manager_keys pairs ∧
       NoDup (manager_id <$> (task_key <$> st_tasks (d_sub d)))) ∧
    (st_phase (d_sub d) = Watching → unended (d_sub d)) ∧
    (st_phase (d_sub d) = Watching → st_loaded (d_sub d) ≠ current d → ∃ d', daemon_step d d' ∧
       ∃ m, d_sub d' = on_signal (on_recv m) (d_sub d)) ∧
    (∀ d' b, st_phase (d_sub d) = Stopping b → daemon_step d d' → st_phase (d_sub d') = Watching →
       b = false ∧ load (current d) = Done (d_sub d') ∧ current d' = current d).
Proof.
  intros Hwf Hstart Hr. assert (daemon_inv d) as [Hsub Hcf Hp Ht (rx & Hrx & Hw)].
  { eapply rtc_invariant; [by eapply daemon_start_inv|apply daemon_step_inv|exact Hr]. }
  exists rx. split_and!; [done| |done| |].
  - intros Hph Hn. destruct Hsub as [_ Hwl (pairs & Hpairs & Hkeys)]. rewrite Hw in Hpairs by done.
    exists pairs. split_and!; [done..|]. rewrite Hkeys. apply manager_ids_nodup.
    eapply subnets_to_manage_nodup; [|done]. by rewrite <-Hw.
  - intros Hph Hne. destruct (recv rx) as [[m rx']|] eqn:Hm; [|by destruct Hne; apply Hw].
    eexists. split; [by eapply daemon_recv|]. by exists m.
  - intros d' b Hph Hstep Hph'. by eapply restart_loads.
Qed.

(** Of two overlapping reloads the one that installs last wins, even if it has read
    the file first. *)
Lemma stale_reload_wins d c1 c2 :
  d_pending d = [c1; c2] →
  ∃ d', rtc daemon_step d d' ∧ current d' = subnets c1 ∧ d_pending d' = [].
Proof.
  intros Hp. eexists. split.
  - eapply rtc_l; [apply (daemon_reload_install d 1 c2); by rewrite Hp|].
    eapply rtc_once, (daemon_reload_install _ 0 c1). cbn. by rewrite Hp.
  - cbn. rewrite Hp. done.
Qed.
End daemon.

(** ** A reload *)
Module DaemonDemo.
#[local] Existing Instances Demo.resolver_types Demo.agent_types DemoNode.client.
#[local] Existing Instances ManagerDemo.manager_types ServerDemo.server_types ServerDemo.iter.
#[local] Existing Instances TextDemo.serde_json CliDemo.parsers CliDemo.toml_laws CliDemo.template_laws.
Import DemoNode.

(** Every file holds the template. *)
#[export] Instance template_files : FileSystem node := {|
  read_to_string := λ _ w, (Ok DEFAULT_CONFIG_TEMPLATE, w) |}.

(** Started with a configuration of the root only. *)
Definition agent : @ServerState node _ _ :=
  mkServerState (mkReloadable "config.toml" ServerDemo.config [mkReceiver 0 false]) (mkRun (mkNode 0 0) []).

Lemma agent_wf : wf_subnets (subnets (get_config (sv_config agent))).
Proof.
  intros id s. cbn. rewrite lookup_insert_Some, lookup_empty. by intros [[<- <-]|[_ [=]]].
Qed.

(** The template is read and installed: the subsystem still manages the old
    configuration, and a notification waits for it. *)
Lemma reloads_not_lost_witness :
  ∃ d0 d, daemon_start agent = Done d0 ∧ rtc daemon_step d0 d ∧ st_phase (d_sub d) = Watching ∧
    st_loaded (d_sub d) ≠ current d ∧ ∃ d', daemon_step d d'.
Proof.
  destruct template_config as (c & root & child & Hc & _ & Hsub & Hroot & Hchild & _).
  destruct (daemon_start_done agent) as (d0 & Hstart & Hph & Hld & Hpend). eexists d0, _.
  assert (Hne : subnets ServerDemo.config ≠ subnets c).
  { intros Heq. assert (is_Some (subnets c !! subnet_id child)) as [x Hx]
      by (rewrite Hsub; apply insert_subnets_dom, list_elem_of_further, list_elem_of_here).
    rewrite <-Heq, Hchild in Hx. unfold ServerDemo.config in Hx. cbn [subnets] in Hx.
    apply lookup_insert_Some in Hx as [[Hid _]|[_ Hx]];
      [by vm_compute in Hid|by rewrite lookup_empty in Hx]. }
  assert (Hr : rtc daemon_step d0
    (with_pending [] (with_server (set_reloadable (install c (sv_config (d_server d0))) (d_server d0)) d0))).
  { eapply rtc_l; [apply (daemon_reload_read d0 "config.toml" c (mkNode 0 0) (mkNode 0 0))|].
    - unfold from_file. cbn -[from_toml_str]. by rewrite Hc.
    - rewrite Hpend. apply rtc_once. by apply (daemon_reload_install (with_pending [c] d0) 0 c). }
  split_and!; [done|exact Hr|done|cbn; by rewrite Hld|].
  destruct (reloads_not_lost agent d0 _ agent_wf Hstart Hr) as (rx & _ & _ & _ & Hstep & _).
  destruct (Hstep Hph) as (d' & Hd' & _); [cbn; by rewrite Hld|]. by exists d'.
Defined.
End DaemonDemo.
