(* ===== verification/E2e.v ===== *)
(** * The end-to-end test of the agent

    [testing/e2e/src/lib.rs] and [testing/e2e/tests/subnet_lifecycle.rs]: a client
    that drives the agent through the commands of the command line, and the test
    that creates a subnet under the root, joins it, tries to kill it while it has a
    validator, leaves it and kills it.

    The test is a function of its four operations, [lifecycle]: with those of the
    test client it is the program of the repository, with those of the subnet
    manager it says what the program checks of a Lotus node.  The theorem is that the
    two agree: command line, HTTP, JSON, routing and handlers add nothing.  The
    test's own log lines are left out. *)
From S2P Require Import Prelude Types Records Outcome Json JsonText Lotus LotusApi Checkpointing Subsystem SubnetManager Config Server Requests Cli Agent.

(** [ROOTNET_ID] of [ipc_sdk]. *)
Class Rootnet `{AgentTypes} := { ROOTNET_ID : SubnetID }.

Class RootnetLaws `{Rootnet} := {
  rootnet_from_str : subnet_from_str "/root" = Some ROOTNET_ID;
  rootnet_child_parent : ∀ a, subnet_parent (subnet_new_from_parent ROOTNET_ID a) = Some ROOTNET_ID;
}.

(** ** The test *)

Definition IPC_AGENT_JSON_RPC_URL_ENV : string := "IPC_AGENT_JSON_RPC_URL".

(** [subnet_lifecycle], given the operations of the client. *)
Definition lifecycle `{Rootnet} {S} (create : act S Address)
    (join kill leave : SubnetID → act S ()) : act S () :=
  address ← expect "create subnet in root failed" create;
  let subnet_id := subnet_new_from_parent ROOTNET_ID address in
  _ ← expect "cannot join subnet" (join subnet_id);
  r ← attempt (kill subnet_id);
  _ ← lift (if is_err r then Done ()
            else Panic "should failed when killing subnet as not all validators have left");
  _ ← expect "cannot leave subnet" (leave subnet_id);
  expect "cannot kill subnet" (kill subnet_id).

Record TestClient := mkTestClient { json_rpc_url : option string }.

(** [GlobalArguments::default()]. *)
Definition global_default : GlobalArguments := mkGlobal None.

Module E2eClient.
Section client.
Context {W : Type} `{!ResolverTypes} `{!AgentTypes} `{!ManagerTypes} `{!ServerTypes} `{!CidSerialize}.
Context `{!ConfigParsers} `{!FileSystem W} `{!Environment} `{!SerdeJson} `{!Http W}.

Notation cli := (io W Log).

Definition create_subnet (self : TestClient) (parent : string) : cli Address :=
  let args := mkCreateArgs (json_rpc_url self) None parent "test" 1 0 10 10 in
  raw ← create global_default args;
  lift (ok_or_fail "invalid address" (address_from_str raw)).

Definition join_subnet (self : TestClient) (subnet_id : SubnetID) (validator_net_addr : string) : cli () :=
  handle_join_cmd global_default
    (mkJoinArgs (json_rpc_url self) None (subnet_to_string subnet_id) 10 validator_net_addr).

Definition kill_subnet (self : TestClient) (subnet_id : SubnetID) : cli () :=
  handle_kill_cmd global_default (mkKillArgs (json_rpc_url self) None (subnet_to_string subnet_id)).

Definition leave_subnet (self : TestClient) (subnet_id : SubnetID) : cli () :=
  handle_leave_cmd global_default (mkLeaveArgs (json_rpc_url self) None (subnet_to_string subnet_id)).

(** The test of the repository. *)
Definition subnet_lifecycle `{!Rootnet} : cli () :=
  let client := mkTestClient (env_var IPC_AGENT_JSON_RPC_URL_ENV) in
  lifecycle (create_subnet client "/root") (λ id, join_subnet client id "test_validator")
    (kill_subnet client) (leave_subnet client).
End client.
End E2eClient.

(** ** What the test checks *)

Section specification.
Context {W : Type} `{!ResolverTypes} `{!AgentTypes} `{!ManagerTypes} `{!ServerTypes} `{!LotusClient W} `{!Rootnet}.

(** A panic of a handler ends the connection: the client sees an error. *)
Definition over_http {S A} (m : act S A) : act S A := λ s,
  match m s with
  | (Done a, s') => (Done a, s')
  | (Fail e, s') | (Panic e, s') => (Fail e, s')
  | (OutOfFuel, s') => (Fail "", s')
  end.

(** The parameters of the subnet that the test creates. *)
Definition test_params (gateway_id : Z) : ConstructParams :=
  construct_params ROOTNET_ID "test" gateway_id (from_whole 1) 0 10 10.

(** The five operations on the node of the root network. *)
Definition lifecycle_ops (manager : LotusSubnetManager) (from : Address) (gateway_id : Z) : io W Event () :=
  lifecycle (over_http (create_subnet manager from (test_params gateway_id)))
    (λ id, over_http (join_subnet manager id from (from_whole 10) "test_validator"))
    (λ id, over_http (kill_subnet manager id from))
    (λ id, over_http (leave_subnet manager id from)).
End specification.

(** ** The test refines the operations *)

Section refinement.
Context {W : Type} `{!ResolverTypes} `{!AgentTypes} `{!ManagerTypes} `{!ServerTypes} `{!CidSerialize}.
Context `{!LotusClient W} `{!HashIter SubnetID} `{!ConfigParsers} `{!FileSystem W}.
Context `{!SerdeJson} `{!JsonPrinter} `{!CidSerializeLaws} `{!JsonTextLaws} `{!AgentTypesLaws}.
Context `{!FileSystem (@ServerState W _ _)} `{!Environment} `{!Rootnet} `{!RootnetLaws}.

Notation state := (@ServerState W _ _).
Notation cli := (io state Log).

(** The same result, errors and panics up to their text. *)
Definition agree {A} (r r' : outcome A) : Prop :=
  match r, r' with
  | Done a, Done b => a = b
  | Fail _, Fail _ | Panic _, Panic _ | OutOfFuel, OutOfFuel => True
  | _, _ => False
  end.

(** An agent at [address] whose configuration has the root network, with a token
    and an account; the environment of the test points to it. *)
Context (address url : string) (config : Config) (root : Subnet) (from : Address) (others : list Address) (gw : Z).
Hypothesis root_configured : subnets config !! ROOTNET_ID = Some root.
Hypothesis root_authorised : is_Some (auth_token root).
Hypothesis root_accounts : accounts root = from :: others.
Hypothesis root_gateway : address_id (gateway_addr root) = Ok gw.
Hypothesis env_url : env_var IPC_AGENT_JSON_RPC_URL_ENV = Some url.
Hypothesis url_agent : url_from_str url = Some (agent_url address).

#[local] Instance test_http : Http state := agent_http address.

Definition simulates {A} (m : cli A) (n : io W Event A) : Prop :=
  ∀ s t, get_config (sv_config s) = config →
    ∃ r logs, m (mkRun s t) = (r, mkRun (mkServerState (sv_config s) (n (sv_run s)).2) (logs ++ t)) ∧
      agree (n (sv_run s)).1 r.

Lemma simulates_bind {A B} (m : cli A) (n : io W Event A) (f : A → cli B) (g : A → io W Event B) :
  simulates m n → (∀ a, simulates (f a) (g a)) → simulates (m ≫= f) (n ≫= g).
Proof.
  intros Hm Hf s t Hs. unfold mbind, act_bind. destruct (Hm s t Hs) as (r & logs & -> & Hr).
  destruct (n (sv_run s)) as [[a|e|p|] run], r as [b| | |]; cbn in Hr |- *; try done; subst;
    [|by eexists _, logs..].
  destruct (Hf b (mkServerState (sv_config s) run) (logs ++ t) Hs) as (r & logs' & -> & Hr).
  exists r, (logs' ++ logs). by rewrite <-app_assoc.
Qed.

Lemma simulates_lift {A} (r : outcome A) : simulates (lift r) (lift r).
Proof. intros s t _. exists r, []. destruct s as [c run]. split; [done|]. by destruct r. Qed.

Lemma simulates_expect {A} msg (m : cli A) (n : io W Event A) :
  simulates m n → simulates (expect msg m) (expect msg n).
Proof.
  intros Hm s t Hs. unfold expect. destruct (Hm s t Hs) as (r & logs & -> & Hr).
  destruct (n (sv_run s)) as [[a|e|p|] run], r as [b| | |]; cbn in Hr |- *; try done; subst; by eexists _, logs.
Qed.

(** [attempt], then a step that does not look at the error. *)
Lemma simulates_attempt {A B} (m : cli A) (n : io W Event A) (f : result string A → cli B)
    (g : result string A → io W Event B) :
  simulates m n → (∀ a, simulates (f (Ok a)) (g (Ok a))) → (∀ e e', simulates (f (Err e)) (g (Err e'))) →
  simulates (attempt m ≫= f) (attempt n ≫= g).
Proof.
  intros Hm Ha He s t Hs. unfold mbind, act_bind, attempt. destruct (Hm s t Hs) as (r & logs & -> & Hr).
  destruct (n (sv_run s)) as [[a|e|p|] run], r as [b|e'| |]; cbn in Hr |- *; try done; subst;
    try (by eexists _, logs).
  - destruct (Ha b (mkServerState (sv_config s) run) (logs ++ t) Hs) as (r & logs' & -> & Hr).
    exists r, (logs' ++ logs). by rewrite <-app_assoc.
  - destruct (He e' e (mkServerState (sv_config s) run) (logs ++ t) Hs) as (r & logs' & -> & Hr').
    exists r, (logs' ++ logs). by rewrite <-app_assoc.
Qed.

Lemma lifecycle_simulates create join kill leave create' join' kill' leave' :
  simulates create create' → (∀ id, subnet_parent id = Some ROOTNET_ID → simulates (join id) (join' id)) →
  (∀ id, subnet_parent id = Some ROOTNET_ID → simulates (kill id) (kill' id)) →
  (∀ id, subnet_parent id = Some ROOTNET_ID → simulates (leave id) (leave' id)) →
  simulates (lifecycle create join kill leave) (lifecycle create' join' kill' leave').
Proof.
  intros Hc Hj Hk Hl. unfold lifecycle. apply simulates_bind; [by apply simulates_expect|]. intros a.
  pose proof (rootnet_child_parent a) as Hp. cbv zeta. generalize dependent (subnet_new_from_parent ROOTNET_ID a).
  intros id Hp. apply simulates_bind; [by apply simulates_expect, Hj|]. intros _.
  apply simulates_attempt; [by apply Hk|intros u; apply simulates_bind; [apply simulates_lift|]..|];
    [|intros e e'; apply (simulates_bind (lift (Done ())) (lift (Done ()))); [apply simulates_lift|]];
    (intros _; apply simulates_bind; [by apply simulates_expect, Hl|]; intros _; by apply simulates_expect, Hk).
Qed.

(** *** The handlers on this configuration *)

Lemma root_pool : pool_get config ROOTNET_ID = Some (mkConnection root (manager_from_subnet root)).
Proof. unfold pool_get. by rewrite root_configured. Qed.

Lemma root_checked : check_subnet root = Done ().
Proof. unfold check_subnet. by destruct root_authorised as [? ->]. Qed.

Lemma root_sender : parse_from root None = Done from.
Proof. unfold parse_from. by rewrite root_accounts. Qed.

Definition test_request : Request := CreateSubnet (mkCreateParams None "/root" "test" 1 0 10 10).

Lemma handle_create_eq run :
  handle_with config test_request run =
  (addr ← create_subnet (manager_from_subnet root) from (test_params gw);
   mret (JObj [("address", JStr (address_to_string addr))])) run.
Proof.
  cbn [handle_with test_request]. unfold handle_create, parse_subnet. cbn [cr_parent].
  rewrite rootnet_from_str. unfold mbind at 1, act_bind at 1. cbn [lift ok_or_fail].
  rewrite root_pool. unfold mbind at 1, act_bind at 1. cbn [lift ok_or_fail subnet_of manager_of].
  rewrite root_checked. unfold mbind at 1, act_bind at 1. cbn [lift].
  rewrite root_gateway. unfold mbind at 1, act_bind at 1. cbn [lift of_result cr_from].
  by rewrite root_sender.
Qed.

(** The common beginning of the operations on a child of the root. *)
Lemma child_prefix {A} id e e' (f : SubnetID → Connection → io W Event A) run :
  subnet_parent id = Some ROOTNET_ID →
  (subnet ← lift (parse_subnet (subnet_to_string id));
   parent ← lift (ok_or_fail e (subnet_parent subnet));
   conn ← lift (ok_or_fail e' (pool_get config parent));
   f subnet conn) run = f id (mkConnection root (manager_from_subnet root)) run.
Proof.
  intros Hp. unfold parse_subnet. rewrite subnet_str_roundtrip. unfold mbind, act_bind. cbn [lift ok_or_fail].
  rewrite Hp. cbn [ok_or_fail]. by rewrite root_pool.
Qed.

(** The rest of it. *)
Lemma child_checks {A} (f : Address → io W Event A) run :
  (_ ← lift (check_subnet root); from ← lift (parse_from root None); f from) run = f from run.
Proof. rewrite root_checked, root_sender. done. Qed.

Lemma handle_join_eq id run :
  subnet_parent id = Some ROOTNET_ID →
  handle_with config (JoinSubnet (mkJoinParams (subnet_to_string id) None 10 "test_validator")) run =
  (_ ← join_subnet (manager_from_subnet root) id from (from_whole 10) "test_validator"; mret JNull) run.
Proof.
  intros Hp. cbn [handle_with]. unfold handle_join. cbn [jn_subnet jn_from jn_collateral jn_validator_net_addr].
  rewrite child_prefix by done. apply child_checks.
Qed.

Lemma handle_leave_eq id run :
  subnet_parent id = Some ROOTNET_ID →
  handle_with config (LeaveSubnet (mkLeaveParams (subnet_to_string id) None)) run =
  (_ ← leave_subnet (manager_from_subnet root) id from; mret JNull) run.
Proof.
  intros Hp. cbn [handle_with]. unfold handle_leave. cbn [lv_subnet lv_from].
  rewrite child_prefix by done. apply child_checks.
Qed.

Lemma handle_kill_eq id run :
  subnet_parent id = Some ROOTNET_ID →
  handle_with config (KillSubnet (mkKillParams (subnet_to_string id) None)) run =
  (_ ← kill_subnet (manager_from_subnet root) id from; mret JNull) run.
Proof.
  intros Hp. cbn [handle_with]. unfold handle_kill. cbn [kl_subnet kl_from].
  rewrite child_prefix by done. apply child_checks.
Qed.

(** *** The commands of the test client *)

Lemma test_url (s : state) :
  get_ipc_agent_url (env_var IPC_AGENT_JSON_RPC_URL_ENV) global_default s = (Done (agent_url address), s).
Proof. rewrite env_url. cbn. by rewrite url_agent. Qed.

(** A command whose request is answered without a value. *)
Lemma unit_simulates r (op : io W Event ()) log :
  answers_unit r = true → (∀ p, r ≠ ReloadConfig p) → request_typed r →
  (∀ run, handle_with config r run = (_ ← op; mret JNull) run) →
  simulates (asking address (env_var IPC_AGENT_JSON_RPC_URL_ENV) global_default r de_unit (λ _, info log)) (over_http op).
Proof.
  intros Hu Hr Ht Hop s t Hs. unfold asking, mbind, act_bind. unfold on_world at 1. cbn [world trace].
  rewrite test_url. pose proof (ask_answered address (=) de_unit r s t Ht) as Hask.
  assert (run_request r s =
    let '(j, run) := handle_with config r (sv_run s) in (j, mkServerState (sv_config s) run)) as Hreq
    by (rewrite <-Hs; destruct r; try done; by destruct (Hr p)).
  rewrite Hreq, Hop in Hask. unfold over_http, mbind, act_bind in *.
  destruct (op (sv_run s)) as [[[]|e|p|] run]; cbn in Hask |- *;
    [|by destruct Hask as [e' ->]; eexists _, []..].
  destruct (Hask () eq_refl eq_refl) as (a & -> & _). by eexists _, [log].
Qed.

Lemma create_simulates :
  simulates (E2eClient.create_subnet (mkTestClient (env_var IPC_AGENT_JSON_RPC_URL_ENV)) "/root")
    (over_http (create_subnet (manager_from_subnet root) from (test_params gw))).
Proof.
  intros s t Hs. unfold E2eClient.create_subnet, create, mbind, act_bind. unfold on_world at 1. cbn [world trace].
  cbn [json_rpc_url ca_url]. rewrite test_url.
  assert (Ht : request_typed test_request) by (by vm_compute).
  pose proof (ask_answered address (=) de_address_response test_request s t Ht) as Hask.
  assert (run_request test_request s =
    let '(j, run) := handle_with config test_request (sv_run s) in (j, mkServerState (sv_config s) run)) as Hreq
    by (by rewrite <-Hs).
  rewrite Hreq, handle_create_eq in Hask. unfold over_http, mbind, act_bind in *.
  unfold test_http.
  destruct (create_subnet _ _ _ (sv_run s)) as [[a|e|p|] run]; cbn -[ask] in Hask |- *;
    [|by destruct Hask as [e' ->]; eexists _, []..].
  destruct (Hask (address_to_string a) eq_refl eq_refl) as (a' & -> & <-).
  rewrite address_str_roundtrip. by eexists _, [].
Qed.

Lemma subnet_lifecycle_simulates :
  simulates E2eClient.subnet_lifecycle (lifecycle_ops (manager_from_subnet root) from gw).
Proof.
  apply lifecycle_simulates; [apply create_simulates|intros id Hp..].
  - apply (unit_simulates (JoinSubnet (mkJoinParams (subnet_to_string id) None 10 "test_validator"))
      _ (LogJoined (subnet_to_string id))); [done..|by vm_compute|intros run; by apply handle_join_eq].
  - apply (unit_simulates (KillSubnet (mkKillParams (subnet_to_string id) None)) _ (LogKilled (subnet_to_string id)));
      [done..|intros run; by apply handle_kill_eq].
  - apply (unit_simulates (LeaveSubnet (mkLeaveParams (subnet_to_string id) None)) _ (LogLeft (subnet_to_string id)));
      [done..|intros run; by apply handle_leave_eq].
Qed.
(** *** The calls of a passing test *)

Notation manager := (manager_from_subnet root).

(** The calls of one operation, and whether its message was committed. *)
Definition performed (op : Op) (t : list Event) : Prop := guarded (op_ok manager op) t ∧ committed manager t.
Definition refused (op : Op) (t : list Event) : Prop := guarded (op_ok manager op) t ∧ ¬ committed manager t.

Lemma push_and_wait_framed self m : framed (mpool_push_and_wait self m).
Proof. unfold mpool_push_and_wait, mpool_push_message, state_wait_msg. solve_framed. Qed.

Lemma network_match_framed self n : framed (is_network_match self n).
Proof. unfold is_network_match, state_network_name. solve_framed. Qed.

Lemma code_cid_framed self : framed (get_subnet_actor_code_cid self).
Proof. unfold get_subnet_actor_code_cid, state_network_version, state_actor_code_cids. solve_framed. Qed.

#[local] Hint Resolve push_and_wait_framed network_match_framed code_cid_framed : framed.

Lemma create_framed self a ps : framed (create_subnet self a ps).
Proof. unfold create_subnet. solve_framed. Qed.

Lemma run_op_framed self op : framed (run_op self op).
Proof.
  destruct op; cbn [run_op]; unfold ignore, create_subnet, join_subnet, leave_subnet, kill_subnet, fund, release,
    propagate, set_validator_net_addr, whitelist_propagator, send_value; solve_framed.
Qed.

(** An operation in the middle of a run. *)
Lemma op_segment op run :
  let p := run_op manager op run in
  ∃ seg, trace p.2 = seg ++ trace run ∧ guarded (op_ok manager op) seg ∧
    (p.1 = Done () → committed manager seg) ∧ (is_create op = false → committed manager seg → p.1 = Done ()).
Proof.
  destruct run as [w t]. cbv zeta. rewrite run_op_framed. cbn.
  destruct (run_op_ok manager op w) as (Hg & _ & Hpost). exists (trace (run_op manager op (mkRun w [])).2).
  split_and!; [done|done|intros Hd; by rewrite Hd in Hpost|].
  intros Hop Hc. destruct (run_op manager op (mkRun w [])).1 as [[]| | |]; [done|by destruct (Hpost Hop)..].
Qed.

Lemma over_http_done {S A} (m : act S A) s a s' : over_http m s = (Done a, s') → m s = (Done a, s').
Proof. unfold over_http. destruct (m s) as [[] ?]; naive_solver. Qed.

Lemma expect_done {S A} msg (m : act S A) s a s' : expect msg m s = (Done a, s') → m s = (Done a, s').
Proof. unfold expect. destruct (m s) as [[] ?]; naive_solver. Qed.

Lemma op_performed op run run' :
  run_op manager op run = (Done (), run') → ∃ seg, trace run' = seg ++ trace run ∧ performed op seg.
Proof.
  intros Hop. destruct (op_segment op run) as (seg & Ht & Hg & Hc & _). rewrite Hop in Ht, Hc.
  exists seg. split; [done|]. split; [done|by apply Hc].
Qed.

Lemma create_performed ps run a run' :
  create_subnet manager from ps run = (Done a, run') →
  ∃ seg, trace run' = seg ++ trace run ∧ performed (OpCreate from ps) seg.
Proof.
  intros Hc. apply op_performed. cbn [run_op]. unfold ignore, mbind, act_bind. by rewrite Hc.
Qed.

Lemma op_refused op run e run' :
  is_create op = false → attempt (over_http (run_op manager op)) run = (Done (Err e), run') →
  ∃ seg, trace run' = seg ++ trace run ∧ refused op seg.
Proof.
  intros Hop Ha. destruct (op_segment op run) as (seg & Ht & Hg & _ & Hc). exists seg.
  unfold attempt, over_http in Ha. destruct (run_op manager op run) as [[[]|e'|p|] run1]; cbn in *; simplify_eq;
    (split; [done|]; split; [done|]; intros Hcom; by specialize (Hc Hop Hcom)).
Qed.

(** The five segments of a passing run, the latest first. *)
Definition lifecycle_trace (id : SubnetID) (old new : list Event) : Prop :=
  ∃ t1 t2 t3 t4 t5, new = t5 ++ t4 ++ t3 ++ t2 ++ t1 ++ old ∧
    performed (OpCreate from (test_params gw)) t1 ∧
    performed (OpJoin id from (from_whole 10) "test_validator") t2 ∧
    refused (OpKill id from) t3 ∧ performed (OpLeave id from) t4 ∧ performed (OpKill id from) t5.

Lemma lifecycle_ops_trace run run' :
  lifecycle_ops manager from gw run = (Done (), run') →
  ∃ a, lifecycle_trace (subnet_new_from_parent ROOTNET_ID a) (trace run) (trace run').
Proof.
  unfold lifecycle_ops, lifecycle. intros (a & s1 & Hop1%expect_done%over_http_done & Hr)%act_bind_done.
  exists a. cbv zeta in Hr. set (id := subnet_new_from_parent ROOTNET_ID a) in *.
  apply act_bind_done in Hr as ([] & s2 & Hop2%expect_done%over_http_done & Hr).
  apply act_bind_done in Hr as (r & s3 & Hop3 & Hr). apply act_bind_done in Hr as ([] & s3' & Hl & Hr).
  destruct r as [[]|e]; [done|]. injection Hl as <-.
  apply act_bind_done in Hr as ([] & s4 & Hop4%expect_done%over_http_done & Hop5%expect_done%over_http_done).
  apply create_performed in Hop1 as (t1 & E1 & P1).
  apply (op_performed (OpJoin id from (from_whole 10) "test_validator")) in Hop2 as (t2 & E2 & P2).
  apply (op_refused (OpKill id from)) in Hop3 as (t3 & E3 & P3); [|done].
  apply (op_performed (OpLeave id from)) in Hop4 as (t4 & E4 & P4).
  apply (op_performed (OpKill id from)) in Hop5 as (t5 & E5 & P5).
  exists t1, t2, t3, t4, t5. split; [by rewrite E5, E4, E3, E2, E1|done].
Qed.

(** C14 (the end-to-end test): run against an agent whose configuration has the root
    network with a token and an account, the test of the life of a subnet does to the
    nodes exactly what these five operations of the subnet manager do, and passes
    exactly if they turn out as it expects; else it panics or fails as they do.  When
    it passes, the root's node has committed the creation of a subnet, a join with
    ten tokens of collateral, a leave and a kill of this very subnet, all sent by the
    first account, and a first kill between join and leave was not committed. *)
Theorem lifecycle_test_refines (s : state) t :
  get_config (sv_config s) = config →
  let p := lifecycle_ops manager from gw (sv_run s) in
  ∃ r logs,
    E2eClient.subnet_lifecycle (mkRun s t) = (r, mkRun (mkServerState (sv_config s) p.2) (logs ++ t)) ∧
    agree p.1 r ∧
    (r = Done () → ∃ a,
       lifecycle_trace (subnet_new_from_parent ROOTNET_ID a) (trace (sv_run s)) (trace p.2)).
Proof.
  intros Hs p. destruct (subnet_lifecycle_simulates s t Hs) as (r & logs & Heq & Hr). fold p in Heq, Hr.
  exists r, logs. split_and!; [done|done|]. intros ->.
  assert (p = (Done (), p.2)) as Hp by (destruct p as [[[]| | |] ?]; done).
  by apply lifecycle_ops_trace in Hp.
Qed.
End refinement.

(** ** The test on a simulated node

    The node keeps the validators of the subnet; it refuses to kill a subnet that has
    some. *)
Module E2eDemo.
#[local] Existing Instances Demo.resolver_types Demo.agent_types Demo.agent_types_laws.
#[local] Existing Instances ManagerDemo.manager_types ServerDemo.server_types ServerDemo.iter.
#[local] Existing Instances TextDemo.serde_json TextDemo.printer TextDemo.text_laws.
#[local] Existing Instances AgentDemo.cid_serialize AgentDemo.cid_serialize_laws AgentDemo.parsers AgentDemo.no_files.

#[export] Instance rootnet : Rootnet := {| ROOTNET_ID := Demo.subnet "/root" |}.

#[export] Instance rootnet_laws : RootnetLaws.
Proof.
  split; [done|]. intros a. change (Demo.parent ("/root" +:+ "/" +:+ Demo.no_slash a) = Some "/root").
  unfold Demo.parent. by rewrite (Demo.last_slash_app "/root") by apply Demo.no_slash_last.
Qed.

Record chain := mkChain { members : list string; killed : bool }.

Definition answer {A} (a : A) : act chain A := λ w, (Done a, w).

Definition push (c : Json.Client) (m : MpoolPushMessage) : act chain MpoolPushMessageResponseInner := λ w,
  match msg_method m with
  | SubnetJoin => (Done DemoNode.response, mkChain ((msg_from m : string) :: members w) (killed w))
  | SubnetLeave => (Done DemoNode.response, mkChain (filter (λ v, v ≠ (msg_from m : string)) (members w)) (killed w))
  | SubnetKill =>
      if bool_decide (members w = []) then (Done DemoNode.response, mkChain [] true)
      else (Fail "validators have not left", w)
  | _ => (Done DemoNode.response, w)
  end.

#[export] Instance client : LotusClient chain := {|
  lc_mpool_push_message := push;
  lc_state_wait_msg := λ _ _, answer (mkStateWait DemoNode.tip DemoNode.receipt [] 0);
  lc_state_network_name := λ _, answer "/root";
  lc_state_network_version := λ _ _, answer 1%Z;
  lc_state_actor_code_cids := λ _ _, answer {["ipc_subnet_actor" := Demo.cid "code"]};
  lc_wallet_default := λ _, answer (Demo.addr "t1a");
  lc_wallet_list := λ _, answer ["t1a"];
  lc_wallet_new := λ _ _, answer "t1c";
  lc_wallet_balance := λ _ _, answer 5%Z;
  lc_read_state := λ _ _ _ _ _ w, (Fail "no state", w);
  lc_chain_head := λ _, answer DemoNode.chain;
  lc_get_tipset_by_height := λ _ _ _, answer DemoNode.chain;
  lc_get_prev_checkpoint_for_child := λ _ _, answer None;
  lc_get_checkpoint_template := λ _ e, answer (DemoNode.template e);
  lc_get_checkpoint := λ _ _ e, answer (DemoNode.template e);
  lc_read_gateway_state := λ _ _ w, (Fail "no state", w);
  lc_read_subnet_actor_state := λ _ _ _ w, (Fail "no state", w);
  lc_list_child_subnets := λ _ _, answer [];
  lc_validator_has_voted_bottomup := λ _ _ _ _, answer false;
  lc_validator_has_voted_topdown := λ _ _ _ _, answer false;
  lc_get_topdown_msgs := λ _ _ _ _ _, answer [];
  lc_get_genesis_epoch_for_subnet := λ _ _ _, answer 0%Z;
  lc_list_checkpoints := λ _ _ _ _, answer [];
|}.

#[export] Instance environment : Environment := {|
  env_var := λ k, if String.eqb k IPC_AGENT_JSON_RPC_URL_ENV then Some (agent_url AgentDemo.address) else None |}.

Definition agent : @ServerState chain _ _ :=
  mkServerState (mkReloadable "config.toml" ServerDemo.config []) (mkRun (mkChain [] false) []).

Definition ops : outcome () * run_state chain Event :=
  lifecycle_ops (manager_from_subnet ServerDemo.root) (Demo.addr "t1a") 64 (sv_run agent).

Lemma ops_pass : ops.1 = Done () ∧ world ops.2 = mkChain [] true.
Proof. split; vm_compute; reflexivity. Qed.

(** The methods pushed, in order; the refused kill is one of them. *)
Example ops_pushes :
  reverse (omap (λ e, match e with EvPush _ m _ => Some (msg_method m) | _ => None end) (trace ops.2)) =
  [InitExec; SubnetJoin; SubnetKill; SubnetLeave; SubnetKill].
Proof. vm_compute. reflexivity. Qed.

Lemma root_known : subnets ServerDemo.config !! ROOTNET_ID = Some ServerDemo.root.
Proof. exact (lookup_insert_eq (∅ : gmap SubnetID Subnet) (subnet_id ServerDemo.root) ServerDemo.root). Qed.

(** The test passes, and the subnet is killed in the end. *)
Lemma lifecycle_test_refines_witness :
  ∃ s' logs, E2eClient.subnet_lifecycle (Http0 := agent_http AgentDemo.address) (mkRun agent []) =
      (Done (), mkRun s' logs) ∧ killed (world (sv_run s')) = true.
Proof.
  destruct (lifecycle_test_refines AgentDemo.address (agent_url AgentDemo.address) ServerDemo.config ServerDemo.root
    (Demo.addr "t1a") [] 64 root_known ltac:(by eexists) eq_refl eq_refl eq_refl eq_refl agent [] eq_refl)
    as (r & logs & Heq & Hr & _).
  change (lifecycle_ops _ _ _ _) with ops in Heq, Hr. destruct ops_pass as [Hd Hw]. rewrite Hd in Hr.
  assert (r = Done ()) as -> by (revert Hr; clear; destruct r as [[]| | |]; [done|contradiction..]).
  eexists _, _. split; [exact Heq|]. cbn [sv_run]. rewrite Hw. reflexivity.
Defined.
End E2eDemo.
