(* ===== verification/Arb.v ===== *)
(** * The generators of the resolver's property tests

    [ipld/resolver/src/arb.rs] and the [Arbitrary] implementations of
    [timestamp.rs], [provider_record.rs] and [vote_record.rs], which draw the
    subnets, CIDs and signed records that the repository's [quickcheck]
    properties are run on, and the round-trip property of
    [signed_record.rs].

    A generator is a state transformer on the sources of randomness, [Gen],
    whose error is a panic with its message.  What it draws from [quickcheck],
    [libp2p], [fvm_shared], [ipc_sdk] and [libipld] is the class [Quickcheck].
    [generates P m] says that [m] never panics and only produces values that
    satisfy [P]; a generator's theorem is proved by following its structure. *)
From S2P Require Import Prelude Timestamp Types Records.

(** [quickcheck::Gen] with the key generator of the operating system and the
    clock, which the generators of signed records read as well. *)
Class Quickcheck `{Envelope} := {
  Gen : Type;
  arb_u8 : Gen → Z * Gen;
  arb_u64 : Gen → Z * Gen;
  arb_usize : Gen → Z * Gen;
  arb_string : Gen → string * Gen;
  generate_ed25519 : Gen → Keypair * Gen;
  generate_secp256k1 : Gen → Keypair * Gen;
  gen_now : Gen → Timestamp * Gen;

  (** [fvm_shared::address::Address]. *)
  ArbAddressType : Type;
  arb_fvm_address : Gen → ArbAddressType * Gen;
  fvm_address_to_bytes : ArbAddressType → bytes;
  fvm_address_from_bytes : bytes → option ArbAddressType;

  (** [ipc_sdk::subnet_id]. *)
  ROOTNET_ID : SubnetID;
  new_from_parent : SubnetID → ArbAddressType → SubnetID;

  (** [Multihash::wrap(code, digest)] and [Cid::new_v1(codec, hash)]. *)
  Multihash : Type;
  multihash_wrap : Z → list Z → option Multihash;
  cid_new_v1 : Z → Multihash → Cid;
}.

(** Integers are drawn within their width; the bytes of an address are those of
    an address; a digest of one byte fits in a multihash; the keys that are
    generated can sign. *)
Class QuickcheckLaws `{Quickcheck} := {
  arb_u8_range : ∀ g, (0 ≤ (arb_u8 g).1 ≤ 255)%Z;
  arb_u64_range : ∀ g, in_u64 (arb_u64 g).1;
  arb_usize_range : ∀ g, in_u64 (arb_usize g).1;
  fvm_address_bytes : ∀ a, is_Some (fvm_address_from_bytes (fvm_address_to_bytes a));
  multihash_wrap_byte : ∀ code b, is_Some (multihash_wrap code [b]);
  ed25519_signs : ∀ g dom ty p, is_Some (envelope_new (generate_ed25519 g).1 dom ty p);
  secp256k1_signs : ∀ g dom ty p, is_Some (envelope_new (generate_secp256k1 g).1 dom ty p);
}.

Section generators.
Context `{Quickcheck}.

Definition genM : Type → Type := stM Gen string.

Definition draw {A} (f : Gen → A * Gen) : genM A := λ g,
  let '(a, g') := f g in (Ok a, g').

(** [Option::unwrap] and [Result::expect]. *)
Definition expect {A} (msg : string) (o : option A) : genM A :=
  match o with Some a => mret a | None => throw msg end.

Definition expect_ok {E A} (msg : string) (r : result E A) : genM A :=
  match r with Ok a => mret a | Err _ => throw msg end.

(** [for _ in 0..n { v.push(m) }] *)
Fixpoint repeat_gen {A} (n : nat) (m : genM A) : genM (list A) :=
  match n with
  | O => mret []
  | S n => a ← m; l ← repeat_gen n m; mret (a :: l)
  end.

(** ** The generators *)

(** [Arbitrary for Timestamp]. *)
Definition arb_timestamp : genM Timestamp :=
  t ← draw arb_u64; mret (saturating_add_u64 t 1).

(** [Arbitrary for ArbAddress]. *)
Definition arb_address : genM ArbAddressType :=
  addr ← draw arb_fvm_address;
  let bz := fvm_address_to_bytes addr in
  expect "address roundtrip works" (fvm_address_from_bytes bz).

(** [Arbitrary for ArbSubnetID]: the loop [for _ in 0..=u8::arbitrary(g) % 5]. *)
Fixpoint arb_path (n : nat) (parent : SubnetID) : genM SubnetID :=
  match n with
  | O => mret parent
  | S n => addr ← arb_address; arb_path n (new_from_parent parent addr)
  end.

Definition arb_subnet_id : genM SubnetID :=
  d ← draw arb_u8; arb_path (S (Z.to_nat (d mod 5))) ROOTNET_ID.

(** [Arbitrary for ArbCid]. *)
Definition arb_cid : genM Cid :=
  codec ← draw arb_u64;
  code ← draw arb_u64;
  b ← draw arb_u8;
  mh ← expect "called `Option::unwrap()` on a `None` value" (multihash_wrap code [b]);
  mret (cid_new_v1 codec mh).

(** [Arbitrary for SignedProviderRecord]. *)
Definition arb_signed_provider_record `{!Serde ProviderRecord} : genM SignedProviderRecord :=
  k ← draw arb_u8;
  key ← (if (k mod 2 =? 0)%Z then draw generate_ed25519 else draw generate_secp256k1);
  n ← draw arb_u8;
  subnet_ids ← repeat_gen (Z.to_nat (n mod 5)) arb_subnet_id;
  now ← draw gen_now;
  expect_ok "error creating signed envelope" (provider_record_signed now key subnet_ids).

(** [Arbitrary for SignedVoteRecord]. *)
Definition arb_signed_vote_record `{!Serde VoteRecord} : genM SignedVoteRecord :=
  key ← draw generate_secp256k1;
  subnet_id ← arb_subnet_id;
  cid ← arb_cid;
  claim ← draw arb_string;
  now ← draw gen_now;
  expect_ok "error creating signed envelope" (vote_record_signed now key subnet_id cid claim).

(** ** What a generator produces *)

Definition generates {A} (P : A → Prop) (m : genM A) : Prop :=
  ∀ g, ∃ a, value_of (m g) = Ok a ∧ P a.

Lemma generates_ret {A} (P : A → Prop) a : P a → generates P (mret a).
Proof. intros Ha g. by exists a. Qed.

Lemma generates_draw {A} (P : A → Prop) f : (∀ g, P (f g).1) → generates P (draw f).
Proof.
  intros Hf g. exists (f g).1. split; [|done]. unfold draw. by destruct (f g).
Qed.

Lemma generates_bind {A B} (P : A → Prop) (Q : B → Prop) (m : genM A) (f : A → genM B) :
  generates P m → (∀ a, P a → generates Q (f a)) → generates Q (m ≫= f).
Proof.
  intros Hm Hf g. destruct (Hm g) as (a & Ha & Pa).
  unfold mbind, stM_bind. destruct (m g) as [r g']. cbn in Ha. subst r. by apply Hf.
Qed.

(** The value of [m] is drawn at some state: enough where the draws obey laws
    that mention the generator's state. *)
Lemma generates_bind_draw {A B} (Q : B → Prop) (d : Gen → A * Gen) (f : A → genM B) :
  (∀ g, generates Q (f (d g).1)) → generates Q (draw d ≫= f).
Proof.
  intros Hf g. unfold mbind, stM_bind, draw. specialize (Hf g).
  destruct (d g) as [a g']. apply Hf.
Qed.

Lemma generates_expect {A} (P : A → Prop) msg o :
  is_Some o → (∀ a, o = Some a → P a) → generates P (expect msg o).
Proof. intros [a ->] HP. apply generates_ret, HP. done. Qed.

Lemma generates_expect_ok {E A} (P : A → Prop) msg (r : result E A) a :
  r = Ok a → P a → generates P (expect_ok msg r).
Proof. intros -> Ha. by apply generates_ret. Qed.

Lemma generates_repeat {A} (P : A → Prop) n m :
  generates P m → generates (λ l, length l = n ∧ Forall P l) (repeat_gen n m).
Proof.
  intros Hm. induction n as [|n IH]; cbn [repeat_gen].
  - apply generates_ret. split; [done|constructor].
  - apply (generates_bind P); [done|]. intros a Pa.
    eapply generates_bind; [exact IH|]. intros l [Hlen Hl].
    apply generates_ret. split; [cbn; lia|by constructor].
Qed.

Lemma generates_weaken {A} (P Q : A → Prop) m :
  generates P m → (∀ a, P a → Q a) → generates Q m.
Proof. intros Hm HPQ g. destruct (Hm g) as (a & ? & ?). eauto. Qed.

Context `{!QuickcheckLaws}.

Lemma generates_timestamp :
  generates (λ t, (0 < t ≤ u64_max)%Z) arb_timestamp.
Proof.
  apply generates_bind_draw. intros g. apply generates_ret.
  pose proof (arb_u64_range g). unfold in_u64, saturating_add_u64, u64_max in *. lia.
Qed.

Lemma generates_address : generates (λ _, True) arb_address.
Proof.
  apply generates_bind_draw. intros g. apply generates_expect; [|done].
  apply fvm_address_bytes.
Qed.

(** A generated subnet is one to five levels below the root network. *)
Fixpoint below (n : nat) (id : SubnetID) : Prop :=
  match n with
  | O => id = ROOTNET_ID
  | S n => ∃ parent addr, below n parent ∧ id = new_from_parent parent addr
  end.

Lemma generates_path n k parent :
  below k parent → generates (below (n + k)) (arb_path n parent).
Proof.
  revert k parent. induction n as [|n IH]; intros k parent Hb; cbn [arb_path].
  - by apply generates_ret.
  - eapply generates_bind; [apply generates_address|]. intros addr _.
    change (S n + k)%nat with (S (n + k)). rewrite <-Nat.add_succ_r.
    apply IH. cbn. eauto.
Qed.

Lemma generates_subnet_id :
  generates (λ id, ∃ n, (1 ≤ n ≤ 5)%nat ∧ below n id) arb_subnet_id.
Proof.
  apply generates_bind_draw. intros g.
  pose proof (Z.mod_pos_bound (arb_u8 g).1 5 ltac:(done)).
  eapply generates_weaken; [by apply (generates_path _ 0)|].
  intros id Hid. eexists. split; [|exact Hid]. lia.
Qed.

Lemma generates_cid : generates (λ _, True) arb_cid.
Proof.
  do 3 (apply generates_bind_draw; intros ?).
  eapply generates_bind; [apply (generates_expect (λ _, True)); [|done]|].
  - apply multihash_wrap_byte.
  - intros mh _. by apply generates_ret.
Qed.
End generators.

(** ** The round-trip property of the signed records *)

(** [signed_record::tests::prop_roundtrip]; an [expect] that fails is a panic. *)
Definition prop_roundtrip `{Envelope} {R : Type} `{!Serde R, !Record_ R, !EqDecision R}
    (signed_record : SignedRecord R) : result string bool :=
  let envelope_bytes := into_protobuf_encoding (envelope signed_record) in
  e ← ok_or "envelope roundtrip" (from_protobuf_encoding envelope_bytes);
  signed_record2 ← map_err (λ _, "record roundtrip") (from_signed_envelope e);
  Ok (bool_decide (into_record signed_record2 = record signed_record)).

(** [fvm_ipld_encoding::to_vec] of a record of strings, numbers and byte vectors
    does not fail. *)
Class SerdeTotal (R : Type) `{Serde R} := to_vec_total : ∀ r, is_Some (to_vec r).

Section roundtrip.
Context `{Quickcheck} `{!QuickcheckLaws} `{!EnvelopeLaws}.

(** Whoever can sign gets a signed record. *)
Lemma signed_record_new_ok {R} `{!Serde R, !SerdeTotal R, !Record_ R} key (r : R) :
  (∀ dom ty p, is_Some (envelope_new key dom ty p)) →
  ∃ e, signed_record_new key r = Ok (mkSignedRecord r e).
Proof.
  intros Hkey. unfold signed_record_new, mbind, result_bind.
  destruct (to_vec_total r) as [p ->]. cbn [ok_or].
  destruct (Hkey DOMAIN_SEP (payload_type R) p) as [e ->]. cbn. by eexists.
Qed.

Lemma prop_roundtrip_own {R} `{!Serde R, !SerdeLaws R, !Record_ R, !EqDecision R} key r sr :
  signed_record_new key r = Ok sr → check_signing_key r (public key) = true →
  prop_roundtrip sr = Ok true.
Proof.
  intros Hs Hk. pose proof (from_bytes_new _ _ _ Hs) as Hb. rewrite Hk in Hb.
  revert Hb. unfold prop_roundtrip, from_bytes, wire, into_envelope, mbind, result_bind.
  destruct (from_protobuf_encoding _) as [e|]; cbn [ok_or]; [|done].
  destruct (from_signed_envelope e) as [sr'|]; cbn [map_err]; [|done].
  intros [= ->]. by rewrite bool_decide_eq_true_2.
Qed.

Context `{!Serde ProviderRecord, !SerdeLaws ProviderRecord, !SerdeTotal ProviderRecord}.
Context `{!Serde VoteRecord, !SerdeLaws VoteRecord, !SerdeTotal VoteRecord}.

(** A generated provider record passes the test, lists at most four subnets
    and carries the peer id of the key that signed it. *)
Lemma generates_signed_provider_record :
  generates (λ sr, prop_roundtrip sr = Ok true ∧
                   (length (pr_subnet_ids (record sr)) < 5)%nat) arb_signed_provider_record.
Proof.
  apply generates_bind_draw. intros g1.
  apply (generates_bind (λ key, ∀ dom ty p, is_Some (envelope_new key dom ty p))).
  { destruct (_ =? _)%Z; apply generates_draw; intros g;
      [apply ed25519_signs|apply secp256k1_signs]. }
  intros key Hkey. apply generates_bind_draw. intros g2.
  pose proof (Z.mod_pos_bound (arb_u8 g2).1 5 ltac:(done)).
  eapply generates_bind; [apply generates_repeat, generates_subnet_id|].
  intros ids [Hlen _]. apply generates_bind_draw. intros g3.
  destruct (signed_record_new_ok key
    (mkProviderRecord (to_peer_id (public key)) ids (gen_now g3).1) Hkey) as [e He].
  eapply generates_expect_ok; [exact He|]. cbn. split; [|lia].
  eapply prop_roundtrip_own; [exact He|]. by apply bool_decide_eq_true_2.
Qed.

Lemma generates_signed_vote_record :
  generates (λ sr, prop_roundtrip sr = Ok true) arb_signed_vote_record.
Proof.
  apply generates_bind_draw. intros g1.
  eapply generates_bind; [apply generates_subnet_id|]. intros subnet_id _.
  eapply generates_bind; [apply generates_cid|]. intros cid _.
  apply generates_bind_draw. intros g2. apply generates_bind_draw. intros g3.
  destruct (signed_record_new_ok (generate_secp256k1 g1).1
    (mkVoteRecord (mkValidatorKey (public (generate_secp256k1 g1).1)) subnet_id cid
      (arb_string g2).1 (gen_now g3).1) (secp256k1_signs g1)) as [e He].
  eapply generates_expect_ok; [exact He|].
  eapply prop_roundtrip_own; [exact He|]. by apply bool_decide_eq_true_2.
Qed.
End roundtrip.

(** ** A concrete source of randomness

    The draws are read off a list of numbers, and zero after its end. *)
Module ArbDemo.
#[export] Existing Instances demo_types demo_envelope.

Definition next (g : list Z) : Z * list Z :=
  match g with [] => (0%Z, []) | z :: g => (z, g) end.

Definition next_key (g : list Z) : N * list Z := (Z.to_N (next g).1, (next g).2).

#[export] Instance quickcheck : Quickcheck := {|
  Gen := list Z;
  arb_u8 g := ((next g).1 mod 2 ^ 8, (next g).2)%Z;
  arb_u64 g := ((next g).1 mod 2 ^ 64, (next g).2)%Z;
  arb_usize g := ((next g).1 mod 2 ^ 64, (next g).2)%Z;
  arb_string g := ("claim", g);
  generate_ed25519 := next_key;
  generate_secp256k1 := next_key;
  gen_now := next;
  ArbAddressType := N;
  arb_fvm_address := next_key;
  fvm_address_to_bytes := to_bits;
  fvm_address_from_bytes := from_bits;
  ROOTNET_ID := demo_subnet [];
  new_from_parent p a := demo_subnet (p ++ [a]);
  Multihash := Z * list Z;
  multihash_wrap code digest :=
    if (length digest <=? 64)%nat then Some (code, digest) else None;
  cid_new_v1 codec mh := demo_cid (Z.to_N (codec + mh.1));
|}.

Lemma mod_range z w : (0 < w)%Z → (0 ≤ z mod w ≤ w - 1)%Z.
Proof. intros Hw. pose proof (Z.mod_pos_bound z w Hw). lia. Qed.

#[export] Instance quickcheck_laws : QuickcheckLaws.
Proof.
  split.
  - intros g. exact (mod_range (next g).1 (2 ^ 8) eq_refl).
  - intros g. exact (mod_range (next g).1 (2 ^ 64) eq_refl).
  - intros g. exact (mod_range (next g).1 (2 ^ 64) eq_refl).
  - intros a. exists a. exact (from_to_bits (A := N) a).
  - intros code b. by eexists.
  - intros g dom ty p. by eexists.
  - intros g dom ty p. by eexists.
Qed.

#[export] Instance provider_serde_total : @SerdeTotal _ demo_provider_serde.
Proof. intros r. by eexists. Qed.
#[export] Instance vote_serde_total : @SerdeTotal _ demo_vote_serde.
Proof. intros r. by eexists. Qed.

Example subnet_two_levels :
  value_of (arb_subnet_id [1; 7; 9]%Z) = Ok (demo_subnet [7; 9]%N).
Proof. reflexivity. Qed.
End ArbDemo.
