(* ===== verification/CacheTests.v ===== *)
(** * The property tests of the provider cache

    The [tests] module of [ipld/resolver/src/provider_cache.rs]: the generator
    of histories of provider records, the reference [build_providers] that the
    cache is checked against, and the four [quickcheck] properties.  Where the
    repository runs each property on a hundred random histories, the theorem
    here is that none of them can fail or panic on any history the generator
    produces.

    The outer [result] of a property is a panic, the inner one is the
    [Result<(), String>] the property returns. *)
From S2P Require Import Prelude Timestamp Types Records ProviderCache Arb.

Module CacheTests.
Import Cache.
Section tests.
Context `{Quickcheck} `{!HashIter SubnetID} `{!HashIter PeerId}.

(** ** Generating histories *)

Definition arb_test_peer : genM PeerId :=
  pk ← draw generate_ed25519; mret (to_peer_id (public pk)).

(** [ps[i % ps.len()]]: a zero divisor and a missing entry panic. *)
Definition index_mod (ps : list PeerId) (i : Z) : genM PeerId :=
  if (length ps =? 0)%nat
  then throw "attempt to calculate the remainder with a divisor of zero"
  else expect "index out of bounds" (ps !! Z.to_nat (i mod Z.of_nat (length ps))).

Definition arb_test_record (ps : list PeerId) : genM ProviderRecord :=
  i ← draw arb_usize;
  peer_id ← index_mod ps i;
  n ← draw arb_usize;
  subnet_ids ← repeat_gen (Z.to_nat (n mod 5)) arb_subnet_id;
  timestamp ← arb_timestamp;
  mret (mkProviderRecord peer_id subnet_ids timestamp).

(** [Arbitrary for TestRecords]. *)
Definition arb_test_records : genM (list ProviderRecord) :=
  n ← draw arb_usize;
  let rc := (n mod 20)%Z in
  let pc := (1 + rc / 2)%Z in
  ps ← repeat_gen (Z.to_nat pc) arb_test_peer;
  repeat_gen (Z.to_nat rc) (arb_test_record ps).

(** ** The reference *)

Local Notation Providers := (gmap SubnetID (gset PeerId)).

(** The first loop of [build_providers]. *)
Definition max_step (m : gmap PeerId Timestamp) (r : ProviderRecord) :
    gmap PeerId Timestamp :=
  let mts := default timestamp_default (m !! pr_peer_id r) in
  <[pr_peer_id r := if (mts <? pr_timestamp r)%Z then pr_timestamp r else mts]> m.

Definition max_timestamps (records : list ProviderRecord) : gmap PeerId Timestamp :=
  foldl max_step ∅ records.

(** The innermost loop, over the subnets of a record. *)
Definition insert_provider (p : PeerId) (m : Providers) (id : SubnetID) : Providers :=
  <[id := {[p]} ∪ default ∅ (m !! id)]> m.

(** The second loop, with its two [continue]s; indexing [max_timestamps] with a
    missing key panics. *)
Fixpoint build_loop (mts : gmap PeerId Timestamp) (records : list ProviderRecord)
    (providers : Providers) (seen : gset PeerId) : result string Providers :=
  match records with
  | [] => Ok providers
  | r :: records =>
      mt ← ok_or (A:=Timestamp) "no entry found for key" (mts !! pr_peer_id r);
      if negb (pr_timestamp r =? mt)%Z then build_loop mts records providers seen
      else if bool_decide (pr_peer_id r ∈ seen) then build_loop mts records providers seen
      else build_loop mts records
             (foldl (insert_provider (pr_peer_id r)) providers (pr_subnet_ids r))
             ({[pr_peer_id r]} ∪ seen)
  end.

Definition build_providers (records : list ProviderRecord) : result string Providers :=
  build_loop (max_timestamps records) records ∅ ∅.

(** The messages of the failing checks. *)
Inductive CheckError :=
  | PeersExpected (expected got : nat) (id : SubnetID)
  | WrongPeerId
  | StaticSubnetNotFound
  | PinnedSubnetNotFound.

Definition check_subnet (cache : SubnetProviderCache) (e : SubnetID * gset PeerId) :
    result CheckError () :=
  let '(subnet_id, exp_peer_ids) := e in
  let peer_ids := providers_of_subnet cache subnet_id in
  if negb (length peer_ids =? size exp_peer_ids)%nat
  then Err (PeersExpected (size exp_peer_ids) (length peer_ids) subnet_id)
  else collect (λ p, if bool_decide (p ∈ exp_peer_ids) then Ok () else Err WrongPeerId)
         peer_ids ;; Ok ().

Definition check_providers (providers : Providers) (cache : SubnetProviderCache) :
    result CheckError () :=
  collect (check_subnet cache) (map_iter providers) ;; Ok ().

(** ** The properties *)

(** The loop of [prop_subnets_pruned]; [None] is its [return false]. *)
Fixpoint add_all (cache : SubnetProviderCache) (records : list ProviderRecord) :
    option SubnetProviderCache :=
  match records with
  | [] => Some cache
  | r :: records =>
      let cache := set_routable (pr_peer_id r) cache in
      match add_provider r cache with
      | (None, _) => None
      | (Some _, cache) => add_all cache records
      end
  end.

Definition prop_subnets_pruned (records : list ProviderRecord) (max_subnets : Z) : bool :=
  let max_subnets := Z.to_nat (max_subnets mod 10) in
  match add_all (new max_subnets []) records with
  | None => false
  | Some cache => (size (subnet_providers cache) <=? max_subnets)%nat
  end.

Definition prop_subnets_pinned (records : list ProviderRecord) :
    result string (result CheckError ()) :=
  providers ← build_providers records;
  if (size providers <? 2)%nat then Ok (Ok ()) else
  match take 2 (map_iter providers).*1 with
  | [s0; s1] =>
      let cache := pin_subnet s1 (new 3 [s0]) in
      let cache := replay cache records in
      Ok (if negb (bool_decide (is_Some (subnet_providers cache !! s0)))
          then Err StaticSubnetNotFound
          else if negb (bool_decide (is_Some (subnet_providers cache !! s1)))
          then Err PinnedSubnetNotFound
          else Ok ())
  | _ => Err "index out of bounds"
  end.

(** [usize::MAX]. *)
Definition usize_max : nat := Z.to_nat u64_max.

Definition prop_providers_listed (records : list ProviderRecord) :
    result string (result CheckError ()) :=
  let cache := replay (new usize_max []) records in
  providers ← build_providers records;
  Ok (check_providers providers cache).

Definition prop_providers_pruned (records : list ProviderRecord) (cutoff : Timestamp) :
    result string (result CheckError ()) :=
  let cache := replay (new usize_max []) records in
  let cache := state_of (prune_providers cutoff cache) in
  let records := filter (λ r, (cutoff ≤ pr_timestamp r)%Z) records in
  providers ← build_providers records;
  Ok (check_providers providers cache).

(** ** What the generator guarantees *)

Definition test_record (r : ProviderRecord) : Prop :=
  (0 < pr_timestamp r)%Z ∧ (length (pr_subnet_ids r) < 5)%nat.

Definition test_records (rs : list ProviderRecord) : Prop :=
  (length rs < 20)%nat ∧ Forall test_record rs.

Lemma generates_index_mod ps i :
  ps ≠ [] → generates (λ p, p ∈ ps) (index_mod ps i).
Proof.
  intros Hps. unfold index_mod.
  assert (Hlen : (0 < length ps)%nat) by (destruct ps; [done|cbn; lia]).
  rewrite (proj2 (Nat.eqb_neq _ _)) by lia.
  pose proof (Z.mod_pos_bound i (Z.of_nat (length ps)) ltac:(lia)).
  apply generates_expect; [apply lookup_lt_is_Some; lia|].
  intros a. apply list_elem_of_lookup_2.
Qed.

Lemma generates_test_record `{!QuickcheckLaws} ps :
  ps ≠ [] → generates test_record (arb_test_record ps).
Proof.
  intros Hps. apply generates_bind_draw. intros g1.
  eapply generates_bind; [by apply generates_index_mod|]. intros p _.
  apply generates_bind_draw. intros g2.
  pose proof (Z.mod_pos_bound (arb_usize g2).1 5 ltac:(done)).
  eapply generates_bind; [apply generates_repeat, generates_subnet_id|].
  intros ids [Hlen _]. eapply generates_bind; [apply generates_timestamp|].
  intros t [Ht _]. apply generates_ret. split; cbn; [done|lia].
Qed.

Lemma generates_test_records `{!QuickcheckLaws} : generates test_records arb_test_records.
Proof.
  apply generates_bind_draw. intros g.
  pose proof (Z.mod_pos_bound (arb_usize g).1 20 ltac:(done)).
  assert (0 ≤ (arb_usize g).1 mod 20 / 2)%Z by (apply Z.div_pos; lia).
  eapply generates_bind.
  { apply (generates_repeat (λ _, True)). apply generates_bind_draw. intros g'.
    by apply generates_ret. }
  intros ps [Hps _]. eapply generates_weaken.
  { apply generates_repeat, generates_test_record.
    intros ->. cbn in Hps. lia. }
  intros rs [Hlen Hrs]. split; [lia|done].
Qed.

(** ** The reference is the abstract specification *)

Lemma max_timestamps_snoc rs r :
  max_timestamps (rs ++ [r]) = max_step (max_timestamps rs) r.
Proof. unfold max_timestamps. by rewrite foldl_app. Qed.

Lemma max_timestamps_latest rs p :
  default timestamp_default (max_timestamps rs !! p) =
    from_option pr_timestamp timestamp_default (latest p rs).
Proof.
  induction rs as [|r rs IH] using rev_ind; [done|].
  rewrite max_timestamps_snoc, latest_snoc. unfold max_step, latest_step. rewrite <-IH.
  destruct (decide (pr_peer_id r = p)) as [<-|Hne].
  - rewrite lookup_insert_eq. cbn. destruct (Z.ltb_spec
      (default timestamp_default (max_timestamps rs !! pr_peer_id r)) (pr_timestamp r)).
    + by rewrite decide_True.
    + rewrite decide_False by naive_solver lia. done.
  - rewrite lookup_insert_ne by done. rewrite decide_False by tauto. exact IH.
Qed.

Lemma max_timestamps_dom rs r : r ∈ rs → is_Some (max_timestamps rs !! pr_peer_id r).
Proof.
  induction rs as [|r' rs IH] using rev_ind; [set_solver|].
  rewrite elem_of_snoc, max_timestamps_snoc. unfold max_step. cbv zeta. rewrite lookup_insert_is_Some.
  intros [Hr| ->]; [|by left]. destruct (decide (pr_peer_id r' = pr_peer_id r)); auto.
Qed.

Lemma insert_providers_lookup p ids m id :
  foldl (insert_provider p) m ids !! id =
    if decide (id ∈ ids) then Some ({[p]} ∪ providers m id) else m !! id.
Proof.
  revert m. induction ids as [|k ids IH]; intros m; cbn [foldl].
  { by rewrite decide_False by set_solver. }
  rewrite IH. unfold insert_provider at 1 2, providers. rewrite !lookup_insert.
  destruct (decide (k = id)) as [->|Hne].
  - rewrite (decide_True (P := id ∈ id :: ids)) by set_solver. cbn.
    destruct (decide _); [f_equal; set_solver|done].
  - apply decide_ext. set_solver.
Qed.

(** The state of the second loop after the records [pre] of [rs]: the peers
    whose greatest timestamp has been met are the seen ones, and their subnets
    are those of the record that counts. *)
Definition build_inv (mts : gmap PeerId Timestamp) (pre : list ProviderRecord)
    (m : Providers) (seen : gset PeerId) : Prop :=
  (∀ p r, latest p pre = Some r → (pr_timestamp r ≤ default timestamp_default (mts !! p))%Z) ∧
  (∀ p, p ∈ seen ↔ ∃ r, latest p pre = Some r ∧ mts !! p = Some (pr_timestamp r)) ∧
  (∀ p id, p ∈ providers m id ↔
     ∃ r, latest p pre = Some r ∧ mts !! p = Some (pr_timestamp r) ∧ id ∈ pr_subnet_ids r) ∧
  (∀ id, is_Some (m !! id) → ∃ p, p ∈ providers m id).

(** A record that does not reach the greatest timestamp of its peer, or comes
    after one that does, changes nothing. *)
Lemma build_inv_skip mts pre r m seen (mt : Timestamp) :
  mts !! pr_peer_id r = Some mt → (pr_timestamp r ≤ mt)%Z →
  pr_timestamp r ≠ mt ∨ pr_peer_id r ∈ seen →
  build_inv mts pre m seen → build_inv mts (pre ++ [r]) m seen.
Proof.
  intros Hmt Hle Hskip (Hmax & Hseen & Hprov & Hne).
  assert (Hsame : ∀ p r0, latest p pre = Some r0 ∧ mts !! p = Some (pr_timestamp r0) ↔
    latest p (pre ++ [r]) = Some r0 ∧ mts !! p = Some (pr_timestamp r0)).
  { intros p r0. rewrite latest_snoc. unfold latest_step.
    destruct (decide _) as [[<- Hlt]|]; [|done]. rewrite Hmt.
    split; [intros [Hl [= ->]]; rewrite Hl in Hlt; cbn in Hlt; lia|].
    intros [[= <-] [= ->]]. destruct Hskip as [?|Hin]; [done|].
    apply Hseen in Hin as (r1 & Hl & Hr1). rewrite Hl in Hlt. cbn in Hlt.
    rewrite Hmt in Hr1. simplify_eq. lia. }
  split_and!; [| | |done].
  - intros p r0. rewrite latest_snoc. unfold latest_step.
    destruct (decide _) as [[<- _]|]; [|apply Hmax]. intros [= <-]. by rewrite Hmt.
  - intros p. rewrite Hseen. by setoid_rewrite <-Hsame.
  - intros p id. rewrite Hprov. split; intros (r0 & Hl & Ht & Hid); exists r0.
    + destruct (proj1 (Hsame p r0)); auto.
    + destruct (proj2 (Hsame p r0)); auto.
Qed.

(** The first record of a peer that reaches its greatest timestamp. *)
Lemma build_inv_take mts pre r m seen :
  mts !! pr_peer_id r = Some (pr_timestamp r) → (0 < pr_timestamp r)%Z →
  pr_peer_id r ∉ seen → build_inv mts pre m seen →
  build_inv mts (pre ++ [r])
    (foldl (insert_provider (pr_peer_id r)) m (pr_subnet_ids r)) ({[pr_peer_id r]} ∪ seen).
Proof.
  intros Hmt Hpos Hnew (Hmax & Hseen & Hprov & Hne).
  assert (Hlt : (from_option pr_timestamp timestamp_default (latest (pr_peer_id r) pre)
                   < pr_timestamp r)%Z).
  { destruct (latest (pr_peer_id r) pre) as [r0|] eqn:Hl; cbn; [|done].
    pose proof (Hmax _ _ Hl) as Hle. rewrite Hmt in Hle. cbn in Hle.
    destruct (decide (pr_timestamp r0 = pr_timestamp r)) as [Heq|]; [|lia].
    destruct Hnew. apply Hseen. exists r0. by rewrite Heq. }
  assert (Hlatest : ∀ p, latest p (pre ++ [r]) =
    if decide (pr_peer_id r = p) then Some r else latest p pre).
  { intros p. rewrite latest_snoc. unfold latest_step.
    destruct (decide (pr_peer_id r = p)) as [<-|]; [by rewrite decide_True|].
    by rewrite decide_False by tauto. }
  assert (Hins : ∀ p id, p ∈ providers (foldl (insert_provider (pr_peer_id r)) m
      (pr_subnet_ids r)) id ↔ p ∈ providers m id ∨ (p = pr_peer_id r ∧ id ∈ pr_subnet_ids r)).
  { intros p id. unfold providers at 1. rewrite insert_providers_lookup.
    destruct (decide _); cbn; [set_solver|]. fold (providers m id). naive_solver. }
  split_and!.
  - intros p r0. rewrite Hlatest. destruct (decide _) as [<-|]; [|apply Hmax].
    intros [= <-]. by rewrite Hmt.
  - intros p. rewrite Hlatest, elem_of_union, elem_of_singleton, Hseen.
    destruct (decide _) as [<-|]; naive_solver.
  - intros p id. rewrite Hlatest, Hins, Hprov.
    destruct (decide _) as [<-|]; [|naive_solver]. split; [|naive_solver].
    intros [(r0 & Hl & Hr0 & _)|[_ ?]]; [|naive_solver].
    destruct Hnew. apply Hseen. eauto.
  - intros id. rewrite insert_providers_lookup. setoid_rewrite Hins.
    destruct (decide _); [eauto|]. intros [p ?]%Hne. eauto.
Qed.

Lemma build_loop_ok (mts : gmap PeerId Timestamp) pre rs m seen :
  Forall (λ r, (0 < pr_timestamp r)%Z ∧
    ∃ mt : Timestamp, mts !! pr_peer_id r = Some mt ∧ (pr_timestamp r ≤ mt)%Z) rs →
  build_inv mts pre m seen →
  ∃ m' seen', build_loop mts rs m seen = Ok m' ∧ build_inv mts (pre ++ rs) m' seen'.
Proof.
  revert pre m seen. induction rs as [|r rs IH]; intros pre m seen Hrs Hinv.
  { exists m, seen. split; [done|]. by rewrite app_nil_r. }
  apply Forall_cons in Hrs as [[Hpos (mt & Hmt & Hle)] Hrs]. cbn [build_loop].
  unfold mbind, result_bind. rewrite Hmt. cbn [ok_or].
  change (r :: rs) with ([r] ++ rs). rewrite (assoc_L (++)).
  destruct (Z.eqb_spec (pr_timestamp r) mt) as [Heq|Hne]; cbn [negb].
  - subst mt. case_bool_decide; apply IH; eauto using build_inv_skip, build_inv_take.
  - apply IH; eauto using build_inv_skip.
Qed.

Lemma latest_upper rs r :
  r ∈ rs → (pr_timestamp r ≤
    from_option pr_timestamp timestamp_default (latest (pr_peer_id r) rs))%Z.
Proof.
  induction rs as [|r' rs IH] using rev_ind; [set_solver|].
  rewrite elem_of_snoc, latest_snoc. unfold latest_step.
  destruct (decide _) as [[Hp Hlt]|Hn]; cbn.
  - intros [Hr| ->]; [specialize (IH Hr); lia|lia].
  - intros [Hr| ->]; [by apply IH|]. destruct (Z.lt_ge_cases
      (from_option pr_timestamp timestamp_default (latest (pr_peer_id r') rs))
      (pr_timestamp r')); [naive_solver|done].
Qed.

Definition positive_timestamps (rs : list ProviderRecord) : Prop :=
  Forall (λ r, (0 < pr_timestamp r)%Z) rs.

(** The reference lists a peer for a subnet when the first of its records with
    the greatest timestamp does, and has no subnet without a provider. *)
Lemma build_providers_ok rs :
  positive_timestamps rs →
  ∃ m, build_providers rs = Ok m ∧
    (∀ p id, p ∈ providers m id ↔ ∃ r, latest p rs = Some r ∧ id ∈ pr_subnet_ids r) ∧
    (∀ id, is_Some (m !! id) → ∃ p, p ∈ providers m id).
Proof.
  intros Hpos.
  destruct (build_loop_ok (max_timestamps rs) [] rs ∅ ∅) as (m & seen & Hm & Hinv).
  - apply Forall_forall. intros r Hr. split; [by eapply (proj1 (Forall_forall _ _) Hpos)|].
    destruct (max_timestamps_dom rs r Hr) as [mt Hmt]. exists mt. split; [done|].
    pose proof (max_timestamps_latest rs (pr_peer_id r)) as Hd. rewrite Hmt in Hd.
    cbn in Hd. rewrite Hd. by apply latest_upper.
  - split_and!; [done|set_solver| |].
    + intros p id. unfold providers. rewrite lookup_empty. cbn. set_solver.
    + intros id. rewrite lookup_empty. by intros [? ?].
  - exists m. destruct Hinv as (_ & _ & Hprov & Hne). split_and!; [done| |done].
    intros p id. rewrite Hprov. split; [naive_solver|].
    intros (r & Hl & Hid). exists r. split_and!; [done| |done].
    pose proof (max_timestamps_latest rs p) as Hd. rewrite Hl in Hd. cbn in Hd, Hl.
    apply latest_pos in Hl. destruct (max_timestamps rs !! p); cbn in Hd; [by subst|].
    unfold timestamp_default in Hd. lia.
Qed.

(** ** Checking the cache against the reference *)

Lemma collect_unit {E A} (f : A → result E ()) l :
  (∀ x, x ∈ l → f x = Ok ()) → (collect f l ;; Ok ()) = Ok ().
Proof.
  intros Hf. assert (Hc : ∃ ys, collect f l = Ok ys).
  { induction l as [|x l IH]; [by exists []|]. cbn. rewrite Hf by set_solver.
    destruct IH as [ys Hys]; [set_solver|]. cbn. rewrite Hys. by eexists. }
  destruct Hc as [ys ->]. done.
Qed.

Lemma length_providers_of_subnet c id :
  length (providers_of_subnet c id) = size (providers (subnet_providers c) id).
Proof.
  unfold providers_of_subnet, providers. destruct (_ !! id) as [ps|]; cbn.
  - by rewrite set_iter_perm.
  - by rewrite size_empty.
Qed.

Lemma check_providers_ok m c :
  (∀ p id, p ∈ providers m id ↔ p ∈ providers (subnet_providers c) id) →
  check_providers m c = Ok ().
Proof.
  intros Heq. apply collect_unit. intros [id ps] Hps%elem_of_map_iter. unfold check_subnet.
  assert (ps = providers (subnet_providers c) id) as ->.
  { apply set_eq. intros p. rewrite <-Heq. unfold providers. by rewrite Hps. }
  rewrite length_providers_of_subnet, Nat.eqb_refl. cbn [negb].
  apply collect_unit. intros p Hp%elem_of_providers_of_subnet.
  by rewrite bool_decide_eq_true_2.
Qed.

(** ** The cache under the tests *)

Lemma test_records_positive rs : test_records rs → positive_timestamps rs.
Proof. intros [_ Hrs]. eapply Forall_impl; [exact Hrs|]. by intros r [? _]. Qed.

Lemma positive_since cutoff rs : positive_timestamps rs → positive_timestamps (since cutoff rs).
Proof.
  unfold positive_timestamps, since. rewrite !Forall_forall.
  intros Hrs r [_ Hr]%list_elem_of_filter. by apply Hrs.
Qed.

Lemma size_union_le (X Y : gset SubnetID) : (size (X ∪ Y) ≤ size X + size Y)%nat.
Proof.
  rewrite size_union_alt. apply Nat.add_le_mono_l, subseteq_size. set_solver.
Qed.

Lemma size_list_to_set_le (l : list SubnetID) :
  (size (list_to_set l : gset SubnetID) ≤ length l)%nat.
Proof.
  induction l as [|x l IH]; [done|]. rewrite list_to_set_cons. cbn [length].
  pose proof (size_union_le {[x]} (list_to_set l)). rewrite size_singleton in *. lia.
Qed.

(** Fewer than twenty records of fewer than five subnets leave room to spare. *)
Lemma test_records_fit rs : test_records rs → (size (mentioned rs) ≤ usize_max)%nat.
Proof.
  intros [Hlen Hrs]. assert (Hsz : (size (mentioned rs) ≤ 4 * length rs)%nat).
  { clear Hlen. induction rs as [|r rs IH] using rev_ind; [done|].
    apply Forall_app in Hrs as [Hrs [_ Hr]%Forall_singleton]. specialize (IH Hrs).
    rewrite mentioned_snoc, length_app. cbn [length].
    pose proof (size_union_le (mentioned rs) (list_to_set (pr_subnet_ids r))).
    pose proof (size_list_to_set_le (pr_subnet_ids r)). lia. }
  etrans; [exact Hsz|]. unfold usize_max, u64_max. lia.
Qed.

(** The timestamps the cache knows, whatever its room. *)
Lemma known_timestamp_step r c p :
  known_timestamp (add_provider r (set_routable (pr_peer_id r) c)).2 p =
    if decide (pr_peer_id r = p ∧ (known_timestamp c p < pr_timestamp r)%Z)
    then pr_timestamp r else known_timestamp c p.
Proof.
  set (c0 := set_routable (pr_peer_id r) c).
  assert (Hr : pr_peer_id r ∈ routable_peers c0) by (cbn; set_solver).
  change (known_timestamp c) with (known_timestamp c0).
  destruct (Z.lt_ge_cases (known_timestamp c0 (pr_peer_id r)) (pr_timestamp r)).
  - rewrite add_provider_fresh by done. cbn [snd]. unfold known_timestamp at 1.
    destruct (prune_subnets_spec (recorded r c0)) as (_ & _ & _ & _ & _ & ->).
    fold (known_timestamp (recorded r c0) p). rewrite known_timestamp_recorded.
    destruct (decide (pr_peer_id r = p)) as [<-|]; [by rewrite decide_True|].
    by rewrite decide_False by tauto.
  - rewrite add_provider_stale by done. cbn [snd]. rewrite known_timestamp_insert.
    destruct (decide (pr_peer_id r = p)) as [<-|].
    + rewrite decide_False by (intros [_ ?]; lia). done.
    + by rewrite decide_False by tauto.
Qed.

Lemma replay_snoc c rs r :
  replay c (rs ++ [r]) =
    (add_provider r (set_routable (pr_peer_id r) (replay c rs))).2.
Proof. unfold replay. by rewrite foldl_app. Qed.

Lemma known_timestamp_replay c rs p :
  peer_timestamps c = ∅ →
  known_timestamp (replay c rs) p = from_option pr_timestamp timestamp_default (latest p rs).
Proof.
  intros Hc. induction rs as [|r rs IH] using rev_ind.
  { unfold known_timestamp. cbn. by rewrite Hc, lookup_empty. }
  rewrite replay_snoc, known_timestamp_step, latest_snoc, IH. unfold latest_step.
  by destruct (decide _).
Qed.

(** A pinned subnet is tracked from the first record that counts for it on. *)
Lemma pinned_step r c id :
  id ∈ pinned_subnets c →
  id ∈ dom (subnet_providers c) ∨
    (known_timestamp c (pr_peer_id r) < pr_timestamp r)%Z ∧ id ∈ pr_subnet_ids r →
  id ∈ dom (subnet_providers (add_provider r (set_routable (pr_peer_id r) c)).2).
Proof.
  intros Hpin Hid. set (c0 := set_routable (pr_peer_id r) c).
  assert (Hr : pr_peer_id r ∈ routable_peers c0) by (cbn; set_solver).
  change (known_timestamp c) with (known_timestamp c0) in Hid.
  destruct (Z.lt_ge_cases (known_timestamp c0 (pr_peer_id r)) (pr_timestamp r)).
  - rewrite add_provider_fresh by done. cbn [snd].
    rewrite prune_subnets_dom, recorded_dom.
    apply elem_of_difference. split; [set_solver|].
    intros [_ Hn]%elem_of_list_to_set%elem_of_prune_victims. by apply Hn.
  - rewrite add_provider_stale by done. cbn. destruct Hid as [?|[? _]]; [done|lia].
Qed.

Lemma pinned_tracked c rs p r id :
  peer_timestamps c = ∅ → id ∈ pinned_subnets c →
  latest p rs = Some r → id ∈ pr_subnet_ids r →
  id ∈ dom (subnet_providers (replay c rs)).
Proof.
  intros Hc Hpin. revert p r.
  assert (Hmono : ∀ rs r0, id ∈ dom (subnet_providers (replay c rs)) →
    id ∈ dom (subnet_providers (replay c (rs ++ [r0])))).
  { intros rs' r0 ?. rewrite replay_snoc. apply pinned_step; [by rewrite pinned_replay|auto]. }
  induction rs as [|r' rs IH] using rev_ind; [done|]. intros p r.
  rewrite latest_snoc. unfold latest_step.
  destruct (decide _) as [[<- Hlt]|]; [intros [= <-] Hid|eauto].
  rewrite replay_snoc. apply pinned_step; [by rewrite pinned_replay|].
  right. by rewrite known_timestamp_replay.
Qed.

(** ** The properties hold *)

Lemma add_all_replay c rs : add_all c rs = Some (replay c rs).
Proof.
  revert c. induction rs as [|r rs IH]; intros c; [done|]. cbn [add_all].
  destruct (add_provider r (set_routable (pr_peer_id r) c)) as [[d|] c'] eqn:Ha.
  - rewrite IH. unfold replay. cbn [foldl]. by rewrite Ha.
  - exfalso. set (c0 := set_routable (pr_peer_id r) c) in *.
    assert (Hr : pr_peer_id r ∈ routable_peers c0) by (cbn; set_solver).
    destruct (Z.lt_ge_cases (known_timestamp c0 (pr_peer_id r)) (pr_timestamp r)).
    + by rewrite add_provider_fresh in Ha.
    + by rewrite add_provider_stale in Ha.
Qed.

Lemma subnets_pruned_holds rs n : prop_subnets_pruned rs n = true.
Proof.
  unfold prop_subnets_pruned. rewrite add_all_replay. apply Nat.leb_le.
  destruct (bounded_replay (new (Z.to_nat (n mod 10)) []) rs) as [Hb|Hb].
  - left. cbn. rewrite map_size_empty. lia.
  - by rewrite max_subnets_replay in Hb.
  - rewrite pinned_replay in Hb. apply subseteq_size in Hb. rewrite size_dom in Hb.
    cbn in Hb. rewrite size_empty in Hb. lia.
Qed.

Lemma subnets_pinned_holds rs : positive_timestamps rs → prop_subnets_pinned rs = Ok (Ok ()).
Proof.
  intros Hpos. unfold prop_subnets_pinned.
  destruct (build_providers_ok rs Hpos) as (m & -> & Hm & Hne).
  unfold mbind, result_bind. destruct (Nat.ltb_spec (size m) 2) as [|Hge]; [done|].
  rewrite <-length_map_iter, <-(length_fmap fst) in Hge.
  assert (Hkeys : ∀ id, id ∈ (map_iter m).*1 → ∃ p r, latest p rs = Some r ∧ id ∈ pr_subnet_ids r).
  { intros id [[k ps] [-> Hk%elem_of_map_iter]]%list_elem_of_fmap. cbn [fst].
    destruct (Hne k) as [p Hp]; [eauto|]. exists p. by apply Hm. }
  destruct (map_iter m).*1 as [|s0 [|s1 l]]; cbn [length] in Hge; [lia..|]. cbn [take].
  destruct (Hkeys s0) as (p0 & r0 & Hl0 & Hs0); [set_solver|].
  destruct (Hkeys s1) as (p1 & r1 & Hl1 & Hs1); [set_solver|].
  rewrite !bool_decide_eq_true_2; [done| |].
  - apply elem_of_dom. eapply pinned_tracked; [done| |exact Hl1|done]. cbn. set_solver.
  - apply elem_of_dom. eapply pinned_tracked; [done| |exact Hl0|done]. cbn. set_solver.
Qed.

(** The reference of some records, checked against a cache that agrees with the
    specification. *)
Lemma reference_agrees rs c :
  positive_timestamps rs →
  (∀ p id, p ∈ providers (subnet_providers c) id ↔
     id ∈ from_option pr_subnet_ids [] (latest p rs)) →
  (m ← build_providers rs; Ok (check_providers m c)) = Ok (Ok ()) :> result string _.
Proof.
  intros Hpos Hc. destruct (build_providers_ok rs Hpos) as (m & -> & Hm & _).
  unfold mbind, result_bind. f_equal. apply check_providers_ok. intros p id.
  rewrite Hm, Hc. destruct (latest p rs); cbn; naive_solver set_solver.
Qed.

Lemma providers_listed_holds rs : test_records rs → prop_providers_listed rs = Ok (Ok ()).
Proof.
  intros Hrs. apply reference_agrees; [by apply test_records_positive|].
  by destruct (replay_agrees usize_max [] rs (test_records_fit rs Hrs)) as (_ & ? & _).
Qed.

Lemma providers_pruned_holds rs cutoff :
  test_records rs → prop_providers_pruned rs cutoff = Ok (Ok ()).
Proof.
  intros Hrs. apply (reference_agrees (since cutoff rs)).
  - by apply positive_since, test_records_positive.
  - intros p id. by apply replay_prune_latest, test_records_fit.
Qed.

(** C11 (the cache's property tests cannot fail): for every state of the random
    sources, every order in which hash maps are walked, every limit and every cutoff, the
    generator returns a history of fewer than twenty records, and on it the
    number of subnets stays within the limit, pinned subnets are tracked, and
    the cache agrees with the reference built from the records, also after the
    old providers are pruned; none of the properties panics. *)
Theorem cache_properties_hold `{!QuickcheckLaws} g :
  ∃ rs, value_of (arb_test_records g) = Ok rs ∧ (length rs < 20)%nat ∧
    (∀ max_subnets, prop_subnets_pruned rs max_subnets = true) ∧
    prop_subnets_pinned rs = Ok (Ok ()) ∧
    prop_providers_listed rs = Ok (Ok ()) ∧
    (∀ cutoff, prop_providers_pruned rs cutoff = Ok (Ok ())).
Proof.
  destruct (generates_test_records g) as (rs & Hrs & Ht). exists rs.
  split_and!; [done|by destruct Ht|..].
  - intros n. apply subnets_pruned_holds.
  - by apply subnets_pinned_holds, test_records_positive.
  - by apply providers_listed_holds.
  - intros cutoff. by apply providers_pruned_holds.
Qed.
End tests.
End CacheTests.

(** ** Concrete runs *)
Module CacheTestsDemo.
Import Cache CacheTests.
#[local] Existing Instances demo_types demo_envelope ArbDemo.quickcheck ArbDemo.quickcheck_laws.
#[local] Instance subnet_iter : HashIter SubnetID := canonical_iter SubnetID.
#[local] Instance peer_iter : HashIter PeerId := canonical_iter PeerId.

(** Two records, drawn for the peers 11 and 12: the first of 12, providing the
    subnets 4 and 5 at time 101, the second of 11, providing nothing. *)
Definition randomness : ArbDemo.quickcheck.(Gen) :=
  [2; 11; 12; 1; 2; 0; 4; 0; 5; 100; 0; 0; 50]%Z.

Definition history : list (@ProviderRecord demo_types) :=
  [mkProviderRecord (demo_peer 12) [demo_subnet [4]%N; demo_subnet [5]%N] 101%Z;
   mkProviderRecord (demo_peer 11) [] 51%Z].

Example history_drawn : value_of (arb_test_records randomness) = Ok history.
Proof. vm_compute. reflexivity. Qed.

Lemma cache_properties_hold_witness :
  prop_providers_listed history = Ok (Ok ()) ∧ prop_providers_pruned history 60%Z = Ok (Ok ()).
Proof.
  destruct (cache_properties_hold randomness) as (rs & Hrs & _ & _ & _ & Hl & Hp).
  rewrite history_drawn in Hrs. injection Hrs as <-. split; [exact Hl|exact (Hp 60%Z)].
Defined.

(** Why the generator of timestamps adds one: a record of time zero counts for
    the reference and is never taken by the cache. *)
Example zero_timestamp_not_taken :
  prop_subnets_pinned
    [mkProviderRecord (demo_peer 12) [demo_subnet [4]%N; demo_subnet [5]%N] 0%Z] =
  Ok (Err StaticSubnetNotFound).
Proof. vm_compute. reflexivity. Qed.
End CacheTestsDemo.
